(* ===== verification/_CoqProject ===== *)
-Q . S2P
Prelude.v
Money.v
Events.v
Database.v
Sequencer.v
SkipList.v
OrderBook.v
Matching.v
BookSpec.v
BookProps.v
EventLog.v
EventLogProps.v
Checkpoint.v
CheckpointProps.v
Pipeline.v
PipelineProps.v
MatchEngine.v
MatchEngineProps.v
Ownership.v
Transfer.v
OwnershipProps.v
Lock.v
Recovery.v
RecoveryProps.v
Outbox.v
OutboxProps.v
Positions.v
PositionsProps.v
NodeId.v
NodeIdProps.v
Offsets.v
Epoch.v
EpochProps.v
Partitions.v
PartitionsProps.v
PartitionManager.v
PartitionManagerProps.v
Hash.v
Snapshot.v
SnapshotProps.v
Validator.v
Orders.v
OrdersProps.v
WsProcessor.v
WsServer.v
WsServerProps.v
WsSession.v
Kline.v
KlineProps.v
Handlers.v
HandlersProps.v
Backfill.v
BackfillProps.v
Startup.v
Parts.v
EngineTrace.v
Node.v
NodeProps.v
KafkaWriters.v
Compensate.v
Lifecycle.v
Boot.v
BootProps.v
