(* ===== verification/Prelude.v ===== *)
(** * Verification of the exchange backend

    The program under src/ is the backend of a crypto exchange: it takes limit
    orders, matches them in one book per symbol, records what happens as events,
    hands the events to processors, and moves symbols between nodes.

    ** The parts and the files that model them

    - Money.v: amounts (src/biz/model/order.go, event.go): int64 counts of 10^-8
      units, and the way the code prints and parses them through float64.
    - Events.v: the events, their JSON envelopes and the event context
      (src/biz/model/event.go, event_context.go).
    - Database.v: the relational store behind gorm, a parameter: class [Table]
      with the statements the repositories issue and [TableLaws] with what SQL
      documents of them; [ListTable] is a table in memory that meets the laws.
    - Sequencer.v: global and per-symbol numbers (src/biz/service/sequencer.go).
    - SkipList.v: the ordered list of github.com/huandu/skiplist, a parameter:
      class [SkipList] with its laws, and instances that order by comparison and by
      score.
    - OrderBook.v, Matching.v, BookSpec.v, BookProps.v: the book
      (src/biz/service/orderbook.go): its operations on skip lists of queues, the
      lemmas on the matching loop, the abstract price-time book, and the theorems.
    - EventLog.v, EventLogProps.v: the log in memory, the repository of persistent
      events and the log on top of it (src/biz/service/event_log_memory.go,
      event_log_postgres.go, src/biz/dal/pg/event_store_postgres.go).
      [EventStore] is the interface the pipeline uses.
    - Checkpoint.v, CheckpointProps.v: progress per processor and symbol
      (src/biz/model/checkpoint.go, src/biz/dal/pg/checkpoint_repo.go,
      src/biz/service/checkpoint_manager.go).
    - Pipeline.v, PipelineProps.v: append, dispatch, duplicate test, replay
      (src/biz/service/event_pipeline.go).
    - MatchEngine.v, MatchEngineProps.v: submission, queues and workers
      (src/biz/service/match_engine.go).
    - Ownership.v, Transfer.v, OwnershipProps.v: the ownership state machine of a
      partition, the transfer protocol between nodes and the coordinator in the
      database (src/biz/model/partition_ownership.go, transfer_protocol.go,
      transfer_coordinator.go, src/biz/service/db_transfer_coordinator.go).
    - Lock.v: the distributed lock (src/biz/service/redis_lock_manager.go); redsync
      is a parameter with its documented laws.
    - Recovery.v, RecoveryProps.v: crash recovery
      (src/biz/service/recovery_executor.go).
    - Outbox.v, OutboxProps.v: entries written with a change and sent to Kafka later
      (src/biz/dal/pg/outbox_repo.go, src/biz/service/outbox_dispatcher.go).
    - Positions.v, PositionsProps.v: positions and their processor
      (src/biz/service/asset_service.go, event_processor_position.go).
    - NodeId.v, NodeIdProps.v: node IDs from a counter in Consul, by compare-and-swap
      (src/biz/service/node_id_manager.go).
    - Offsets.v: Kafka offsets (src/biz/service/kafka_offset_tracker.go).
    - Epoch.v, EpochProps.v: ownership epochs in Redis and fencing of orders
      (src/biz/service/ownership_epoch_manager.go, src/biz/handler/order_fencing.go).
    - Partitions.v, PartitionsProps.v: the partition table and the rounds of the
      autoscaler (src/biz/model/partition.go, src/biz/service/partition_autoscaler.go).
    - PartitionManager.v, PartitionManagerProps.v: the manager that shares the table
      through Consul, and the partition-aware engine with its loop and gate
      (src/biz/service/partition_manager.go, partition_aware_match_engine.go,
      setup_coordinators.go).
    - Hash.v: SHA-256 and MD5, of the Go library, checked on test vectors.
    - Snapshot.v, SnapshotProps.v, Validator.v: snapshots of the state, their
      checksum and comparison, and the validation after a recovery
      (src/biz/service/state_snapshot.go, state_validator.go).
    - Orders.v, OrdersProps.v: rows, repositories and services of orders and trades,
      and the database processor (src/biz/dal/pg/order_repo.go, trade_repo.go,
      src/biz/service/order_service.go, trade_service.go, event_processor_db.go).
    - WsProcessor.v: the WebSocket processor
      (src/biz/service/event_processor_websocket.go).
    - WsServer.v, WsServerProps.v: subscriptions, broadcast and the answers to
      clients (src/server/websocket_server.go, src/biz/handler/migrate_redirect_handler.go,
      src/middleware/distributed.go).  [Engine] is the interface to the engine.
    - WsSession.v: a connection from the upgrade to its clean-up, and the
      partition-aware engine behind [Engine] (src/server/websocket_server.go).
    - Kline.v, KlineProps.v: K-lines (src/biz/service/kline_helper.go,
      kline_compensate.go, src/biz/dal/pg/kline_repo.go).
    - Handlers.v, HandlersProps.v: the HTTP handlers (src/biz/handler/order.go,
      market.go, asset.go).
    - Backfill.v, BackfillProps.v: the job that fills the integer columns of
      positions (src/cmd/migrate/backfill_positions.go).
    - Startup.v: node identity and the recovery at start (src/main.go,
      src/biz/util/util.go, src/conf/conf.go).
    - Parts.v: processors that own parts of one world, and the projection of a
      history of the pipeline onto one of them.
    - EngineTrace.v: orders followed through queues, books and trades.
    - Node.v, NodeProps.v: the engine as NewPartitionAwareMatchEngine builds it, with
      its three processors on one world (src/biz/service/partition_aware_match_engine.go).
    - KafkaWriters.v: the cache of Kafka writers and the broker addresses
      (src/biz/dal/kafka/init.go).
    - Compensate.v: the store of orders to compensate, on RocksDB, a parameter with
      its laws (src/biz/dal/rocksdb/compensate.go, stub.go).
    - Lifecycle.v: the loops of the outbox dispatcher, the autoscaler and the K-line
      task (src/biz/service/outbox_dispatcher.go, partition_autoscaler.go,
      kline_compensate.go).
    - Boot.v, BootProps.v: configuration, clients, routes and main (src/main.go,
      src/conf/conf.go, src/biz/dal/init.go, pg/init.go, redis/init.go, src/router.go).

    A submitted order gets a number from the sequencer, becomes an event that the
    pipeline appends to a log and hands to the processors, and is queued; the worker
    of its symbol matches it in the book; each trade is again an event.  The
    pipeline records progress in the checkpoint manager, from which recovery starts.
    The processors store orders and trades, move positions with an outbox entry in
    the same transaction, and notify clients, whom the WebSocket server reaches
    through its shards.  The partition-aware engine lets orders pass for the symbols
    the partition table assigns to its node.

    ** Conventions

    A Go integer is a [Z] with the wrap-around of its width written out ([i64],
    [u64]).  A Go error is its message.  A call that may panic returns an [outcome].
    State is passed explicitly; definitions carry the names of the source and are
    executable.  Goroutines are steps: [engine_step] interleaves submitters and
    workers, and a dispatch takes the order in which the scheduler ran its
    goroutines as an argument.  Clocks, map enumeration orders and scheduler choices
    are arguments and the theorems hold for all of them.

    ** What the theorems show

    - The book: its invariant; termination of the matching loops; matching refines
      the abstract book; conservation of quantity; validity of trades; price-time
      priority; the book is never crossed; cancellation and depth are exact; trade
      IDs are unique.
    - Numbers: increasing, and disjoint between nodes, until the 40-bit counter is
      exhausted.
    - Logs: reading back gives the appended events in order; the index equals a scan;
      batches are atomic.
    - Pipeline: at most once and in order per processor and symbol, in every history
      and schedule; duplicates change nothing.
    - Engine: in every interleaving the books keep their invariant and every trade is
      between two orders submitted before it; an accepted order is queued under the
      logged ID.
    - A node: in every run its tables, positions and messages are what each processor
      makes alone of a subsequence of the events; the rows of the tables come from
      submitted orders and justified trades; volumes are conserved over its history.
    - Checkpoints: saved is read back; after a flush recovery starts right after the
      recorded progress.
    - Ownership: the invariant over all calls; the owner changes only on commit, to
      the confirmed target; a transfer completes; the coordinator gates the commit.
    - Locks: the operation runs only while the lock is held.
    - Positions: a trade conserves volume, is applied once, and averages between old
      average and price; an outbox entry marked published was delivered.
    - Node IDs: unique and stable in every interleaving of the nodes.
    - Offsets and epochs: committed stays below consumed, recovery starts after the
      commit, a change of owner fences the requests of older epochs.
    - Partitions: a round of the autoscaler keeps the table well-formed and the
      symbols served, isolates hot and gathers cold ones; the saved table is the
      loaded one; the gate passes exactly the symbols of the node; exactly the
      partitions of the node have ownership machines.
    - Snapshots: called identical exactly if the contents agree, and differences
      are listed exactly; a validation passes exactly if the recorded states agree.
    - Database and WebSocket processors: replayed events change no row; the messages
      are those of the first event of each ID.
    - WebSocket server: the shards refine one map; messages reach the subscribers of
      their symbol; a session that ends leaves no subscription.
    - Loops and clients: there is one dispatch loop while it is marked running; the
      autoscaler as it is started changes nothing; a call for a topic gets a writer of
      that topic in every interleaving; a compensation that is saved is read back.
    - Start: when the servers run the clients, tables, writers and the partition table
      are in place.
    - K-lines and depth: the bar of a minute covers its trades; a time lies in its
      bucket; the levels of the HTTP depth are exact.
    - Backfill: it finishes, with exactly the missing columns filled.
    - Where the code does not do what it means to, a theorem shows the behaviour it
      has: lists ordered by CalcScore cross the book, trades overtaken in a race and
      failed events are lost, a nil context panics, events read back from PostgreSQL
      are stripped, a refused migration redirects the running one, amounts lose a
      unit through float64, recovery refuses every event and the recovery at start
      panics; a frozen partition takes orders, partition IDs repeat every day,
      cancellations reach neither the table nor the book, the first delivery to a
      WebSocket client panics, and a dry run of the backfill never ends; a process
      that has started panics on its first order, a Consul without a leader makes the
      start panic, a late Stop ends the next dispatch loop, a race leaves a Kafka
      writer open, and a failed opening of the RocksDB store is forgotten.

    ** Fuel and bounds

    The matching loops are fuelled by the number of resting entries on the opposite
    side plus one; [match_loop_terminates] shows that they always exit by their own
    test.  The loop of the backfill is fuelled by passes; [backfill_finishes] shows
    that one pass per row and one more are enough, and [backfill_endless] which runs
    no fuel is enough for.  The shortest decimal text of a double tries 1 to 17
    digits, of which 17 identify a double; the outer loops of the hashes are fuelled
    by the length of the text.  Other recursion is structural.  Where a theorem needs a value to fit its
    width (the counter of the sequencer, the sum of a level) the bound is a
    hypothesis; everything else holds for all int64 values, wrap-around included.

    ** Not modelled

    The JSON text (a payload is its tree), logging and metrics, the binding and
    serialisation of HTTP requests and the choice of a route (Hertz), sockets, the
    YAML of the configuration file, the shutdown after a signal, and the timing of
    tickers: a tick may come at any time.  With the PostgreSQL log the log and the
    engine share one sequencer object; the pipeline theorems treat the log as any
    [EventStore] and do not rely on that sharing.  The node of NodeProps.v may have a
    checkpoint manager and a database handle or not: its theorems hold in both cases,
    and [started_node_panics] shows that with what the program sets no order passes.

    ** Plan

    Next: the statements of two nodes on one database in one interleaving; the
    compensation of K-lines by several nodes under one Consul lock; the shutdown of
    a process. *)

From stdpp Require Import base gmap strings list sorting pretty.
From Stdlib Require Import ZArith Lia.

Local Open Scope Z_scope.

(** ** Go's machine integers

    A Go [int64] or [uint64] is a [Z]; the arithmetic of the source is written
    out with [i64] and [u64], which wrap around as the language specifies. *)

Definition MinI64 : Z := -9223372036854775808.
Definition MaxI64 : Z := 9223372036854775807.
Definition MaxU64 : Z := 18446744073709551615.

Definition i64 (z : Z) : Z :=
  (z + 9223372036854775808) mod 18446744073709551616 - 9223372036854775808.
Definition u64 (z : Z) : Z := z mod 18446744073709551616.

Definition is_i64 (z : Z) : Prop := MinI64 <= z <= MaxI64.
Definition is_u64 (z : Z) : Prop := 0 <= z <= MaxU64.

#[global] Instance is_i64_dec z : Decision (is_i64 z).
Proof. unfold is_i64. apply _. Defined.
#[global] Instance is_u64_dec z : Decision (is_u64 z).
Proof. unfold is_u64. apply _. Defined.

Lemma i64_id z : is_i64 z -> i64 z = z.
Proof. unfold is_i64, i64, MinI64, MaxI64. intros. rewrite Z.mod_small; lia. Qed.

Lemma i64_range z : is_i64 (i64 z).
Proof.
  unfold is_i64, i64, MinI64, MaxI64.
  pose proof (Z.mod_pos_bound (z + 9223372036854775808) 18446744073709551616 eq_refl). lia.
Qed.

Lemma u64_id z : is_u64 z -> u64 z = z.
Proof. unfold is_u64, u64, MaxU64. intros. apply Z.mod_small. lia. Qed.

Lemma u64_range z : is_u64 (u64 z).
Proof.
  unfold is_u64, u64, MaxU64.
  pose proof (Z.mod_pos_bound z 18446744073709551616 eq_refl). lia.
Qed.

(** Two's complement: a wrapped difference added back gives the minuend, even
    when the difference overflowed. *)
Lemma i64_add_sub a b : is_i64 a -> i64 (b + i64 (a - b)) = a.
Proof.
  unfold is_i64, MinI64, MaxI64, i64. intros Ha.
  replace (b + ((a - b + 9223372036854775808) mod 18446744073709551616
                - 9223372036854775808) + 9223372036854775808)
    with (b + (a - b + 9223372036854775808) mod 18446744073709551616) by lia.
  rewrite Z.add_mod_idemp_r by lia.
  rewrite Z.mod_small; lia.
Qed.

(** [solve_i64] discharges "this value fits its width" side conditions. *)
Ltac solve_i64 := unfold is_i64, is_u64, MinI64, MaxI64, MaxU64 in *; lia.

(** [i64_simpl] removes the wrap-around wherever the operand is in range. *)
Ltac i64_simpl :=
  repeat match goal with
  | |- context [i64 ?z] => rewrite (i64_id z) by solve_i64
  | H : context [i64 ?z] |- _ => rewrite (i64_id z) in H by solve_i64
  end.

(** ** Errors and panics

    A Go [error] is its message; [nil] is [None].  A call that may panic (nil
    dereference, explicit [panic]) returns an [outcome]. *)

Abbreviation error := string.

Inductive outcome (A : Type) : Type :=
| Ok (a : A)
| Err (e : error)
| Panic.
Arguments Ok {A} a.
Arguments Err {A} e.
Arguments Panic {A}.

Definition obind {A B} (m : outcome A) (k : A -> outcome B) : outcome B :=
  match m with
  | Ok a => k a
  | Err e => Err e
  | Panic => Panic
  end.

Declare Scope go_scope.
Delimit Scope go_scope with go.

Notation "'let?' x := m 'in' k" := (obind m (fun x => k))
  (at level 10, x pattern, m at level 100, k at level 200) : go_scope.

(** Go's [==] on strings. *)
Notation "a =s b" := (bool_decide ((a : string) = b)) (at level 70, no associativity) : go_scope.

(** [fmt.Errorf("prefix: %w", err)]; a nil [err] prints as Go prints it. *)
Definition errorf_w (prefix : string) (err : option error) : error :=
  prefix +:+ ": " +:+ match err with Some e => e | None => "%!w(<nil>)" end.

(** ** Lists and sums *)

Fixpoint Zsum (l : list Z) : Z :=
  match l with
  | [] => 0
  | x :: l' => x + Zsum l'
  end.

Lemma Zsum_app l1 l2 : Zsum (l1 ++ l2) = Zsum l1 + Zsum l2.
Proof. induction l1; simpl; lia. Qed.

Lemma Zsum_nonneg l : Forall (fun x => 0 <= x) l -> 0 <= Zsum l.
Proof. induction 1; simpl; lia. Qed.

Lemma Zsum_perm l1 l2 : l1 ≡ₚ l2 -> Zsum l1 = Zsum l2.
Proof. induction 1; simpl; lia. Qed.

Lemma last_app_cons {A} (l : list A) x : last (l ++ [x]) = Some x.
Proof. apply last_snoc. Qed.

Lemma Forall_app_1 {A} (P : A -> Prop) l x : Forall P l -> P x -> Forall P (l ++ [x]).
Proof. intros. apply Forall_app; auto. Qed.

Lemma head_filter_cons {A} (P : A -> bool) x l :
  P x = true -> List.filter P (x :: l) = x :: List.filter P l.
Proof. simpl. intros ->. done. Qed.

Lemma NoDup_fmap_eq {A B} (f : A -> B) l x y :
  NoDup (f <$> l) -> x ∈ l -> y ∈ l -> f x = f y -> x = y.
Proof.
  intros Hnd (i & Hi)%list_elem_of_lookup (j & Hj)%list_elem_of_lookup Heq.
  assert (i = j); [|by simplify_eq].
  eapply (NoDup_lookup (f <$> l) i j (f x)); [done|by rewrite list_lookup_fmap, Hi|].
  by rewrite list_lookup_fmap, Hj, Heq.
Qed.

(** [sort.Strings]: byte order.  Two arrangements of the same strings sort alike. *)
Definition sort_strings (l : list string) : list string := merge_sort String.le l.

Lemma sort_strings_perm l : sort_strings l ≡ₚ l.
Proof. apply merge_sort_Permutation. Qed.

Lemma sort_strings_sorted l : StronglySorted String.le (sort_strings l).
Proof. apply (StronglySorted_merge_sort _). Qed.

Lemma sort_strings_proper l1 l2 : l1 ≡ₚ l2 -> sort_strings l1 = sort_strings l2.
Proof.
  intros Hp. apply (StronglySorted_unique String.le); auto using sort_strings_sorted.
  by rewrite !sort_strings_perm.
Qed.

Lemma string_app_assoc a b c : (a +:+ b) +:+ c = a +:+ (b +:+ c).
Proof. induction a as [|x a IH]; [done|]. exact (f_equal (String x) IH). Qed.

Lemma string_app_nil_r a : a +:+ "" = a.
Proof. induction a as [|c a IH]; [done|]. exact (f_equal (String c) IH). Qed.

Lemma string_length_app s1 s2 : String.length (s1 +:+ s2) = (String.length s1 + String.length s2)%nat.
Proof. induction s1 as [|c s1 IH]; simpl; [done|]. f_equal. apply IH. Qed.

(** A Go map is enumerated in some order. *)
Definition enumerates {A} `{Countable A} (enum : gset A -> list A) : Prop :=
  forall X, enum X ≡ₚ elements X.

(** ** Automation

    [go_case] opens the matches and conditionals the translated code is made
    of, one at a time, and keeps the equations. *)

Ltac go_case :=
  match goal with
  | |- context [match ?x with _ => _ end] => destruct x eqn:?
  | H : context [match ?x with _ => _ end] |- _ => destruct x eqn:?
  end.

Ltac go_cases := repeat (go_case; simplify_eq/=; try done).

(** [bool_props] turns the boolean tests of the code into propositions. *)
Ltac bool_props :=
  repeat match goal with
  | H : (_ && _)%bool = true |- _ => apply andb_true_iff in H as [? ?]
  | H : (_ && _)%bool = false |- _ => apply andb_false_iff in H
  | H : (_ || _)%bool = true |- _ => apply orb_true_iff in H
  | H : (_ || _)%bool = false |- _ => apply orb_false_iff in H as [? ?]
  | H : negb _ = true |- _ => apply negb_true_iff in H
  | H : negb _ = false |- _ => apply negb_false_iff in H
  | H : bool_decide _ = true |- _ => apply bool_decide_eq_true in H
  | H : bool_decide _ = false |- _ => apply bool_decide_eq_false in H
  end.

Create HintDb cex discriminated.
#[export] Hint Resolve i64_range u64_range Forall_app_1 : cex.
#[export] Hint Extern 4 (is_i64 _) => solve_i64 : cex.
#[export] Hint Extern 4 (is_u64 _) => solve_i64 : cex.
