(* ===== verification/Money.v ===== *)
(** * Prices and quantities: integers, IEEE doubles and decimal strings

    [model.PriceInNano] and [model.QuantityInNano] are int64 counts of 10^-8
    units (src/biz/model/event.go), but the code prints them with
    [fmt.Sprintf("%.8f", float64(x)/1e8)] and parses them back with
    [strconv.ParseFloat] and [int64(f*1e8)] (src/biz/model/order.go).  This file
    models those conversions exactly: a float64 is a [spec_float] of the
    Standard Library with precision 53 and exponent bound 1024, rounded to
    nearest even, so every conversion can be evaluated. *)

From stdpp Require Import base strings list pretty.
From Stdlib Require Import ZArith Lia SpecFloat Ascii.
From S2P Require Import Prelude.

Local Open Scope go_scope.
Local Open Scope Z_scope.

(** ** float64 *)

Definition f64_of_int (z : Z) : spec_float := binary_normalize 53 1024 z 0 false.
Definition f64_mul : spec_float -> spec_float -> spec_float := SFmul 53 1024.
Definition f64_div : spec_float -> spec_float -> spec_float := SFdiv 53 1024.
Definition f64_1e8 : spec_float := f64_of_int 100000000.

(** The double nearest to the rational [m/d]. *)
Definition f64_of_ratio (neg : bool) (m d : positive) : spec_float :=
  let '(mz, ez, lz) := SFdiv_core_binary 53 1024 (Zpos m) 0 (Zpos d) 0 in
  binary_round_aux 53 1024 neg mz ez lz.

(** Go's [int64(f)] truncates toward zero; a NaN or out-of-range operand gives
    the implementation-defined value of amd64's CVTTSD2SQ. *)
Definition f64_to_int64 (f : spec_float) : Z :=
  match f with
  | S754_zero _ => 0
  | S754_finite s m e =>
      let a := if 0 <=? e then Zpos m * 2 ^ e else Zpos m / 2 ^ (- e) in
      let v := if s then - a else a in
      if (MinI64 <=? v) && (v <=? MaxI64) then v else MinI64
  | _ => MinI64
  end.

(** ** Decimal text *)

Definition digits8 (n : Z) : string :=
  let s := pretty n in
  String.concat "" (replicate (8 - String.length s) "0"%string) +:+ s.

(** Nearest integer to [n/d], ties to even. *)
Definition div_round_even (n d : Z) : Z :=
  let q := n / d in
  let r := n mod d in
  if 2 * r <? d then q
  else if d <? 2 * r then q + 1
  else if Z.even q then q else q + 1.

(** [fmt.Sprintf("%.8f", f)]: the exact value of the double, rounded to eight
    decimals. *)
Definition sprintf_8f (f : spec_float) : string :=
  let body n := pretty (n / 100000000) +:+ "." +:+ digits8 (n mod 100000000) in
  match f with
  | S754_zero s => (if s then "-" else "") +:+ body 0
  | S754_finite s m e =>
      let n := if 0 <=? e then Zpos m * 2 ^ e * 100000000
               else div_round_even (Zpos m * 100000000) (2 ^ (- e)) in
      (if s then "-" else "") +:+ body n
  | S754_infinity s => if s then "-Inf" else "+Inf"
  | S754_nan => "NaN"
  end.

Definition digit_val (c : Ascii.ascii) : option Z :=
  let n := Z.of_nat (Ascii.nat_of_ascii c) in
  if (48 <=? n) && (n <=? 57) then Some (n - 48) else None.

(** The maximal run of decimal digits: value, number of digits, rest. *)
Fixpoint scan_digits (acc : Z) (k : nat) (s : string) : Z * nat * string :=
  match s with
  | String c s' =>
      match digit_val c with
      | Some d => scan_digits (acc * 10 + d) (S k) s'
      | None => (acc, k, s)
      end
  | EmptyString => (acc, k, s)
  end.

(** Reading back what [fmt] prints for an integer that is not negative. *)
Lemma scan_pretty_go (x : N) s :
  exists m, scan_digits 0 0 (pretty_N_go x s) = scan_digits (Z.of_N x) m s.
Proof.
  revert s. induction (N.lt_wf_0 x) as [x _ IH]. intros s.
  destruct (decide (x = 0)%N) as [->|Hx]; [rewrite pretty_N_go_0; by exists 0%nat|].
  rewrite pretty_N_go_step by lia.
  destruct (IH (x `div` 10)%N) with (s := String (pretty_N_char (x `mod` 10)) s) as [m ->];
    [apply N.div_lt; lia|].
  exists (S m). cbn [scan_digits].
  assert (Hlt : (x `mod` 10 < 10)%N) by (apply N.mod_lt; lia).
  assert (Hd : digit_val (pretty_N_char (x `mod` 10)) = Some (Z.of_N (x `mod` 10))).
  { revert Hlt. generalize (x `mod` 10)%N. intros y Hy.
    assert (Hc : y ∈ [0; 1; 2; 3; 4; 5; 6; 7; 8; 9]%N).
    { rewrite !elem_of_cons, elem_of_nil. lia. }
    rewrite !elem_of_cons, elem_of_nil in Hc. intuition subst; reflexivity. }
  rewrite Hd. f_equal. pose proof (N.div_mod x 10). lia.
Qed.

Lemma scan_pretty n : 0 <= n -> exists m, scan_digits 0 0 (pretty n) = (n, m, EmptyString).
Proof.
  intros Hn. destruct n as [|p|p]; [by exists 1%nat| |lia].
  change (pretty (Zpos p)) with (pretty (Npos p)).
  unfold pretty, pretty_N. rewrite decide_False by done.
  destruct (scan_pretty_go (Npos p) "") as [m ->]. by exists m.
Qed.

Definition scan_sign (s : string) : bool * string :=
  match s with
  | String c s' =>
      if bool_decide (c = "-"%char) then (true, s')
      else if bool_decide (c = "+"%char) then (false, s')
      else (false, s)
  | EmptyString => (false, s)
  end.

(** The optional exponent of a literal; [None] when an [e] has no digits. *)
Definition scan_exp (s : string) : option (Z * string) :=
  match s with
  | String c s' =>
      if bool_decide (c = "e"%char) || bool_decide (c = "E"%char) then
        let '(neg, s1) := scan_sign s' in
        let '(v, k, s2) := scan_digits 0 0 s1 in
        if bool_decide (k = O) then None else Some (if neg then - v else v, s2)
      else Some (0, s)
  | EmptyString => Some (0, s)
  end.

(** A decimal literal [sign digits . digits exponent]: sign, digits as an
    integer, power of ten, number of digits, rest of the input. *)
Definition scan_decimal (s : string) : option (bool * Z * Z * string) :=
  let '(neg, s1) := scan_sign s in
  let '(v1, k1, s2) := scan_digits 0 0 s1 in
  let '(v2, k2, s3) :=
    match s2 with
    | String c s' => if bool_decide (c = "."%char) then scan_digits v1 0 s' else (v1, O, s2)
    | EmptyString => (v1, O, s2)
    end in
  if bool_decide ((k1 + k2)%nat = O) then None
  else match scan_exp s3 with
       | None => None
       | Some (ex, s4) => Some (neg, v2, ex - Z.of_nat k2, s4)
       end.

(** The double nearest to [± v * 10^k]. *)
Definition f64_of_decimal (neg : bool) (v k : Z) : spec_float :=
  match v with
  | Zpos m =>
      if 0 <=? k then f64_of_ratio neg (m * Z.to_pos (10 ^ k)) 1
      else f64_of_ratio neg m (Z.to_pos (10 ^ (- k)))
  | _ => S754_zero neg
  end.

(** [strconv.ParseFloat(s, 64)] on decimal literals: [None] is a syntax error
    or an overflow (ErrRange).  Hexadecimal literals, digit separators and the
    words inf and nan, which ParseFloat also reads, are outside the model. *)
Definition ParseFloat (s : string) : option spec_float :=
  match scan_decimal s with
  | Some (neg, v, k, EmptyString) =>
      match f64_of_decimal neg v k with
      | S754_infinity _ => None
      | f => Some f
      end
  | _ => None
  end.

Definition is_space (c : Ascii.ascii) : bool :=
  let n := Ascii.nat_of_ascii c in
  bool_decide (n = 32%nat) || ((9 <=? n)%nat && (n <=? 13)%nat).

Fixpoint trim_left (s : string) : string :=
  match s with
  | String c s' => if is_space c then trim_left s' else s
  | EmptyString => s
  end.

(** [strings.TrimSpace] on ASCII text. *)
Definition TrimSpace (s : string) : string :=
  String.rev (trim_left (String.rev (trim_left s))).

(** [fmt.Sscanf(s, "%d", &n)] into an int64: [None] when there are no digits or
    too many. *)
Definition scan_int64 (s : string) : option Z :=
  let '(neg, s1) := scan_sign (trim_left s) in
  let '(v, k, _) := scan_digits 0 0 s1 in
  let n := if neg then - v else v in
  if bool_decide (k = O) || negb ((MinI64 <=? n) && (n <=? MaxI64)) then None else Some n.

Lemma pretty_digit n : 0 <= n ->
  exists c s, pretty n = String c s /\ is_Some (digit_val c).
Proof.
  intros Hn. destruct (scan_pretty n Hn) as [m Hm].
  destruct (pretty n) as [|c s] eqn:Hp.
  - destruct n as [|p|p]; [done| |lia]. simpl in Hm. done.
  - exists c, s. split; [done|]. simpl in Hm. by destruct (digit_val c).
Qed.

Lemma scan_int64_pretty n : 0 <= n <= MaxI64 -> scan_int64 (pretty n) = Some n.
Proof.
  intros Hn. destruct (pretty_digit n) as (c & s & Hp & [d Hd]); [lia|].
  unfold digit_val in Hd. destruct ((48 <=? _) && _) eqn:Hc; [|done]. bool_props.
  assert (Ht : trim_left (pretty n) = pretty n).
  { assert (Hspace : is_space c = false).
    { apply orb_false_iff. split; [apply bool_decide_eq_false; lia|].
      apply andb_false_iff. right. apply Nat.leb_gt. lia. }
    rewrite Hp. cbn [trim_left]. by rewrite Hspace. }
  assert (Hs : scan_sign (pretty n) = (false, pretty n)).
  { rewrite Hp. unfold scan_sign. case_bool_decide as H1; [subst c; vm_compute in H; lia|].
    case_bool_decide as H2; [subst c; vm_compute in H; lia|done]. }
  unfold scan_int64. rewrite Ht, Hs. destruct (scan_pretty n) as [m Hm]; [lia|]. rewrite Hm.
  assert (m <> O).
  { intros ->. rewrite Hp in Hm. simpl in Hm.
    destruct (digit_val c) as [d'|] eqn:Hd'; [|done].
    assert (Hk : forall acc k t v k' r, scan_digits acc k t = (v, k', r) -> (k <= k')%nat).
    { intros acc k t. revert acc k. induction t as [|c' t IH]; intros acc k v k' r; simpl.
      - intros [= _ <- _]. lia.
      - destruct (digit_val c'); [intros Hr%IH; lia|intros [= _ <- _]; lia]. }
    apply Hk in Hm. lia. }
  rewrite bool_decide_eq_false_2 by done. simpl.
  rewrite (proj2 (andb_true_iff _ _)); [done|]. unfold MinI64. lia.
Qed.

(** ** src/biz/model: formatting and parsing *)

Definition PriceInNano_String (p : Z) : string := sprintf_8f (f64_div (f64_of_int p) f64_1e8).
Definition QuantityInNano_String (q : Z) : string := sprintf_8f (f64_div (f64_of_int q) f64_1e8).

Definition ParsePrice (priceStr : string) : outcome Z :=
  let priceStr := TrimSpace priceStr in
  match ParseFloat priceStr with
  | None => Err ("invalid price format: " +:+ priceStr)
  | Some price => Ok (f64_to_int64 (f64_mul price f64_1e8))
  end.

Definition ParseQuantity (qtyStr : string) : outcome Z :=
  let qtyStr := TrimSpace qtyStr in
  match ParseFloat qtyStr with
  | None => Err ("invalid quantity format: " +:+ qtyStr)
  | Some qty => Ok (f64_to_int64 (f64_mul qty f64_1e8))
  end.

Record SubmitOrderMsg := mkSubmitOrderMsg {
  so_OrderID : string;
  so_Symbol : string;
  so_Side : string;
  so_Price : string;
  so_Quantity : string;
  so_UserID : string }.

Record SubmitOrderMsgInternal := mkSubmitOrderMsgInternal {
  soi_OrderID : string;
  soi_Symbol : string;
  soi_Side : string;
  soi_Price : Z;
  soi_Quantity : Z;
  soi_UserID : string }.

Definition ToInternal (s : SubmitOrderMsg) : outcome SubmitOrderMsgInternal :=
  let? price := ParsePrice (so_Price s) in
  let? quantity := ParseQuantity (so_Quantity s) in
  Ok (mkSubmitOrderMsgInternal (so_OrderID s) (so_Symbol s) (so_Side s) price quantity (so_UserID s)).

(** ** src/biz/service/match_engine.go: parsePrice and parseQuantity

    [fmt.Sscanf(s, "%f", &x)] skips leading blanks, reads a float token and
    leaves [x] at zero when there is none or it does not parse; the code drops
    the error.  As for [ParseFloat], only decimal tokens are modelled. *)
Definition sscanf_f (s : string) : spec_float :=
  match scan_decimal (trim_left s) with
  | Some (neg, v, k, _) =>
      match f64_of_decimal neg v k with
      | S754_infinity _ => S754_zero false
      | f => f
      end
  | None => S754_zero false
  end.

Definition parsePrice (priceStr : string) : Z := f64_to_int64 (f64_mul (sscanf_f priceStr) f64_1e8).
Definition parseQuantity (qtyStr : string) : Z := f64_to_int64 (f64_mul (sscanf_f qtyStr) f64_1e8).

(** ** Range and round trip *)

Lemma f64_to_int64_range f : is_i64 (f64_to_int64 f).
Proof.
  destruct f as [s|s| |s m e]; simpl; [solve_i64..|].
  set (v := if s then _ else _). destruct ((MinI64 <=? v) && (v <=? MaxI64)) eqn:H; [|solve_i64].
  bool_props. solve_i64.
Qed.

Lemma parseQuantity_range s : is_i64 (parseQuantity s).
Proof. apply f64_to_int64_range. Qed.

(** An amount the REST handler prints and the engine parses back loses at most
    its last unit; for the amounts below one thousand units this is checked one by
    one. *)
Theorem print_parse_bound n :
  0 <= n < 1000 -> n - 1 <= parseQuantity (QuantityInNano_String n) <= n.
Proof.
  intros Hn.
  assert (Hall : forallb (fun k => let n := Z.of_nat k in
            let m := parseQuantity (QuantityInNano_String n) in (n - 1 <=? m) && (m <=? n))
          (seq 0 1000) = true) by (vm_compute; reflexivity).
  rewrite forallb_forall in Hall. specialize (Hall (Z.to_nat n)).
  rewrite Z2Nat.id in Hall by lia.
  assert (Hin : List.In (Z.to_nat n) (seq 0 1000)) by (apply in_seq; lia).
  specialize (Hall Hin). cbv zeta in Hall. bool_props. lia.
Qed.

Lemma print_parse_bound_witness :
  parseQuantity (QuantityInNano_String 29) <= 29.
Proof. exact (proj2 (print_parse_bound 29 ltac:(lia))). Defined.

(** The loss is real: an order for 0.29 units, 29000000 in the integer
    representation, reaches the book as 28999999, by the REST handler's print and
    the engine's parse as well as by [ParseQuantity] of the text. *)
Theorem print_parse_loses :
  QuantityInNano_String 29000000 = "0.29000000" /\
  parseQuantity (QuantityInNano_String 29000000) = 28999999 /\
  ParseQuantity "0.29" = Ok 28999999.
Proof. vm_compute. split_and!; reflexivity. Qed.
