(* ===== verification/Events.v ===== *)
(** * Matching-engine events, their envelopes and their processing context

    Models src/biz/model/event.go and src/biz/model/event_context.go.  JSON is
    modelled at the level of its syntax tree: [json.Marshal] of a Go struct is
    the object of its fields in declaration order, and [json.Unmarshal] into a
    struct follows encoding/json (keys select fields up to letter case, [null]
    leaves a field alone, a missing key leaves the zero value, a value of the
    wrong kind or out of the field's range is an error). *)

From stdpp Require Import base strings list pretty.
From Stdlib Require Import ZArith Lia Ascii.
From S2P Require Import Prelude.

Local Open Scope go_scope.
Local Open Scope Z_scope.

(** ** JSON *)

Inductive json : Type :=
| JNull
| JBool (b : bool)
| JNum (z : Z)
| JStr (s : string)
| JArr (l : list json)
| JObj (fields : list (string * json)).

Definition lower_ascii (c : ascii) : ascii :=
  let n := nat_of_ascii c in
  if ((65 <=? n)%nat && (n <=? 90)%nat)%bool then ascii_of_nat (n + 32) else c.

Fixpoint fold_name (s : string) : string :=
  match s with
  | EmptyString => EmptyString
  | String c s' => String (lower_ascii c) (fold_name s')
  end.

(** Decoders of the field kinds the structs use: the old value of the field is
    kept on [null]; [None] is an UnmarshalTypeError. *)
Definition dec_uint64 (old : Z) (j : json) : option Z :=
  match j with
  | JNull => Some old
  | JNum z => if (0 <=? z) && (z <=? MaxU64) then Some z else None
  | _ => None
  end.

Definition dec_int64 (old : Z) (j : json) : option Z :=
  match j with
  | JNull => Some old
  | JNum z => if (MinI64 <=? z) && (z <=? MaxI64) then Some z else None
  | _ => None
  end.

Definition dec_string (old : string) (j : json) : option string :=
  match j with
  | JNull => Some old
  | JStr s => Some s
  | _ => None
  end.

(** A struct's decoder: a table from field name to the setter of that field. *)
Abbreviation field_table E := (list (string * (json -> E -> option E))).

Definition dec_field {E} (tbl : field_table E) (key : string) (v : json) (e : E) : option E :=
  match List.find (fun '(name, _) => fold_name name =s fold_name key) tbl with
  | Some (_, set) => set v e
  | None => Some e
  end.

Fixpoint dec_fields {E} (tbl : field_table E) (fs : list (string * json)) (e : E) : option E :=
  match fs with
  | [] => Some e
  | (k, v) :: fs' =>
      match dec_field tbl k v e with
      | Some e' => dec_fields tbl fs' e'
      | None => None
      end
  end.

Definition json_Unmarshal {E} (tbl : field_table E) (zero : E) (j : json) : outcome E :=
  match j with
  | JNull => Ok zero
  | JObj fs => match dec_fields tbl fs zero with
               | Some e => Ok e
               | None => Err "json: cannot unmarshal value into struct field"
               end
  | _ => Err "json: cannot unmarshal value into struct"
  end.

(** ** The events *)

Record OrderSubmittedEvent := mkOrderSubmittedEvent {
  os_Seq : Z;
  os_Timestamp : Z;
  os_OrderID : string;
  os_UserID : string;
  os_SymbolStr : string;
  os_Side : string;
  os_Price : Z;
  os_Quantity : Z;
  os_Status : string }.

Record TradeExecutedEvent := mkTradeExecutedEvent {
  te_Seq : Z;
  te_Timestamp : Z;
  te_TradeID : string;
  te_SymbolStr : string;
  te_TakerOrderID : string;
  te_MakerOrderID : string;
  te_TakerUser : string;
  te_MakerUser : string;
  te_Price : Z;
  te_Quantity : Z;
  te_TakerSide : string }.

Record OrderCancelledEvent := mkOrderCancelledEvent {
  oc_Seq : Z;
  oc_Timestamp : Z;
  oc_OrderID : string;
  oc_SymbolStr : string;
  oc_Reason : string }.

(** The interface [MatchingEngineEvent] with its three implementations. *)
Inductive MatchingEngineEvent : Type :=
| OrderSubmitted (e : OrderSubmittedEvent)
| TradeExecuted (e : TradeExecutedEvent)
| OrderCancelled (e : OrderCancelledEvent).

Definition EventType (ev : MatchingEngineEvent) : string :=
  match ev with
  | OrderSubmitted _ => "order_submitted"
  | TradeExecuted _ => "trade_executed"
  | OrderCancelled _ => "order_cancelled"
  end.

Definition EventSeq (ev : MatchingEngineEvent) : Z :=
  match ev with
  | OrderSubmitted e => os_Seq e
  | TradeExecuted e => te_Seq e
  | OrderCancelled e => oc_Seq e
  end.

Definition EventTimestamp (ev : MatchingEngineEvent) : Z :=
  match ev with
  | OrderSubmitted e => os_Timestamp e
  | TradeExecuted e => te_Timestamp e
  | OrderCancelled e => oc_Timestamp e
  end.

Definition Symbol (ev : MatchingEngineEvent) : string :=
  match ev with
  | OrderSubmitted e => os_SymbolStr e
  | TradeExecuted e => te_SymbolStr e
  | OrderCancelled e => oc_SymbolStr e
  end.

(** Go's widths of the event fields. *)
Definition event_in_range (ev : MatchingEngineEvent) : Prop :=
  is_u64 (EventSeq ev) /\ is_i64 (EventTimestamp ev) /\
  match ev with
  | OrderSubmitted e => is_i64 (os_Price e) /\ is_i64 (os_Quantity e)
  | TradeExecuted e => is_i64 (te_Price e) /\ is_i64 (te_Quantity e)
  | OrderCancelled _ => True
  end.

(** ** Envelopes *)

Record EventEnvelope := mkEventEnvelope {
  env_Seq : Z;
  env_Timestamp : Z;
  env_EventType : string;
  env_Symbol : string;
  env_Payload : json }.

Definition json_of_event (ev : MatchingEngineEvent) : json :=
  match ev with
  | OrderSubmitted e => JObj
      [("Seq", JNum (os_Seq e)); ("Timestamp", JNum (os_Timestamp e));
       ("OrderID", JStr (os_OrderID e)); ("UserID", JStr (os_UserID e));
       ("SymbolStr", JStr (os_SymbolStr e)); ("Side", JStr (os_Side e));
       ("Price", JNum (os_Price e)); ("Quantity", JNum (os_Quantity e));
       ("Status", JStr (os_Status e))]
  | TradeExecuted e => JObj
      [("Seq", JNum (te_Seq e)); ("Timestamp", JNum (te_Timestamp e));
       ("TradeID", JStr (te_TradeID e)); ("SymbolStr", JStr (te_SymbolStr e));
       ("TakerOrderID", JStr (te_TakerOrderID e)); ("MakerOrderID", JStr (te_MakerOrderID e));
       ("TakerUser", JStr (te_TakerUser e)); ("MakerUser", JStr (te_MakerUser e));
       ("Price", JNum (te_Price e)); ("Quantity", JNum (te_Quantity e));
       ("TakerSide", JStr (te_TakerSide e))]
  | OrderCancelled e => JObj
      [("Seq", JNum (oc_Seq e)); ("Timestamp", JNum (oc_Timestamp e));
       ("OrderID", JStr (oc_OrderID e)); ("SymbolStr", JStr (oc_SymbolStr e));
       ("Reason", JStr (oc_Reason e))]
  end.

(** [json.Marshal(envelope)], with the json tags of EventEnvelope. *)
Definition json_of_envelope (env : EventEnvelope) : json :=
  JObj [("seq", JNum (env_Seq env)); ("timestamp", JNum (env_Timestamp env));
        ("event_type", JStr (env_EventType env)); ("symbol", JStr (env_Symbol env));
        ("payload", env_Payload env)].

Definition MarshalEvent (ev : MatchingEngineEvent) : EventEnvelope :=
  mkEventEnvelope (EventSeq ev) (EventTimestamp ev) (EventType ev) (Symbol ev) (json_of_event ev).

Definition zero_submitted : OrderSubmittedEvent := mkOrderSubmittedEvent 0 0 "" "" "" "" 0 0 "".
Definition zero_trade : TradeExecutedEvent := mkTradeExecutedEvent 0 0 "" "" "" "" "" "" 0 0 "".
Definition zero_cancelled : OrderCancelledEvent := mkOrderCancelledEvent 0 0 "" "" "".

Definition submitted_fields : field_table OrderSubmittedEvent :=
  [("Seq", fun j '(mkOrderSubmittedEvent a b c d e f g h i) =>
      (fun v => mkOrderSubmittedEvent v b c d e f g h i) <$> dec_uint64 a j);
   ("Timestamp", fun j '(mkOrderSubmittedEvent a b c d e f g h i) =>
      (fun v => mkOrderSubmittedEvent a v c d e f g h i) <$> dec_int64 b j);
   ("OrderID", fun j '(mkOrderSubmittedEvent a b c d e f g h i) =>
      (fun v => mkOrderSubmittedEvent a b v d e f g h i) <$> dec_string c j);
   ("UserID", fun j '(mkOrderSubmittedEvent a b c d e f g h i) =>
      (fun v => mkOrderSubmittedEvent a b c v e f g h i) <$> dec_string d j);
   ("SymbolStr", fun j '(mkOrderSubmittedEvent a b c d e f g h i) =>
      (fun v => mkOrderSubmittedEvent a b c d v f g h i) <$> dec_string e j);
   ("Side", fun j '(mkOrderSubmittedEvent a b c d e f g h i) =>
      (fun v => mkOrderSubmittedEvent a b c d e v g h i) <$> dec_string f j);
   ("Price", fun j '(mkOrderSubmittedEvent a b c d e f g h i) =>
      (fun v => mkOrderSubmittedEvent a b c d e f v h i) <$> dec_int64 g j);
   ("Quantity", fun j '(mkOrderSubmittedEvent a b c d e f g h i) =>
      (fun v => mkOrderSubmittedEvent a b c d e f g v i) <$> dec_int64 h j);
   ("Status", fun j '(mkOrderSubmittedEvent a b c d e f g h i) =>
      (fun v => mkOrderSubmittedEvent a b c d e f g h v) <$> dec_string i j)].

Definition trade_fields : field_table TradeExecutedEvent :=
  [("Seq", fun j '(mkTradeExecutedEvent a b c d e f g h i k l) =>
      (fun v => mkTradeExecutedEvent v b c d e f g h i k l) <$> dec_uint64 a j);
   ("Timestamp", fun j '(mkTradeExecutedEvent a b c d e f g h i k l) =>
      (fun v => mkTradeExecutedEvent a v c d e f g h i k l) <$> dec_int64 b j);
   ("TradeID", fun j '(mkTradeExecutedEvent a b c d e f g h i k l) =>
      (fun v => mkTradeExecutedEvent a b v d e f g h i k l) <$> dec_string c j);
   ("SymbolStr", fun j '(mkTradeExecutedEvent a b c d e f g h i k l) =>
      (fun v => mkTradeExecutedEvent a b c v e f g h i k l) <$> dec_string d j);
   ("TakerOrderID", fun j '(mkTradeExecutedEvent a b c d e f g h i k l) =>
      (fun v => mkTradeExecutedEvent a b c d v f g h i k l) <$> dec_string e j);
   ("MakerOrderID", fun j '(mkTradeExecutedEvent a b c d e f g h i k l) =>
      (fun v => mkTradeExecutedEvent a b c d e v g h i k l) <$> dec_string f j);
   ("TakerUser", fun j '(mkTradeExecutedEvent a b c d e f g h i k l) =>
      (fun v => mkTradeExecutedEvent a b c d e f v h i k l) <$> dec_string g j);
   ("MakerUser", fun j '(mkTradeExecutedEvent a b c d e f g h i k l) =>
      (fun v => mkTradeExecutedEvent a b c d e f g v i k l) <$> dec_string h j);
   ("Price", fun j '(mkTradeExecutedEvent a b c d e f g h i k l) =>
      (fun v => mkTradeExecutedEvent a b c d e f g h v k l) <$> dec_int64 i j);
   ("Quantity", fun j '(mkTradeExecutedEvent a b c d e f g h i k l) =>
      (fun v => mkTradeExecutedEvent a b c d e f g h i v l) <$> dec_int64 k j);
   ("TakerSide", fun j '(mkTradeExecutedEvent a b c d e f g h i k l) =>
      (fun v => mkTradeExecutedEvent a b c d e f g h i k v) <$> dec_string l j)].

Definition cancelled_fields : field_table OrderCancelledEvent :=
  [("Seq", fun j '(mkOrderCancelledEvent a b c d e) =>
      (fun v => mkOrderCancelledEvent v b c d e) <$> dec_uint64 a j);
   ("Timestamp", fun j '(mkOrderCancelledEvent a b c d e) =>
      (fun v => mkOrderCancelledEvent a v c d e) <$> dec_int64 b j);
   ("OrderID", fun j '(mkOrderCancelledEvent a b c d e) =>
      (fun v => mkOrderCancelledEvent a b v d e) <$> dec_string c j);
   ("SymbolStr", fun j '(mkOrderCancelledEvent a b c d e) =>
      (fun v => mkOrderCancelledEvent a b c v e) <$> dec_string d j);
   ("Reason", fun j '(mkOrderCancelledEvent a b c d e) =>
      (fun v => mkOrderCancelledEvent a b c d v) <$> dec_string e j)].

(** [UnmarshalEvent]; an unknown event type yields the nil event and no error. *)
Definition UnmarshalEvent (env : EventEnvelope) : outcome (option MatchingEngineEvent) :=
  let ty := env_EventType env in
  if ty =s "order_submitted" then
    let? e := json_Unmarshal submitted_fields zero_submitted (env_Payload env) in
    Ok (Some (OrderSubmitted e))
  else if ty =s "trade_executed" then
    let? e := json_Unmarshal trade_fields zero_trade (env_Payload env) in
    Ok (Some (TradeExecuted e))
  else if ty =s "order_cancelled" then
    let? e := json_Unmarshal cancelled_fields zero_cancelled (env_Payload env) in
    Ok (Some (OrderCancelled e))
  else Ok None.

Definition Min (a b : Z) : Z := if a <? b then a else b.

(** ** The processing context *)

Record EventContext := mkEventContext {
  ec_Event : option MatchingEngineEvent;
  ec_Topic : string;
  ec_Partition : Z;
  ec_Offset : Z;
  ec_Timestamp : Z;
  ec_ProcessedAt : Z;
  ec_OwnershipEpoch : Z;
  ec_ProcessingNode : string;
  ec_StateChecksum : string;
  ec_OrderCount : Z;
  ec_TradeCount : Z }.

(** [now] is the clock, in nanoseconds. *)
Definition NewEventContext (now : Z) (event : option MatchingEngineEvent)
    (topic : string) (partition offset : Z) : EventContext :=
  let ts := match event with
            | Some e => EventTimestamp e
            | None => Z.quot now 1000000
            end in
  mkEventContext event topic partition offset ts now 0 "" "" 0 0.

Definition WithOwnershipEpoch (ec : EventContext) (epoch : Z) (nodeID : string) : EventContext :=
  mkEventContext (ec_Event ec) (ec_Topic ec) (ec_Partition ec) (ec_Offset ec) (ec_Timestamp ec)
    (ec_ProcessedAt ec) epoch nodeID (ec_StateChecksum ec) (ec_OrderCount ec) (ec_TradeCount ec).

Definition Key (ec : option EventContext) : string :=
  match ec with
  | None => ""
  | Some ec =>
      match ec_Event ec with
      | None => ec_Topic ec +:+ ":" +:+ pretty (ec_Partition ec) +:+ ":" +:+ pretty (ec_Offset ec)
      | Some ev => ec_Topic ec +:+ ":" +:+ Symbol ev +:+ ":" +:+ pretty (EventSeq ev)
      end
  end.

Definition IsValid (ec : EventContext) : bool :=
  bool_decide (is_Some (ec_Event ec)) && negb (ec_Topic ec =s "")
  && (0 <=? ec_Partition ec) && (0 <=? ec_Offset ec).

(** ** Theorems *)

Lemma dec_uint64_in old z : is_u64 z -> dec_uint64 old (JNum z) = Some z.
Proof. intros. unfold dec_uint64. rewrite (proj2 (andb_true_iff _ _)); [done|]. solve_i64. Qed.

Lemma dec_int64_in old z : is_i64 z -> dec_int64 old (JNum z) = Some z.
Proof. intros. unfold dec_int64. rewrite (proj2 (andb_true_iff _ _)); [done|]. solve_i64. Qed.

(** [json_decode] runs a decoder on a concrete object: keys and table are closed,
    so the lookups compute; the width tests are left to the range hypotheses. *)
Ltac json_decode :=
  repeat (cbv -[dec_uint64 dec_int64];
          first [rewrite dec_uint64_in by assumption | rewrite dec_int64_in by assumption]);
  cbv -[dec_uint64 dec_int64].

Lemma marshal_id ev : event_in_range ev -> UnmarshalEvent (MarshalEvent ev) = Ok (Some ev).
Proof.
  destruct ev as [[]|[]|[]]; intros (? & ? & ?); simpl in *; destruct_and?; by json_decode.
Qed.

(** An event survives [MarshalEvent] followed by [UnmarshalEvent], and its
    envelope carries its number, time, type and symbol. *)
Theorem marshal_roundtrip ev :
  event_in_range ev ->
  let env := MarshalEvent ev in
  UnmarshalEvent env = Ok (Some ev) /\ env_Seq env = EventSeq ev /\
  env_Timestamp env = EventTimestamp ev /\ env_EventType env = EventType ev /\
  env_Symbol env = Symbol ev.
Proof. intros. split; [by apply marshal_id|done]. Qed.

Lemma marshal_roundtrip_witness :
  UnmarshalEvent (MarshalEvent (OrderCancelled (mkOrderCancelledEvent 7 1000 "o1" "BTC" "user"))) =
    Ok (Some (OrderCancelled (mkOrderCancelledEvent 7 1000 "o1" "BTC" "user"))).
Proof.
  exact (proj1 (marshal_roundtrip (OrderCancelled (mkOrderCancelledEvent 7 1000 "o1" "BTC" "user"))
    ltac:(unfold event_in_range; simpl; solve_i64))).
Defined.
