(* ===== verification/Database.v ===== *)
(** * The relational store

    The repositories under src/biz/dal/pg reach PostgreSQL through
    gorm.io/gorm, which is not part of the repository.  A table is a parameter of
    the model: the class [Table] names the statements the repositories issue and
    [TableLaws] what SQL documents of them: a statement that fails leaves the rows
    as they were; an INSERT adds its row; an UPDATE and a DELETE touch exactly the
    rows of their WHERE clause; a SELECT returns the rows of its WHERE clause,
    in the order of its ORDER BY clause (rows of equal key in any order), cut at
    its LIMIT.  [ListTable] is a table kept in memory, with a unique index. *)

From stdpp Require Import base gmap strings list sorting.
From Stdlib Require Import ZArith Lia.
From S2P Require Import Prelude.

Local Open Scope Z_scope.

Class Table (D R : Type) := {
  db_rows : D -> list R;
  db_create : R -> D -> D * option error;
  (** INSERT ... ON CONFLICT (same) DO UPDATE: [merge old new]. *)
  db_upsert : (R -> R -> bool) -> (R -> R -> R) -> R -> D -> D * option error;
  db_update : (R -> bool) -> (R -> R) -> D -> D * outcome Z;
  db_delete : (R -> bool) -> D -> D * outcome Z;
  (** WHERE, ORDER BY (ascending in the key), LIMIT. *)
  db_find : (R -> bool) -> option (R -> Z) -> option nat -> D -> outcome (list R);
  (** COMMIT of the state a transaction has reached. *)
  db_commit : D -> option error }.

Definition key_le {R} (key : R -> Z) (a b : R) : Prop := key a <= key b.

#[global] Instance key_le_dec {R} (key : R -> Z) a b : Decision (key_le key a b).
Proof. unfold key_le. apply _. Defined.
#[global] Instance key_le_trans {R} (key : R -> Z) : Transitive (key_le key).
Proof. intros a b c. unfold key_le. lia. Qed.
#[global] Instance key_le_total {R} (key : R -> Z) : Total (key_le key).
Proof. intros a b. unfold key_le. lia. Qed.

Definition limited {R} (limit : option nat) (l : list R) : list R :=
  match limit with Some n => take n l | None => l end.

Definition ordered_by {R} (key : option (R -> Z)) (l : list R) : Prop :=
  match key with Some k => StronglySorted (key_le k) l | None => True end.

(** What a SELECT may answer. *)
Definition select_result {R} (rows : list R) (wh : R -> bool) (key : option (R -> Z))
    (limit : option nat) (l : list R) : Prop :=
  exists full, full ≡ₚ List.filter wh rows /\ ordered_by key full /\ l = limited limit full.

Class TableLaws (D R : Type) {T : Table D R} := {
  db_create_ok r d d' : db_create r d = (d', None) -> db_rows d' ≡ₚ r :: db_rows d;
  db_create_err r d d' e : db_create r d = (d', Some e) -> db_rows d' = db_rows d;
  db_upsert_ok same merge r d d' : db_upsert same merge r d = (d', None) ->
    db_rows d' ≡ₚ (if existsb (fun old => same old r) (db_rows d)
                   then (fun old => if same old r then merge old r else old) <$> db_rows d
                   else r :: db_rows d);
  db_upsert_err same merge r d d' e :
    db_upsert same merge r d = (d', Some e) -> db_rows d' = db_rows d;
  db_update_ok wh f d d' n : db_update wh f d = (d', Ok n) ->
    db_rows d' ≡ₚ (fun r => if wh r then f r else r) <$> db_rows d /\
    n = Z.of_nat (length (List.filter wh (db_rows d)));
  db_update_err wh f d d' o : db_update wh f d = (d', o) -> (forall n, o <> Ok n) ->
    db_rows d' = db_rows d;
  db_update_no_panic wh f d d' : db_update wh f d <> (d', Panic);
  db_delete_ok wh d d' n : db_delete wh d = (d', Ok n) ->
    db_rows d' ≡ₚ List.filter (fun r => negb (wh r)) (db_rows d) /\
    n = Z.of_nat (length (List.filter wh (db_rows d)));
  db_delete_err wh d d' o : db_delete wh d = (d', o) -> (forall n, o <> Ok n) ->
    db_rows d' = db_rows d;
  db_find_ok wh key limit d l :
    db_find wh key limit d = Ok l -> select_result (db_rows d) wh key limit l }.

(** [db.Transaction(f)]: an error of [f], or of the commit, rolls back. *)
Definition db_transaction {D R} `{Table D R} (f : D -> D * option error) (d : D) : D * option error :=
  match f d with
  | (d', None) => match db_commit d' with
                  | None => (d', None)
                  | Some e => (d, Some e)
                  end
  | (_, Some e) => (d, Some e)
  end.

(** INSERT ... ON CONFLICT DO NOTHING; the result tells whether a row was added
    (RowsAffected is not zero). *)
Definition db_insert_ignore {D R} `{Table D R} (same : R -> R -> bool) (r : R) (d : D)
    : D * outcome bool :=
  match db_upsert same (fun old _ => old) r d with
  | (d', None) => (d', Ok (negb (existsb (fun old => same old r) (db_rows d))))
  | (d', Some e) => (d', Err e)
  end.

Lemma db_insert_ignore_spec {D R} `{TableLaws D R} same (r : R) (d d' : D) o :
  db_insert_ignore same r d = (d', o) ->
  match o with
  | Ok true => existsb (fun old => same old r) (db_rows d) = false /\ db_rows d' ≡ₚ r :: db_rows d
  | Ok false => existsb (fun old => same old r) (db_rows d) = true /\ db_rows d' ≡ₚ db_rows d
  | Err _ => db_rows d' = db_rows d
  | Panic => False
  end.
Proof.
  unfold db_insert_ignore. destruct (db_upsert _ _ _ _) as [d1 [e|]] eqn:Hu; intros [= <- <-].
  { by eapply db_upsert_err. }
  assert (Hid : (fun old => if same old r then old else old) <$> db_rows d = db_rows d).
  { clear. induction (db_rows d) as [|x l IH]; csimpl; [done|]. rewrite IH. by destruct (same x r). }
  apply db_upsert_ok in Hu. rewrite Hid in Hu. by destruct (existsb _ _).
Qed.

Section Select.
Context {R : Type}.
Implicit Types (rows l : list R) (wh : R -> bool) (key : R -> Z).

Lemma StronglySorted_take (P : R -> R -> Prop) n l :
  StronglySorted P l -> StronglySorted P (take n l).
Proof.
  intros Hs. revert n. induction Hs as [|x l Hs IH Hall]; intros [|n]; simpl; constructor; auto.
  by apply Forall_take.
Qed.

Lemma filter_perm wh l1 l2 : l1 ≡ₚ l2 -> List.filter wh l1 ≡ₚ List.filter wh l2.
Proof.
  induction 1 as [|x l1 l2 _ IH|x y l|l1 l2 l3 _ IH1 _ IH2]; simpl; [done| | |by etrans].
  - destruct (wh x); by rewrite IH.
  - destruct (wh x), (wh y); done || apply Permutation_swap.
Qed.

#[global] Instance filter_perm_proper wh :
  Proper ((≡ₚ) ==> (≡ₚ)) (List.filter wh).
Proof. intros l1 l2. apply filter_perm. Qed.

Lemma select_elem rows wh k limit l r : select_result rows wh k limit l -> r ∈ l -> r ∈ rows /\ wh r = true.
Proof.
  intros (full & Hp & _ & ->) Hin.
  assert (Hf : r ∈ full) by (destruct limit; simpl in Hin; [by eapply elem_of_take in Hin as (? & ? & _); eapply list_elem_of_lookup_2|done]).
  rewrite Hp, list_elem_of_In, List.filter_In in Hf. by rewrite list_elem_of_In.
Qed.

Lemma select_complete rows wh k l r :
  select_result rows wh k None l -> r ∈ rows -> wh r = true -> r ∈ l.
Proof.
  intros (full & Hp & _ & ->) Hin Hw. simpl. rewrite Hp, list_elem_of_In, List.filter_In.
  by rewrite <- list_elem_of_In.
Qed.

Lemma select_sorted rows wh key limit l :
  select_result rows wh (Some key) limit l -> StronglySorted (key_le key) l.
Proof. intros (full & _ & Ho & ->). destruct limit; simpl; auto using StronglySorted_take. Qed.

(** Two sorted arrangements of the same rows agree when the key is injective on
    them: a SELECT ordered by a unique column has one answer. *)
Lemma sorted_perm_unique key l1 l2 :
  l1 ≡ₚ l2 -> StronglySorted (key_le key) l1 -> StronglySorted (key_le key) l2 ->
  NoDup (key <$> l1) -> l1 = l2.
Proof.
  intros Hp Hs1. revert l2 Hp. induction Hs1 as [|x l1 Hs1 IH Hall]; intros l2 Hp Hs2 Hnd.
  { by apply Permutation_nil in Hp as ->. }
  destruct l2 as [|y l2]; [by symmetry in Hp; apply Permutation_nil_cons in Hp|].
  rewrite fmap_cons, NoDup_cons in Hnd. destruct Hnd as [Hn Hnd].
  inversion Hs2 as [|? ? Hs2' Hall2]; subst.
  assert (x = y) as ->.
  { rewrite Forall_forall in Hall, Hall2.
    assert (Hx : x ∈ y :: l2) by (rewrite <- Hp; left).
    assert (Hy : y ∈ x :: l1) by (rewrite Hp; left).
    apply elem_of_cons in Hx as [?|Hx]; [done|]. apply elem_of_cons in Hy as [?|Hy]; [done|].
    specialize (Hall _ Hy). specialize (Hall2 _ Hx). unfold key_le in *.
    destruct Hn. apply list_elem_of_fmap. exists y. split; [lia|done]. }
  f_equal. apply IH; auto. by eapply Permutation_cons_inv.
Qed.

Lemma select_unique rows wh key limit l1 l2 :
  NoDup (key <$> rows) -> select_result rows wh (Some key) limit l1 ->
  select_result rows wh (Some key) limit l2 -> l1 = l2.
Proof.
  intros Hnd (f1 & Hp1 & Ho1 & ->) (f2 & Hp2 & Ho2 & ->). f_equal.
  apply (sorted_perm_unique key); auto; [by rewrite Hp1, Hp2|].
  rewrite Hp1. clear -Hnd. induction rows as [|r rows IH]; simpl; [done|].
  rewrite fmap_cons, NoDup_cons in Hnd. destruct Hnd as [Hn Hnd].
  destruct (wh r); [|auto]. rewrite fmap_cons, NoDup_cons. split; [|auto].
  intros (r' & Heq & Hin)%list_elem_of_fmap. apply Hn, list_elem_of_fmap. exists r'.
  split; [done|]. apply list_elem_of_In, List.filter_In in Hin as [? _]. by apply list_elem_of_In.
Qed.
End Select.

(** ** A table in memory, with a unique index [clash] *)

Section ListTable.
Context {R : Type} (clash : R -> R -> bool).

Record ListTable := mkListTable { lt_rows : list R }.

Definition lt_select (wh : R -> bool) (key : option (R -> Z)) (limit : option nat) (l : list R)
    : list R :=
  let found := List.filter wh l in
  limited limit (match key with Some k => merge_sort (key_le k) found | None => found end).

Definition ListTable_ops : Table ListTable R := {|
  db_rows := lt_rows;
  db_create r d :=
    if existsb (clash r) (lt_rows d) then (d, Some "duplicate key value violates unique constraint")
    else (mkListTable (lt_rows d ++ [r]), None);
  db_upsert same merge r d :=
    if existsb (fun old => same old r) (lt_rows d)
    then (mkListTable ((fun old => if same old r then merge old r else old) <$> lt_rows d), None)
    else (mkListTable (lt_rows d ++ [r]), None);
  db_update wh f d :=
    (mkListTable ((fun r => if wh r then f r else r) <$> lt_rows d),
     Ok (Z.of_nat (length (List.filter wh (lt_rows d)))));
  db_delete wh d :=
    (mkListTable (List.filter (fun r => negb (wh r)) (lt_rows d)),
     Ok (Z.of_nat (length (List.filter wh (lt_rows d)))));
  db_find wh key limit d := Ok (lt_select wh key limit (lt_rows d));
  db_commit _ := None |}.

Lemma ListTable_laws : @TableLaws ListTable R ListTable_ops.
Proof.
  split; simpl; intros; simplify_eq; try done.
  - destruct (existsb _ _); simplify_eq. simpl. by rewrite Permutation_app_comm.
  - by destruct (existsb _ _); simplify_eq.
  - destruct (existsb _ _); simplify_eq; simpl; [done|]. by rewrite Permutation_app_comm.
  - by destruct (existsb _ _); simplify_eq.
  - naive_solver.
  - naive_solver.
  - unfold lt_select. eexists. split; [|split; [|done]]; destruct key; simpl; try done.
    + apply merge_sort_Permutation.
    + apply (StronglySorted_merge_sort _).
Qed.
End ListTable.
Arguments ListTable R : clear implicits.
Arguments mkListTable {R} _.
