(* ===== verification/Sequencer.v ===== *)
(** * The sequence-number generator

    Models src/biz/service/sequencer.go.  A global sequence number packs a
    10-bit node ID above a 40-bit local counter; node 0 is the single-node mode,
    which hands out the local counter itself. *)

From stdpp Require Import base gmap strings list sorting.
From Stdlib Require Import ZArith Lia.
From S2P Require Import Prelude.

Local Open Scope Z_scope.

Record Sequencer := mkSequencer {
  nodeID : Z;
  localSeq : Z;
  symbolSeq : gmap string Z }.

Definition NewSequencer : Sequencer := mkSequencer 0 0 ∅.

Definition NewSequencerWithNodeID (nodeID : Z) : outcome Sequencer :=
  if 1023 <? nodeID then Panic
  else Ok (mkSequencer (Z.land nodeID 1023) 0 ∅).

(** [(nodeID << 40) | (local & 0xFFFFFFFFFF)] on uint64. *)
Definition pack_seq (node local : Z) : Z :=
  Z.lor (u64 (Z.shiftl node 40)) (Z.land local 1099511627775).

Definition NextGlobalSeq (s : Sequencer) : Z * Sequencer :=
  let local := u64 (localSeq s + 1) in
  let s' := mkSequencer (nodeID s) local (symbolSeq s) in
  if nodeID s =? 0 then (local, s') else (pack_seq (nodeID s) local, s').

Definition NextSymbolSeq (symbol : string) (s : Sequencer) : Z * Sequencer :=
  let seq := u64 (default 0 (symbolSeq s !! symbol) + 1) in
  (seq, mkSequencer (nodeID s) (localSeq s) (<[symbol := seq]> (symbolSeq s))).

Definition GetCurrentGlobalSeq (s : Sequencer) : Z :=
  if nodeID s =? 0 then localSeq s else pack_seq (nodeID s) (localSeq s).

Definition GetNodeID (s : Sequencer) : Z := nodeID s.

Definition GetSymbolSeq (s : Sequencer) (symbol : string) : Z :=
  default 0 (symbolSeq s !! symbol).

Definition SetSymbolSeq (symbol : string) (seq : Z) (s : Sequencer) : Sequencer :=
  mkSequencer (nodeID s) (localSeq s) (<[symbol := seq]> (symbolSeq s)).

(** [n] successive calls of [NextGlobalSeq]. *)
Fixpoint draw_seqs (n : nat) (s : Sequencer) : list Z * Sequencer :=
  match n with
  | O => ([], s)
  | S n' =>
      let '(q, s1) := NextGlobalSeq s in
      let '(qs, s2) := draw_seqs n' s1 in
      (q :: qs, s2)
  end.

(** The states the constructors and operations produce. *)
Definition seq_ok (s : Sequencer) : Prop :=
  0 <= nodeID s <= 1023 /\ 0 <= localSeq s <= MaxU64.

(** ** Lemmas *)

Lemma land40 l : Z.land l 1099511627775 = l mod 1099511627776.
Proof. change 1099511627775 with (Z.ones 40). rewrite Z.land_ones by lia. done. Qed.

(** Packing is addition: the two fields do not overlap. *)
Lemma pack_seq_eq node local :
  0 <= node <= 1023 -> 0 <= local < 1099511627776 ->
  pack_seq node local = node * 1099511627776 + local.
Proof.
  intros Hn Hl. unfold pack_seq. rewrite land40, (Z.mod_small local) by lia.
  rewrite Z.shiftl_mul_pow2 by lia. change (2 ^ 40) with 1099511627776.
  rewrite u64_id by (unfold is_u64, MaxU64; lia).
  change 1099511627776 with (2 ^ 40). rewrite <- Z.shiftl_mul_pow2 by lia.
  rewrite <- Z.lxor_lor, <- Z.add_nocarry_lxor; try done.
  all: apply Z.bits_inj'; intros i Hi; rewrite Z.land_spec, Z.bits_0;
    destruct (decide (i < 40));
    [rewrite Z.shiftl_spec_low by lia; done|].
  all: rewrite andb_comm, (Z.bits_above_log2 local i); [done|lia|].
  all: destruct (decide (local = 0)) as [->|]; [simpl; lia|].
  all: apply Z.log2_lt_pow2; [lia|];
    assert (2 ^ 40 <= 2 ^ i) by (apply Z.pow_le_mono_r; lia);
    change (2 ^ 40) with 1099511627776 in *; lia.
Qed.

Lemma next_seq_value s :
  seq_ok s -> localSeq s < 1099511627775 ->
  NextGlobalSeq s =
    (nodeID s * 1099511627776 + (localSeq s + 1),
     mkSequencer (nodeID s) (localSeq s + 1) (symbolSeq s)).
Proof.
  intros [Hn Hl] Hlt. unfold NextGlobalSeq.
  rewrite u64_id by (unfold is_u64, MaxU64; lia).
  destruct (Z.eqb_spec (nodeID s) 0) as [->|]; [f_equal; lia|].
  rewrite pack_seq_eq by lia. done.
Qed.

Lemma next_seq_ok s : seq_ok s -> seq_ok (NextGlobalSeq s).2.
Proof.
  intros [? ?]. unfold NextGlobalSeq. destruct (nodeID s =? 0); simpl; split; simpl; auto;
    apply u64_range.
Qed.

Lemma next_seq_node s : nodeID (NextGlobalSeq s).2 = nodeID s.
Proof. unfold NextGlobalSeq. by destruct (nodeID s =? 0). Qed.

(** The numbers [n] draws give, in closed form. *)
Lemma draw_seqs_value n s :
  seq_ok s -> localSeq s + Z.of_nat n < 1099511627776 ->
  (draw_seqs n s).1 =
    (fun i => nodeID s * 1099511627776 + (localSeq s + 1 + Z.of_nat i)) <$> seq 0 n.
Proof.
  revert s. induction n as [|n IH]; intros s Hok Hlt; [done|].
  cbn [draw_seqs]. rewrite next_seq_value by (auto; lia).
  specialize (IH (mkSequencer (nodeID s) (localSeq s + 1) (symbolSeq s))).
  destruct (draw_seqs n _) as [qs s2]. simpl in *. destruct Hok.
  rewrite IH by (try split; simpl; unfold MaxU64; lia).
  f_equal; [lia|]. rewrite <- fmap_S_seq, <- list_fmap_compose.
  apply list_fmap_ext. intros. simpl. lia.
Qed.

Lemma elem_of_draws n s q :
  seq_ok s -> localSeq s + Z.of_nat n < 1099511627776 ->
  q ∈ (draw_seqs n s).1 ->
  exists l, q = nodeID s * 1099511627776 + l /\ localSeq s < l <= localSeq s + Z.of_nat n.
Proof.
  intros Hok Hlt. rewrite draw_seqs_value by done.
  intros (i & -> & Hi%elem_of_seq)%list_elem_of_fmap. eexists. split; [done|]. lia.
Qed.

Lemma draws_sorted n s :
  seq_ok s -> localSeq s + Z.of_nat n < 1099511627776 -> StronglySorted Z.lt (draw_seqs n s).1.
Proof.
  intros Hok Hlt. rewrite draw_seqs_value by done.
  generalize 0%nat as k, (localSeq s). clear. induction n; intros k l; simpl; constructor; auto.
  apply Forall_forall. intros q (i & -> & Hi%elem_of_seq)%list_elem_of_fmap. lia.
Qed.

(** ** Theorems *)

(** Until a node's 40-bit counter is exhausted, the numbers a sequencer hands
    out are strictly increasing, and each one carries the node ID in its upper
    bits. *)
Theorem draws_increasing n s :
  seq_ok s -> localSeq s + Z.of_nat n < 1099511627776 ->
  StronglySorted Z.lt (draw_seqs n s).1 /\
  Forall (fun q => Z.shiftr q 40 = nodeID s) (draw_seqs n s).1.
Proof.
  intros Hok Hlt. split.
  - by apply draws_sorted.
  - apply Forall_forall. intros q Hq.
    destruct (elem_of_draws n s q Hok Hlt Hq) as (l & -> & ?). destruct Hok.
    rewrite Z.shiftr_div_pow2 by lia. change (2 ^ 40) with 1099511627776.
    rewrite Z.div_add_l by lia. rewrite Z.div_small; lia.
Qed.

Lemma draws_increasing_witness :
  seq_ok (mkSequencer 7 5 ∅) /\
  StronglySorted Z.lt (draw_seqs 3 (mkSequencer 7 5 ∅)).1 /\
  (draw_seqs 3 (mkSequencer 7 5 ∅)).1 = [7696581394438; 7696581394439; 7696581394440].
Proof.
  assert (Hok : seq_ok (mkSequencer 7 5 ∅)) by (unfold seq_ok, MaxU64; simpl; lia).
  split; [exact Hok|]. split; [|vm_compute; reflexivity].
  exact (proj1 (draws_increasing 3 (mkSequencer 7 5 ∅) Hok eq_refl)).
Defined.

(** C26: two sequencers with different node IDs never hand out the same number
    while neither has exhausted its counter, whatever numbers each draws. *)
Theorem draws_disjoint n m s t :
  seq_ok s -> seq_ok t -> nodeID s <> nodeID t ->
  localSeq s + Z.of_nat n < 1099511627776 ->
  localSeq t + Z.of_nat m < 1099511627776 ->
  forall q, q ∈ (draw_seqs n s).1 -> q ∈ (draw_seqs m t).1 -> False.
Proof.
  intros Hs Ht Hne Hn Hm q Hqs Hqt.
  destruct (elem_of_draws _ _ _ Hs Hn Hqs) as (l & -> & ?).
  destruct (elem_of_draws _ _ _ Ht Hm Hqt) as (l' & Heq & ?).
  destruct Hs, Ht. nia.
Qed.

Lemma draws_disjoint_witness :
  nodeID (mkSequencer 1 0 ∅) <> nodeID (mkSequencer 2 0 ∅) /\
  (1099511627777 ∈ (draw_seqs 2 (mkSequencer 2 0 ∅)).1 -> False).
Proof.
  split; [done|]. intros H.
  refine (draws_disjoint 2 2 (mkSequencer 1 0 ∅) (mkSequencer 2 0 ∅) _ _ _ _ _ 1099511627777 _ H);
    try (unfold seq_ok, MaxU64; simpl; lia); try done.
  vm_compute. left.
Defined.

(** The 40-bit counter is a real bound: a node that has handed out number
    [2^40 - 1] of its range continues with a number below all its earlier ones. *)
Theorem counter_rollover s :
  seq_ok s -> nodeID s <> 0 -> localSeq s = 1099511627775 ->
  GetCurrentGlobalSeq s = nodeID s * 1099511627776 + 1099511627775 /\
  (NextGlobalSeq s).1 = nodeID s * 1099511627776.
Proof.
  intros [Hn Hl] Hne Heq. unfold GetCurrentGlobalSeq, NextGlobalSeq.
  destruct (Z.eqb_spec (nodeID s) 0); [done|]. simpl. rewrite Heq.
  split; [apply pack_seq_eq; lia|].
  rewrite <- (Z.add_0_r (nodeID s * _)), <- pack_seq_eq by lia. done.
Qed.

Lemma counter_rollover_witness :
  (NextGlobalSeq (mkSequencer 3 1099511627775 ∅)).1 = 3298534883328.
Proof.
  exact (proj2 (counter_rollover (mkSequencer 3 1099511627775 ∅)
    ltac:(unfold seq_ok, MaxU64; simpl; lia) ltac:(done) eq_refl)).
Defined.
