(* ===== verification/SkipList.v ===== *)
(** * The ordered map the order book is kept in

    src/biz/service/orderbook.go keeps each side of the book in a
    [skiplist.SkipList] of the package github.com/huandu/skiplist, which is not
    part of the repository.  It is a parameter of the model: the class [SkipList]
    names the operations the code calls, and [SkipListLaws] what the package
    documents of them.  A list orders its keys by the [Comparable] it was created
    with; which strict order it derives from the two methods of a [Comparable] is
    the field [sl_before] of the laws, and the theorems that depend on that order
    say which order they assume.

    [OrdList] is a concrete list for any way of deriving the order: [by_compare]
    uses [Compare] alone, [by_score] sorts by score and lets [Compare] break ties
    only. *)

From stdpp Require Import base list sorting sets.
From Stdlib Require Import ZArith Lia SpecFloat.
From S2P Require Import Prelude Money.

Local Open Scope Z_scope.

(** A [skiplist.Comparable] on prices.  Scores are float64. *)
Record Comparable := mkComparable {
  Compare : Z -> Z -> Z;
  CalcScore : Z -> spec_float }.

(** Operations.  [sl_elements l] is the traversal [for e := l.Front(); e != nil;
    e = e.Next()], an element being its key and its value. *)
Class SkipList (sl : Type -> Type) := {
  sl_new : forall {V}, Comparable -> sl V;
  sl_elements : forall {V}, sl V -> list (Z * V);
  sl_len : forall {V}, sl V -> Z;
  sl_front : forall {V}, sl V -> option (Z * V);
  sl_get : forall {V}, Z -> sl V -> option V;
  sl_set : forall {V}, Z -> V -> sl V -> sl V;
  sl_remove : forall {V}, Z -> sl V -> sl V;
  sl_comparable : forall {V}, sl V -> Comparable }.

Abbreviation keys l := ((l : list (Z * _)).*1).

Definition lookup_key {V} (k : Z) (l : list (Z * V)) : option V :=
  match List.find (fun '(k', _) => k' =? k) l with
  | Some (_, v) => Some v
  | None => None
  end.

(** A test [b] that decides a strict total order. *)
Record strict_total (b : Z -> Z -> bool) : Prop := {
  st_irrefl x : b x x = false;
  st_trans x y z : b x y = true -> b y z = true -> b x z = true;
  st_total x y : x <> y -> b x y = true \/ b y x = true }.

(** Documented behaviour: keys are kept in order and are unique; [Set] replaces
    the value of a key that is present and inserts one that is not. *)
Class SkipListLaws (sl : Type -> Type) {H : SkipList sl} := {
  sl_before : Comparable -> Z -> Z -> bool;
  sl_new_elements V c : sl_elements (sl_new (V := V) c) = [];
  sl_new_comparable V c : sl_comparable (sl_new (V := V) c) = c;
  sl_sorted V (l : sl V) :
    strict_total (sl_before (sl_comparable l)) ->
    StronglySorted (sl_before (sl_comparable l)) (keys (sl_elements l));
  sl_nodup V (l : sl V) : NoDup (keys (sl_elements l));
  sl_len_elements V (l : sl V) : sl_len l = Z.of_nat (length (sl_elements l));
  sl_front_elements V (l : sl V) : sl_front l = head (sl_elements l);
  sl_get_elements V k (l : sl V) : sl_get k l = lookup_key k (sl_elements l);
  sl_set_present V k v (l : sl V) :
    k ∈ keys (sl_elements l) ->
    sl_elements (sl_set k v l) =
      (fun '(k', w) => if k' =? k then (k, v) else (k', w)) <$> sl_elements l;
  sl_set_absent V k v (l : sl V) :
    k ∉ keys (sl_elements l) ->
    exists l1 l2, sl_elements l = l1 ++ l2 /\ sl_elements (sl_set k v l) = l1 ++ (k, v) :: l2;
  sl_set_comparable V k v (l : sl V) : sl_comparable (sl_set k v l) = sl_comparable l;
  sl_remove_elements V k (l : sl V) :
    sl_elements (sl_remove k l) = List.filter (fun '(k', _) => negb (k' =? k)) (sl_elements l);
  sl_remove_comparable V k (l : sl V) : sl_comparable (sl_remove k l) = sl_comparable l }.

(** ** Consequences used by the order book *)

Section Laws.
Context {sl : Type -> Type} {Hsl : SkipList sl} {Hlaws : SkipListLaws sl} {V : Type}.
Implicit Types (k : Z) (v : V).

Lemma filter_ne_notin k (l : list (Z * V)) :
  k ∉ keys l -> List.filter (fun '(k', _) => negb (k' =? k)) l = l.
Proof.
  induction l as [|[k' w] l IH]; simpl; intros Hn; [done|].
  apply not_elem_of_cons in Hn as [? ?].
  destruct (Z.eqb_spec k' k); [congruence|]. simpl. f_equal. auto.
Qed.

Lemma update_ne_notin k v (l : list (Z * V)) :
  k ∉ keys l -> (fun '(k', w) => if k' =? k then (k, v) else (k', w)) <$> l = l.
Proof.
  induction l as [|[k' w] l IH]; simpl; intros Hn; [done|].
  apply not_elem_of_cons in Hn as [? ?].
  destruct (Z.eqb_spec k' k); [congruence|]. f_equal. auto.
Qed.

(** Replacing and removing the first element. *)
Lemma sl_set_front k v w r (l : sl V) :
  sl_elements l = (k, v) :: r -> sl_elements (sl_set k w l) = (k, w) :: r.
Proof.
  intros Heq. rewrite sl_set_present by (rewrite Heq; left). rewrite Heq. cbn.
  rewrite Z.eqb_refl. f_equal. apply update_ne_notin.
  pose proof (sl_nodup V l) as Hnd. rewrite Heq in Hnd. by inversion Hnd.
Qed.

Lemma sl_remove_front k v r (l : sl V) :
  sl_elements l = (k, v) :: r -> sl_elements (sl_remove k l) = r.
Proof.
  intros Heq. rewrite sl_remove_elements, Heq. cbn. rewrite Z.eqb_refl. cbn.
  apply filter_ne_notin.
  pose proof (sl_nodup V l) as Hnd. rewrite Heq in Hnd. by inversion Hnd.
Qed.

Lemma lookup_key_Some k v (l : list (Z * V)) : lookup_key k l = Some v -> (k, v) ∈ l.
Proof.
  unfold lookup_key. destruct (List.find _ l) as [[k' w]|] eqn:Hf; intros; simplify_eq.
  apply List.find_some in Hf as [Hin Hk]. apply Z.eqb_eq in Hk as ->. by apply list_elem_of_In.
Qed.

Lemma lookup_key_None k (l : list (Z * V)) : lookup_key k l = None -> k ∉ keys l.
Proof.
  unfold lookup_key. destruct (List.find _ l) as [[k' w]|] eqn:Hf; intros; simplify_eq.
  intros ([k' w] & -> & Hin)%list_elem_of_fmap.
  eapply List.find_none in Hf; [|by apply list_elem_of_In]. simpl in *. lia.
Qed.

(** What [Set] does to the traversal, as an update of one key's value. *)
Lemma sl_set_split k v (l : sl V) :
  (exists l1 w l2, sl_elements l = l1 ++ (k, w) :: l2 /\ sl_get k l = Some w /\
     sl_elements (sl_set k v l) = l1 ++ (k, v) :: l2) \/
  (exists l1 l2, sl_elements l = l1 ++ l2 /\ sl_get k l = None /\
     sl_elements (sl_set k v l) = l1 ++ (k, v) :: l2).
Proof.
  rewrite sl_get_elements. destruct (lookup_key k (sl_elements l)) as [w|] eqn:Hlk.
  - left. pose proof (lookup_key_Some _ _ _ Hlk) as Hin.
    apply list_elem_of_split in Hin as (l1 & l2 & Heq). exists l1, w, l2.
    split_and!; [done|done|].
    pose proof (sl_nodup V l) as Hnd. rewrite Heq, fmap_app, fmap_cons in Hnd. simpl in Hnd.
    apply NoDup_app in Hnd as (_ & Hd1 & Hd2). apply NoDup_cons in Hd2 as [Hd2 _].
    rewrite sl_set_present by (rewrite Heq, fmap_app; set_solver).
    rewrite Heq, fmap_app, fmap_cons, Z.eqb_refl.
    rewrite !update_ne_notin; [done|done|]. intros Hin. by apply (Hd1 _ Hin); left.
  - right. pose proof (lookup_key_None _ _ Hlk) as Hn.
    destruct (sl_set_absent V k v l Hn) as (l1 & l2 & ? & ?). eauto.
Qed.
End Laws.

(** ** A concrete list, for any order derived from the comparator *)

Section OrdList.
Context (ord : Comparable -> Z -> Z -> bool).

Record OrdList (V : Type) := mkOrdList {
  ol_cmp : Comparable;
  ol_list : list (Z * V);
  ol_nodup : NoDup (keys ol_list);
  ol_sorted : strict_total (ord ol_cmp) -> StronglySorted (ord ol_cmp) (keys ol_list) }.
Arguments mkOrdList {V}.
Arguments ol_cmp {V}.
Arguments ol_list {V}.

Section Insert.
Context {V : Type} (b : Z -> Z -> bool).

Definition ol_update (k : Z) (v : V) (l : list (Z * V)) : list (Z * V) :=
  (fun '(k', w) => if k' =? k then (k, v) else (k', w)) <$> l.

Fixpoint ol_insert (k : Z) (v : V) (l : list (Z * V)) : list (Z * V) :=
  match l with
  | [] => [(k, v)]
  | (k', w) :: l' => if b k k' then (k, v) :: l else (k', w) :: ol_insert k v l'
  end.

Definition ol_put (k : Z) (v : V) (l : list (Z * V)) : list (Z * V) :=
  if bool_decide (k ∈ keys l) then ol_update k v l else ol_insert k v l.

Definition ol_del (k : Z) (l : list (Z * V)) : list (Z * V) :=
  List.filter (fun '(k', _) => negb (k' =? k)) l.

Lemma keys_update k v l : keys (ol_update k v l) = keys l.
Proof.
  unfold ol_update. rewrite <- list_fmap_compose. apply list_fmap_ext. intros _ [k' w] _. simpl.
  destruct (Z.eqb_spec k' k); naive_solver.
Qed.

Lemma ol_insert_split k v l : exists l1 l2, l = l1 ++ l2 /\ ol_insert k v l = l1 ++ (k, v) :: l2.
Proof.
  induction l as [|[k' w] l (l1 & l2 & -> & IH)]; simpl.
  - by exists [], [].
  - destruct (b k k'); [by exists [], ((k', w) :: l1 ++ l2)|].
    exists ((k', w) :: l1), l2. simpl. by rewrite IH.
Qed.

Lemma keys_insert_perm k v l : keys (ol_insert k v l) ≡ₚ k :: keys l.
Proof.
  destruct (ol_insert_split k v l) as (l1 & l2 & -> & ->).
  rewrite !fmap_app, fmap_cons. simpl. symmetry. apply Permutation_middle.
Qed.

Lemma ol_put_nodup k v l : NoDup (keys l) -> NoDup (keys (ol_put k v l)).
Proof.
  unfold ol_put. case_bool_decide; [by rewrite keys_update|].
  intros. rewrite keys_insert_perm. by constructor.
Qed.

Lemma ol_insert_sorted k v l :
  strict_total b -> k ∉ keys l -> StronglySorted b (keys l) ->
  StronglySorted b (keys (ol_insert k v l)).
Proof.
  intros Hst. induction l as [|[k' w] l IH]; simpl; intros Hn Hs.
  { repeat constructor. }
  apply not_elem_of_cons in Hn as [Hne Hn]. inversion Hs as [|? ? Hs' Hall]; subst.
  destruct (b k k') eqn:Hb; simpl.
  - constructor; [done|]. constructor; [by rewrite Hb|].
    eapply Forall_impl; [exact Hall|]. simpl. intros x Hx.
    apply Is_true_true. apply Is_true_true in Hx. by eapply st_trans.
  - constructor; [auto|]. rewrite keys_insert_perm. constructor; [|done].
    apply Is_true_true. destruct (st_total b Hst k k'); congruence.
Qed.

Lemma ol_put_sorted k v l :
  (strict_total b -> StronglySorted b (keys l)) ->
  strict_total b -> StronglySorted b (keys (ol_put k v l)).
Proof.
  intros Hs Hst. unfold ol_put. case_bool_decide; [by rewrite keys_update; auto|].
  by apply ol_insert_sorted; auto.
Qed.

Lemma Forall_del (P : Z -> Prop) k l : Forall P (keys l) -> Forall P (keys (ol_del k l)).
Proof.
  induction l as [|[k' w] l IH]; simpl; inversion 1; subst; [done|].
  destruct (negb (k' =? k)); simpl; auto.
Qed.

Lemma ol_del_sorted (R : Z -> Z -> Prop) k l :
  StronglySorted R (keys l) -> StronglySorted R (keys (ol_del k l)).
Proof.
  induction l as [|[k' w] l IH]; simpl; inversion 1; subst; [done|].
  destruct (negb (k' =? k)); simpl; [constructor|]; auto using Forall_del.
Qed.

Lemma ol_del_nodup k l : NoDup (keys l) -> NoDup (keys (ol_del k l)).
Proof.
  induction l as [|[k' w] l IH]; simpl; [done|]. rewrite NoDup_cons. intros [Hn Hnd].
  destruct (negb (k' =? k)); simpl; [|auto]. constructor; [|auto]. intros Hin. apply Hn.
  pose proof (Forall_del (fun x => x ∈ keys l) k l) as Hf. rewrite !Forall_forall in Hf. auto.
Qed.
End Insert.

#[global] Instance OrdList_ops : SkipList OrdList := {
  sl_new V c := mkOrdList c [] (NoDup_nil_2) (fun _ => SSorted_nil _);
  sl_elements V l := ol_list l;
  sl_len V l := Z.of_nat (length (ol_list l));
  sl_front V l := head (ol_list l);
  sl_get V k l := lookup_key k (ol_list l);
  sl_set V k v l :=
    mkOrdList (ol_cmp l) (ol_put (ord (ol_cmp l)) k v (ol_list l))
      (ol_put_nodup _ k v _ (ol_nodup _ l)) (ol_put_sorted _ k v _ (ol_sorted _ l));
  sl_remove V k l :=
    mkOrdList (ol_cmp l) (ol_del k (ol_list l))
      (ol_del_nodup k _ (ol_nodup _ l)) (fun Hst => ol_del_sorted _ k _ (ol_sorted _ l Hst));
  sl_comparable V l := ol_cmp l }.

#[global] Instance OrdList_laws : SkipListLaws OrdList.
Proof.
  refine {| sl_before := ord |}; try done.
  - intros V l. apply ol_sorted.
  - intros V l. apply ol_nodup.
  - intros V k v l Hin. simpl. unfold ol_put. by rewrite bool_decide_eq_true_2.
  - intros V k v l Hn. simpl. unfold ol_put. rewrite bool_decide_eq_false_2 by done.
    apply ol_insert_split.
Defined.
End OrdList.

Definition by_compare (c : Comparable) (a b : Z) : bool := Compare c a b <? 0.
Definition by_score (c : Comparable) (a b : Z) : bool :=
  SFltb (CalcScore c a) (CalcScore c b) ||
  (SFeqb (CalcScore c a) (CalcScore c b) && (Compare c a b <? 0)).
