(* ===== verification/OrderBook.v ===== *)
(** * The order book

    Models src/biz/service/orderbook.go: entries, the two comparators, the
    matching loops of [matchBuyOrder] and [matchSellOrder], [MatchOrder],
    [addOrderToBook], [GetDepth] and [CancelOrder].  The skip lists are the
    parameter of SkipList.v; the sequencer, which the book shares with the
    engine, is threaded explicitly; [now q] is the clock reading taken for the
    event that carries sequence number [q].

    A resting entry is reachable only through its queue, so the in-place update
    [seller.FilledQty += tradeQty] is the replacement of the queue's head.  The
    map [orders] holds the entry the caller submitted, a different object from
    the copy [addOrderToBook] puts in the queue. *)

From stdpp Require Import base gmap strings list pretty.
From Stdlib Require Import ZArith Lia SpecFloat.
From S2P Require Import Prelude Money Events Sequencer SkipList.

Local Open Scope go_scope.
Local Open Scope Z_scope.

Record OrderBookEntry := mkOrderBookEntry {
  obe_OrderID : string;
  obe_UserID : string;
  obe_Symbol : string;
  obe_Side : string;
  obe_Price : Z;
  obe_Quantity : Z;
  obe_FilledQty : Z;
  obe_SubmitTime : Z;
  obe_SequenceNum : Z }.

Definition set_filled (e : OrderBookEntry) (f : Z) : OrderBookEntry :=
  mkOrderBookEntry (obe_OrderID e) (obe_UserID e) (obe_Symbol e) (obe_Side e) (obe_Price e)
    (obe_Quantity e) f (obe_SubmitTime e) (obe_SequenceNum e).

Definition set_quantity_filled (e : OrderBookEntry) (q f : Z) : OrderBookEntry :=
  mkOrderBookEntry (obe_OrderID e) (obe_UserID e) (obe_Symbol e) (obe_Side e) (obe_Price e)
    q f (obe_SubmitTime e) (obe_SequenceNum e).

(** ** The comparators *)

Definition PriceComparatorDesc : Comparable :=
  mkComparable
    (fun priceA priceB => if priceB <? priceA then -1 else if priceA <? priceB then 1 else 0)
    (fun price => f64_of_int price).

Definition PriceComparatorAsc : Comparable :=
  mkComparable
    (fun priceA priceB => if priceA <? priceB then -1 else if priceB <? priceA then 1 else 0)
    (fun price => SFopp (f64_of_int price)).

Section OrderBook.
Context {sl : Type -> Type} {Hsl : SkipList sl}.

Abbreviation queue := (list OrderBookEntry).

Record OrderBook := mkOrderBook {
  ob_symbol : string;
  ob_buys : sl queue;
  ob_sells : sl queue;
  ob_orders : gmap string OrderBookEntry }.

Definition NewOrderBook (symbol : string) : OrderBook :=
  mkOrderBook symbol (sl_new PriceComparatorDesc) (sl_new PriceComparatorAsc) ∅.

(** ** Matching

    [matchBuyOrder] and [matchSellOrder] are the same loop over the opposite
    side; they differ in the test that stops it and in the taker's side.  The
    loop's variables are the opposite side's list, the remaining quantity, the
    events so far and the sequencer. *)

Record match_state := mkMatchState {
  ms_book : sl queue;
  ms_rem : Z;
  ms_events : list TradeExecutedEvent;
  ms_seq : Sequencer }.

(** Drop the head of the queue at [price]. *)
Definition pop_maker (book : sl queue) (price : Z) (rest : queue) : sl queue :=
  match rest with
  | [] => sl_remove price book
  | _ :: _ => sl_set price rest book
  end.

Definition trade_id (symbol orderID : string) (n : nat) : string :=
  symbol +:+ "-" +:+ orderID +:+ "-" +:+ pretty (Z.of_nat n).

Section Loop.
Context (symbol takerSide : string) (order : OrderBookEntry) (stop : Z -> bool) (now : Z -> Z).

(** One iteration of the loop; [None] when the loop is left. *)
Definition match_step (st : match_state) : option match_state :=
  if (0 <? ms_rem st) && (0 <? sl_len (ms_book st)) then
    match sl_front (ms_book st) with
    | None => None
    | Some (price, q) =>
        if stop price then None
        else match q with
             | [] => None
             | maker :: rest =>
                 let tradeQty := Min (ms_rem st) (i64 (obe_Quantity maker - obe_FilledQty maker)) in
                 if tradeQty <=? 0 then
                   Some (mkMatchState (pop_maker (ms_book st) price rest) (ms_rem st)
                           (ms_events st) (ms_seq st))
                 else
                   let '(seq, sq) := NextGlobalSeq (ms_seq st) in
                   let event :=
                     mkTradeExecutedEvent seq (now seq)
                       (trade_id symbol (obe_OrderID order) (length (ms_events st))) symbol
                       (obe_OrderID order) (obe_OrderID maker) (obe_UserID order) (obe_UserID maker)
                       price tradeQty takerSide in
                   let maker' := set_filled maker (i64 (obe_FilledQty maker + tradeQty)) in
                   let book' :=
                     if obe_Quantity maker' <=? obe_FilledQty maker'
                     then pop_maker (ms_book st) price rest
                     else sl_set price (maker' :: rest) (ms_book st) in
                   Some (mkMatchState book' (i64 (ms_rem st - tradeQty))
                           (ms_events st ++ [event]) sq)
             end
    end
  else None.

(** The loop, run for at most [fuel] iterations. *)
Fixpoint match_loop (fuel : nat) (st : match_state) : match_state :=
  match fuel with
  | O => st
  | S fuel' =>
      match match_step st with
      | None => st
      | Some st' => match_loop fuel' st'
      end
  end.
End Loop.

(** Number of resting entries of one side. *)
Definition book_size (book : sl queue) : nat :=
  list_sum ((fun '(_, q) => length q) <$> sl_elements book).

(** One iteration per resting entry and one more are enough (theorem
    [match_loop_terminates]). *)
Definition matchBuyOrder (now : Z -> Z) (ob : OrderBook) (order : OrderBookEntry)
    (remainingQty : Z) (sq : Sequencer) : match_state :=
  match_loop (ob_symbol ob) "buy" order (fun sellPrice => obe_Price order <? sellPrice) now
    (S (book_size (ob_sells ob))) (mkMatchState (ob_sells ob) remainingQty [] sq).

Definition matchSellOrder (now : Z -> Z) (ob : OrderBook) (order : OrderBookEntry)
    (remainingQty : Z) (sq : Sequencer) : match_state :=
  match_loop (ob_symbol ob) "sell" order (fun buyPrice => buyPrice <? obe_Price order) now
    (S (book_size (ob_buys ob))) (mkMatchState (ob_buys ob) remainingQty [] sq).

(** [addOrderToBook] on the list of the order's own side. *)
Definition add_to_side (book : sl queue) (order : OrderBookEntry) (qty : Z) : sl queue :=
  let q := default [] (sl_get (obe_Price order) book) in
  let entry := set_quantity_filled order qty 0 in
  sl_set (obe_Price order) (q ++ [entry]) book.

Definition addOrderToBook (ob : OrderBook) (order : OrderBookEntry) (qty : Z) : OrderBook :=
  if obe_Side order =s "buy"
  then mkOrderBook (ob_symbol ob) (add_to_side (ob_buys ob) order qty) (ob_sells ob) (ob_orders ob)
  else mkOrderBook (ob_symbol ob) (ob_buys ob) (add_to_side (ob_sells ob) order qty) (ob_orders ob).

Record match_result := mkMatchResult {
  mr_book : OrderBook;
  mr_events : list TradeExecutedEvent;
  mr_remaining : Z;
  mr_seq : Sequencer }.

Definition MatchOrder (now : Z -> Z) (ob : OrderBook) (order : OrderBookEntry) (sq : Sequencer)
    : match_result :=
  let remainingQty := obe_Quantity order in
  let isBuy := obe_Side order =s "buy" in
  let st := if isBuy then matchBuyOrder now ob order remainingQty sq
            else matchSellOrder now ob order remainingQty sq in
  let ob1 := if isBuy
             then mkOrderBook (ob_symbol ob) (ob_buys ob) (ms_book st) (ob_orders ob)
             else mkOrderBook (ob_symbol ob) (ms_book st) (ob_sells ob) (ob_orders ob) in
  let ob2 := if 0 <? ms_rem st then addOrderToBook ob1 order (ms_rem st) else ob1 in
  let ob3 := mkOrderBook (ob_symbol ob2) (ob_buys ob2) (ob_sells ob2)
               (<[obe_OrderID order := order]> (ob_orders ob2)) in
  mkMatchResult ob3 (ms_events st) (ms_rem st) (ms_seq st).

(** ** Depth *)

(** Open quantity of one price level, summed on int64. *)
Definition level_qty (q : queue) : Z :=
  fold_left (fun total e => i64 (total + i64 (obe_Quantity e - obe_FilledQty e))) q 0.

Definition depth_side (levels : Z) (book : sl queue) : list (string * string) :=
  (fun '(price, q) => (PriceInNano_String price, QuantityInNano_String (level_qty q)))
    <$> take (Z.to_nat levels) (sl_elements book).

(** Bids and asks; a row is the pair of its "price" and "quantity" strings. *)
Definition GetDepth (ob : OrderBook) (levels : Z) : list (string * string) * list (string * string) :=
  (depth_side levels (ob_buys ob), depth_side levels (ob_sells ob)).

(** ** Cancellation *)

Definition cancel_in_side (book : sl queue) (price : Z) (orderID : string) : sl queue :=
  match sl_get price book with
  | None => book
  | Some q =>
      match List.filter (fun e => negb (obe_OrderID e =s orderID)) q with
      | [] => sl_remove price book
      | newQueue => sl_set price newQueue book
      end
  end.

Definition CancelOrder (ob : OrderBook) (orderID : string) : OrderBook * option error :=
  match ob_orders ob !! orderID with
  | None => (ob, Some ("order not found: " +:+ orderID))
  | Some order =>
      if 0 <? obe_FilledQty order then
        (ob, Some ("cannot cancel partially filled order: " +:+ orderID))
      else
        let price := obe_Price order in
        let orders' := delete orderID (ob_orders ob) in
        if obe_Side order =s "buy"
        then (mkOrderBook (ob_symbol ob) (cancel_in_side (ob_buys ob) price orderID)
                (ob_sells ob) orders', None)
        else (mkOrderBook (ob_symbol ob) (ob_buys ob)
                (cancel_in_side (ob_sells ob) price orderID) orders', None)
  end.
End OrderBook.

Arguments OrderBook sl : clear implicits.
Arguments match_state sl : clear implicits.
Arguments match_result sl : clear implicits.
