(* ===== verification/Matching.v ===== *)
(** * Matching: the loops of the order book against a reference algorithm

    [fill_greedy] is the price-time algorithm on one flat list: walk the resting
    entries in the book's order, take from each what is open, stop at the first
    price that does not cross or when nothing is left.  The loops of
    src/biz/service/orderbook.go, which work on skip lists of queues with
    wrap-around arithmetic, are shown to terminate and to compute exactly this,
    and the properties of a match are proved of [fill_greedy]. *)

From stdpp Require Import base gmap strings list sorting pretty.
From Stdlib Require Import ZArith Lia SpecFloat.
From S2P Require Import Prelude Money Events Sequencer SkipList OrderBook.

Local Open Scope go_scope.
Local Open Scope Z_scope.

(** ** The reference algorithm *)

(** Resting entries in the order of the book: levels in list order, each level's
    queue from its head. *)
Fixpoint flat (l : list (Z * list OrderBookEntry)) : list (Z * OrderBookEntry) :=
  match l with
  | [] => []
  | (p, q) :: l' => ((fun e => (p, e)) <$> q) ++ flat l'
  end.

Definition open_qty (e : OrderBookEntry) : Z := obe_Quantity e - obe_FilledQty e.

(** A fill: price level, the maker's entry before the fill, quantity. *)
Abbreviation fill := (Z * OrderBookEntry * Z)%type.
Definition fill_price (f : fill) : Z := f.1.1.
Definition fill_maker (f : fill) : OrderBookEntry := f.1.2.
Definition fill_qty (f : fill) : Z := f.2.

Fixpoint fill_greedy (stop : Z -> bool) (rem : Z) (l : list (Z * OrderBookEntry))
    : list fill * Z * list (Z * OrderBookEntry) :=
  match l with
  | [] => ([], rem, [])
  | (p, e) :: l' =>
      if (rem <=? 0) || stop p then ([], rem, l)
      else if rem <? open_qty e then
        ([(p, e, rem)], 0, (p, set_filled e (obe_FilledQty e + rem)) :: l')
      else
        let '(fs, r, rest) := fill_greedy stop (rem - open_qty e) l' in
        ((p, e, open_qty e) :: fs, r, rest)
  end.

(** The trade events of a sequence of fills, numbered from [n]. *)
Fixpoint fill_events (symbol side : string) (order : OrderBookEntry) (now : Z -> Z)
    (fs : list fill) (n : nat) (sq : Sequencer) : list TradeExecutedEvent * Sequencer :=
  match fs with
  | [] => ([], sq)
  | (p, e, q) :: fs' =>
      let '(seq, sq1) := NextGlobalSeq sq in
      let '(evs, sq2) := fill_events symbol side order now fs' (S n) sq1 in
      (mkTradeExecutedEvent seq (now seq) (trade_id symbol (obe_OrderID order) n) symbol
         (obe_OrderID order) (obe_OrderID e) (obe_UserID order) (obe_UserID e) p q side :: evs, sq2)
  end.

(** ** Well-formed sides of a book *)

Record entry_ok (isBuy : bool) (p : Z) (e : OrderBookEntry) : Prop := {
  eo_filled : 0 <= obe_FilledQty e < obe_Quantity e;
  eo_max : obe_Quantity e <= MaxI64;
  eo_price : obe_Price e = p;
  eo_side : (obe_Side e =s "buy") = isBuy }.

Definition level_ok (isBuy : bool) (lv : Z * list OrderBookEntry) : Prop :=
  lv.2 <> [] /\ Forall (entry_ok isBuy lv.1) lv.2.

Section Matching.
Context {sl : Type -> Type} {Hsl : SkipList sl} {Hlaws : SkipListLaws sl}.
Implicit Types (st : match_state sl) (book : sl (list OrderBookEntry)).

Definition side_ok (isBuy : bool) book : Prop := Forall (level_ok isBuy) (sl_elements book).

Abbreviation entries book := (flat (sl_elements book)).

Lemma length_flat l : length (flat l) = list_sum ((fun '(_, q) => length q) <$> l).
Proof. induction l as [|[p q] l IH]; simpl; [done|]. by rewrite length_app, length_fmap, IH. Qed.

Lemma book_size_entries book : book_size book = length (entries book).
Proof. unfold book_size. by rewrite length_flat. Qed.

(** What removing or replacing the head entry does to the traversal. *)
Lemma pop_maker_entries book p m rest r :
  sl_elements book = (p, m :: rest) :: r ->
  entries (pop_maker book p rest) = ((fun e => (p, e)) <$> rest) ++ flat r.
Proof.
  intros Heq. unfold pop_maker. destruct rest as [|m' rest].
  - by rewrite (sl_remove_front p (m :: []) r).
  - by rewrite (sl_set_front p (m :: m' :: rest) (m' :: rest) r).
Qed.

Lemma pop_maker_ok isBuy book p m rest r :
  sl_elements book = (p, m :: rest) :: r -> side_ok isBuy book ->
  side_ok isBuy (pop_maker book p rest).
Proof.
  intros Heq Hok. unfold side_ok in *. rewrite Heq in Hok.
  inversion Hok as [|? ? [_ Hf] Hr]; subst. simpl in Hf. inversion Hf; subst.
  unfold pop_maker. destruct rest as [|m' rest].
  - by rewrite (sl_remove_front p (m :: []) r).
  - rewrite (sl_set_front p (m :: m' :: rest) (m' :: rest) r) by done. by constructor.
Qed.

Lemma pop_maker_comparable book p rest :
  sl_comparable (pop_maker book p rest) = sl_comparable book.
Proof. destruct rest; simpl; auto using sl_remove_comparable, sl_set_comparable. Qed.

Section Loop.
Context (symbol side : string) (order : OrderBookEntry) (stop : Z -> bool) (now : Z -> Z).
Abbreviation step := (match_step symbol side order stop now).
Abbreviation loop := (match_loop symbol side order stop now).

(** The guard of the loop, with the skip list's laws applied. *)
Lemma step_guard st :
  step st = None \/
  (0 < ms_rem st /\ exists p m rest r, sl_elements (ms_book st) = (p, m :: rest) :: r /\
     stop p = false).
Proof.
  unfold match_step. rewrite sl_len_elements, sl_front_elements.
  destruct (Z.ltb_spec 0 (ms_rem st)); [|by left]. simpl.
  destruct (sl_elements (ms_book st)) as [|[p q] r] eqn:He; [by left|].
  simpl. destruct (stop p) eqn:Hs; [by left|].
  destruct q as [|m rest]; [by left|]. right. eauto 10.
Qed.

Lemma step_eq st p m rest r :
  0 < ms_rem st -> sl_elements (ms_book st) = (p, m :: rest) :: r -> stop p = false ->
  step st =
    let tradeQty := Min (ms_rem st) (i64 (obe_Quantity m - obe_FilledQty m)) in
    if tradeQty <=? 0 then
      Some (mkMatchState (pop_maker (ms_book st) p rest) (ms_rem st) (ms_events st) (ms_seq st))
    else
      let '(seq, sq) := NextGlobalSeq (ms_seq st) in
      let event :=
        mkTradeExecutedEvent seq (now seq)
          (trade_id symbol (obe_OrderID order) (length (ms_events st))) symbol
          (obe_OrderID order) (obe_OrderID m) (obe_UserID order) (obe_UserID m)
          p tradeQty side in
      let m' := set_filled m (i64 (obe_FilledQty m + tradeQty)) in
      let book' := if obe_Quantity m' <=? obe_FilledQty m'
                   then pop_maker (ms_book st) p rest
                   else sl_set p (m' :: rest) (ms_book st) in
      Some (mkMatchState book' (i64 (ms_rem st - tradeQty)) (ms_events st ++ [event]) sq).
Proof.
  intros Hr He Hs. unfold match_step.
  rewrite sl_len_elements, sl_front_elements, He. simpl.
  destruct (Z.ltb_spec 0 (ms_rem st)); [|lia]. simpl. by rewrite Hs.
Qed.

Lemma step_stopped st : ms_rem st <= 0 -> step st = None.
Proof. intros. unfold match_step. destruct (Z.ltb_spec 0 (ms_rem st)); [lia|done]. Qed.

Lemma loop_stopped fuel st : step st = None -> loop fuel st = st.
Proof. destruct fuel; simpl; [done|]. by intros ->. Qed.

(** An iteration that is not the last removes an entry of the opposite side. *)
Lemma step_progress st st' :
  is_i64 (ms_rem st) -> Forall (fun pe => is_i64 (obe_Quantity pe.2)) (entries (ms_book st)) ->
  step st = Some st' ->
  step st' = None \/
  (is_i64 (ms_rem st') /\
   Forall (fun pe => is_i64 (obe_Quantity pe.2)) (entries (ms_book st')) /\
   S (length (entries (ms_book st'))) = length (entries (ms_book st))).
Proof.
  intros Hrem Hq Hstep.
  destruct (step_guard st) as [?|(Hpos & p & m & rest & r & He & Hs)]; [congruence|].
  rewrite (step_eq st p m rest r) in Hstep by done. cbv zeta in Hstep.
  assert (Hpop : Forall (fun pe => is_i64 (obe_Quantity pe.2)) (entries (pop_maker (ms_book st) p rest)) /\
          S (length (entries (pop_maker (ms_book st) p rest))) = length (entries (ms_book st))).
  { rewrite (pop_maker_entries _ _ m _ r) by done. rewrite He in Hq |- *. simpl in Hq |- *.
    inversion Hq; subst. done. }
  assert (Hmq : is_i64 (obe_Quantity m)).
  { rewrite He in Hq. simpl in Hq. by inversion Hq. }
  destruct Hpop as [Hpop Hlen].
  set (avail := i64 (obe_Quantity m - obe_FilledQty m)) in *.
  destruct (Min (ms_rem st) avail <=? 0) eqn:Htq.
  { simplify_eq/=. right. done. }
  destruct (NextGlobalSeq (ms_seq st)) as [seq sq]. injection Hstep as <-. simpl in *.
  unfold Min in *. destruct (Z.ltb_spec (ms_rem st) avail).
  - left. apply step_stopped. simpl. rewrite Z.sub_diag. done.
  - right. assert (Hfill : i64 (obe_FilledQty m + avail) = obe_Quantity m)
      by (apply i64_add_sub; done).
    rewrite Hfill, Z.leb_refl. auto using i64_range.
Qed.

Lemma loop_terminates fuel st :
  is_i64 (ms_rem st) -> Forall (fun pe => is_i64 (obe_Quantity pe.2)) (entries (ms_book st)) ->
  (length (entries (ms_book st)) < fuel)%nat ->
  step (loop fuel st) = None.
Proof.
  revert st. induction fuel as [|fuel IH]; intros st Hrem Hq Hlt; [lia|].
  simpl. destruct (step st) as [st'|] eqn:Hstep; [|done].
  destruct (step_progress st st' Hrem Hq Hstep) as [Hn|(? & ? & Hlen)].
  - by rewrite loop_stopped.
  - apply IH; auto. lia.
Qed.

(** The whole of a partial fill: the head entry is updated in place and nothing
    remains. *)
Lemma step_partial isBuy st p m rest r :
  side_ok isBuy (ms_book st) -> 0 < ms_rem st < open_qty m ->
  sl_elements (ms_book st) = (p, m :: rest) :: r -> stop p = false ->
  exists st', step st = Some st' /\ ms_rem st' = 0 /\
    entries (ms_book st') =
      (p, set_filled m (obe_FilledQty m + ms_rem st)) :: ((fun e => (p, e)) <$> rest) ++ flat r /\
    (ms_events st', ms_seq st') =
      (let '(evs, sq) := fill_events symbol side order now [(p, m, ms_rem st)]
                           (length (ms_events st)) (ms_seq st) in (ms_events st ++ evs, sq)) /\
    side_ok isBuy (ms_book st') /\ sl_comparable (ms_book st') = sl_comparable (ms_book st).
Proof.
  intros Hok [Hpos Hlt] He Hs. rewrite (step_eq st p m rest r) by done. cbv zeta.
  unfold side_ok in Hok. rewrite He in Hok. inversion Hok as [|? ? [_ Hf] Hr]; subst.
  inversion Hf as [|? ? Hm Hrest]; subst. destruct Hm as [Hfl Hmx Hpr Hsd]. simpl in *.
  unfold open_qty in *. i64_simpl. unfold Min.
  destruct (Z.ltb_spec (ms_rem st) (obe_Quantity m - obe_FilledQty m)); [|lia].
  destruct (Z.leb_spec (ms_rem st) 0); [lia|].
  destruct (NextGlobalSeq (ms_seq st)) as [q sq] eqn:Hq. eexists. split; [done|]. simpl.
  i64_simpl. rewrite Z.sub_diag.
  destruct (Z.leb_spec (obe_Quantity m) (obe_FilledQty m + ms_rem st)); [lia|].
  erewrite sl_set_front by done. rewrite sl_set_comparable. split_and!; try done.
  unfold side_ok. erewrite sl_set_front by done. constructor; [|done].
  split; [done|]. constructor; [|done]. split; simpl; auto; lia.
Qed.

(** A complete fill of the head entry. *)
Lemma step_full isBuy st p m rest r :
  side_ok isBuy (ms_book st) -> 0 < ms_rem st <= MaxI64 -> open_qty m <= ms_rem st ->
  sl_elements (ms_book st) = (p, m :: rest) :: r -> stop p = false ->
  exists st', step st = Some st' /\ ms_rem st' = ms_rem st - open_qty m /\
    entries (ms_book st') = ((fun e => (p, e)) <$> rest) ++ flat r /\
    (ms_events st', ms_seq st') =
      (let '(evs, sq) := fill_events symbol side order now [(p, m, open_qty m)]
                           (length (ms_events st)) (ms_seq st) in (ms_events st ++ evs, sq)) /\
    side_ok isBuy (ms_book st') /\ sl_comparable (ms_book st') = sl_comparable (ms_book st).
Proof.
  intros Hok [Hpos Hmax] Hle He Hs. rewrite (step_eq st p m rest r) by done. cbv zeta.
  pose proof (pop_maker_ok isBuy _ _ _ _ _ He Hok) as Hpop.
  unfold side_ok in Hok. rewrite He in Hok. inversion Hok as [|? ? [_ Hf] Hr]; subst.
  inversion Hf as [|? ? Hm Hrest]; subst. destruct Hm as [Hfl Hmx Hpr Hsd]. simpl in *.
  unfold open_qty in *. i64_simpl. unfold Min.
  destruct (Z.ltb_spec (ms_rem st) (obe_Quantity m - obe_FilledQty m)); [lia|].
  destruct (Z.leb_spec (obe_Quantity m - obe_FilledQty m) 0); [lia|].
  destruct (NextGlobalSeq (ms_seq st)) as [q sq] eqn:Hq. eexists. split; [done|]. simpl.
  i64_simpl. rewrite Zplus_minus, Z.leb_refl.
  split_and!; try done; [by eapply pop_maker_entries|apply pop_maker_comparable].
Qed.

Lemma fill_events_cons f fs n sq :
  fill_events symbol side order now (f :: fs) n sq =
    let '(e1, s1) := fill_events symbol side order now [f] n sq in
    let '(e2, s2) := fill_events symbol side order now fs (S n) s1 in (e1 ++ e2, s2).
Proof.
  destruct f as [[p e] q]. simpl. destruct (NextGlobalSeq sq). by destruct (fill_events _ _ _ _ fs _ _).
Qed.

Lemma fill_events_one_length f n sq :
  length (fill_events symbol side order now [f] n sq).1 = 1%nat.
Proof. destruct f as [[p e] q]. simpl. by destruct (NextGlobalSeq sq). Qed.

(** The loop computes the reference algorithm. *)
Lemma loop_greedy isBuy fuel st :
  side_ok isBuy (ms_book st) -> 0 <= ms_rem st <= MaxI64 ->
  (length (entries (ms_book st)) < fuel)%nat ->
  let st' := loop fuel st in
  let '(fs, r, rest) := fill_greedy stop (ms_rem st) (entries (ms_book st)) in
  ms_rem st' = r /\ entries (ms_book st') = rest /\
  (ms_events st', ms_seq st') =
    (let '(evs, sq) := fill_events symbol side order now fs (length (ms_events st)) (ms_seq st) in
     (ms_events st ++ evs, sq)) /\
  side_ok isBuy (ms_book st') /\ sl_comparable (ms_book st') = sl_comparable (ms_book st).
Proof.
  revert st. induction fuel as [|fuel IH]; intros st Hok Hrem Hlt; [lia|]. cbv zeta.
  destruct (sl_elements (ms_book st)) as [|[p q] r] eqn:He.
  { cbn [flat fill_greedy]. rewrite loop_stopped; [rewrite He; simpl; by rewrite app_nil_r|].
    destruct (step_guard st) as [->|(_ & p & m & t & r & ? & _)];
      [done|congruence]. }
  destruct q as [|m rest].
  { unfold side_ok in Hok. rewrite He in Hok. inversion Hok as [|? ? [Hne _]]; subst. done. }
  cbn [flat fmap list_fmap app fill_greedy].
  destruct ((ms_rem st <=? 0) || stop p) eqn:Hstop.
  { assert (Hn : step st = None).
    { destruct (step_guard st) as [?|(? & p' & m' & t & r' & He' & Hs)];
        [done|]. rewrite He in He'. simplify_eq. bool_props. destruct Hstop; [lia|congruence]. }
    rewrite loop_stopped, He by done. simpl. rewrite app_nil_r. auto. }
  apply orb_false_iff in Hstop as [Hpos Hs]. apply Z.leb_gt in Hpos.
  destruct (Z.ltb_spec (ms_rem st) (open_qty m)).
  - destruct (step_partial isBuy st p m rest r) as (st' & Hst & Hr0 & Hent & Hev & Hok' & Hc);
      auto. simpl. rewrite Hst.
    rewrite (loop_stopped fuel st') by (apply step_stopped; lia).
    auto.
  - destruct (step_full isBuy st p m rest r) as (st' & Hst & Hr0 & Hent & Hev & Hok' & Hc);
      auto; [lia|].
    assert (0 < open_qty m).
    { unfold side_ok in Hok. rewrite He in Hok. inversion Hok as [|? ? [_ Hf]]; subst.
      inversion Hf as [|? ? Hm]; subst. destruct Hm. unfold open_qty. lia. }
    simpl match_loop. rewrite Hst. specialize (IH st' Hok'). rewrite Hr0, Hent in IH.
    cbv zeta in IH. cbn [flat fmap list_fmap app length] in Hlt.
    specialize (IH ltac:(lia) ltac:(lia)).
    destruct (fill_greedy stop (ms_rem st - open_qty m) _) as [[fs r'] rest'].
    destruct IH as (? & ? & Hevs & ? & ?). rewrite fill_events_cons.
    pose proof (fill_events_one_length (p, m, open_qty m) (length (ms_events st)) (ms_seq st)) as Hone.
    destruct (fill_events _ _ _ _ [(p, m, open_qty m)] _ _) as [e1 s1].
    simpl in Hone. injection Hev as Hev1 Hev2. rewrite Hev1, Hev2 in Hevs.
    rewrite length_app, Hone, Nat.add_1_r in Hevs.
    destruct (fill_events symbol side order now fs _ s1) as [e2 s2]. rewrite app_assoc.
    split_and!; auto. congruence.
Qed.
End Loop.
End Matching.

(** ** What the reference algorithm does *)

Section Greedy.
Context (stop : Z -> bool).
Implicit Types (l : list (Z * OrderBookEntry)).

Definition open_entry (pe : Z * OrderBookEntry) : Prop := 0 < open_qty pe.2.

(** The taker's quantity is split between the fills and the remainder. *)
Lemma greedy_conserves rem l :
  let '(fs, r, _) := fill_greedy stop rem l in Zsum (fill_qty <$> fs) + r = rem.
Proof.
  revert rem. induction l as [|[p e] l IH]; intros rem; simpl; [lia|].
  destruct (_ || _); simpl; [lia|]. destruct (rem <? open_qty e); simpl; [lia|].
  specialize (IH (rem - open_qty e)). destruct (fill_greedy _ _ l) as [[fs r] rest].
  unfold fill_qty in *. csimpl in *. lia.
Qed.

Lemma greedy_rem rem l :
  Forall open_entry l -> 0 <= rem ->
  let '(_, r, _) := fill_greedy stop rem l in 0 <= r <= rem.
Proof.
  intros Hl. revert rem. induction Hl as [|[p e] l He Hl IH]; intros rem Hr; simpl; [lia|].
  destruct (_ || _); simpl; [lia|]. destruct (Z.ltb_spec rem (open_qty e)); simpl; [lia|].
  specialize (IH (rem - open_qty e) ltac:(lia)). destruct (fill_greedy _ _ l) as [[fs r] rest].
  unfold open_entry in He. simpl in *. lia.
Qed.

(** The resting quantity goes down by exactly what was filled. *)
Lemma greedy_resting rem l :
  let '(fs, _, rest) := fill_greedy stop rem l in
  Zsum ((fun pe => open_qty pe.2) <$> l) =
    Zsum (fill_qty <$> fs) + Zsum ((fun pe => open_qty pe.2) <$> rest).
Proof.
  revert rem. induction l as [|[p e] l IH]; intros rem; simpl; [lia|].
  destruct (_ || _); simpl; [lia|].
  destruct (rem <? open_qty e); simpl; [unfold open_qty at 3; simpl; unfold open_qty; lia|].
  specialize (IH (rem - open_qty e)). destruct (fill_greedy _ _ l) as [[fs r] rest].
  unfold fill_qty in *. csimpl in *. lia.
Qed.

(** Every fill takes a positive part of a resting entry whose price crosses. *)
Lemma greedy_fills rem l :
  Forall open_entry l ->
  let '(fs, _, _) := fill_greedy stop rem l in
  Forall (fun f => 0 < fill_qty f <= open_qty (fill_maker f) /\ stop (fill_price f) = false /\
                   (fill_price f, fill_maker f) ∈ l) fs.
Proof.
  intros Hl. revert rem. induction Hl as [|[p e] l He Hl IH]; intros rem; simpl; [constructor|].
  unfold open_entry in He. simpl in He. destruct (_ || _) eqn:Hs; [constructor|].
  apply orb_false_iff in Hs as [Hr%Z.leb_gt Hs].
  destruct (Z.ltb_spec rem (open_qty e)).
  - apply Forall_singleton. unfold fill_qty, fill_maker, fill_price. simpl.
    split_and!; [lia|lia|done|left].
  - specialize (IH (rem - open_qty e)). destruct (fill_greedy _ _ l) as [[fs r] rest].
    constructor.
    + unfold fill_qty, fill_maker, fill_price. simpl. split_and!; [lia|lia|done|left].
    + eapply Forall_impl; [exact IH|]. simpl. intros f ([? ?] & ? & ?).
      split_and!; try done. by right.
Qed.

(** Price-time priority: the makers are a prefix of the book's traversal, every
    one but the last is filled completely, and the entries behind the last maker
    are left as they are. *)
Lemma greedy_priority rem l :
  let '(fs, _, rest) := fill_greedy stop rem l in
  fst <$> fs = take (length fs) l /\
  (forall i f, (S i < length fs)%nat -> fs !! i = Some f -> fill_qty f = open_qty (fill_maker f)) /\
  drop (length fs) l `suffix_of` rest.
Proof.
  revert rem. induction l as [|[p e] l IH]; intros rem; simpl; [done|].
  destruct (_ || _); [done|]. destruct (Z.ltb_spec rem (open_qty e)).
  { simpl. split_and!; [done|intros; lia|apply suffix_cons_r; by rewrite drop_0]. }
  specialize (IH (rem - open_qty e)). destruct (fill_greedy _ _ l) as [[fs r] rest].
  destruct IH as (Hfs & Hall & Hsuf). csimpl. rewrite Hfs. split_and!; [done| |done].
  intros [|i] f Hi Hf; simplify_eq/=; [done|]. apply (Hall i); [lia|done].
Qed.

Lemma greedy_prices rem l :
  let '(_, _, rest) := fill_greedy stop rem l in
  forall p e, (p, e) ∈ rest -> p ∈ fst <$> l.
Proof.
  revert rem. induction l as [|[p e] l IH]; intros rem; simpl; [by intros ? ? ?%elem_of_nil|].
  destruct (_ || _).
  { intros p' e' Hin. by apply (list_elem_of_fmap_2 fst) in Hin. }
  destruct (rem <? open_qty e).
  { intros p' e' [?|Hin]%elem_of_cons; simplify_eq/=; [left|]. right.
    by apply (list_elem_of_fmap_2 fst) in Hin. }
  specialize (IH (rem - open_qty e)). destruct (fill_greedy _ _ l) as [[fs r] rest].
  intros p' e' Hin. right. by eapply IH.
Qed.

(** What is left are entries of the list, up to their filled quantity. *)
Lemma greedy_rest rem l :
  let '(_, _, rest) := fill_greedy stop rem l in
  forall p e, (p, e) ∈ rest -> exists e0, (p, e0) ∈ l /\ (e = e0 \/ exists q, e = set_filled e0 q).
Proof.
  revert rem. induction l as [|[p e] l IH]; intros rem; simpl; [by intros ? ? ?%elem_of_nil|].
  destruct (_ || _); [eauto|].
  destruct (rem <? open_qty e).
  { intros p' e' [?|Hin]%elem_of_cons; simplify_eq/=; [|eauto using list_elem_of_further].
    exists e. split; [left|eauto]. }
  specialize (IH (rem - open_qty e)). destruct (fill_greedy _ _ l) as [[fs r] rest].
  intros p' e' Hin. destruct (IH _ _ Hin) as (e0 & ? & ?). eauto using list_elem_of_further.
Qed.

(** When something remains, the walk ended at a price that does not cross. *)
Lemma greedy_exhausts rem l :
  let '(_, r, rest) := fill_greedy stop rem l in
  0 < r -> match rest with [] => True | (p, _) :: _ => stop p = true end.
Proof.
  revert rem. induction l as [|[p e] l IH]; intros rem; simpl; [done|].
  destruct (_ || _) eqn:Hs.
  { intros Hr. apply orb_true_iff in Hs as [?%Z.leb_le|?]; [lia|done]. }
  destruct (rem <? open_qty e); [lia|].
  specialize (IH (rem - open_qty e)). by destruct (fill_greedy _ _ l) as [[fs r] rest].
Qed.

Lemma fill_events_lookup symbol side order now fs n sq i ev :
  (fill_events symbol side order now fs n sq).1 !! i = Some ev ->
  exists f, fs !! i = Some f /\
    te_TradeID ev = trade_id symbol (obe_OrderID order) (n + i) /\ te_SymbolStr ev = symbol /\
    te_TakerOrderID ev = obe_OrderID order /\ te_TakerUser ev = obe_UserID order /\
    te_MakerOrderID ev = obe_OrderID (fill_maker f) /\
    te_MakerUser ev = obe_UserID (fill_maker f) /\
    te_Price ev = fill_price f /\ te_Quantity ev = fill_qty f /\ te_TakerSide ev = side.
Proof.
  revert n sq i. induction fs as [|[[p e] q] fs IH]; intros n sq i; simpl; [done|].
  destruct (NextGlobalSeq sq) as [s sq1]. specialize (IH (S n) sq1).
  destruct (fill_events _ _ _ _ fs _ _) as [evs sq2]. destruct i as [|i]; simpl; intros Hev.
  - simplify_eq/=. eexists. rewrite Nat.add_0_r. by split_and!.
  - rewrite Nat.add_succ_r. by apply (IH i).
Qed.

Lemma fill_events_length symbol side order now fs n sq :
  length (fill_events symbol side order now fs n sq).1 = length fs.
Proof.
  revert n sq. induction fs as [|[[p e] q] fs IH]; intros n sq; simpl; [done|].
  destruct (NextGlobalSeq sq) as [s sq1]. specialize (IH (S n) sq1).
  destruct (fill_events _ _ _ _ fs _ _). csimpl in *. by rewrite IH.
Qed.

(** The events draw their numbers from the sequencer, one each, in order. *)
Lemma fill_events_seqs symbol side order now fs n sq :
  let '(evs, sq') := fill_events symbol side order now fs n sq in
  (te_Seq <$> evs, sq') = draw_seqs (length fs) sq.
Proof.
  revert n sq. induction fs as [|[[p e] q] fs IH]; intros n sq; simpl; [done|].
  destruct (NextGlobalSeq sq) as [s sq1]. specialize (IH (S n) sq1).
  destruct (fill_events _ _ _ _ fs _ _) as [evs sq2]. destruct (draw_seqs _ sq1) as [qs s2].
  simpl. by simplify_eq.
Qed.

Lemma fill_events_qtys symbol side order now fs n sq :
  te_Quantity <$> (fill_events symbol side order now fs n sq).1 = fill_qty <$> fs.
Proof.
  revert n sq. induction fs as [|[[p e] q] fs IH]; intros n sq; simpl; [done|].
  destruct (NextGlobalSeq sq) as [s sq1]. specialize (IH (S n) sq1).
  destruct (fill_events _ _ _ _ fs _ _). csimpl in *. by rewrite IH.
Qed.
End Greedy.
