(* ===== verification/BookSpec.v ===== *)
(** * The order book against its abstract specification

    Abstractly a book is two lists of resting entries in price-time order, and
    an order is matched by [fill_greedy] over the opposite list and inserted into
    its own.  The operations of src/biz/service/orderbook.go, on skip lists of
    queues and machine integers, are shown to refine it for every skip list that
    satisfies the laws of SkipList.v, whatever order that list keeps. *)

From stdpp Require Import base gmap strings list sorting pretty.
From Stdlib Require Import ZArith Lia SpecFloat.
From S2P Require Import Prelude Money Events Sequencer SkipList OrderBook Matching.

Local Open Scope go_scope.
Local Open Scope Z_scope.

Definition is_buy (order : OrderBookEntry) : bool := obe_Side order =s "buy".

(** The test on which the loop over the opposite side stops. *)
Definition no_cross (order : OrderBookEntry) (p : Z) : bool :=
  if is_buy order then obe_Price order <? p else p <? obe_Price order.

Definition taker_side (order : OrderBookEntry) : string := if is_buy order then "buy" else "sell".

(** A quantity an int64 holds; [MatchOrder] itself does not check its sign. *)
Definition order_ok (order : OrderBookEntry) : Prop := 0 <= obe_Quantity order <= MaxI64.

(** ** The abstract book *)

Record abs_book := mkAbsBook {
  ab_bids : list (Z * OrderBookEntry);
  ab_asks : list (Z * OrderBookEntry) }.

(** Insert behind every entry whose price does not come after. *)
Fixpoint abs_insert (before : Z -> Z -> bool) (p : Z) (e : OrderBookEntry)
    (l : list (Z * OrderBookEntry)) : list (Z * OrderBookEntry) :=
  match l with
  | [] => [(p, e)]
  | (p', e') :: l' => if before p p' then (p, e) :: l else (p', e') :: abs_insert before p e l'
  end.

Definition abs_add (before : Z -> Z -> bool) (order : OrderBookEntry) (r : Z)
    (l : list (Z * OrderBookEntry)) : list (Z * OrderBookEntry) :=
  if 0 <? r then abs_insert before (obe_Price order) (set_quantity_filled order r 0) l else l.

(** Match [order]; [bb] and [ba] are the orders the two sides are kept in. *)
Definition abs_match (bb ba : Z -> Z -> bool) (b : abs_book) (order : OrderBookEntry)
    : abs_book * list fill * Z :=
  if is_buy order then
    let '(fs, r, asks) := fill_greedy (no_cross order) (obe_Quantity order) (ab_asks b) in
    (mkAbsBook (abs_add bb order r (ab_bids b)) asks, fs, r)
  else
    let '(fs, r, bids) := fill_greedy (no_cross order) (obe_Quantity order) (ab_bids b) in
    (mkAbsBook bids (abs_add ba order r (ab_asks b)), fs, r).

Definition abs_remove (p : Z) (id : string) (l : list (Z * OrderBookEntry))
    : list (Z * OrderBookEntry) :=
  List.filter (fun pe => negb ((pe.1 =? p) && (obe_OrderID pe.2 =s id))) l.

Section Spec.
Context {sl : Type -> Type} {Hsl : SkipList sl} {Hlaws : SkipListLaws sl}.
Implicit Types (book : sl (list OrderBookEntry)) (ob : OrderBook sl).

Abbreviation entries book := (flat (sl_elements book)).
Abbreviation before_bid := (sl_before PriceComparatorDesc).
Abbreviation before_ask := (sl_before PriceComparatorAsc).

Definition abs ob : abs_book := mkAbsBook (entries (ob_buys ob)) (entries (ob_sells ob)).

(** The representation invariant of a book. *)
Record book_ok ob : Prop := {
  bo_buys : side_ok true (ob_buys ob);
  bo_sells : side_ok false (ob_sells ob);
  bo_desc : sl_comparable (ob_buys ob) = PriceComparatorDesc;
  bo_asc : sl_comparable (ob_sells ob) = PriceComparatorAsc }.

Definition opposite ob (order : OrderBookEntry) : sl (list OrderBookEntry) :=
  if is_buy order then ob_sells ob else ob_buys ob.

Lemma flat_app l1 l2 : flat (l1 ++ l2) = flat l1 ++ flat l2.
Proof. induction l1 as [|[p q] l1 IH]; simpl; [done|]. by rewrite IH, app_assoc. Qed.

Lemma elem_of_flat p e l : (p, e) ∈ flat l <-> exists q, (p, q) ∈ l /\ e ∈ q.
Proof.
  induction l as [|[p' q] l IH]; simpl.
  { split; [by intros ?%elem_of_nil|]. by intros (? & ?%elem_of_nil & _). }
  rewrite elem_of_app, IH, list_elem_of_fmap. split.
  - intros [(e' & ? & ?)|(q' & ? & ?)]; simplify_eq; eauto using list_elem_of_here, list_elem_of_further.
  - intros (q' & [?|?]%elem_of_cons & ?); simplify_eq; eauto.
Qed.

(** Everything an entry of a well-formed side satisfies. *)
Lemma side_ok_entry isBuy book p e :
  side_ok isBuy book -> (p, e) ∈ entries book -> entry_ok isBuy p e.
Proof.
  intros Hok (q & Hq & He)%elem_of_flat. unfold side_ok in Hok. rewrite Forall_forall in Hok.
  destruct (Hok _ Hq) as [_ Hf]. simpl in Hf. rewrite Forall_forall in Hf. auto.
Qed.

Lemma side_ok_open isBuy book : side_ok isBuy book -> Forall open_entry (entries book).
Proof.
  intros Hok. apply Forall_forall. intros [p e] Hin.
  destruct (side_ok_entry _ _ _ _ Hok Hin). unfold open_entry, open_qty. simpl. lia.
Qed.

Lemma side_ok_i64 isBuy book :
  side_ok isBuy book -> Forall (fun pe => is_i64 (obe_Quantity pe.2)) (entries book).
Proof.
  intros Hok. apply Forall_forall. intros [p e] Hin.
  destruct (side_ok_entry _ _ _ _ Hok Hin). simpl. solve_i64.
Qed.

(** *** Adding the remainder *)

Lemma add_to_side_split book order r :
  exists l1 l2 q, sl_elements (add_to_side book order r) =
      l1 ++ (obe_Price order, q ++ [set_quantity_filled order r 0]) :: l2 /\
    entries book = flat l1 ++ ((fun e => (obe_Price order, e)) <$> q) ++ flat l2 /\
    ((exists w, (obe_Price order, w) ∈ sl_elements book /\ q = w) \/ q = []) /\
    (forall lv, lv ∈ l1 ++ l2 -> lv ∈ sl_elements book).
Proof.
  unfold add_to_side.
  destruct (sl_set_split (obe_Price order)
              (default [] (sl_get (obe_Price order) book) ++ [set_quantity_filled order r 0]) book)
    as [(l1 & w & l2 & He & Hg & Hs)|(l1 & l2 & He & Hg & Hs)]; rewrite Hg in *; simpl in *.
  - exists l1, l2, w. rewrite Hs, He, flat_app. split_and!; auto; [|set_solver].
    left. exists w. split; [set_solver|done].
  - exists l1, l2, []. rewrite Hs, He, flat_app. split_and!; auto.
Qed.

Lemma add_to_side_ok isBuy book order r :
  side_ok isBuy book -> is_buy order = isBuy -> 0 < r <= MaxI64 ->
  side_ok isBuy (add_to_side book order r).
Proof.
  intros Hok Hb Hr. unfold side_ok.
  destruct (add_to_side_split book order r) as (l1 & l2 & q & -> & _ & Hq & Hin).
  unfold side_ok in Hok. rewrite Forall_forall in Hok.
  apply Forall_app. split; [apply Forall_forall; intros; apply Hok, Hin; set_solver|].
  constructor; [|apply Forall_forall; intros; apply Hok, Hin; set_solver].
  split; [by destruct q|]. apply Forall_app. split; simpl.
  - destruct Hq as [(w & Hw & ->)| ->]; [|done]. by destruct (Hok _ Hw).
  - apply Forall_singleton. split; simpl; auto; lia.
Qed.

Lemma abs_insert_skip before p e l1 l2 :
  (forall pe, pe ∈ l1 -> before p pe.1 = false) ->
  abs_insert before p e (l1 ++ l2) = l1 ++ abs_insert before p e l2.
Proof.
  induction l1 as [|[p' e'] l1 IH]; simpl; intros Hl; [done|].
  pose proof (Hl (p', e') ltac:(left)) as Hb. simpl in Hb. rewrite Hb. f_equal. apply IH.
  intros. apply Hl. by right.
Qed.

Lemma abs_insert_here before p e l :
  (forall pe, pe ∈ l -> before p pe.1 = true) -> abs_insert before p e l = (p, e) :: l.
Proof.
  destruct l as [|[p' e'] l]; simpl; intros Hl; [done|].
  pose proof (Hl (p', e') ltac:(left)) as Hb. simpl in Hb. by rewrite Hb.
Qed.

Lemma strict_total_asym b x y : strict_total b -> b x y = true -> b y x = false.
Proof.
  intros Hst Hxy. destruct (b y x) eqn:Hyx; [|done].
  pose proof (st_trans b Hst x y x Hxy Hyx). pose proof (st_irrefl b Hst x). congruence.
Qed.

Lemma add_to_side_refines book order r :
  strict_total (sl_before (sl_comparable book)) ->
  entries (add_to_side book order r) =
    abs_insert (sl_before (sl_comparable book)) (obe_Price order)
      (set_quantity_filled order r 0) (entries book).
Proof.
  intros Hst. pose proof (sl_sorted _ (add_to_side book order r)) as Hsort.
  assert (Hc : sl_comparable (add_to_side book order r) = sl_comparable book)
    by apply sl_set_comparable.
  rewrite Hc in Hsort. specialize (Hsort Hst).
  destruct (add_to_side_split book order r) as (l1 & l2 & q & He & Hent & _ & _).
  rewrite He in *. rewrite fmap_app, fmap_cons in Hsort. simpl in Hsort.
  apply StronglySorted_app in Hsort as (Hx & _ & Hy). apply StronglySorted_cons in Hy as [Hy _].
  rewrite Forall_forall in Hy.
  rewrite Hent, app_assoc, flat_app. cbn [flat]. rewrite fmap_app.
  rewrite abs_insert_skip, abs_insert_here.
  - by rewrite <- !app_assoc.
  - intros [p e] (w & Hw & _)%elem_of_flat. apply Is_true_true, Hy. simpl.
    apply list_elem_of_fmap. by exists (p, w).
  - intros [p e] [(w & Hw & _)%elem_of_flat|(e' & ? & _)%list_elem_of_fmap]%elem_of_app; simplify_eq/=.
    + apply strict_total_asym; [done|]. apply Is_true_true. apply Hx; [|left].
      apply list_elem_of_fmap. by exists (p, w).
    + by apply st_irrefl.
Qed.

(** *** [MatchOrder] *)

Definition own ob (order : OrderBookEntry) : sl (list OrderBookEntry) :=
  if is_buy order then ob_buys ob else ob_sells ob.

Lemma own_ok ob order : book_ok ob -> side_ok (is_buy order) (own ob order).
Proof. intros [? ? _ _]. unfold own. by destruct (is_buy order). Qed.

Lemma opposite_ok ob order : book_ok ob -> side_ok (negb (is_buy order)) (opposite ob order).
Proof. intros [? ? _ _]. unfold opposite. by destruct (is_buy order). Qed.

(** The matching loop of [MatchOrder], whichever side it runs on. *)
Lemma matchOrder_loop now ob order sq :
  (if is_buy order then matchBuyOrder now ob order (obe_Quantity order) sq
   else matchSellOrder now ob order (obe_Quantity order) sq) =
  match_loop (ob_symbol ob) (taker_side order) order (no_cross order) now
    (S (book_size (opposite ob order)))
    (mkMatchState (opposite ob order) (obe_Quantity order) [] sq).
Proof.
  unfold taker_side, no_cross, opposite, matchBuyOrder, matchSellOrder.
  by destruct (is_buy order).
Qed.

Lemma match_order_spec now ob order sq :
  book_ok ob -> order_ok order ->
  let res := MatchOrder now ob order sq in
  let '(fs, r, rest) :=
    fill_greedy (no_cross order) (obe_Quantity order) (entries (opposite ob order)) in
  mr_remaining res = r /\ entries (opposite (mr_book res) order) = rest /\
  (mr_events res, mr_seq res) =
    fill_events (ob_symbol ob) (taker_side order) order now fs 0 sq /\
  own (mr_book res) order =
    (if 0 <? r then add_to_side (own ob order) order r else own ob order) /\
  book_ok (mr_book res) /\ ob_symbol (mr_book res) = ob_symbol ob /\
  ob_orders (mr_book res) = <[obe_OrderID order := order]> (ob_orders ob).
Proof.
  intros Hok Ho. cbv zeta. unfold MatchOrder. fold (is_buy order). rewrite matchOrder_loop.
  pose proof (loop_greedy (ob_symbol ob) (taker_side order) order (no_cross order) now
    (negb (is_buy order)) (S (book_size (opposite ob order)))
    (mkMatchState (opposite ob order) (obe_Quantity order) [] sq)
    (opposite_ok _ _ Hok) Ho) as Hg.
  rewrite book_size_entries in Hg |- *. specialize (Hg ltac:(simpl; lia)). cbv zeta in Hg.
  pose proof (greedy_rem (no_cross order) (obe_Quantity order) (entries (opposite ob order))
    (side_ok_open _ _ (opposite_ok ob order Hok)) (proj1 Ho)) as Hrem.
  set (st := match_loop _ _ _ _ _ _ _) in *. cbn [ms_rem ms_book] in Hg.
  destruct (fill_greedy _ _ _) as [[fs r] rest].
  destruct Hg as (Hr & Hent & Hev & Hside & Hcmp). simpl in Hev.
  destruct (fill_events _ _ _ _ fs _ _) as [evs sq'].
  assert (Hmax : r <= MaxI64) by (destruct Ho; lia).
  destruct Hok as [Hb Hs Hd Ha]. unfold own, opposite, addOrderToBook in *.
  fold (is_buy order). simplify_eq. destruct (is_buy order) eqn:Hib; simpl in *;
    destruct (Z.ltb_spec 0 (ms_rem st)); simpl; split_and!; auto; split; simpl; auto;
    try congruence; try (unfold add_to_side; rewrite sl_set_comparable; done);
    apply add_to_side_ok; auto.
Qed.

Lemma cancel_in_side_ok isBuy book p id :
  side_ok isBuy book -> side_ok isBuy (cancel_in_side book p id).
Proof.
  intros Hok. unfold side_ok, cancel_in_side in *. destruct (sl_get p book) as [q|] eqn:Hg; [|done].
  pose proof Hg as Hin. rewrite sl_get_elements in Hin. apply lookup_key_Some in Hin.
  rewrite Forall_forall in Hok. destruct (Hok _ Hin) as [_ Hq]. simpl in Hq.
  destruct (List.filter _ q) as [|e0 q0] eqn:Hf; apply Forall_forall; intros lv Hlv.
  - rewrite sl_remove_elements in Hlv. apply list_elem_of_In, List.filter_In in Hlv as [? _].
    by apply Hok, list_elem_of_In.
  - destruct (sl_set_split p (e0 :: q0) book) as [(l1 & w & l2 & He & Hg' & Hs)|(l1 & l2 & He & Hg' & Hs)];
      [|congruence]. rewrite Hs in Hlv.
    apply elem_of_app in Hlv as [?|[->|?]%elem_of_cons];
      [apply Hok; rewrite He; set_solver| |apply Hok; rewrite He; set_solver].
    split; [done|]. simpl. rewrite <- Hf. apply Forall_forall. intros e Hine.
    apply list_elem_of_In, List.filter_In in Hine as [Hine _].
    rewrite Forall_forall in Hq. by apply Hq, list_elem_of_In.
Qed.

Lemma cancel_in_side_comparable book p id :
  sl_comparable (cancel_in_side book p id) = sl_comparable book.
Proof.
  unfold cancel_in_side. destruct (sl_get p book); [|done].
  destruct (List.filter _ _); [apply sl_remove_comparable|apply sl_set_comparable].
Qed.

Lemma filter_flat_other p id l :
  p ∉ keys l -> abs_remove p id (flat l) = flat l.
Proof.
  unfold abs_remove. induction l as [|[k q] l IH]; [done|]. rewrite fmap_cons, not_elem_of_cons.
  cbn [flat fst]. intros [Hk Hn]. rewrite List.filter_app, IH by done. f_equal.
  induction q as [|e q IHq]; [done|]. csimpl. destruct (Z.eqb_spec k p); [congruence|].
  simpl. by rewrite IHq.
Qed.

Lemma filter_level p id (q : list OrderBookEntry) :
  abs_remove p id ((fun e => (p, e)) <$> q) =
    ((fun e => (p, e)) <$> List.filter (fun e => negb (obe_OrderID e =s id)) q).
Proof.
  unfold abs_remove. induction q as [|e q IH]; [done|]. csimpl. rewrite Z.eqb_refl. simpl.
  destruct (negb _); csimpl; by rewrite IH.
Qed.

Lemma abs_remove_app p id l1 l2 : abs_remove p id (l1 ++ l2) = abs_remove p id l1 ++ abs_remove p id l2.
Proof. apply List.filter_app. Qed.

(** Cancelling removes the entries of that order from the level, and nothing
    else. *)
Lemma cancel_in_side_refines book p id :
  entries (cancel_in_side book p id) = abs_remove p id (entries book).
Proof.
  unfold cancel_in_side. destruct (sl_get p book) as [q|] eqn:Hg.
  2:{ rewrite sl_get_elements in Hg. apply lookup_key_None in Hg. by rewrite filter_flat_other. }
  pose proof Hg as Hin. rewrite sl_get_elements in Hin. apply lookup_key_Some in Hin.
  apply list_elem_of_split in Hin as (l1 & l2 & He).
  pose proof (sl_nodup _ book) as Hnd. rewrite He, fmap_app, fmap_cons in Hnd. simpl in Hnd.
  apply NoDup_app in Hnd as (_ & Hd1 & Hd2). apply NoDup_cons in Hd2 as [Hd2 _].
  assert (Hn1 : p ∉ keys l1) by (intros Hx; apply (Hd1 _ Hx); left).
  rewrite He, flat_app, abs_remove_app. cbn [flat].
  rewrite abs_remove_app, !filter_flat_other, filter_level by done.
  destruct (List.filter _ q) as [|e0 q0] eqn:Hf.
  - rewrite sl_remove_elements, He, List.filter_app. cbn. rewrite Z.eqb_refl. simpl.
    by rewrite !filter_ne_notin, flat_app by done.
  - rewrite sl_set_present by (rewrite He, fmap_app; set_solver).
    rewrite He, fmap_app, fmap_cons, Z.eqb_refl, !update_ne_notin, flat_app by done. done.
Qed.

Lemma cancel_order_ok ob id : book_ok ob -> book_ok (CancelOrder ob id).1.
Proof.
  intros Hok. unfold CancelOrder. destruct (ob_orders ob !! id) as [order|]; [|done].
  destruct (0 <? obe_FilledQty order); [done|]. destruct Hok.
  destruct (obe_Side order =s "buy"); split; simpl; auto using cancel_in_side_ok;
    by rewrite cancel_in_side_comparable.
Qed.

Lemma new_book_ok symbol : book_ok (NewOrderBook (sl := sl) symbol).
Proof.
  split; simpl; [| |apply sl_new_comparable|apply sl_new_comparable];
    unfold side_ok; rewrite sl_new_elements; constructor.
Qed.
End Spec.
