(* ===== verification/BookProps.v ===== *)
(** * Properties of the order book

    The theorems on [MatchOrder], [CancelOrder] and [GetDepth] of
    src/biz/service/orderbook.go, each for every skip list that satisfies the
    laws of SkipList.v; [OrdList by_compare] is the list the witnesses run on. *)

From stdpp Require Import base gmap strings list sorting pretty.
From Stdlib Require Import ZArith Lia SpecFloat Ascii.
From S2P Require Import Prelude Money Events Sequencer SkipList OrderBook Matching BookSpec.

Local Open Scope go_scope.
Local Open Scope Z_scope.

(** ** Concrete books for the witnesses *)

Definition ask (id : string) (price qty filled : Z) : OrderBookEntry :=
  mkOrderBookEntry id ("u-" +:+ id) "BTC" "sell" price qty filled 0 0.
Definition bid (id : string) (price qty filled : Z) : OrderBookEntry :=
  mkOrderBookEntry id ("u-" +:+ id) "BTC" "buy" price qty filled 0 0.

Abbreviation cmp_list := (OrdList by_compare).
Abbreviation score_list := (OrdList by_score).

(** Orders submitted one after the other to an empty book. *)
Definition submit_all {sl} `{SkipList sl} (orders : list OrderBookEntry) (sq : Sequencer)
    : OrderBook sl * Sequencer :=
  fold_left (fun '(ob, s) o => let r := MatchOrder (fun q => q) ob o s in (mr_book r, mr_seq r))
    orders (NewOrderBook "BTC", sq).

Definition demo_book : OrderBook cmp_list :=
  (submit_all [ask "a1" 101 5 0; ask "a2" 100 2 0; ask "a3" 100 4 0; bid "b1" 99 7 0] NewSequencer).1.

(** ** Trade IDs *)

Fixpoint no_dash (s : string) : bool :=
  match s with
  | EmptyString => true
  | String c s' => negb (Ascii.eqb c (Ascii.ascii_of_nat 45)) && no_dash s'
  end.

Lemma no_dash_app s t : no_dash (s +:+ t) = no_dash s && no_dash t.
Proof. induction s as [|c s IH]; simpl; [done|]. by rewrite IH, andb_assoc. Qed.

Lemma split_last_dash a a' d d' :
  no_dash d = true -> no_dash d' = true ->
  a +:+ "-" +:+ d = a' +:+ "-" +:+ d' -> a = a' /\ d = d'.
Proof.
  intros Hd Hd'. revert a'. induction a as [|c a IH]; intros [|c' a'] Heq; simpl in Heq.
  - injection Heq as Heq. done.
  - injection Heq as <- Heq. change (d = a' +:+ "-" +:+ d') in Heq. subst d. rewrite !no_dash_app in Hd. by bool_props.
  - injection Heq as -> Heq. change (a +:+ "-" +:+ d = d') in Heq. subst d'. rewrite !no_dash_app in Hd'. by bool_props.
  - injection Heq as -> Heq. by apply IH in Heq as [-> ->].
Qed.

Lemma pretty_N_go_no_dash (n : N) s : no_dash s = true -> no_dash (pretty_N_go n s) = true.
Proof.
  revert s. induction (N.lt_wf_0 n) as [n _ IH]. intros s Hs.
  destruct (decide (n = 0)%N) as [->|]; [by rewrite pretty_N_go_0|].
  rewrite pretty_N_go_step by lia. apply IH; [apply N.div_lt; lia|].
  simpl. rewrite Hs, andb_true_r. unfold pretty_N_char.
  by repeat case_match.
Qed.

Lemma pretty_nat_no_dash (n : nat) : no_dash (pretty (Z.of_nat n)) = true.
Proof.
  destruct n as [|n]; [done|]. unfold pretty, pretty_Z. simpl.
  change (no_dash (pretty_N (N.pos (Pos.of_succ_nat n))) = true).
  unfold pretty_N. case_decide; [done|]. by apply pretty_N_go_no_dash.
Qed.

Lemma trade_id_inj symbol o o' n n' :
  trade_id symbol o n = trade_id symbol o' n' -> o = o' /\ n = n'.
Proof.
  unfold trade_id. intros Heq. apply (inj (String.append symbol)) in Heq.
  apply (inj (String.append "-")) in Heq.
  apply split_last_dash in Heq as [-> Heq]; [|apply pretty_nat_no_dash..].
  apply (inj pretty) in Heq. split; [done|lia].
Qed.

Section Props.
Context {sl : Type -> Type} {Hsl : SkipList sl} {Hlaws : SkipListLaws sl}.
Implicit Types (book : sl (list OrderBookEntry)) (ob : OrderBook sl).

Abbreviation entries book := (flat (sl_elements book)).

(** ** Reachable books *)

Inductive book_op : Type :=
| OpMatch (order : OrderBookEntry) (sq : Sequencer) (now : Z -> Z)
| OpCancel (orderID : string).

Definition run_op ob (op : book_op) : OrderBook sl :=
  match op with
  | OpMatch order sq now => mr_book (MatchOrder now ob order sq)
  | OpCancel id => (CancelOrder ob id).1
  end.

(** The operations a book serves: orders with a non-negative int64 quantity. *)
Inductive book_reachable (symbol : string) : OrderBook sl -> Prop :=
| reach_new : book_reachable symbol (NewOrderBook symbol)
| reach_match ob order sq now :
    book_reachable symbol ob -> order_ok order ->
    book_reachable symbol (run_op ob (OpMatch order sq now))
| reach_cancel ob id :
    book_reachable symbol ob -> book_reachable symbol (run_op ob (OpCancel id)).

Lemma match_order_ok now ob order sq :
  book_ok ob -> order_ok order -> book_ok (mr_book (MatchOrder now ob order sq)).
Proof.
  intros Hok Ho. pose proof (match_order_spec now ob order sq Hok Ho) as H. cbv zeta in H.
  destruct (fill_greedy _ _ _) as [[fs r] rest]. tauto.
Qed.

Lemma reachable_ok symbol ob : book_reachable symbol ob -> book_ok ob.
Proof.
  induction 1; simpl; [apply new_book_ok|by apply match_order_ok|by apply cancel_order_ok].
Qed.

(** C10: every book reachable from an empty one by matching and cancelling keeps
    its representation invariant: no empty price level, every resting entry open
    (0 <= FilledQty < Quantity, within int64), stored under its own price and on
    its own side, and the sides sorted by their comparators. *)
Theorem book_invariant symbol ob : book_reachable symbol ob -> book_ok ob.
Proof. apply reachable_ok. Qed.

(** C2: the matching loops terminate: run for one iteration more than there are
    resting entries on the opposite side, whatever the sign or size of the fields
    of those entries, the loop of [MatchOrder] has reached its exit. *)
Theorem match_loop_terminates now ob order sq :
  is_i64 (obe_Quantity order) ->
  Forall (fun pe => is_i64 (obe_Quantity pe.2)) (entries (opposite ob order)) ->
  match_step (ob_symbol ob) (taker_side order) order (no_cross order) now
    (if is_buy order then matchBuyOrder now ob order (obe_Quantity order) sq
     else matchSellOrder now ob order (obe_Quantity order) sq) = None.
Proof.
  intros Hq Hall. rewrite matchOrder_loop. apply loop_terminates; simpl; auto.
  rewrite book_size_entries. lia.
Qed.

(** C1: [MatchOrder] refines the abstract book: its two sides, seen as lists of
    entries in traversal order, its remaining quantity and its events are those
    of the price-time algorithm, with one sequence number drawn per trade. *)
Theorem match_order_refines now ob order sq :
  book_ok ob -> order_ok order ->
  strict_total (sl_before PriceComparatorDesc) -> strict_total (sl_before PriceComparatorAsc) ->
  let res := MatchOrder now ob order sq in
  let '(b, fs, r) :=
    abs_match (sl_before PriceComparatorDesc) (sl_before PriceComparatorAsc) (abs ob) order in
  abs (mr_book res) = b /\ mr_remaining res = r /\
  (mr_events res, mr_seq res) =
    fill_events (ob_symbol ob) (taker_side order) order now fs 0 sq.
Proof.
  intros Hok Ho Hd Ha. pose proof (match_order_spec now ob order sq Hok Ho) as H.
  cbv zeta in H |- *. unfold abs_match, abs, abs_add.
  destruct Hok as [_ _ Hcd Hca]. unfold opposite, own in H. cbn [ab_bids ab_asks].
  destruct (is_buy order); destruct (fill_greedy _ _ _) as [[fs r] rest];
    destruct H as (Hr & Hopp & Hev & Hown & _);
    (split_and!; [|done|done]); rewrite Hown, Hopp; f_equal;
    destruct (0 <? r); try done; rewrite add_to_side_refines; congruence.
Qed.

(** C7: conservation: the traded quantities and the remainder add up to the
    order's quantity, the remainder is not negative, and the open quantity of the
    opposite side goes down by exactly what was traded. *)
Theorem match_conserves now ob order sq :
  book_ok ob -> order_ok order ->
  let res := MatchOrder now ob order sq in
  let traded := Zsum (te_Quantity <$> mr_events res) in
  traded + mr_remaining res = obe_Quantity order /\ 0 <= mr_remaining res /\
  Zsum ((fun pe => open_qty pe.2) <$> entries (opposite ob order)) =
    traded + Zsum ((fun pe => open_qty pe.2) <$> entries (opposite (mr_book res) order)).
Proof.
  intros Hok Ho. pose proof (match_order_spec now ob order sq Hok Ho) as H. cbv zeta in H |- *.
  pose proof (greedy_conserves (no_cross order) (obe_Quantity order) (entries (opposite ob order))).
  pose proof (greedy_resting (no_cross order) (obe_Quantity order) (entries (opposite ob order))).
  pose proof (greedy_rem (no_cross order) (obe_Quantity order) (entries (opposite ob order))
    (side_ok_open _ _ (opposite_ok ob order Hok)) (proj1 Ho)).
  destruct (fill_greedy _ _ _) as [[fs r] rest]. destruct H as (-> & -> & Hev & _).
  apply (f_equal fst) in Hev. cbn [fst] in Hev. rewrite Hev, fill_events_qtys. lia.
Qed.

Lemma trade_justified now ob order sq ev :
  book_ok ob -> order_ok order -> ev ∈ mr_events (MatchOrder now ob order sq) ->
  exists e, (te_Price ev, e) ∈ entries (opposite ob order) /\
    obe_Price e = te_Price ev /\ te_MakerOrderID ev = obe_OrderID e /\
    te_MakerUser ev = obe_UserID e /\
    te_TakerOrderID ev = obe_OrderID order /\ te_TakerUser ev = obe_UserID order /\
    te_SymbolStr ev = ob_symbol ob /\ te_TakerSide ev = taker_side order /\
    0 < te_Quantity ev <= open_qty e /\
    (if is_buy order then te_Price ev <= obe_Price order else obe_Price order <= te_Price ev).
Proof.
  intros Hok Ho [i Hev]%list_elem_of_lookup.
  pose proof (match_order_spec now ob order sq Hok Ho) as H. cbv zeta in H.
  pose proof (greedy_fills (no_cross order) (obe_Quantity order) (entries (opposite ob order))
    (side_ok_open _ _ (opposite_ok ob order Hok))) as Hf.
  destruct (fill_greedy _ _ _) as [[fs r] rest]. destruct H as (_ & _ & Heq & _).
  apply (f_equal fst) in Heq. cbn [fst] in Heq. rewrite Heq in Hev.
  apply fill_events_lookup in Hev as (f & Hfi & _ & Hsym & ? & ? & ? & ? & Hp & Hq & ?).
  rewrite Forall_forall in Hf. destruct (Hf f) as (? & Hstop & Hin);
    [by eapply list_elem_of_lookup_2|].
  exists (fill_maker f). rewrite Hp, Hq.
  destruct (side_ok_entry _ _ _ _ (opposite_ok ob order Hok) Hin) as [_ _ ? _].
  unfold no_cross in Hstop. split_and!; auto; try lia. destruct (is_buy order); lia.
Qed.

(** C8: every trade is justified: its maker is an entry resting on the opposite
    side at the trade's price, that price respects the taker's limit, and the
    quantity is positive and at most what the maker had open. *)
Theorem trades_valid now ob order sq ev :
  book_ok ob -> order_ok order -> ev ∈ mr_events (MatchOrder now ob order sq) ->
  exists e, (te_Price ev, e) ∈ entries (opposite ob order) /\
    obe_Price e = te_Price ev /\ te_MakerOrderID ev = obe_OrderID e /\
    te_MakerUser ev = obe_UserID e /\
    te_TakerOrderID ev = obe_OrderID order /\ te_TakerUser ev = obe_UserID order /\
    te_SymbolStr ev = ob_symbol ob /\ te_TakerSide ev = taker_side order /\
    0 < te_Quantity ev <= open_qty e /\
    (if is_buy order then te_Price ev <= obe_Price order else obe_Price order <= te_Price ev).
Proof. apply trade_justified. Qed.

(** C9: price-time priority: the makers of the trades are, in order, the first
    entries of the opposite side's traversal; each but the last is filled
    completely before the next one trades; and the entries behind the last maker
    are not touched. *)
Theorem price_time_priority now ob order sq :
  book_ok ob -> order_ok order ->
  let res := MatchOrder now ob order sq in
  let ents := entries (opposite ob order) in
  let n := length (mr_events res) in
  ((fun ev => (te_Price ev, te_MakerOrderID ev)) <$> mr_events res) =
    ((fun pe => (pe.1, obe_OrderID pe.2)) <$> take n ents) /\
  (forall i ev pe, (S i < n)%nat -> mr_events res !! i = Some ev -> ents !! i = Some pe ->
     te_Quantity ev = open_qty pe.2) /\
  drop n ents `suffix_of` entries (opposite (mr_book res) order).
Proof.
  intros Hok Ho. pose proof (match_order_spec now ob order sq Hok Ho) as H. cbv zeta in H |- *.
  pose proof (greedy_priority (no_cross order) (obe_Quantity order) (entries (opposite ob order))) as Hp.
  destruct (fill_greedy _ _ _) as [[fs r] rest]. destruct H as (_ & -> & Heq & _).
  apply (f_equal fst) in Heq. cbn [fst] in Heq. rewrite Heq, fill_events_length.
  destruct Hp as (Hfs & Hall & Hsuf). rewrite <- Hfs. split_and!; [|intros i ev pe Hi Hev Hpe|done].
  - rewrite <- list_fmap_compose. apply list_eq_same_length with (length fs);
      rewrite ?length_fmap, ?fill_events_length; [done|done|].
    intros i x y _ (ev & -> & Hev)%list_lookup_fmap_Some (f & -> & Hf)%list_lookup_fmap_Some.
    apply fill_events_lookup in Hev as (f' & ? & _ & _ & _ & _ & ? & _ & ? & _). simplify_eq/=.
    unfold fill_price, fill_maker in *. congruence.
  - apply fill_events_lookup in Hev as (f & Hf & _ & _ & _ & _ & _ & _ & _ & Hq & _).
    rewrite Hq, (Hall i f Hi Hf). f_equal. unfold fill_maker.
    pose proof (f_equal (fun l => l !! i) Hfs) as Hi'. simpl in Hi'.
    rewrite list_lookup_fmap, Hf, lookup_take_lt, Hpe in Hi' by lia. simpl in Hi'. congruence.
Qed.

(** ** Uncrossed books

    [PriceComparatorDesc] and [PriceComparatorAsc] put the best price first by
    their [Compare].  A list that keeps its keys in that order never holds a bid
    at or above an ask. *)

Definition uncrossed ob : Prop :=
  forall pb eb pa ea,
    (pb, eb) ∈ entries (ob_buys ob) -> (pa, ea) ∈ entries (ob_sells ob) -> pb < pa.

Lemma flat_head_first (before : Z -> Z -> bool) l p e t :
  StronglySorted before (keys l) -> flat l = (p, e) :: t ->
  forall p' e', (p', e') ∈ flat l -> p' = p \/ before p p' = true.
Proof.
  induction l as [|[k q] l IH]; [done|]. rewrite fmap_cons. cbn [flat fst].
  intros [Hall Hs]%StronglySorted_cons Hfl p' e'. rewrite Forall_forall in Hall.
  destruct q as [|e0 q]; simpl in *; [eauto|]. simplify_eq.
  intros [?|[(e1 & ? & _)%list_elem_of_fmap|(q' & Hq & _)%elem_of_flat]%elem_of_app]%elem_of_cons;
    simplify_eq; auto.
  right. apply Is_true_true, Hall, list_elem_of_fmap. by exists (p', q').
Qed.

Lemma entries_add_to_side book order r p e :
  (p, e) ∈ entries (add_to_side book order r) ->
  p = obe_Price order \/ p ∈ fst <$> entries book.
Proof.
  destruct (add_to_side_split book order r) as (l1 & l2 & q & -> & -> & _ & _).
  rewrite flat_app. cbn [flat].
  intros [Hin|[(e' & ? & _)%list_elem_of_fmap|Hin]%elem_of_app]%elem_of_app; simplify_eq; auto;
    right; apply (list_elem_of_fmap_2 fst) in Hin; rewrite !fmap_app, !elem_of_app; auto.
Qed.

Lemma entries_cancel book p id pe : pe ∈ entries (cancel_in_side book p id) -> pe ∈ entries book.
Proof.
  unfold cancel_in_side. destruct (sl_get p book) as [q|] eqn:Hg; [|done].
  destruct pe as [p' e]. rewrite !elem_of_flat. intros (q' & Hq' & He).
  destruct (List.filter _ q) as [|e0 q0] eqn:Hf.
  - rewrite sl_remove_elements in Hq'. apply list_elem_of_In, List.filter_In in Hq' as [? _].
    exists q'. by rewrite list_elem_of_In.
  - destruct (sl_set_split p (e0 :: q0) book) as [(l1 & w & l2 & Hel & Hg' & Hs)|(l1 & l2 & _ & Hg' & _)];
      [|congruence]. rewrite Hs in Hq'. rewrite Hg in Hg'. simplify_eq.
    apply elem_of_app in Hq' as [?|[?|?]%elem_of_cons]; [exists q'| |exists q'];
      [rewrite Hel; set_solver| |rewrite Hel; set_solver].
    simplify_eq. exists w. rewrite Hel. split; [set_solver|].
    rewrite <- Hf, list_elem_of_In, List.filter_In in He. apply list_elem_of_In, He.
Qed.

Section Uncrossed.
Hypothesis Hcompare : forall c a b, sl_before c a b = by_compare c a b.

Lemma by_compare_total c :
  c = PriceComparatorDesc \/ c = PriceComparatorAsc -> strict_total (sl_before c).
Proof.
  intros [-> | ->]; split; intros *; rewrite !Hcompare; unfold by_compare; simpl;
    repeat case_match; lia.
Qed.

(** The remainder of a side after matching is beyond the taker's limit. *)
Lemma rest_beyond order book p e :
  (is_buy order = true -> sl_comparable book = PriceComparatorAsc) ->
  (is_buy order = false -> sl_comparable book = PriceComparatorDesc) ->
  match entries book with [] => True | (p0, _) :: _ => no_cross order p0 = true end ->
  (p, e) ∈ entries book -> no_cross order p = true.
Proof.
  intros Ha Hd Hhead Hin. destruct (entries book) as [|[p0 e0] t] eqn:Hent; [by apply elem_of_nil in Hin|].
  rewrite <- Hent in Hin.
  destruct (flat_head_first (sl_before (sl_comparable book)) (sl_elements book) p0 e0 t) with p e
    as [->|Hb]; auto.
  { apply sl_sorted, by_compare_total. destruct (is_buy order); auto. }
  rewrite Hcompare in Hb. unfold by_compare, no_cross in *.
  destruct (is_buy order); [rewrite Ha in Hb by done|rewrite Hd in Hb by done]; simpl in Hb;
    repeat case_match; lia.
Qed.

Lemma match_uncrossed now ob order sq :
  book_ok ob -> order_ok order -> uncrossed ob ->
  uncrossed (mr_book (MatchOrder now ob order sq)).
Proof.
  intros Hok Ho Hun. pose proof (match_order_spec now ob order sq Hok Ho) as H. cbv zeta in H.
  pose proof (greedy_prices (no_cross order) (obe_Quantity order) (entries (opposite ob order))) as Hpr.
  pose proof (greedy_exhausts (no_cross order) (obe_Quantity order) (entries (opposite ob order))) as Hex.
  destruct (fill_greedy _ _ _) as [[fs r] rest]. destruct H as (_ & Hopp & _ & Hown & [_ _ Hd Ha] & _).
  set (ob' := mr_book (MatchOrder now ob order sq)) in *.
  assert (Hold : forall p q e e', (p, e) ∈ entries (own ob order) ->
            (q, e') ∈ entries (opposite ob' order) ->
            if is_buy order then p < q else q < p).
  { intros p q e e' Hp Hq. rewrite Hopp in Hq. apply Hpr in Hq. apply list_elem_of_fmap in Hq as ([q' e2] & -> & Hq).
    unfold own, opposite in *. destruct (is_buy order); by eapply Hun. }
  assert (Hnew : forall p q e e', (p, e) ∈ entries (own ob' order) ->
            (q, e') ∈ entries (opposite ob' order) ->
            if is_buy order then p < q else q < p).
  { intros p q e e' Hp Hq. rewrite Hown in Hp. destruct (Z.ltb_spec 0 r); [|by eapply Hold].
    apply entries_add_to_side in Hp as [->|([p' e2] & -> & Hp)%list_elem_of_fmap]; [|by eapply Hold].
    rewrite <- Hopp in Hex. pose proof (rest_beyond order (opposite ob' order) q e') as Hbeyond.
    unfold opposite at 1 2 in Hbeyond. specialize (Hbeyond ltac:(by intros ->) ltac:(by intros ->)).
    specialize (Hbeyond (Hex ltac:(done)) Hq). unfold no_cross in Hbeyond. destruct (is_buy order); lia. }
  intros pb eb pa ea Hb Hs. unfold own, opposite in Hnew.
  destruct (is_buy order); by eapply Hnew.
Qed.

End Uncrossed.

(** ** Trade identity *)

(** The sequence numbers of a match are the next ones of the sequencer, one
    per trade and strictly increasing. *)
Theorem trade_seqs now ob order sq :
  book_ok ob -> order_ok order -> seq_ok sq ->
  localSeq sq + Z.of_nat (length (mr_events (MatchOrder now ob order sq))) < 1099511627776 ->
  let res := MatchOrder now ob order sq in
  (te_Seq <$> mr_events res, mr_seq res) = draw_seqs (length (mr_events res)) sq /\
  StronglySorted Z.lt (te_Seq <$> mr_events res).
Proof.
  intros Hok Ho Hs Hl. cbv zeta.
  assert (Heq : (te_Seq <$> mr_events (MatchOrder now ob order sq), mr_seq (MatchOrder now ob order sq))
                = draw_seqs (length (mr_events (MatchOrder now ob order sq))) sq).
  { pose proof (match_order_spec now ob order sq Hok Ho) as H. cbv zeta in H.
    destruct (fill_greedy _ _ _) as [[fs r] rest]. destruct H as (_ & _ & Heq & _).
    pose proof (fill_events_seqs (ob_symbol ob) (taker_side order) order now fs 0 sq) as Hq.
    pose proof (fill_events_length (ob_symbol ob) (taker_side order) order now fs 0 sq) as Hn.
    destruct (fill_events _ _ _ _ _ _ _) as [evs sq']. simpl in Hn.
    pose proof (f_equal fst Heq) as He1. pose proof (f_equal snd Heq) as He2.
    cbn [fst snd] in He1, He2. rewrite He1, He2, Hn. exact Hq. }
  split; [exact Heq|]. apply (f_equal fst) in Heq. cbn [fst] in Heq. rewrite Heq.
  by apply draws_sorted.
Qed.

(** Trade IDs identify trades: two trades of the same symbol with the same ID
    come from orders with the same order ID, at the same position. *)
Theorem trade_ids_unique now now' ob ob' order order' sq sq' i j ev ev' :
  book_ok ob -> order_ok order -> book_ok ob' -> order_ok order' ->
  ob_symbol ob = ob_symbol ob' ->
  mr_events (MatchOrder now ob order sq) !! i = Some ev ->
  mr_events (MatchOrder now' ob' order' sq') !! j = Some ev' ->
  te_TradeID ev = te_TradeID ev' -> obe_OrderID order = obe_OrderID order' /\ i = j.
Proof.
  intros Hok Ho Hok' Ho' Hsym Hi Hj Hid.
  pose proof (match_order_spec now ob order sq Hok Ho) as H.
  pose proof (match_order_spec now' ob' order' sq' Hok' Ho') as H'. cbv zeta in H, H'.
  destruct (fill_greedy (no_cross order) _ _) as [[fs r] rest].
  destruct (fill_greedy (no_cross order') _ _) as [[fs' r'] rest'].
  destruct H as (_ & _ & Heq & _), H' as (_ & _ & Heq' & _).
  apply (f_equal fst) in Heq, Heq'. cbn [fst] in Heq, Heq'. rewrite Heq in Hi. rewrite Heq' in Hj.
  apply fill_events_lookup in Hi as (f & _ & Hti & _). apply fill_events_lookup in Hj as (f' & _ & Htj & _).
  rewrite Hti, Htj, Hsym in Hid. by apply trade_id_inj in Hid as [? ?].
Qed.

(** ** Cancellation *)


(** The guard of [CancelOrder] tests the entry that was submitted, which
    matching never updates: right after an order was matched, partly or fully, it
    is still cancellable, although the code means to refuse an order that has
    fills. *)
Theorem cancel_ignores_fills now ob order sq :
  obe_FilledQty order <= 0 ->
  (CancelOrder (mr_book (MatchOrder now ob order sq)) (obe_OrderID order)).2 = None.
Proof.
  intros Hf. unfold CancelOrder.
  replace (ob_orders (mr_book (MatchOrder now ob order sq)))
    with (<[obe_OrderID order := order]> (ob_orders ob)).
  - rewrite lookup_insert_eq. destruct (Z.ltb_spec 0 (obe_FilledQty order)); [lia|].
    by destruct (obe_Side order =s "buy").
  - unfold MatchOrder, addOrderToBook. simpl. by repeat case_match.
Qed.

(** ** Depth *)

Lemma level_qty_sum q total :
  Forall (fun e => 0 <= open_qty e) q -> 0 <= total ->
  total + Zsum (open_qty <$> q) <= MaxI64 ->
  fold_left (fun total e => i64 (total + i64 (obe_Quantity e - obe_FilledQty e))) q total =
    total + Zsum (open_qty <$> q).
Proof.
  intros Hq. revert total. induction Hq as [|e q He Hq IH]; intros total Ht Hle; csimpl in *; [lia|].
  pose proof (Zsum_nonneg (open_qty <$> q)) as Hn. rewrite Forall_fmap in Hn. specialize (Hn Hq).
  unfold open_qty in He, Hle at 1. i64_simpl. fold (open_qty e) in *.
  rewrite IH; unfold open_qty in *; lia.
Qed.

Lemma depth_row isBuy book levels i p q :
  side_ok isBuy book -> sl_elements book !! i = Some (p, q) -> Z.of_nat i < levels ->
  Zsum (open_qty <$> q) <= MaxI64 ->
  depth_side levels book !! i =
    Some (PriceInNano_String p, QuantityInNano_String (Zsum (open_qty <$> q))).
Proof.
  intros Hok Hi Hlt Hsum. unfold depth_side, level_qty.
  rewrite list_lookup_fmap, lookup_take_lt, Hi by lia. simpl.
  rewrite level_qty_sum; [done| |lia|lia].
  unfold side_ok in Hok. rewrite Forall_forall in Hok.
  destruct (Hok (p, q)) as [_ Hf]; [by eapply list_elem_of_lookup_2|].
  eapply Forall_impl; [exact Hf|]. intros e []. unfold open_qty. lia.
Qed.

(** C13: [GetDepth] returns at most [levels] rows per side, one per price level
    from the front of the list, and a row's quantity is the exact sum of the open
    quantities of that level as long as the sum fits an int64. *)
Theorem depth_exact ob levels i :
  book_ok ob -> 0 <= levels ->
  let '(bids, asks) := GetDepth ob levels in
  (Z.of_nat (length bids) <= levels /\ Z.of_nat (length asks) <= levels) /\
  (forall p q, sl_elements (ob_buys ob) !! i = Some (p, q) -> Z.of_nat i < levels ->
     Zsum (open_qty <$> q) <= MaxI64 ->
     bids !! i = Some (PriceInNano_String p, QuantityInNano_String (Zsum (open_qty <$> q)))) /\
  (forall p q, sl_elements (ob_sells ob) !! i = Some (p, q) -> Z.of_nat i < levels ->
     Zsum (open_qty <$> q) <= MaxI64 ->
     asks !! i = Some (PriceInNano_String p, QuantityInNano_String (Zsum (open_qty <$> q)))).
Proof.
  intros [Hb Hs _ _] Hl. simpl.
  split; [unfold depth_side; rewrite !length_fmap, !length_take; lia|].
  split; intros p q Hi Hlt Hsum; [apply (depth_row true)|apply (depth_row false)]; auto.
Qed.
End Props.

(** ** Witnesses

    On [demo_book]: asks 2 and 4 at 100, 5 at 101, a bid of 7 at 99. *)

Definition demo_order : OrderBookEntry := bid "t" 101 8 0.

Lemma demo_reachable : book_reachable "BTC" demo_book.
Proof.
  unfold demo_book, submit_all. cbn [fold_left fst mr_book mr_seq].
  repeat apply (reach_match "BTC"); try apply reach_new; unfold order_ok, MaxI64; simpl; lia.
Qed.

Lemma demo_order_ok : order_ok demo_order.
Proof. unfold order_ok, MaxI64. simpl. lia. Qed.

Lemma by_compare_strict c :
  c = PriceComparatorDesc \/ c = PriceComparatorAsc -> strict_total (by_compare c).
Proof. exact (by_compare_total (sl := cmp_list) (fun _ _ _ => eq_refl) c). Qed.

Lemma book_invariant_witness : book_reachable "BTC" demo_book /\ book_ok demo_book.
Proof. exact (conj demo_reachable (book_invariant "BTC" demo_book demo_reachable)). Defined.

Lemma match_loop_terminates_witness :
  match_step "BTC" "buy" demo_order (no_cross demo_order) id
    (matchBuyOrder id demo_book demo_order 8 NewSequencer) = None.
Proof.
  refine (match_loop_terminates id demo_book demo_order NewSequencer _ _).
  - unfold is_i64, MinI64, MaxI64. simpl. lia.
  - apply (side_ok_i64 false). exact (opposite_ok demo_book demo_order (reachable_ok _ _ demo_reachable)).
Defined.

Lemma match_order_refines_witness :
  ab_asks (abs (mr_book (MatchOrder id demo_book demo_order NewSequencer))) =
    [(101, ask "a1" 101 5 2)].
Proof.
  pose proof (match_order_refines id demo_book demo_order NewSequencer
    (reachable_ok _ _ demo_reachable) demo_order_ok
    (by_compare_strict _ (or_introl eq_refl)) (by_compare_strict _ (or_intror eq_refl))) as H.
  cbv zeta in H.
  destruct (abs_match _ _ _ _) as [[b fs] r] eqn:He. destruct H as (-> & _ & _).
  vm_compute in He. by simplify_eq.
Defined.

Lemma match_conserves_witness :
  Zsum (te_Quantity <$> mr_events (MatchOrder id demo_book demo_order NewSequencer)) = 8.
Proof.
  pose proof (match_conserves id demo_book demo_order NewSequencer
    (reachable_ok _ _ demo_reachable) demo_order_ok) as H. cbv zeta in H.
  destruct H as (H & _ & _). vm_compute in H |- *. exact H.
Defined.

Lemma trades_valid_witness :
  exists ev e, mr_events (MatchOrder id demo_book demo_order NewSequencer) !! 2%nat = Some ev /\
    (te_Price ev, e) ∈ flat (sl_elements (ob_sells demo_book)) /\ te_Quantity ev <= open_qty e.
Proof.
  destruct (mr_events (MatchOrder id demo_book demo_order NewSequencer) !! 2%nat) as [ev|] eqn:He.
  - destruct (trades_valid id demo_book demo_order NewSequencer ev
      (reachable_ok _ _ demo_reachable) demo_order_ok (list_elem_of_lookup_2 _ _ _ He))
      as (e & Hin & _ & _ & _ & _ & _ & _ & _ & Hq & _).
    exists ev, e. split_and!; [done|exact Hin|apply Hq].
  - vm_compute in He. discriminate.
Defined.

Lemma price_time_priority_witness :
  (fun ev => (te_Price ev, te_MakerOrderID ev)) <$>
    mr_events (MatchOrder id demo_book demo_order NewSequencer) =
  [(100, "a2"); (100, "a3"); (101, "a1")].
Proof.
  pose proof (price_time_priority id demo_book demo_order NewSequencer
    (reachable_ok _ _ demo_reachable) demo_order_ok) as H. cbv zeta in H.
  destruct H as (-> & _ & _). vm_compute. reflexivity.
Defined.


Lemma trade_seqs_witness :
  te_Seq <$> mr_events (MatchOrder id demo_book demo_order NewSequencer) = [1; 2; 3].
Proof.
  pose proof (trade_seqs id demo_book demo_order NewSequencer
    (reachable_ok _ _ demo_reachable) demo_order_ok
    ltac:(unfold seq_ok, MaxU64; simpl; lia) eq_refl) as H. cbv zeta in H.
  destruct H as [H _]. apply (f_equal fst) in H. vm_compute in H |- *. exact H.
Defined.

Lemma trade_ids_unique_witness :
  exists ev, mr_events (MatchOrder id demo_book demo_order NewSequencer) !! 1%nat = Some ev /\
    te_TradeID ev = "BTC-t-1" /\ obe_OrderID demo_order = "t" /\ 1%nat = 1%nat.
Proof.
  destruct (mr_events (MatchOrder id demo_book demo_order NewSequencer) !! 1%nat) as [ev|] eqn:He.
  - exists ev. split; [done|]. split.
    { assert (Hid : te_TradeID <$> mr_events (MatchOrder id demo_book demo_order NewSequencer) !! 1%nat
                    = Some "BTC-t-1") by (vm_compute; reflexivity).
      rewrite He in Hid. by injection Hid. }
    exact (trade_ids_unique id id demo_book demo_book demo_order demo_order NewSequencer NewSequencer
      1 1 ev ev (reachable_ok _ _ demo_reachable) demo_order_ok (reachable_ok _ _ demo_reachable)
      demo_order_ok eq_refl He He eq_refl).
  - vm_compute in He. discriminate.
Defined.


Lemma cancel_ignores_fills_witness :
  mr_remaining (MatchOrder id demo_book demo_order NewSequencer) = 0 /\
  (CancelOrder (mr_book (MatchOrder id demo_book demo_order NewSequencer)) "t").2 = None.
Proof.
  split; [vm_compute; reflexivity|].
  exact (cancel_ignores_fills id demo_book demo_order NewSequencer ltac:(simpl; lia)).
Defined.

Lemma depth_exact_witness :
  (GetDepth demo_book 1).2 = [("0.00000100", "0.00000006")].
Proof.
  pose proof (depth_exact demo_book 1 0 (reachable_ok _ _ demo_reachable) ltac:(lia)) as H.
  destruct (GetDepth demo_book 1) as [bids asks]. destruct H as ([_ Hl] & _ & H).
  specialize (H 100 [ask "a2" 100 2 0; ask "a3" 100 4 0] ltac:(vm_compute; reflexivity)
    ltac:(lia) ltac:(vm_compute; discriminate)).
  destruct asks as [|a [|? ?]]; simpl in *; [done| |lia]. vm_compute in H. by simplify_eq.
Defined.

(** ** The order a skip list derives from these comparators

    github.com/huandu/skiplist keeps its elements sorted by [CalcScore], from the
    smallest, and asks [Compare] only between keys of equal score.  The scores of
    the two comparators are the reverse of their [Compare]. *)

(** A list that sorts by score keeps the worst price first: with asks at 90
    and 110 resting, a buy at 100 looks at 110 only, does not trade with the ask
    at 90, and rests in a book that is then crossed. *)
Theorem score_order_crosses :
  let ob := (submit_all (sl := score_list) [ask "a1" 90 1 0; ask "a2" 110 1 0] NewSequencer).1 in
  let res := MatchOrder id ob (bid "b" 100 1 0) NewSequencer in
  mr_events res = [] /\ mr_remaining res = 1 /\ ~ uncrossed (mr_book res).
Proof.
  split; [vm_compute; reflexivity|]. split; [vm_compute; reflexivity|].
  intros Hun. specialize (Hun 100 (bid "b" 100 1 0) 90 (ask "a1" 90 1 0)).
  assert (100 < 90); [|lia]. apply Hun; vm_compute.
  - left.
  - right. left.
Qed.
