(* ===== verification/EventLog.v ===== *)
(** * The event logs

    Models src/biz/service/event_log_memory.go (the log kept in memory, with its
    per-symbol index), src/biz/dal/pg/event_store_postgres.go (the repository of
    persistent events, over the table of Database.v) and
    src/biz/service/event_log_postgres.go (the log on top of that repository).
    [EventStore] is the interface of src/biz/model/event.go the pipeline uses. *)

From stdpp Require Import base gmap strings list sorting.
From Stdlib Require Import ZArith Lia.
From S2P Require Import Prelude Events Database Sequencer.

Local Open Scope go_scope.
Local Open Scope Z_scope.

(** [model.EventStore]; a nil event is [None]. *)
Class EventStore (L : Type) := {
  AppendEvent : option MatchingEngineEvent -> L -> L * option error;
  GetEventsBySymbol : string -> Z -> Z -> L -> outcome (list EventEnvelope);
  GetEventsSinceTime : string -> Z -> L -> outcome (list EventEnvelope);
  GetLatestSeq : string -> L -> outcome Z }.

Definition ErrEventNil : error := "event cannot be nil".

(** ** The log in memory *)

Module Memory.

Record InMemoryEventLog := mkInMemoryEventLog {
  events : list EventEnvelope;
  symbolIndexes : gmap string (list nat);
  symbolSeq : gmap string Z }.

Definition NewInMemoryEventLog : InMemoryEventLog := mkInMemoryEventLog [] ∅ ∅.

Definition AppendEvent (event : option MatchingEngineEvent) (el : InMemoryEventLog)
    : InMemoryEventLog * option error :=
  match event with
  | None => (el, Some ErrEventNil)
  | Some event =>
      let envelope := MarshalEvent event in
      let index := length (events el) in
      let symbol := Symbol event in
      let indexes := default [] (symbolIndexes el !! symbol) in
      (mkInMemoryEventLog (events el ++ [envelope])
         (<[symbol := indexes ++ [index]]> (symbolIndexes el))
         (<[symbol := EventSeq event]> (symbolSeq el)), None)
  end.

(** The loop of [GetEventsBySymbol]; [result] is what it has collected. *)
Fixpoint collect_seq (evs : list EventEnvelope) (startSeq limit : Z) (indexes : list nat)
    (result : list EventEnvelope) : list EventEnvelope :=
  match indexes with
  | [] => result
  | idx :: rest =>
      match evs !! idx with
      | None => result
      | Some envelope =>
          if startSeq <=? env_Seq envelope then
            let result' := result ++ [envelope] in
            if (0 <? limit) && (limit <=? Z.of_nat (length result')) then result'
            else collect_seq evs startSeq limit rest result'
          else collect_seq evs startSeq limit rest result
      end
  end.

Definition GetEventsBySymbol (symbol : string) (startSeq limit : Z) (el : InMemoryEventLog)
    : outcome (list EventEnvelope) :=
  match symbolIndexes el !! symbol with
  | None => Ok []
  | Some indexes => Ok (collect_seq (events el) startSeq limit indexes [])
  end.

Fixpoint collect_time (evs : list EventEnvelope) (timestamp : Z) (indexes : list nat)
    (result : list EventEnvelope) : list EventEnvelope :=
  match indexes with
  | [] => result
  | idx :: rest =>
      match evs !! idx with
      | None => result
      | Some envelope =>
          if timestamp <=? env_Timestamp envelope
          then collect_time evs timestamp rest (result ++ [envelope])
          else collect_time evs timestamp rest result
      end
  end.

Definition GetEventsSinceTime (symbol : string) (timestamp : Z) (el : InMemoryEventLog)
    : outcome (list EventEnvelope) :=
  match symbolIndexes el !! symbol with
  | None => Ok []
  | Some indexes => Ok (collect_time (events el) timestamp indexes [])
  end.

Definition GetLatestSeq (symbol : string) (el : InMemoryEventLog) : outcome Z :=
  match symbolSeq el !! symbol with
  | None => Ok 0
  | Some seq => Ok seq
  end.

Definition GetAllEvents (el : InMemoryEventLog) : list EventEnvelope := events el.

Definition GetEventsBySymbolAndSeq (symbol : string) (startSeq : Z) (el : InMemoryEventLog)
    : outcome (list EventEnvelope) :=
  GetEventsBySymbol symbol startSeq (-1) el.

#[global] Instance InMemoryEventLog_store : EventStore InMemoryEventLog := {
  EventLog.AppendEvent := AppendEvent;
  EventLog.GetEventsBySymbol := GetEventsBySymbol;
  EventLog.GetEventsSinceTime := GetEventsSinceTime;
  EventLog.GetLatestSeq := GetLatestSeq }.

(** *** The index is the list scan it stands for *)

(** Reference: scan the whole log. *)
Definition scan (p : EventEnvelope -> bool) (symbol : string) (evs : list EventEnvelope)
    : list EventEnvelope :=
  List.filter (fun e => (env_Symbol e =s symbol) && p e) evs.

Definition log_ok (el : InMemoryEventLog) : Prop :=
  (forall s, omap (fun i => events el !! i) (default [] (symbolIndexes el !! s)) =
             List.filter (fun e => env_Symbol e =s s) (events el)) /\
  (forall s, Forall (fun i => (i < length (events el))%nat) (default [] (symbolIndexes el !! s))) /\
  (forall s, default 0 (symbolSeq el !! s) =
             default 0 (env_Seq <$> last (List.filter (fun e => env_Symbol e =s s) (events el)))).

(** A sequence of appends. *)
Definition append_all (evs : list MatchingEngineEvent) (el : InMemoryEventLog) : InMemoryEventLog :=
  fold_left (fun l ev => (AppendEvent (Some ev) l).1) evs el.

Lemma omap_lookup_app (evs : list EventEnvelope) e idxs :
  Forall (fun i => (i < length evs)%nat) idxs ->
  omap (fun i => (evs ++ [e]) !! i) idxs = omap (fun i => evs !! i) idxs.
Proof. induction 1 as [|i idxs Hi _ IH]; csimpl; [done|]. by rewrite lookup_app_l, IH by done. Qed.

Lemma append_ok ev el : log_ok el -> log_ok (AppendEvent ev el).1.
Proof.
  destruct ev as [ev|]; [|done]. intros (Hidx & Hlt & Hseq). simpl.
  assert (Hf : forall s, List.filter (fun e => env_Symbol e =s s) (events el ++ [MarshalEvent ev]) =
     List.filter (fun e => env_Symbol e =s s) (events el) ++
       (if Symbol ev =s s then [MarshalEvent ev] else [])).
  { intros s. rewrite List.filter_app. simpl. by destruct (Symbol ev =s s). }
  split_and!; intros s; simpl; [rewrite Hf| |rewrite Hf].
  - destruct (decide (s = Symbol ev)) as [->|Hne].
    + rewrite lookup_insert_eq, bool_decide_eq_true_2 by done. simpl.
      rewrite omap_app. f_equal; [by rewrite omap_lookup_app, Hidx|].
      simpl. by rewrite list_lookup_middle.
    + rewrite lookup_insert_ne, bool_decide_eq_false_2 by done.
      by rewrite omap_lookup_app, app_nil_r.
  - rewrite length_app. simpl.
    assert (Hall : Forall (fun i => (i < length (events el) + 1)%nat) (default [] (symbolIndexes el !! s)))
      by (eapply Forall_impl; [apply Hlt|simpl; lia]).
    destruct (decide (s = Symbol ev)) as [->|Hne].
    + rewrite lookup_insert_eq. simpl. apply Forall_app_1; [done|lia].
    + by rewrite lookup_insert_ne.
  - destruct (decide (s = Symbol ev)) as [->|Hne].
    + rewrite lookup_insert_eq, bool_decide_eq_true_2 by done. by rewrite last_snoc.
    + rewrite lookup_insert_ne, bool_decide_eq_false_2 by done. by rewrite app_nil_r.
Qed.

Lemma append_all_ok evs el : log_ok el -> log_ok (append_all evs el).
Proof. revert el. induction evs; intros el Hok; [done|]. cbn [append_all fold_left].
  by apply IHevs, (append_ok (Some a)). Qed.

Lemma append_all_events evs el :
  events (append_all evs el) = events el ++ (MarshalEvent <$> evs).
Proof.
  revert el. induction evs as [|ev evs IH]; intros el; [simpl; by rewrite app_nil_r|].
  change (append_all (ev :: evs) el) with (append_all evs (AppendEvent (Some ev) el).1).
  rewrite IH. simpl. by rewrite <- app_assoc.
Qed.

Lemma new_ok : log_ok NewInMemoryEventLog.
Proof. split_and!; intros s; simpl; by rewrite lookup_empty. Qed.

(** Both loops walk the indexed envelopes. *)
Lemma collect_time_eq evs ts idxs result :
  Forall (fun i => (i < length evs)%nat) idxs ->
  collect_time evs ts idxs result =
    result ++ List.filter (fun e => ts <=? env_Timestamp e) (omap (fun i => evs !! i) idxs).
Proof.
  intros Hall. revert result. induction Hall as [|i idxs Hi _ IH]; intros result; simpl;
    [by rewrite app_nil_r|].
  destruct (evs !! i) as [e|] eqn:He; [|apply lookup_ge_None in He; lia]. simpl.
  destruct (ts <=? _); rewrite IH; [by rewrite <- app_assoc|done].
Qed.

Lemma collect_seq_eq evs start limit idxs result :
  Forall (fun i => (i < length evs)%nat) idxs ->
  limit <= 0 \/ Z.of_nat (length result) < limit ->
  collect_seq evs start limit idxs result =
    let all := result ++ List.filter (fun e => start <=? env_Seq e) (omap (fun i => evs !! i) idxs) in
    if 0 <? limit then take (Z.to_nat limit) all else all.
Proof.
  intros Hall. revert result. induction Hall as [|i idxs Hi _ IH]; intros result Hl; cbv zeta; csimpl.
  { rewrite app_nil_r. destruct (Z.ltb_spec 0 limit); [|done]. rewrite take_ge; [done|lia]. }
  destruct (evs !! i) as [e|] eqn:He; [|apply lookup_ge_None in He; lia].
  csimpl. destruct (start <=? _); [|by rewrite IH]. rewrite length_app. simpl.
  destruct (Z.ltb_spec 0 limit) as [Hpos|Hneg]; simpl.
  - destruct (Z.leb_spec limit (Z.of_nat (length result + 1))).
    + generalize (List.filter (fun e => start <=? env_Seq e) (omap (fun i => evs !! i) idxs)).
      intros k. change (e :: k) with ([e] ++ k). rewrite app_assoc, take_app_length'; [done|].
      rewrite length_app. simpl. lia.
    + rewrite IH by (rewrite length_app; simpl; lia). cbv zeta.
      destruct (Z.ltb_spec 0 limit); [|lia]. by rewrite <- app_assoc.
  - rewrite IH by lia. cbv zeta. destruct (Z.ltb_spec 0 limit); [lia|]. by rewrite <- app_assoc.
Qed.

Lemma filter_filter_scan p s evs :
  List.filter p (List.filter (fun e => env_Symbol e =s s) evs) = scan p s evs.
Proof.
  unfold scan. induction evs as [|e evs IH]; simpl; [done|].
  destruct (env_Symbol e =s s); simpl; [destruct (p e)|]; by rewrite IH.
Qed.

Lemma get_by_symbol_scan symbol start limit el :
  log_ok el ->
  GetEventsBySymbol symbol start limit el =
    Ok (let all := scan (fun e => start <=? env_Seq e) symbol (events el) in
        if 0 <? limit then take (Z.to_nat limit) all else all).
Proof.
  intros (Hidx & Hlt & _). specialize (Hidx symbol). specialize (Hlt symbol).
  unfold GetEventsBySymbol. rewrite <- filter_filter_scan, <- Hidx.
  destruct (symbolIndexes el !! symbol) as [idxs|]; simpl in *.
  - rewrite collect_seq_eq by (auto; simpl; lia). done.
  - destruct (0 <? limit); [|done]. by destruct (Z.to_nat limit).
Qed.

Lemma get_since_scan symbol ts el :
  log_ok el ->
  GetEventsSinceTime symbol ts el =
    Ok (scan (fun e => ts <=? env_Timestamp e) symbol (events el)).
Proof.
  intros (Hidx & Hlt & _). specialize (Hidx symbol). specialize (Hlt symbol).
  unfold GetEventsSinceTime. rewrite <- filter_filter_scan, <- Hidx.
  destruct (symbolIndexes el !! symbol) as [idxs|]; simpl in *; [|done].
  by rewrite collect_time_eq.
Qed.

End Memory.

(** ** The repository of persistent events *)

(** A row of the table events.  The auto-increment ID is assigned by the database
    and read by no statement below; the payload text is its JSON tree. *)
Record PersistentEvent := mkPersistentEvent {
  pe_GlobalSeq : Z;
  pe_EventType : string;
  pe_AggregateID : string;
  pe_AggregateType : string;
  pe_Symbol : string;
  pe_Payload : json;
  pe_EventTimestamp : Z;
  pe_CreatedAt : Z;
  pe_Version : Z }.

(** gorm fills an autoCreateTime column that is zero with the clock, and a column
    with a default that is zero with the default. *)
Definition gorm_stamp (now : Z) (e : PersistentEvent) : PersistentEvent :=
  mkPersistentEvent (pe_GlobalSeq e) (pe_EventType e) (pe_AggregateID e) (pe_AggregateType e)
    (pe_Symbol e) (pe_Payload e) (pe_EventTimestamp e)
    (if pe_CreatedAt e =? 0 then now else pe_CreatedAt e)
    (if pe_Version e =? 0 then 1 else pe_Version e).

Module Store.
Section Store.
Context {D : Type} `{!Table D PersistentEvent}.
Implicit Types (s : D).

Definition WriteEvent (now : Z) (event : PersistentEvent) s : D * option error :=
  db_create (gorm_stamp now event) s.

Fixpoint create_all (now : Z) (events : list PersistentEvent) s : D * option error :=
  match events with
  | [] => (s, None)
  | event :: rest =>
      match db_create (gorm_stamp now event) s with
      | (s', None) => create_all now rest s'
      | (s', Some err) => (s', Some err)
      end
  end.

Definition WriteEventsBatch (now : Z) (events : list PersistentEvent) s : D * option error :=
  match events with
  | [] => (s, None)
  | _ => db_transaction (create_all now events) s
  end.

Definition GetAggregateEvents (aggregateType aggregateID : string) s : outcome (list PersistentEvent) :=
  db_find (fun e => (pe_AggregateType e =s aggregateType) && (pe_AggregateID e =s aggregateID))
    (Some pe_GlobalSeq) None s.

Definition GetSymbolEvents (symbol : string) (startSeq endSeq : Z) s
    : outcome (list PersistentEvent) :=
  db_find (fun e => (pe_Symbol e =s symbol) && (startSeq <=? pe_GlobalSeq e)
                    && (pe_GlobalSeq e <=? endSeq))
    (Some pe_GlobalSeq) None s.

Definition GetGlobalEventStream (startSeq limit : Z) s : outcome (list PersistentEvent) :=
  let limit := if limit <=? 0 then 1000 else limit in
  db_find (fun e => startSeq <=? pe_GlobalSeq e) (Some pe_GlobalSeq) (Some (Z.to_nat limit)) s.

(** SELECT COALESCE(MAX(global_seq), 0). *)
Definition max_seq (rows : list PersistentEvent) : Z :=
  match rows with
  | [] => 0
  | r :: rows' => fold_left (fun m e => Z.max m (pe_GlobalSeq e)) rows' (pe_GlobalSeq r)
  end.

Definition GetLatestGlobalSeq s : outcome Z :=
  let? rows := db_find (fun _ => true) None None s in Ok (max_seq rows).

Definition CountEvents (aggregateType aggregateID : string) s : outcome Z :=
  let? rows := db_find (fun e => (pe_AggregateType e =s aggregateType)
                                 && (pe_AggregateID e =s aggregateID)) None None s in
  Ok (Z.of_nat (length rows)).

Definition ArchiveEventsBefore (timestamp : Z) s : D * outcome Z :=
  db_delete (fun e => pe_CreatedAt e <? timestamp) s.

Definition GetEventsByType (eventType : string) (limit : Z) s : outcome (list PersistentEvent) :=
  let limit := if limit <=? 0 then 100 else limit in
  db_find (fun e => pe_EventType e =s eventType) (Some (fun e => - pe_CreatedAt e))
    (Some (Z.to_nat limit)) s.

Definition GetUnprocessedEvents (lastProcessedSeq limit : Z) s : outcome (list PersistentEvent) :=
  let limit := if limit <=? 0 then 100 else limit in
  db_find (fun e => lastProcessedSeq <? pe_GlobalSeq e) (Some pe_GlobalSeq) (Some (Z.to_nat limit)) s.

(** The error of the query is returned, the duplicates are only logged. *)
Definition ValidateEventIntegrity s : option error :=
  match db_find (fun _ => true) None None s with
  | Ok _ => None
  | Err e => Some e
  | Panic => None
  end.
End Store.
End Store.

(** ** The log on the repository *)

Module Postgres.
Section Log.
Context {D : Type} `{!Table D PersistentEvent}.

Record PostgresEventLog := mkPostgresEventLog {
  eventStore : D;
  sequencer : Sequencer;
  localSeqMap : gmap string Z }.

Definition NewPostgresEventLog (store : D) (sq : Sequencer) : PostgresEventLog :=
  mkPostgresEventLog store sq ∅.

Definition persist (globalSeq : Z) (event : MatchingEngineEvent) : PersistentEvent :=
  let envelope := MarshalEvent event in
  mkPersistentEvent (i64 globalSeq) (env_EventType envelope) "" "MatchingEngine" (Symbol event)
    (json_of_envelope envelope) (EventTimestamp event) (env_Timestamp envelope) 1.

Definition AppendEvent (now : Z) (event : option MatchingEngineEvent) (pl : PostgresEventLog)
    : PostgresEventLog * option error :=
  match event with
  | None => (pl, Some ErrEventNil)
  | Some event =>
      let '(globalSeq, sq) := NextGlobalSeq (sequencer pl) in
      match Store.WriteEvent now (persist globalSeq event) (eventStore pl) with
      | (store, Some err) => (mkPostgresEventLog store sq (localSeqMap pl), Some err)
      | (store, None) =>
          (mkPostgresEventLog store sq (<[Symbol event := i64 globalSeq]> (localSeqMap pl)), None)
      end
  end.

Definition to_envelope (pe : PersistentEvent) : EventEnvelope :=
  mkEventEnvelope (u64 (pe_GlobalSeq pe)) (pe_CreatedAt pe) (pe_EventType pe) (pe_Symbol pe)
    (pe_Payload pe).

Definition GetEventsBySymbol (symbol : string) (startSeq limit : Z) (pl : PostgresEventLog)
    : outcome (list EventEnvelope) :=
  let? pes := Store.GetSymbolEvents symbol (i64 startSeq) (i64 (i64 startSeq + limit))
                (eventStore pl) in
  Ok (to_envelope <$> pes).

Definition GetEventsSinceTime (symbol : string) (timestamp : Z) (pl : PostgresEventLog)
    : outcome (list EventEnvelope) :=
  let? latestSeq := Store.GetLatestGlobalSeq (eventStore pl) in
  let? pes := Store.GetSymbolEvents symbol 0 (i64 (latestSeq + 1)) (eventStore pl) in
  Ok (to_envelope <$> List.filter (fun pe => timestamp <=? pe_EventTimestamp pe) pes).

Definition GetLatestSeq (symbol : string) (pl : PostgresEventLog) : outcome Z :=
  match localSeqMap pl !! symbol with
  | Some seq => Ok (u64 seq)
  | None =>
      let? latestSeq := Store.GetLatestGlobalSeq (eventStore pl) in Ok (u64 latestSeq)
  end.

Definition GetAllEvents (pl : PostgresEventLog) : outcome (list EventEnvelope) :=
  let? pes := Store.GetGlobalEventStream 0 100000 (eventStore pl) in
  Ok (to_envelope <$> pes).

Definition GetEventsBySymbolRange (symbol : string) (startSeq endSeq limit : Z)
    (pl : PostgresEventLog) : outcome (list EventEnvelope) :=
  let? pes := Store.GetSymbolEvents symbol startSeq endSeq (eventStore pl) in
  let pes := if (0 <? limit) && (limit <? Z.of_nat (length pes))
             then take (Z.to_nat limit) pes else pes in
  Ok (to_envelope <$> pes).

Definition ClearSymbolEvents (symbol : string) (pl : PostgresEventLog) : PostgresEventLog :=
  mkPostgresEventLog (eventStore pl) (sequencer pl) (delete symbol (localSeqMap pl)).

(** The log as an [EventStore], [now] being the clock of the database driver. *)
Definition PostgresEventLog_store (now : Z) : EventStore PostgresEventLog := {|
  EventLog.AppendEvent := AppendEvent now;
  EventLog.GetEventsBySymbol := GetEventsBySymbol;
  EventLog.GetEventsSinceTime := GetEventsSinceTime;
  EventLog.GetLatestSeq := GetLatestSeq |}.
End Log.
Arguments PostgresEventLog D : clear implicits.
End Postgres.
