(* ===== verification/EventLogProps.v ===== *)
(** * Properties of the event logs

    The index of the log in memory is the scan it stands for and replays what was
    appended; the log on PostgreSQL keeps the append order, and does not keep the
    events' contents. *)

From stdpp Require Import base gmap strings list sorting.
From Stdlib Require Import ZArith Lia.
From S2P Require Import Prelude Events Database Sequencer EventLog.

Local Open Scope go_scope.
Local Open Scope Z_scope.

Definition demo_trade (q : Z) (symbol : string) : MatchingEngineEvent :=
  TradeExecuted (mkTradeExecutedEvent q (1000 + q) "t" symbol "o1" "o2" "alice" "bob" 100 5 "buy").

Lemma demo_trade_in_range q s : 0 <= q <= 1000000 -> event_in_range (demo_trade q s).
Proof. intros. unfold event_in_range. simpl. solve_i64. Qed.

(** ** The log in memory *)

(** Decode what a log returns; [None] if some envelope does not decode. *)
Fixpoint decode_all (envs : list EventEnvelope) : option (list MatchingEngineEvent) :=
  match envs with
  | [] => Some []
  | env :: envs' =>
      match UnmarshalEvent env, decode_all envs' with
      | Ok (Some ev), Some evs => Some (ev :: evs)
      | _, _ => None
      end
  end.

Lemma scan_marshal start s evs :
  Memory.scan (fun e => start <=? env_Seq e) s (MarshalEvent <$> evs) =
    MarshalEvent <$> List.filter (fun ev => (Symbol ev =s s) && (start <=? EventSeq ev)) evs.
Proof.
  unfold Memory.scan. induction evs as [|ev evs IH]; csimpl; [done|].
  destruct ((Symbol ev =s s) && (start <=? EventSeq ev)); csimpl; by rewrite IH.
Qed.

Lemma decode_marshal evs :
  Forall event_in_range evs -> decode_all (MarshalEvent <$> evs) = Some evs.
Proof.
  induction 1 as [|ev evs Hev _ IH]; [done|]. rewrite fmap_cons. cbn [decode_all].
  by rewrite marshal_id, IH by done.
Qed.

Lemma Forall_take_filter {A} (P : A -> Prop) f n (l : list A) :
  Forall P l -> Forall P (take n (List.filter f l)).
Proof.
  intros H. apply Forall_take. apply Forall_forall. rewrite Forall_forall in H.
  intros x [? _]%list_elem_of_In%List.filter_In. by apply H, list_elem_of_In.
Qed.

(** C22: what goes into the log in memory comes out of it: reading a symbol from
    [startSeq] and decoding gives exactly the events of that symbol with at least
    that sequence number, in append order, cut at [limit] when it is positive. *)
Theorem memory_log_replay evs symbol startSeq limit :
  Forall event_in_range evs ->
  let el := Memory.append_all evs Memory.NewInMemoryEventLog in
  exists envs, Memory.GetEventsBySymbol symbol startSeq limit el = Ok envs /\
    decode_all envs =
      Some (let all := List.filter (fun ev => (Symbol ev =s symbol) && (startSeq <=? EventSeq ev)) evs in
            if 0 <? limit then take (Z.to_nat limit) all else all).
Proof.
  intros Hr. cbv zeta. eexists. split.
  - rewrite Memory.get_by_symbol_scan by (apply Memory.append_all_ok, Memory.new_ok).
    rewrite Memory.append_all_events. simpl app. rewrite scan_marshal. cbv zeta.
    reflexivity.
  - destruct (0 <? limit).
    + rewrite <- fmap_take. apply decode_marshal. by apply Forall_take_filter.
    + apply decode_marshal. rewrite <- (firstn_all (List.filter _ _)). by apply Forall_take_filter.
Qed.

Lemma memory_log_replay_witness :
  exists envs, Memory.GetEventsBySymbol "BTC" 2 1
      (Memory.append_all [demo_trade 1 "BTC"; demo_trade 2 "ETH"; demo_trade 3 "BTC"; demo_trade 4 "BTC"]
         Memory.NewInMemoryEventLog) = Ok envs /\
    decode_all envs = Some [demo_trade 3 "BTC"].
Proof.
  apply (memory_log_replay [demo_trade 1 "BTC"; demo_trade 2 "ETH"; demo_trade 3 "BTC"; demo_trade 4 "BTC"]
           "BTC" 2 1).
  repeat (constructor; [apply demo_trade_in_range; lia|]). constructor.
Defined.

(** The log's index is coherent after any sequence of appends: per symbol it
    lists the positions of that symbol's envelopes, in order and in range, time
    queries through it equal a scan of the log, and the latest number recorded is
    that of the symbol's last event (zero when it has none). *)
Theorem memory_log_index evs symbol ts :
  let el := Memory.append_all evs Memory.NewInMemoryEventLog in
  let mine := List.filter (fun e => env_Symbol e =s symbol) (Memory.events el) in
  omap (fun i => Memory.events el !! i) (default [] (Memory.symbolIndexes el !! symbol)) = mine /\
  Memory.GetEventsSinceTime symbol ts el =
    Ok (List.filter (fun e => ts <=? env_Timestamp e) mine) /\
  Memory.GetLatestSeq symbol el = Ok (default 0 (env_Seq <$> last mine)).
Proof.
  cbv zeta. set (el := Memory.append_all evs _).
  assert (Hok : Memory.log_ok el) by apply Memory.append_all_ok, Memory.new_ok.
  pose proof (Memory.get_since_scan symbol ts el Hok) as Ht.
  rewrite <- Memory.filter_filter_scan in Ht. destruct Hok as (Hidx & _ & Hseq).
  split_and!; auto. unfold Memory.GetLatestSeq. rewrite <- Hseq.
  by destruct (Memory.symbolSeq el !! symbol).
Qed.

(** ** The log on PostgreSQL *)

Section Postgres.
Context {D : Type} `{!Table D PersistentEvent, !TableLaws D PersistentEvent}.
Implicit Types (pl : Postgres.PostgresEventLog D).

Lemma create_all_ok now evs (d d' : D) :
  Store.create_all now evs d = (d', None) -> db_rows d' ≡ₚ (gorm_stamp now <$> evs) ++ db_rows d.
Proof.
  revert d. induction evs as [|ev evs IH]; intros d; csimpl; [by intros; simplify_eq|].
  destruct (db_create _ d) as [d1 [e|]] eqn:Hc; [done|]. intros H%IH.
  rewrite H, (db_create_ok _ _ _ Hc). symmetry. apply Permutation_middle.
Qed.

(** A batch of persistent events is written completely or not at all. *)
Theorem batch_atomic now evs (d d' : D) err :
  Store.WriteEventsBatch now evs d = (d', err) ->
  match err with
  | None => db_rows d' ≡ₚ (gorm_stamp now <$> evs) ++ db_rows d
  | Some _ => d' = d
  end.
Proof.
  unfold Store.WriteEventsBatch. destruct evs as [|ev evs]; [by intros; simplify_eq|].
  unfold db_transaction. destruct (Store.create_all now (ev :: evs) d) as [d1 [e|]] eqn:Hc.
  { by intros; simplify_eq. }
  destruct (db_commit d1); intros; simplify_eq; [done|]. by apply create_all_ok.
Qed.

(** Appends that all succeed. *)
Inductive appended (now : Z) : list MatchingEngineEvent -> list PersistentEvent ->
    Postgres.PostgresEventLog D -> Postgres.PostgresEventLog D -> Prop :=
| appended_nil pl : appended now [] [] pl pl
| appended_cons ev evs q sq rows pl pl1 pl2 :
    NextGlobalSeq (Postgres.sequencer pl) = (q, sq) ->
    Postgres.AppendEvent now (Some ev) pl = (pl1, None) ->
    appended now evs rows pl1 pl2 ->
    appended now (ev :: evs) (gorm_stamp now (Postgres.persist q ev) :: rows) pl pl2.

Lemma append_success now ev pl pl1 :
  Postgres.AppendEvent now (Some ev) pl = (pl1, None) ->
  exists q sq, NextGlobalSeq (Postgres.sequencer pl) = (q, sq) /\ Postgres.sequencer pl1 = sq /\
    db_rows (Postgres.eventStore pl1) ≡ₚ
      gorm_stamp now (Postgres.persist q ev) :: db_rows (Postgres.eventStore pl).
Proof.
  unfold Postgres.AppendEvent. destruct (NextGlobalSeq _) as [q sq].
  destruct (Store.WriteEvent now _ _) as [d [e|]] eqn:Hw; intros; simplify_eq/=.
  exists q, sq. split_and!; auto. by apply db_create_ok.
Qed.

Lemma appended_rows now evs rows pl pl' :
  appended now evs rows pl pl' ->
  db_rows (Postgres.eventStore pl') ≡ₚ rows ++ db_rows (Postgres.eventStore pl).
Proof.
  induction 1 as [|ev evs q sq rows pl pl1 pl2 Hq Happ _ IH]; [done|].
  apply append_success in Happ as (q' & sq' & Hq' & _ & Hrows). rewrite Hq in Hq'. simplify_eq.
  rewrite IH, Hrows. symmetry. apply Permutation_middle.
Qed.

(** The global numbers of the rows are those the sequencer drew. *)
Lemma appended_seqs now evs rows pl pl' :
  appended now evs rows pl pl' ->
  pe_GlobalSeq <$> rows = i64 <$> (draw_seqs (length evs) (Postgres.sequencer pl)).1.
Proof.
  induction 1 as [|ev evs q sq rows pl pl1 pl2 Hq Happ _ IH]; [done|].
  apply append_success in Happ as (q' & sq' & Hq' & Hs & _). cbn [length draw_seqs].
  rewrite Hq in *. rewrite Hs in IH. injection Hq' as <- <-.
  destruct (draw_seqs (length evs) sq) as [qs s2]. csimpl in *. by rewrite IH.
Qed.

Lemma draws_i64 n s :
  seq_ok s -> localSeq s + Z.of_nat n < 1099511627776 ->
  i64 <$> (draw_seqs n s).1 = (draw_seqs n s).1.
Proof.
  intros Hok Hlt. rewrite <- (list_fmap_id (draw_seqs n s).1) at 2. apply list_fmap_ext.
  intros i q Hq%list_elem_of_lookup_2. apply elem_of_draws in Hq as (l & -> & ?); auto.
  destruct Hok. simpl. apply i64_id. solve_i64.
Qed.

Lemma sorted_keys rows :
  StronglySorted Z.lt (pe_GlobalSeq <$> rows) ->
  StronglySorted (key_le pe_GlobalSeq) rows /\ NoDup (pe_GlobalSeq <$> rows).
Proof.
  induction rows as [|r rows IH]; [split; constructor|]. rewrite fmap_cons.
  inversion 1 as [|? ? Hs Hall]; subst. destruct (IH Hs) as [? ?]. rewrite Forall_forall in Hall.
  split; constructor; auto.
  - apply Forall_forall. intros r' Hr. unfold key_le.
    specialize (Hall _ (list_elem_of_fmap_2 pe_GlobalSeq _ _ Hr)). lia.
  - intros Hin. specialize (Hall _ Hin). lia.
Qed.

Lemma filter_sorted (P : PersistentEvent -> PersistentEvent -> Prop) f rows :
  StronglySorted P rows -> StronglySorted P (List.filter f rows).
Proof.
  induction 1 as [|r rows Hs IH Hall]; simpl; [constructor|]. destruct (f r); [|done].
  constructor; [done|]. rewrite Forall_forall in Hall |- *.
  intros x [? _]%list_elem_of_In%List.filter_In. by apply Hall, list_elem_of_In.
Qed.

Lemma filter_nodup_keys f rows :
  NoDup (pe_GlobalSeq <$> rows) -> NoDup (pe_GlobalSeq <$> List.filter f rows).
Proof.
  induction rows as [|r rows IH]; [done|]. csimpl. rewrite NoDup_cons. intros [Hn Hnd].
  destruct (f r); [|auto]. csimpl. constructor; [|auto].
  intros (x & Heq & [Hx _]%list_elem_of_In%List.filter_In)%list_elem_of_fmap.
  apply Hn. rewrite Heq. by apply list_elem_of_fmap_2, list_elem_of_In.
Qed.

(** Events appended one after the other to an empty PostgreSQL log come back
    from every range query of their symbol in append order: each successful query
    returns exactly the rows written for that symbol whose global number is in the
    range, in the order they were appended. *)
Theorem postgres_append_order now evs rows pl pl' symbol startSeq endSeq l :
  appended now evs rows pl pl' -> db_rows (Postgres.eventStore pl) = [] ->
  seq_ok (Postgres.sequencer pl) ->
  localSeq (Postgres.sequencer pl) + Z.of_nat (length evs) < 1099511627776 ->
  Store.GetSymbolEvents symbol startSeq endSeq (Postgres.eventStore pl') = Ok l ->
  l = List.filter (fun e => (pe_Symbol e =s symbol) && (startSeq <=? pe_GlobalSeq e)
                            && (pe_GlobalSeq e <=? endSeq)) rows.
Proof.
  intros Happ Hempty Hok Hlt Hfind. pose proof (appended_rows _ _ _ _ _ Happ) as Hrows.
  pose proof (appended_seqs _ _ _ _ _ Happ) as Hseqs. rewrite draws_i64 in Hseqs by done.
  pose proof (draws_sorted _ _ Hok Hlt) as Hsorted. rewrite <- Hseqs in Hsorted.
  apply sorted_keys in Hsorted as [Hs Hnd]. rewrite Hempty, app_nil_r in Hrows.
  apply db_find_ok in Hfind as (full & Hp & Ho & ->). simpl in *.
  set (f := fun e : PersistentEvent => _) in *.
  assert (Hpf : List.filter f (db_rows (Postgres.eventStore pl')) ≡ₚ List.filter f rows)
    by (by apply filter_perm).
  symmetry. apply (sorted_perm_unique pe_GlobalSeq); auto.
  - by rewrite Hp, Hpf.
  - by apply filter_sorted.
  - by apply filter_nodup_keys.
Qed.

(** What [UnmarshalEvent] makes of an event read back from PostgreSQL. *)
Definition stripped (ev : MatchingEngineEvent) : MatchingEngineEvent :=
  match ev with
  | OrderSubmitted e => OrderSubmitted (mkOrderSubmittedEvent (os_Seq e) (os_Timestamp e) "" "" "" "" 0 0 "")
  | TradeExecuted e =>
      TradeExecuted (mkTradeExecutedEvent (te_Seq e) (te_Timestamp e) "" "" "" "" "" "" 0 0 "")
  | OrderCancelled e => OrderCancelled (mkOrderCancelledEvent (oc_Seq e) (oc_Timestamp e) "" "" "")
  end.

(** The PostgreSQL log stores the envelope where the payload belongs: an
    event written by [AppendEvent] and read back decodes, without an error, to an
    event that has kept its number and timestamp and lost every other field,
    symbol, users, price and quantity included. *)
Theorem postgres_replay_strips now q ev :
  event_in_range ev ->
  UnmarshalEvent (Postgres.to_envelope (gorm_stamp now (Postgres.persist q ev))) =
    Ok (Some (stripped ev)).
Proof.
  destruct ev as [[]|[]|[]]; intros (? & ? & ?); simpl in *; destruct_and?;
    unfold UnmarshalEvent, Postgres.to_envelope, gorm_stamp, Postgres.persist;
    cbn [env_EventType env_Payload pe_EventType pe_Payload]; by json_decode.
Qed.

(** The PostgreSQL log reads [limit] as a width of sequence numbers and not as
    a number of events: a negative limit, which the log in memory takes as "no
    limit", always returns nothing. *)
Theorem postgres_negative_limit pl symbol startSeq limit envs :
  0 <= startSeq <= MaxI64 -> MinI64 <= limit < 0 ->
  Postgres.GetEventsBySymbol symbol startSeq limit pl = Ok envs -> envs = [].
Proof.
  intros Hs Hl. unfold Postgres.GetEventsBySymbol. i64_simpl.
  destruct (Store.GetSymbolEvents _ _ _ _) as [pes| |] eqn:Hf; simpl; intros; simplify_eq.
  apply db_find_ok in Hf. destruct pes as [|pe pes]; [done|].
  destruct (select_elem _ _ _ _ _ pe Hf ltac:(left)) as [_ Hw]. bool_props. lia.
Qed.
End Postgres.

(** ** Witnesses, on a table in memory with a unique index on global_seq *)

#[local] Instance events_table : Table (ListTable PersistentEvent) PersistentEvent :=
  ListTable_ops (fun a b => pe_GlobalSeq a =? pe_GlobalSeq b).
#[local] Instance events_table_laws : TableLaws (ListTable PersistentEvent) PersistentEvent :=
  ListTable_laws _.

Definition demo_row (q : Z) (s : string) : PersistentEvent := Postgres.persist q (demo_trade q s).

Lemma batch_atomic_witness :
  exists d' err, Store.WriteEventsBatch 0 [demo_row 1 "BTC"; demo_row 1 "BTC"] (mkListTable []) = (d', err) /\
    d' = mkListTable [] /\ err <> None.
Proof.
  destruct (Store.WriteEventsBatch 0 [demo_row 1 "BTC"; demo_row 1 "BTC"] (mkListTable []))
    as [d' err] eqn:H. exists d', err. split; [done|].
  pose proof (batch_atomic _ _ _ _ _ H) as Ha. destruct err as [e|]; [done|].
  vm_compute in H. discriminate.
Defined.

Definition demo_log : Postgres.PostgresEventLog (ListTable PersistentEvent) :=
  Postgres.NewPostgresEventLog (mkListTable []) (mkSequencer 1 0 ∅).

Definition demo_appended : Postgres.PostgresEventLog (ListTable PersistentEvent) :=
  (Postgres.AppendEvent 5 (Some (demo_trade 2 "ETH"))
     (Postgres.AppendEvent 5 (Some (demo_trade 1 "BTC")) demo_log).1).1.

Lemma postgres_append_order_witness :
  exists l, Store.GetSymbolEvents "BTC" 0 MaxI64 (Postgres.eventStore demo_appended) = Ok l /\
    pe_GlobalSeq <$> l = [1099511627777].
Proof.
  destruct (Store.GetSymbolEvents "BTC" 0 MaxI64 (Postgres.eventStore demo_appended)) as [l| |] eqn:H;
    [|vm_compute in H; discriminate..].
  exists l. split; [done|].
  assert (Happ : appended 5 [demo_trade 1 "BTC"; demo_trade 2 "ETH"]
    [gorm_stamp 5 (Postgres.persist 1099511627777 (demo_trade 1 "BTC"));
     gorm_stamp 5 (Postgres.persist 1099511627778 (demo_trade 2 "ETH"))] demo_log demo_appended).
  { eapply appended_cons; [reflexivity|reflexivity|].
    eapply appended_cons; [reflexivity|reflexivity|]. apply appended_nil. }
  rewrite (postgres_append_order 5 _ _ demo_log demo_appended "BTC" 0 MaxI64 l Happ eq_refl
    ltac:(unfold seq_ok, MaxU64; simpl; lia) ltac:(simpl; lia) H).
  vm_compute. reflexivity.
Defined.

Lemma postgres_replay_strips_witness :
  UnmarshalEvent (Postgres.to_envelope (gorm_stamp 5 (Postgres.persist 9 (demo_trade 1 "BTC")))) =
    Ok (Some (TradeExecuted (mkTradeExecutedEvent 1 1001 "" "" "" "" "" "" 0 0 ""))).
Proof. exact (postgres_replay_strips 5 9 (demo_trade 1 "BTC") (demo_trade_in_range 1 "BTC" ltac:(lia))). Defined.

Lemma postgres_negative_limit_witness :
  db_rows (Postgres.eventStore demo_appended) <> [] /\
  Postgres.GetEventsBySymbol "BTC" 0 (-1) demo_appended = Ok [].
Proof.
  split; [done|].
  destruct (Postgres.GetEventsBySymbol "BTC" 0 (-1) demo_appended) as [envs| |] eqn:H;
    [|vm_compute in H; discriminate..].
  by rewrite (postgres_negative_limit demo_appended "BTC" 0 (-1) envs ltac:(solve_i64)
    ltac:(solve_i64) H).
Defined.
