(* ===== verification/Checkpoint.v ===== *)
(** * Checkpoints

    Models src/biz/model/checkpoint.go, src/biz/dal/pg/checkpoint_repo.go (the
    repository, over a table of Database.v) and
    src/biz/service/checkpoint_manager.go (the progress kept in memory and flushed
    to the repository).  Times are milliseconds; [now] is the clock. *)

From stdpp Require Import base gmap strings list sorting pretty fin_maps.
From Stdlib Require Import ZArith Lia.
From S2P Require Import Prelude Database.

Local Open Scope go_scope.
Local Open Scope Z_scope.

(** A row of event_offset_checkpoints; the auto-increment ID is read nowhere. *)
Record EventOffsetCheckpoint := mkCheckpoint {
  cp_ProcessorName : string;
  cp_Symbol : string;
  cp_EventSeq : Z;
  cp_KafkaOffset : Z;
  cp_PartitionID : Z;
  cp_Timestamp : Z;
  cp_StateChecksum : string;
  cp_OrderCount : Z;
  cp_TradeCount : Z;
  cp_RecoveryStatus : string;
  cp_RecoveryStartTime : option Z;
  cp_RecoveryEndTime : option Z;
  cp_RecoveryError : string;
  cp_CreatedAt : Z;
  cp_UpdatedAt : Z }.

Record CheckpointSummary := mkCheckpointSummary {
  cs_Symbol : string;
  cs_ProcessorName : string;
  cs_LastEventSeq : Z;
  cs_LastKafkaOffset : Z;
  cs_LastCheckpointTime : Z;
  cs_StateChecksum : string;
  cs_SecondsSinceLastCP : Z }.

Record RecoveryContext := mkRecoveryContext {
  rc_Symbol : string;
  rc_ProcessorName : string;
  rc_StartEventSeq : Z;
  rc_StartKafkaOffset : Z;
  rc_Topic : string;
  rc_Partition : Z;
  rc_PreCrashChecksum : string;
  rc_ExpectedOrderCount : Z;
  rc_ExpectedTradeCount : Z;
  rc_SecondsSinceLastCP : Z;
  rc_RecoveryStartTime : Z;
  rc_RecoveryEndTime : Z;
  rc_RecoveredEventCount : Z;
  rc_RecoverySuccess : bool;
  rc_RecoveryError : string }.

(** ** The repository *)

Definition cp_is (processorName symbol : string) (cp : EventOffsetCheckpoint) : bool :=
  (cp_ProcessorName cp =s processorName) && (cp_Symbol cp =s symbol).

(** The unique index idx_processor_symbol. *)
Definition cp_same (old new : EventOffsetCheckpoint) : bool :=
  cp_is (cp_ProcessorName new) (cp_Symbol new) old.

(** DO UPDATE SET of the listed columns. *)
Definition cp_merge (old new : EventOffsetCheckpoint) : EventOffsetCheckpoint :=
  mkCheckpoint (cp_ProcessorName old) (cp_Symbol old) (cp_EventSeq new) (cp_KafkaOffset new)
    (cp_PartitionID new) (cp_Timestamp new) (cp_StateChecksum new) (cp_OrderCount new)
    (cp_TradeCount new) (cp_RecoveryStatus old) (cp_RecoveryStartTime old)
    (cp_RecoveryEndTime old) (cp_RecoveryError old) (cp_CreatedAt old) (cp_UpdatedAt new).

(** [cp.Timestamp = now], then what gorm fills in before the INSERT: the zero
    autoCreateTime and autoUpdateTime columns and the column default. *)
Definition cp_stamp (now : Z) (cp : EventOffsetCheckpoint) : EventOffsetCheckpoint :=
  mkCheckpoint (cp_ProcessorName cp) (cp_Symbol cp) (cp_EventSeq cp) (cp_KafkaOffset cp)
    (cp_PartitionID cp) now (cp_StateChecksum cp) (cp_OrderCount cp) (cp_TradeCount cp)
    (if cp_RecoveryStatus cp =s "" then "none" else cp_RecoveryStatus cp)
    (cp_RecoveryStartTime cp) (cp_RecoveryEndTime cp) (cp_RecoveryError cp)
    (if cp_CreatedAt cp =? 0 then now else cp_CreatedAt cp)
    (if cp_UpdatedAt cp =? 0 then now else cp_UpdatedAt cp).

(** An UPDATE of the three recovery columns, which also sets updated_at. *)
Definition cp_recovery (now : Z) (status : string) (start : option Z) (fin : option Z)
    (err : option string) (cp : EventOffsetCheckpoint) : EventOffsetCheckpoint :=
  mkCheckpoint (cp_ProcessorName cp) (cp_Symbol cp) (cp_EventSeq cp) (cp_KafkaOffset cp)
    (cp_PartitionID cp) (cp_Timestamp cp) (cp_StateChecksum cp) (cp_OrderCount cp) (cp_TradeCount cp)
    status
    (match start with Some t => Some t | None => cp_RecoveryStartTime cp end)
    (match fin with Some t => Some t | None => cp_RecoveryEndTime cp end)
    (match err with Some e => e | None => cp_RecoveryError cp end)
    (cp_CreatedAt cp) now.

Module Repo.
Section Repo.
Context {D : Type} `{!Table D EventOffsetCheckpoint}.
Implicit Types (r : D).

(** The result is the repository, the error and the caller's struct, which the
    call has stamped. *)
Definition SaveCheckpoint (now : Z) (cp : EventOffsetCheckpoint) r
    : D * option error * EventOffsetCheckpoint :=
  if (cp_ProcessorName cp =s "") || (cp_Symbol cp =s "")
  then (r, Some "processor_name and symbol must not be empty", cp)
  else
    let cp' := cp_stamp now cp in
    let '(r', err) := db_upsert cp_same cp_merge cp' r in
    (r', err, cp').

Definition GetLatestCheckpoint (processorName symbol : string) r
    : outcome (option EventOffsetCheckpoint) :=
  let? rows := db_find (cp_is processorName symbol) (Some (fun cp => - cp_EventSeq cp))
                 (Some 1%nat) r in
  Ok (head rows).

Definition GetCheckpointSummary (now : Z) (processorName symbol : string) r
    : outcome (option CheckpointSummary) :=
  let? found := GetLatestCheckpoint processorName symbol r in
  match found with
  | None => Ok None
  | Some cp =>
      Ok (Some (mkCheckpointSummary symbol processorName (cp_EventSeq cp) (cp_KafkaOffset cp)
        (cp_Timestamp cp) (cp_StateChecksum cp) (Z.quot (i64 (now - cp_Timestamp cp)) 1000)))
  end.

Definition GetRecoveryContext (now : Z) (processorName symbol : string) r : outcome RecoveryContext :=
  let? summary := GetCheckpointSummary now processorName symbol r in
  match summary with
  | Some s =>
      Ok (mkRecoveryContext symbol processorName (u64 (cs_LastEventSeq s + 1))
        (i64 (cs_LastKafkaOffset s + 1)) "" 0 (cs_StateChecksum s) 0 0 (cs_SecondsSinceLastCP s)
        now 0 0 false "")
  | None => Ok (mkRecoveryContext symbol processorName 1 0 "" 0 "" 0 0 0 now 0 0 false "")
  end.

(** Logs the result; only the end time of the context changes. *)
Definition SaveRecoveryResult (now : Z) (ctx : RecoveryContext) : RecoveryContext :=
  mkRecoveryContext (rc_Symbol ctx) (rc_ProcessorName ctx) (rc_StartEventSeq ctx)
    (rc_StartKafkaOffset ctx) (rc_Topic ctx) (rc_Partition ctx) (rc_PreCrashChecksum ctx)
    (rc_ExpectedOrderCount ctx) (rc_ExpectedTradeCount ctx) (rc_SecondsSinceLastCP ctx)
    (rc_RecoveryStartTime ctx) now (rc_RecoveredEventCount ctx) (rc_RecoverySuccess ctx)
    (rc_RecoveryError ctx).

Definition ListAllCheckpoints (limit : Z) r : outcome (list EventOffsetCheckpoint) :=
  db_find (fun _ => true) (Some (fun cp => - cp_UpdatedAt cp))
    (if limit <? 0 then None else Some (Z.to_nat limit)) r.

(** [now.AddDate(0, 0, -keepDays)] in UTC. *)
Definition DeleteOldCheckpoints (now keepDays : Z) r : D * option error :=
  let cutoff := now - keepDays * 86400000 in
  match db_delete (fun cp => cp_CreatedAt cp <? cutoff) r with
  | (r', Err e) => (r', Some e)
  | (r', _) => (r', None)
  end.

Definition update_recovery (processorName symbol : string)
    (f : EventOffsetCheckpoint -> EventOffsetCheckpoint) r : D * option error :=
  match db_update (cp_is processorName symbol) f r with
  | (r', Err e) => (r', Some e)
  | (r', _) => (r', None)
  end.

Definition MarkRecoveryInProgress (now : Z) (processorName symbol : string) r : D * option error :=
  update_recovery processorName symbol (cp_recovery now "in_progress" (Some now) None (Some "")) r.

Definition MarkRecoveryComplete (now : Z) (processorName symbol : string) r : D * option error :=
  update_recovery processorName symbol (cp_recovery now "complete" None (Some now) None) r.

Definition MarkRecoveryFailed (now : Z) (processorName symbol errorMsg : string) r
    : D * option error :=
  update_recovery processorName symbol (cp_recovery now "failed" None (Some now) (Some errorMsg)) r.

Definition GetRecoveryStatus (processorName symbol : string) r : outcome string :=
  let? rows := db_find (cp_is processorName symbol) None (Some 1%nat) r in
  match rows with
  | [] => Ok "none"
  | cp :: _ => Ok (cp_RecoveryStatus cp)
  end.

(** NULL end times come first in a descending PostgreSQL order. *)
Definition ListFailedRecoveries r : outcome (list EventOffsetCheckpoint) :=
  db_find (fun cp => cp_RecoveryStatus cp =s "failed")
    (Some (fun cp => match cp_RecoveryEndTime cp with Some t => - t | None => MinI64 end)) None r.

Definition ListPendingRecoveryItems r : outcome (list EventOffsetCheckpoint) :=
  db_find (fun cp => (cp_RecoveryStatus cp =s "in_progress") || (cp_RecoveryStatus cp =s "failed"))
    (Some (fun cp => - cp_UpdatedAt cp)) None r.
End Repo.
End Repo.

(** ** The manager *)

Section Manager.
Context {D : Type} `{!Table D EventOffsetCheckpoint}.

(** [flushInterval] and [lastFlushTime] are set by the constructor and read by no
    method. *)
Record CheckpointManager := mkCheckpointManager {
  cm_repo : D;
  cm_checkpoints : gmap string EventOffsetCheckpoint }.
Implicit Types (cm : CheckpointManager).

Definition NewCheckpointManager (repo : D) : CheckpointManager := mkCheckpointManager repo ∅.

Definition cp_key (processorName symbol : string) : string := processorName +:+ ":" +:+ symbol.

Definition RecordEventProcessed (now : Z) (processorName symbol : string)
    (eventSeq kafkaOffset partitionID : Z) (stateChecksum : string) (orderCount tradeCount : Z)
    cm : CheckpointManager :=
  let cp := mkCheckpoint processorName symbol eventSeq kafkaOffset partitionID now stateChecksum
              orderCount tradeCount "" None None "" 0 0 in
  mkCheckpointManager (cm_repo cm) (<[cp_key processorName symbol := cp]> (cm_checkpoints cm)).

Definition GetCurrentCheckpoint (processorName symbol : string) cm : option EventOffsetCheckpoint :=
  cm_checkpoints cm !! cp_key processorName symbol.

(** The loop of [FlushCheckpoints] over the keys in the order [keys] in which Go
    enumerates the map; the stamped structs are those of the map. *)
Fixpoint flush_keys (now : Z) (keys : list string) cm : CheckpointManager * option error :=
  match keys with
  | [] => (cm, None)
  | key :: rest =>
      match cm_checkpoints cm !! key with
      | None => flush_keys now rest cm
      | Some cp =>
          match Repo.SaveCheckpoint now cp (cm_repo cm) with
          | (repo, err, cp') =>
              let cm' := mkCheckpointManager repo (<[key := cp']> (cm_checkpoints cm)) in
              match err with
              | Some e => (cm', Some e)
              | None => flush_keys now rest cm'
              end
          end
      end
  end.

Definition FlushCheckpoints (now : Z) (keys : list string) cm : CheckpointManager * option error :=
  flush_keys now keys cm.

Definition GetRecoveryContext (now : Z) (processorName symbol : string) cm : outcome RecoveryContext :=
  Repo.GetRecoveryContext now processorName symbol (cm_repo cm).

Definition MarkRecoveryComplete (now : Z) (ctx : RecoveryContext) (success : bool) (err : string)
    : RecoveryContext :=
  Repo.SaveRecoveryResult now
    (mkRecoveryContext (rc_Symbol ctx) (rc_ProcessorName ctx) (rc_StartEventSeq ctx)
      (rc_StartKafkaOffset ctx) (rc_Topic ctx) (rc_Partition ctx) (rc_PreCrashChecksum ctx)
      (rc_ExpectedOrderCount ctx) (rc_ExpectedTradeCount ctx) (rc_SecondsSinceLastCP ctx)
      (rc_RecoveryStartTime ctx) (rc_RecoveryEndTime ctx) (rc_RecoveredEventCount ctx) success err).

(** The string that is hashed; [orderBook] and [positions] are the renderings
    [fmt] gives of the two values, [md5hex] the hexadecimal MD5 digest. *)
Definition checksum_data (orderBook positions : string) (now : Z) : string :=
  "orderbook:" +:+ orderBook +:+ "|positions:" +:+ positions +:+ "|timestamp:" +:+ pretty now.

Definition CalculateStateChecksum (md5hex : string -> string) (now : Z)
    (orderBook positions : string) : string :=
  md5hex (checksum_data orderBook positions now).

Definition ValidateRecovery (preChecksum postChecksum : string)
    (expectedOrderCount actualOrderCount expectedTradeCount actualTradeCount : Z) : bool * string :=
  if negb (preChecksum =s postChecksum) then
    (false, "state checksum mismatch: pre=" +:+ preChecksum +:+ ", post=" +:+ postChecksum)
  else if negb (expectedOrderCount =? actualOrderCount) then
    (false, "order count mismatch: expected=" +:+ pretty expectedOrderCount +:+ ", actual="
            +:+ pretty actualOrderCount)
  else if negb (expectedTradeCount =? actualTradeCount) then
    (false, "trade count mismatch: expected=" +:+ pretty expectedTradeCount +:+ ", actual="
            +:+ pretty actualTradeCount)
  else (true, "").

Definition ListCheckpoints (limit : Z) cm : outcome (list EventOffsetCheckpoint) :=
  Repo.ListAllCheckpoints limit (cm_repo cm).

Definition CleanupOldCheckpoints (now keepDays : Z) cm : CheckpointManager * option error :=
  let '(repo, err) := Repo.DeleteOldCheckpoints now keepDays (cm_repo cm) in
  (mkCheckpointManager repo (cm_checkpoints cm), err).

(** Pairs of processor name and symbol. *)
Definition ListPendingRecoveryItems cm : outcome (list (string * string)) :=
  let? cps := Repo.ListPendingRecoveryItems (cm_repo cm) in
  Ok ((fun cp => (cp_ProcessorName cp, cp_Symbol cp)) <$> cps).
End Manager.
Arguments CheckpointManager D : clear implicits.
