(* ===== verification/CheckpointProps.v ===== *)
(** * Properties of checkpoints *)

From stdpp Require Import base gmap strings list sorting pretty fin_maps.
From Stdlib Require Import ZArith Lia.
From S2P Require Import Prelude Database Checkpoint.

Local Open Scope go_scope.
Local Open Scope Z_scope.

Section Props.
Context {D : Type} `{!Table D EventOffsetCheckpoint, !TableLaws D EventOffsetCheckpoint}.
Implicit Types (r : D) (cm : CheckpointManager D) (cp row : EventOffsetCheckpoint).

Abbreviation cp_id := (fun row => (cp_ProcessorName row, cp_Symbol row)).

(** The unique index: one row per processor and symbol. *)
Definition unique_rows r : Prop := NoDup (cp_id <$> db_rows r).

(** The progress a row records. *)
Definition same_progress row cp : Prop :=
  cp_EventSeq row = cp_EventSeq cp /\ cp_KafkaOffset row = cp_KafkaOffset cp /\
  cp_PartitionID row = cp_PartitionID cp /\ cp_StateChecksum row = cp_StateChecksum cp /\
  cp_OrderCount row = cp_OrderCount cp /\ cp_TradeCount row = cp_TradeCount cp.

Lemma cp_is_true p s row : cp_is p s row = true <-> cp_id row = (p, s).
Proof.
  unfold cp_is. rewrite andb_true_iff, !bool_decide_eq_true. split; [by intros [-> ->]|].
  by intros [= -> ->].
Qed.

(** Rows after an upsert, read by key. *)
Lemma upsert_rows new (rows : list EventOffsetCheckpoint) row :
  row ∈ (if existsb (fun old => cp_same old new) rows
         then (fun old => if cp_same old new then cp_merge old new else old) <$> rows
         else new :: rows) ->
  (cp_id row = cp_id new /\ same_progress row new /\ cp_Timestamp row = cp_Timestamp new) \/
  (cp_id row <> cp_id new /\ row ∈ rows).
Proof.
  assert (Hsame : forall old, cp_same old new = true <-> cp_id old = cp_id new)
    by (intros; apply cp_is_true).
  destruct (existsb _ rows) eqn:Hex.
  - intros (old & -> & Hold)%list_elem_of_fmap. destruct (cp_same old new) eqn:Hs.
    + apply Hsame in Hs. left. by split_and!.
    + right. split; [|done]. intros Heq%Hsame. congruence.
  - intros [->|Hin]%elem_of_cons; [by left|]. right. split; [|done]. intros Heq%Hsame.
    assert (existsb (fun old => cp_same old new) rows = true); [|congruence].
    apply existsb_exists. exists row. by rewrite <- list_elem_of_In.
Qed.

Lemma upsert_keeps new (rows : list EventOffsetCheckpoint) row :
  row ∈ rows -> cp_id row <> cp_id new ->
  row ∈ (if existsb (fun old => cp_same old new) rows
         then (fun old => if cp_same old new then cp_merge old new else old) <$> rows
         else new :: rows).
Proof.
  intros Hin Hne. destruct (existsb _ rows); [|by right].
  apply list_elem_of_fmap. exists row. split; [|done].
  destruct (cp_same row new) eqn:Hs; [|done]. by apply cp_is_true in Hs.
Qed.

Lemma upsert_unique new (rows : list EventOffsetCheckpoint) :
  NoDup (cp_id <$> rows) ->
  NoDup (cp_id <$> (if existsb (fun old => cp_same old new) rows
         then (fun old => if cp_same old new then cp_merge old new else old) <$> rows
         else new :: rows)).
Proof.
  intros Hnd. destruct (existsb _ rows) eqn:Hex.
  - rewrite <- list_fmap_compose. erewrite list_fmap_ext; [exact Hnd|].
    intros _ old _. simpl. by destruct (cp_same old new).
  - rewrite fmap_cons, NoDup_cons. split; [|done].
    intros (old & Heq & Hin)%list_elem_of_fmap.
    assert (existsb (fun old => cp_same old new) rows = true); [|congruence].
    apply existsb_exists. exists old. rewrite <- list_elem_of_In. split; [done|].
    by apply cp_is_true.
Qed.

Lemma upsert_present new (rows : list EventOffsetCheckpoint) :
  exists row, row ∈ (if existsb (fun old => cp_same old new) rows
         then (fun old => if cp_same old new then cp_merge old new else old) <$> rows
         else new :: rows) /\ cp_id row = cp_id new.
Proof.
  destruct (existsb _ rows) eqn:Hex; [|exists new; split; [left|done]].
  apply existsb_exists in Hex as (old & Hin & Hs). exists (cp_merge old new).
  split; [|by apply cp_is_true in Hs]. apply list_elem_of_fmap. exists old.
  by rewrite Hs, list_elem_of_In.
Qed.

(** A successful save, as a statement about the rows. *)
Lemma save_ok now cp r r' cp' :
  Repo.SaveCheckpoint now cp r = (r', None, cp') ->
  cp' = cp_stamp now cp /\
  (unique_rows r -> unique_rows r') /\
  (exists row, row ∈ db_rows r' /\ cp_id row = cp_id cp) /\
  (forall row, row ∈ db_rows r' -> cp_id row = cp_id cp ->
     same_progress row cp /\ cp_Timestamp row = now) /\
  (forall row, cp_id row <> cp_id cp -> (row ∈ db_rows r' <-> row ∈ db_rows r)).
Proof.
  unfold Repo.SaveCheckpoint. destruct (_ || _); [done|].
  destruct (db_upsert _ _ _ _) as [r1 [e|]] eqn:Hu; [done|]. intros [= <- <-].
  apply db_upsert_ok in Hu. pose proof (upsert_rows (cp_stamp now cp) (db_rows r)) as Hrows.
  unfold unique_rows. split_and!; [done| | | |].
  - intros Hnd. rewrite Hu. by apply upsert_unique.
  - destruct (upsert_present (cp_stamp now cp) (db_rows r)) as (row & Hin & Hid).
    exists row. by rewrite Hu.
  - intros row Hin Hid. rewrite Hu in Hin.
    destruct (Hrows row Hin) as [(_ & Hs & Ht)|[Hne _]]; [by split|]. by destruct Hne.
  - intros row Hne. rewrite Hu. split; [|intros Hin; by apply upsert_keeps].
    intros Hin. destruct (Hrows row Hin) as [(Heq & _ & _)|[_ ?]]; [|done]. by destruct Hne.
Qed.

(** What [GetLatestCheckpoint] finds under the unique index. *)
Lemma latest_found r p s found :
  Repo.GetLatestCheckpoint p s r = Ok found ->
  match found with
  | Some row => row ∈ db_rows r /\ cp_id row = (p, s)
  | None => forall row, row ∈ db_rows r -> cp_id row <> (p, s)
  end.
Proof.
  unfold Repo.GetLatestCheckpoint. destruct (db_find _ _ _ _) as [rows| |] eqn:Hf; simpl; [|done..].
  intros [= <-]. pose proof (db_find_ok _ _ _ _ _ Hf) as Hsel. destruct rows as [|row rows]; simpl.
  - destruct Hsel as (full & Hp & _ & Hl). simpl in Hl. destruct full as [|x full]; [|done].
    intros row Hin Hid. apply Permutation_nil in Hp.
    assert (row ∈ List.filter (cp_is p s) (db_rows r)).
    { apply list_elem_of_In, List.filter_In. by rewrite <- list_elem_of_In, cp_is_true. }
    rewrite Hp in *. by apply elem_of_nil in H.
  - destruct (select_elem _ _ _ _ _ row Hsel ltac:(left)) as [? Hw]. by apply cp_is_true in Hw.
Qed.

(** C32: a checkpoint that was saved is the one read back: with one row per
    processor and symbol, which saving preserves, reading that processor and
    symbol gives the saved progress with the time of the save, and the rows of
    every other processor or symbol are as before. *)
Theorem checkpoint_save_load now cp r r' cp' found :
  unique_rows r -> Repo.SaveCheckpoint now cp r = (r', None, cp') ->
  Repo.GetLatestCheckpoint (cp_ProcessorName cp) (cp_Symbol cp) r' = Ok found ->
  unique_rows r' /\
  (exists row, found = Some row /\ same_progress row cp /\ cp_Timestamp row = now) /\
  (forall row, cp_id row <> cp_id cp -> (row ∈ db_rows r' <-> row ∈ db_rows r)).
Proof.
  intros Hu Hs Hf. apply save_ok in Hs as (_ & Huniq & (row0 & Hin0 & Hid0) & Hprog & Hother).
  split_and!; auto. apply latest_found in Hf. destruct found as [row|].
  - destruct Hf as [Hin Hid]. exists row. split; [done|]. by apply Hprog.
  - by destruct (Hf row0 Hin0).
Qed.

(** *** Flushing *)

(** Each struct of the map sits under the key of its own names. *)
Definition manager_ok cm : Prop :=
  forall k cp, cm_checkpoints cm !! k = Some cp -> k = cp_key (cp_ProcessorName cp) (cp_Symbol cp).

Lemma record_ok now p s q o part cs oc tc cm :
  manager_ok cm -> manager_ok (RecordEventProcessed now p s q o part cs oc tc cm).
Proof.
  intros Hok k cp. simpl. destruct (decide (k = cp_key p s)) as [->|Hne].
  - rewrite lookup_insert_eq. by intros [= <-].
  - rewrite lookup_insert_ne by done. apply Hok.
Qed.

(** The rows of [cp] hold its progress. *)
Definition stored cp r : Prop :=
  (exists row, row ∈ db_rows r /\ cp_id row = cp_id cp) /\
  (forall row, row ∈ db_rows r -> cp_id row = cp_id cp -> same_progress row cp).

Lemma flush_keys_ok now keys cm cm' :
  manager_ok cm -> flush_keys now keys cm = (cm', None) ->
  (unique_rows (cm_repo cm) -> unique_rows (cm_repo cm')) /\
  (forall cp k, cm_checkpoints cm !! k = Some cp ->
     k ∈ keys \/ stored cp (cm_repo cm) -> stored cp (cm_repo cm')).
Proof.
  revert cm. induction keys as [|key keys IH]; intros cm Hok; simpl.
  { intros [= <-]. split; [done|]. intros cp k _ [?%elem_of_nil|?]; done. }
  destruct (cm_checkpoints cm !! key) as [cp0|] eqn:Hk.
  2:{ intros H. destruct (IH cm Hok H) as [Hu Hs]. split; [done|].
      intros cp k Hcp [[->|?]%elem_of_cons|?]; [congruence|..]; apply (Hs cp k); auto. }
  destruct (Repo.SaveCheckpoint now cp0 (cm_repo cm)) as [[repo [e|]] cp0'] eqn:Hsave; [done|].
  pose proof (save_ok _ _ _ _ _ Hsave) as (-> & Huq & Hex & Hprog & Hother).
  assert (Hok' : manager_ok (mkCheckpointManager repo (<[key := cp_stamp now cp0]> (cm_checkpoints cm)))).
  { intros k cp. simpl. destruct (decide (k = key)) as [->|Hne].
    - rewrite lookup_insert_eq. intros [= <-]. simpl. by apply Hok.
    - rewrite lookup_insert_ne by done. apply Hok. }
  intros H. destruct (IH _ Hok' H) as [Hu Hs]. simpl in *. split; [auto|].
  intros cp k Hcp Hwhere. destruct (decide (k = key)) as [->|Hne].
  - assert (cp = cp0) as -> by congruence.
    destruct (Hs (cp_stamp now cp0) key) as [Hex' Hp']; [by rewrite lookup_insert_eq| |by split].
    right. split; [done|]. intros row ? ?. by apply Hprog.
  - apply (Hs cp k); [by rewrite lookup_insert_ne|].
    destruct Hwhere as [[->|?]%elem_of_cons|[(row & Hrow & Hid) Hp]]; [done|by left|right].
    assert (Hdiff : cp_id cp <> cp_id cp0).
    { intros [= He1 He2]. destruct Hne. rewrite (Hok _ _ Hcp), (Hok _ _ Hk). by rewrite He1, He2. }
    split; [exists row; split; [apply Hother; congruence|done]|].
    intros row' Hr' Hid'. apply Hp; [|done]. apply Hother; congruence.
Qed.

(** A flush that reports no error has persisted everything, in whatever order
    the map was enumerated: for every checkpoint in memory, recovery then starts
    at the sequence number and the Kafka offset after the recorded ones. *)
Theorem flush_then_recover now now' keys cm cm' k cp ctx :
  manager_ok cm -> (forall k, k ∈ dom (cm_checkpoints cm) -> k ∈ keys) ->
  FlushCheckpoints now keys cm = (cm', None) ->
  cm_checkpoints cm !! k = Some cp ->
  GetRecoveryContext now' (cp_ProcessorName cp) (cp_Symbol cp) cm' = Ok ctx ->
  rc_StartEventSeq ctx = u64 (cp_EventSeq cp + 1) /\
  rc_StartKafkaOffset ctx = i64 (cp_KafkaOffset cp + 1) /\
  rc_PreCrashChecksum ctx = cp_StateChecksum cp.
Proof.
  intros Hok Hkeys Hfl Hcp Hctx. destruct (flush_keys_ok _ _ _ _ Hok Hfl) as [_ Hs].
  destruct (Hs cp k Hcp) as [(row0 & Hin0 & Hid0) Hprog].
  { left. apply Hkeys, elem_of_dom. eauto. }
  unfold GetRecoveryContext, Repo.GetRecoveryContext, Repo.GetCheckpointSummary in Hctx.
  destruct (Repo.GetLatestCheckpoint _ _ _) as [found| |] eqn:Hf; simpl in Hctx; [|done..].
  apply latest_found in Hf. destruct found as [row|]; [|by destruct (Hf row0 Hin0)].
  destruct Hf as [Hin Hid]. destruct (Hprog row Hin Hid) as (He & Ho & _ & Hc & _).
  injection Hctx as <-. simpl. by rewrite He, Ho, Hc.
Qed.

(** A processor and symbol without a checkpoint are recovered from the first
    event and the first Kafka offset. *)
Theorem recover_from_start now p s cm ctx :
  (forall row, row ∈ db_rows (cm_repo cm) -> cp_id row <> (p, s)) ->
  GetRecoveryContext now p s cm = Ok ctx ->
  rc_StartEventSeq ctx = 1 /\ rc_StartKafkaOffset ctx = 0 /\ rc_PreCrashChecksum ctx = "".
Proof.
  intros Hnone Hctx.
  unfold GetRecoveryContext, Repo.GetRecoveryContext, Repo.GetCheckpointSummary in Hctx.
  destruct (Repo.GetLatestCheckpoint _ _ _) as [found| |] eqn:Hf; simpl in Hctx; [|done..].
  apply latest_found in Hf. destruct found as [row|]; [|by simplify_eq/=].
  destruct Hf as [Hin Hid]. by destruct (Hnone row Hin).
Qed.
End Props.

(** ** State checksums *)

(** The state checksum hashes the clock: two checksums of the same order book
    and positions taken at different times hash different strings, so validation
    of a recovery against the checksum recorded before the crash succeeds only if
    the hash collides. *)
Theorem checksum_depends_on_time md5hex t1 t2 ob pos oc tc :
  (forall x y, md5hex x = md5hex y -> x = y) -> t1 <> t2 ->
  (ValidateRecovery (CalculateStateChecksum md5hex t1 ob pos)
     (CalculateStateChecksum md5hex t2 ob pos) oc oc tc tc).1 = false.
Proof.
  intros Hinj Hne. unfold ValidateRecovery, CalculateStateChecksum.
  rewrite bool_decide_eq_false_2; [done|]. intros Heq%Hinj. unfold checksum_data in Heq.
  repeat match type of Heq with ?a +:+ _ = ?a +:+ _ => apply (inj (String.append a)) in Heq end.
  by apply (inj pretty) in Heq.
Qed.

Lemma checksum_depends_on_time_witness :
  (ValidateRecovery (CalculateStateChecksum id 1 "b" "p") (CalculateStateChecksum id 2 "b" "p")
     3 3 4 4).1 = false.
Proof. exact (checksum_depends_on_time id 1 2 "b" "p" 3 4 (fun x y H => H) ltac:(lia)). Defined.

(** ** Witnesses *)

#[local] Instance cps_table : Table (ListTable EventOffsetCheckpoint) EventOffsetCheckpoint :=
  ListTable_ops (fun a b => cp_same a b).
#[local] Instance cps_table_laws : TableLaws (ListTable EventOffsetCheckpoint) EventOffsetCheckpoint :=
  ListTable_laws _.

Definition demo_manager : CheckpointManager (ListTable EventOffsetCheckpoint) :=
  RecordEventProcessed 10 "db" "ETH" 7 70 0 "y" 1 1
    (RecordEventProcessed 10 "db" "BTC" 5 50 0 "x" 2 3
       (NewCheckpointManager (mkListTable []))).

Definition demo_cp : EventOffsetCheckpoint := mkCheckpoint "db" "BTC" 5 50 0 10 "x" 2 3 "" None None "" 0 0.

Lemma checkpoint_save_load_witness :
  exists row, Repo.GetLatestCheckpoint "db" "BTC"
      (Repo.SaveCheckpoint 99 demo_cp (mkListTable [])).1.1 = Ok (Some row) /\ cp_EventSeq row = 5.
Proof.
  destruct (Repo.GetLatestCheckpoint "db" "BTC" (Repo.SaveCheckpoint 99 demo_cp (mkListTable [])).1.1)
    as [found| |] eqn:H; [|vm_compute in H; discriminate..].
  assert (Hu : unique_rows (mkListTable [] : ListTable EventOffsetCheckpoint)) by apply NoDup_nil_2.
  destruct (checkpoint_save_load 99 demo_cp (mkListTable []) _ (cp_stamp 99 demo_cp) found
    Hu eq_refl H) as (_ & (row & -> & (? & _) & _) & _).
  exists row. split; done.
Defined.

Lemma flush_then_recover_witness :
  exists ctx, GetRecoveryContext 200 "db" "ETH"
      (FlushCheckpoints 100 ["db:ETH"; "db:BTC"] demo_manager).1 = Ok ctx /\
    rc_StartEventSeq ctx = 8.
Proof.
  destruct (GetRecoveryContext 200 "db" "ETH"
    (FlushCheckpoints 100 ["db:ETH"; "db:BTC"] demo_manager).1) as [ctx| |] eqn:H;
    [|vm_compute in H; discriminate..].
  exists ctx. split; [done|].
  destruct (flush_then_recover 100 200 ["db:ETH"; "db:BTC"] demo_manager
    (FlushCheckpoints 100 ["db:ETH"; "db:BTC"] demo_manager).1 "db:ETH"
    (mkCheckpoint "db" "ETH" 7 70 0 10 "y" 1 1 "" None None "" 0 0) ctx) as (He & _).
  - do 2 apply record_ok. intros k cp Hk. simpl in Hk. by apply lookup_empty_Some in Hk.
  - intros k Hk. apply elem_of_dom in Hk. simpl in Hk.
    rewrite !lookup_insert_is_Some in Hk.
    destruct Hk as [<-|[_ [<-|[_ [? Hk]]]]]; [left|right; left|by apply lookup_empty_Some in Hk].
  - vm_compute. reflexivity.
  - vm_compute. reflexivity.
  - exact H.
  - exact He.
Defined.

Lemma recover_from_start_witness :
  exists ctx, GetRecoveryContext 200 "db" "ETH" demo_manager = Ok ctx /\ rc_StartEventSeq ctx = 1.
Proof.
  destruct (GetRecoveryContext 200 "db" "ETH" demo_manager) as [ctx| |] eqn:H;
    [|vm_compute in H; discriminate..].
  exists ctx. split; [done|].
  refine (proj1 (recover_from_start 200 "db" "ETH" demo_manager ctx _ H)).
  intros row Hin. by apply elem_of_nil in Hin.
Defined.
