(* ===== verification/Pipeline.v ===== *)
(** * The event pipeline

    Models src/biz/service/event_pipeline.go: an event is appended to the log and
    handed to every registered processor; per processor and symbol the pipeline
    keeps the last sequence number processed and skips what is not newer.

    The goroutines of one dispatch run under a lock per processor and symbol and
    are joined before the dispatch returns.  Each is one step of the model on the
    shared state; [schedule] is the order in which the scheduler ran them and
    [enum] the order in which Go enumerates the checkpoint map.  The world [W] is
    what processors write to (database, positions, subscribers).  A goroutine that
    panics takes the process down: the dispatch is [Panic]. *)

From stdpp Require Import base gmap strings list sorting.
From Stdlib Require Import ZArith Lia.
From S2P Require Import Prelude Events Database Sequencer EventLog Checkpoint.

Local Open Scope go_scope.
Local Open Scope Z_scope.

(** [model.EventProcessor]; a processor may panic. *)
Record EventProcessor (W : Type) := mkEventProcessor {
  ProcessorName : string;
  proc_ProcessEvent : MatchingEngineEvent -> W -> outcome (W * option error) }.
Arguments mkEventProcessor {W}.
Arguments ProcessorName {W}.
Arguments proc_ProcessEvent {W}.

Record PipelineStats := mkPipelineStats { ProcessedEvents : Z; FailedEvents : Z }.

Section Pipeline.
Context {L D W : Type} `{!EventStore L} `{!Table D EventOffsetCheckpoint}.
Abbreviation processor := (EventProcessor W).

Record EventPipeline := mkEventPipeline {
  ep_eventLog : L;
  ep_processors : list processor;
  ep_processorOffsets : gmap string (gmap string Z);
  ep_kafkaOffsets : gmap string (gmap string Z);
  ep_checkpointMgr : option (CheckpointManager D);
  ep_processedEventCount : Z;
  ep_failedEventCount : Z;
  ep_world : W }.
Implicit Types (ep : EventPipeline) (p : processor).

Definition NewEventPipeline (eventLog : L) (world : W) : EventPipeline :=
  mkEventPipeline eventLog [] ∅ ∅ None 0 0 world.

Definition SetCheckpointManager (cm : option (CheckpointManager D)) ep : EventPipeline :=
  mkEventPipeline (ep_eventLog ep) (ep_processors ep) (ep_processorOffsets ep) (ep_kafkaOffsets ep)
    cm (ep_processedEventCount ep) (ep_failedEventCount ep) (ep_world ep).

Definition RegisterProcessor (processor : option processor) ep : EventPipeline * option error :=
  match processor with
  | None => (ep, Some "processor cannot be nil")
  | Some p =>
      let name := ProcessorName p in
      (mkEventPipeline (ep_eventLog ep) (ep_processors ep ++ [p])
         (<[name := ∅]> (ep_processorOffsets ep)) (<[name := ∅]> (ep_kafkaOffsets ep))
         (ep_checkpointMgr ep) (ep_processedEventCount ep) (ep_failedEventCount ep) (ep_world ep),
       None)
  end.

Definition set_log (log : L) ep : EventPipeline :=
  mkEventPipeline log (ep_processors ep) (ep_processorOffsets ep) (ep_kafkaOffsets ep)
    (ep_checkpointMgr ep) (ep_processedEventCount ep) (ep_failedEventCount ep) (ep_world ep).

(** An event was not processed: the world is what the processor left. *)
Definition count_failed (world : W) ep : EventPipeline :=
  mkEventPipeline (ep_eventLog ep) (ep_processors ep) (ep_processorOffsets ep) (ep_kafkaOffsets ep)
    (ep_checkpointMgr ep) (ep_processedEventCount ep) (i64 (ep_failedEventCount ep + 1)) world.

(** [processorOffsets[procName][symbol]], zero for an absent key. *)
Definition last_seq (procName symbol : string) ep : Z :=
  default 0 (ep_processorOffsets ep !! procName ≫= fun m => m !! symbol).

Section Dispatch.
Context (now : Z) (schedule : list processor -> list processor)
        (enum : gmap string EventOffsetCheckpoint -> list string).

(** Phase 3 of a goroutine: progress, Kafka offset and checkpoint.  Writing into
    the map of a name that was never registered panics, and so does reading the
    state fields of a nil context. *)
Definition record_progress (event : MatchingEngineEvent) (eventCtx : option EventContext)
    (procName : string) (world : W) ep : outcome EventPipeline :=
  let symbol := Symbol event in
  let seq := EventSeq event in
  match ep_processorOffsets ep !! procName with
  | None => Panic
  | Some offsets =>
      let po := <[procName := <[symbol := seq]> offsets]> (ep_processorOffsets ep) in
      let? ko := match eventCtx with
                 | Some ctx =>
                     if 0 <=? ec_Offset ctx then
                       match ep_kafkaOffsets ep !! procName with
                       | None => Panic
                       | Some ks => Ok (<[procName := <[symbol := ec_Offset ctx]> ks]> (ep_kafkaOffsets ep))
                       end
                     else Ok (ep_kafkaOffsets ep)
                 | None => Ok (ep_kafkaOffsets ep)
                 end in
      let? cm := match ep_checkpointMgr ep with
                 | None => Ok None
                 | Some cm =>
                     match eventCtx with
                     | None => Panic
                     | Some ctx =>
                         Ok (Some (RecordEventProcessed now procName symbol seq (ec_Offset ctx)
                           (ec_Partition ctx) (ec_StateChecksum ctx) (ec_OrderCount ctx)
                           (ec_TradeCount ctx) cm))
                     end
                 end in
      Ok (mkEventPipeline (ep_eventLog ep) (ep_processors ep) po ko cm
            (i64 (ep_processedEventCount ep + 1)) (ep_failedEventCount ep) world)
  end.

(** One goroutine of the dispatch; the error is what it sends to errChan. *)
Definition run_processor (event : MatchingEngineEvent) (eventCtx : option EventContext) p ep
    : outcome (EventPipeline * option error) :=
  let procName := ProcessorName p in
  if EventSeq event <=? last_seq procName (Symbol event) ep then Ok (ep, None)
  else
    let? r := proc_ProcessEvent p event (ep_world ep) in
    match r with
    | (world, Some err) =>
        Ok (count_failed world ep, Some (errorf_w ("processor " +:+ procName) (Some err)))
    | (world, None) =>
        let? ep' := record_progress event eventCtx procName world ep in Ok (ep', None)
    end.

(** All goroutines, in the order they ran; [err] is the first error sent. *)
Fixpoint run_all (event : MatchingEngineEvent) (eventCtx : option EventContext)
    (ps : list processor) ep (err : option error) : outcome (EventPipeline * option error) :=
  match ps with
  | [] => Ok (ep, err)
  | p :: ps' =>
      let? r := run_processor event eventCtx p ep in
      let '(ep', e) := r in
      run_all event eventCtx ps' ep' (match err with Some _ => err | None => e end)
  end.

Definition flush_checkpoints ep : EventPipeline :=
  match ep_checkpointMgr ep with
  | None => ep
  | Some cm =>
      SetCheckpointManager (Some (FlushCheckpoints now (enum (cm_checkpoints cm)) cm).1) ep
  end.

(** A nil event panics on its first method call. *)
Definition dispatchToProcessorsInternal (event : option MatchingEngineEvent)
    (eventCtx : option EventContext) ep : outcome (EventPipeline * option error) :=
  match event with
  | None => Panic
  | Some event =>
      let? r := run_all event eventCtx (schedule (ep_processors ep)) ep None in
      match r with
      | (ep', Some err) => Ok (ep', Some err)
      | (ep', None) => Ok (flush_checkpoints ep', None)
      end
  end.

Definition dispatchToProcessors (event : option MatchingEngineEvent) ep
    : outcome (EventPipeline * option error) :=
  dispatchToProcessorsInternal event None ep.

Definition ProcessEvent (event : option MatchingEngineEvent) ep
    : outcome (EventPipeline * option error) :=
  match event with
  | None => Ok (ep, Some "event cannot be nil")
  | Some _ =>
      match AppendEvent event (ep_eventLog ep) with
      | (log, Some err) => Ok (count_failed (ep_world ep) (set_log log ep), Some err)
      | (log, None) => dispatchToProcessorsInternal event None (set_log log ep)
      end
  end.

Definition ProcessEventWithContext (eventCtx : option EventContext) ep
    : outcome (EventPipeline * option error) :=
  match eventCtx with
  | None => Ok (ep, Some "event context cannot be nil")
  | Some ctx =>
      if negb (IsValid ctx) then Ok (ep, Some "event context is invalid")
      else
        match AppendEvent (ec_Event ctx) (ep_eventLog ep) with
        | (log, Some err) => Ok (count_failed (ep_world ep) (set_log log ep), Some err)
        | (log, None) => dispatchToProcessorsInternal (ec_Event ctx) (Some ctx) (set_log log ep)
        end
  end.

(** The loop of [ProcessEventsFromLog]; errors are logged and skipped. *)
Fixpoint replay (envs : list EventEnvelope) ep : outcome EventPipeline :=
  match envs with
  | [] => Ok ep
  | env :: envs' =>
      match UnmarshalEvent env with
      | Err _ => replay envs' ep
      | Panic => Panic
      | Ok event =>
          let? r := dispatchToProcessorsInternal event None ep in replay envs' r.1
      end
  end.

Definition ProcessEventsFromLog (symbol : string) (startSeq limit : Z) ep : outcome EventPipeline :=
  let? envs := GetEventsBySymbol symbol startSeq limit (ep_eventLog ep) in replay envs ep.
End Dispatch.

Definition GetProcessorOffset (processorName symbol : string) ep : Z :=
  match ep_processorOffsets ep !! processorName with
  | Some offsets => default 0 (offsets !! symbol)
  | None => 0
  end.

Definition GetProcessorKafkaOffset (processorName symbol : string) ep : Z :=
  match ep_kafkaOffsets ep !! processorName with
  | Some offsets => default 0 (offsets !! symbol)
  | None => -1
  end.

Definition GetProcessor (processorName : string) ep : option processor :=
  List.find (fun p => ProcessorName p =s processorName) (ep_processors ep).

Definition GetPipelineStats ep : PipelineStats :=
  mkPipelineStats (ep_processedEventCount ep) (ep_failedEventCount ep).
End Pipeline.
Arguments EventPipeline L D W : clear implicits.
