(* ===== verification/PipelineProps.v ===== *)
(** * Properties of the event pipeline

    Processing is at most once and in order per processor and symbol, for every
    schedule of the goroutines; duplicates change nothing; an event without a
    Kafka context brings a pipeline with checkpoints down; a failed event that was
    overtaken is never retried. *)

From stdpp Require Import base gmap strings list sorting.
From Stdlib Require Import ZArith Lia.
From S2P Require Import Prelude Events Database Sequencer EventLog Checkpoint Pipeline.

Local Open Scope go_scope.
Local Open Scope Z_scope.

(** A processor that also logs each event it has processed successfully, as
    (processor name, symbol, sequence number). *)
Definition logged {W} (p : EventProcessor W) : EventProcessor (W * list (string * string * Z)) :=
  mkEventProcessor (ProcessorName p) (fun ev w =>
    let? r := proc_ProcessEvent p ev w.1 in
    let '(w0, err) := r in
    Ok ((w0, match err with
             | None => w.2 ++ [(ProcessorName p, Symbol ev, EventSeq ev)]
             | Some _ => w.2
             end), err)).

(** The numbers logged for one processor and symbol. *)
Definition seqs_of (name symbol : string) (log : list (string * string * Z)) : list Z :=
  snd <$> List.filter (fun e => (e.1.1 =s name) && (e.1.2 =s symbol)) log.

Lemma seqs_of_snoc name symbol log n s q :
  seqs_of name symbol (log ++ [(n, s, q)]) =
    seqs_of name symbol log ++ (if (n =s name) && (s =s symbol) then [q] else []).
Proof.
  unfold seqs_of. rewrite List.filter_app, fmap_app. simpl. by destruct (_ && _).
Qed.

Lemma sorted_snoc (l : list Z) q :
  StronglySorted Z.lt l -> Forall (fun x => x < q) l -> StronglySorted Z.lt (l ++ [q]).
Proof.
  intros Hs Hall. apply StronglySorted_app. split_and!; [|done|repeat constructor].
  intros x y Hx ->%list_elem_of_singleton. rewrite Forall_forall in Hall. by apply Hall.
Qed.

Section Props.
Context {L D W : Type} `{!EventStore L} `{!Table D EventOffsetCheckpoint}.
Implicit Types (now : Z).

Section Progress.
Context {W0 : Type}.
Implicit Types (ep : EventPipeline L D W0).

Lemma last_seq_insert name symbol n s q offsets ep po :
  ep_processorOffsets ep !! n = Some offsets ->
  po = <[n := <[s := q]> offsets]> (ep_processorOffsets ep) ->
  default 0 (po !! name ≫= fun m => m !! symbol) =
    if (n =s name) && (s =s symbol) then q else last_seq name symbol ep.
Proof.
  intros Hn ->. unfold last_seq. case_bool_decide as Hname; simpl.
  - subst n. rewrite lookup_insert_eq. simpl. rewrite Hn. simpl.
    case_bool_decide as Hsym; [subst; by rewrite lookup_insert_eq|by rewrite lookup_insert_ne].
  - by rewrite lookup_insert_ne.
Qed.

(** Progress is recorded for this processor and symbol only. *)
Lemma record_progress_last now event ctx name w ep ep' :
  record_progress now event ctx name w ep = Ok ep' ->
  ep_world ep' = w /\ ep_processors ep' = ep_processors ep /\
  (forall n s, last_seq n s ep' =
     if (name =s n) && (Symbol event =s s) then EventSeq event else last_seq n s ep).
Proof.
  unfold record_progress. destruct (ep_processorOffsets ep !! name) as [offsets|] eqn:Hn; [|done].
  repeat (case_match; simpl); intros; simplify_eq/=; split_and!; auto;
    intros n s; unfold last_seq at 1; simpl; by erewrite last_seq_insert.
Qed.

End Progress.

Section Order.
Abbreviation world := (W * list (string * string * Z))%type.
Abbreviation pipeline := (EventPipeline L D world).
Implicit Types (ep : pipeline).

(** What the log of the world says of one processor and symbol. *)
Definition in_order ep : Prop :=
  forall name symbol,
    StronglySorted Z.lt (seqs_of name symbol (ep_world ep).2) /\
    Forall (fun q => q <= last_seq name symbol ep) (seqs_of name symbol (ep_world ep).2).

Definition all_logged ep : Prop := forall p, p ∈ ep_processors ep -> exists q, p = logged q.

Lemma run_processor_order now event ctx q ep ep' err :
  in_order ep -> run_processor now event ctx (logged q) ep = Ok (ep', err) ->
  in_order ep' /\ ep_processors ep' = ep_processors ep.
Proof.
  unfold run_processor. cbn [logged ProcessorName proc_ProcessEvent].
  destruct (Z.leb_spec (EventSeq event) (last_seq (ProcessorName q) (Symbol event) ep)) as [|Hlt];
    [by intros; simplify_eq|].
  destruct (proc_ProcessEvent q event (ep_world ep).1) as [[w0 [e|]]| |]; intros Hord Hrun; cbn [obind] in Hrun; [| |done..].
  - simplify_eq. split; [|done]. exact Hord.
  - destruct (record_progress _ _ _ _ _ _) as [ep1| |] eqn:Hrec; simplify_eq/=.
    apply record_progress_last in Hrec as (Hw & Hp & Hlast). split; [|done].
    intros name symbol. rewrite Hw, Hlast. simpl. rewrite seqs_of_snoc.
    destruct (Hord name symbol) as [Hs Hall].
    destruct (_ && _) eqn:Hsame; [|by rewrite app_nil_r].
    bool_props. subst. assert (Hall' : Forall (fun x => x < EventSeq event)
      (seqs_of (ProcessorName q) (Symbol event) (ep_world ep).2)).
    { eapply Forall_impl; [exact Hall|]. simpl. lia. }
    split; [by apply sorted_snoc|]. apply Forall_app_1; [|lia].
    eapply Forall_impl; [exact Hall'|]. simpl. lia.
Qed.

Lemma run_all_order now event ctx ps ep ep' err err' :
  (forall p, p ∈ ps -> exists q, p = logged q) -> in_order ep ->
  run_all now event ctx ps ep err = Ok (ep', err') ->
  in_order ep' /\ ep_processors ep' = ep_processors ep.
Proof.
  revert ep err. induction ps as [|p ps IH]; intros ep err Hlog Hord; simpl;
    [by intros; simplify_eq|].
  destruct (Hlog p ltac:(left)) as [q ->].
  destruct (run_processor _ _ _ _ _) as [[ep1 e]| |] eqn:Hr; simpl; [|done..].
  destruct (run_processor_order _ _ _ _ _ _ _ Hord Hr) as [Hord1 Hp1].
  intros Hall. rewrite <- Hp1. eapply IH; [|exact Hord1|exact Hall]. intros. apply Hlog. by right.
Qed.

Lemma dispatch_order now sch enum event ctx ep ep' err :
  (forall l p, p ∈ sch l -> p ∈ l) -> all_logged ep -> in_order ep ->
  dispatchToProcessorsInternal now sch enum event ctx ep = Ok (ep', err) ->
  in_order ep' /\ ep_processors ep' = ep_processors ep.
Proof.
  intros Hsch Hlog Hord. unfold dispatchToProcessorsInternal. destruct event as [event|]; [|done].
  destruct (run_all _ _ _ _ _ _) as [[ep1 e]| |] eqn:Hr; simpl; [|done..].
  apply run_all_order in Hr as [Hord1 Hp1]; [|intros p Hp; by apply Hlog, (Hsch _ _ Hp)|done].
  destruct e as [e|]; intros; simplify_eq; [done|].
  unfold flush_checkpoints. by destruct (ep_checkpointMgr ep1).
Qed.

Lemma replay_order now sch enum envs ep ep' :
  (forall l p, p ∈ sch l -> p ∈ l) -> all_logged ep -> in_order ep ->
  replay now sch enum envs ep = Ok ep' -> in_order ep' /\ ep_processors ep' = ep_processors ep.
Proof.
  intros Hsch. revert ep. induction envs as [|env envs IH]; intros ep Hlog Hord; simpl;
    [by intros; simplify_eq|].
  destruct (UnmarshalEvent env) as [event| |]; [|by apply IH|done].
  destruct (dispatchToProcessorsInternal _ _ _ _ _ _) as [[ep1 e]| |] eqn:Hd; simpl; [|done..].
  destruct (dispatch_order _ _ _ _ _ _ _ _ Hsch Hlog Hord Hd) as [Hord1 Hp1].
  intros Hr. rewrite <- Hp1. apply IH; auto. intros p. rewrite Hp1. apply Hlog.
Qed.

(** Histories of a pipeline: processors are registered once under each name;
    every dispatch has its own schedule, clock and map order. *)
Inductive pipeline_run : pipeline -> Prop :=
| run_new log w : pipeline_run (NewEventPipeline log (w, []))
| run_register ep q :
    pipeline_run ep -> ep_processorOffsets ep !! ProcessorName q = None ->
    pipeline_run (RegisterProcessor (Some (logged q)) ep).1
| run_manager ep cm : pipeline_run ep -> pipeline_run (SetCheckpointManager cm ep)
| run_event now sch enum event ep ep' err :
    pipeline_run ep -> (forall l, sch l ≡ₚ l) ->
    ProcessEvent now sch enum event ep = Ok (ep', err) -> pipeline_run ep'
| run_context now sch enum ctx ep ep' err :
    pipeline_run ep -> (forall l, sch l ≡ₚ l) ->
    ProcessEventWithContext now sch enum ctx ep = Ok (ep', err) -> pipeline_run ep'
| run_replay now sch enum symbol start limit ep ep' :
    pipeline_run ep -> (forall l, sch l ≡ₚ l) ->
    ProcessEventsFromLog now sch enum symbol start limit ep = Ok ep' -> pipeline_run ep'.

Lemma perm_incl {A} (sch : list A -> list A) : (forall l, sch l ≡ₚ l) -> forall l p, p ∈ sch l -> p ∈ l.
Proof. intros Hsch l p. by rewrite Hsch. Qed.

Lemma pipeline_run_order ep : pipeline_run ep -> in_order ep /\ all_logged ep.
Proof.
  assert (Hdisp : forall now sch enum event ctx log ep ep' err, (forall l, sch l ≡ₚ l) ->
    in_order ep /\ all_logged ep ->
    dispatchToProcessorsInternal now sch enum event ctx (set_log log ep) = Ok (ep', err) ->
    in_order ep' /\ all_logged ep').
  { intros now sch enum event ctx log e e' err Hsch [Hord Hlog] Hd.
    apply dispatch_order in Hd as [Hord' Hp]; [|by apply perm_incl|exact Hlog|exact Hord].
    split; [done|]. intros p. rewrite Hp. apply Hlog. }
  induction 1 as [log w|ep q Hr [IH1 IH2] Hn|ep cm Hr IH|now sch enum event ep ep' err Hr IH Hsch Hpe
    |now sch enum ctx ep ep' err Hr IH Hsch Hpe|now sch enum symbol start limit ep ep' Hr [IH1 IH2] Hsch Hpl].
  - split; [|by intros p ?%elem_of_nil]. intros name symbol. simpl. split; constructor.
  - split.
    + intros name symbol. simpl. destruct (IH1 name symbol) as [Hs Hall]. split; [done|].
      replace (last_seq _ _ _) with (last_seq name symbol ep); [done|].
      unfold last_seq. simpl. destruct (decide (name = ProcessorName q)) as [->|].
      * by rewrite lookup_insert_eq, Hn.
      * by rewrite lookup_insert_ne.
    + intros p. simpl. rewrite elem_of_app, list_elem_of_singleton. intros [?| ->]; eauto.
  - exact IH.
  - unfold ProcessEvent in Hpe. destruct event as [event|]; [|by simplify_eq].
    destruct (AppendEvent _ _) as [log [e|]]; [by simplify_eq|].
    eapply Hdisp; [exact Hsch|exact IH|exact Hpe].
  - unfold ProcessEventWithContext in Hpe. destruct ctx as [ctx|]; [|by simplify_eq].
    destruct (negb _); [by simplify_eq|].
    destruct (AppendEvent _ _) as [log [e|]]; [by simplify_eq|].
    eapply Hdisp; [exact Hsch|exact IH|exact Hpe].
  - unfold ProcessEventsFromLog in Hpl. destruct (GetEventsBySymbol _ _ _ _) as [envs| |]; simpl in Hpl; [|done..].
    apply replay_order in Hpl as [Hord' Hp]; [|by apply perm_incl|exact IH2|exact IH1].
    split; [done|]. intros p. rewrite Hp. apply IH2.
Qed.

End Order.

Section Behaviour.
Implicit Types (ep : EventPipeline L D W) (p : EventProcessor W).

Lemma run_all_stale now event ctx ps ep err :
  (forall p, p ∈ ps -> EventSeq event <= last_seq (ProcessorName p) (Symbol event) ep) ->
  run_all now event ctx ps ep err = Ok (ep, err).
Proof.
  revert err. induction ps as [|p ps IH]; intros err Hall; simpl; [done|].
  unfold run_processor. destruct (Z.leb_spec (EventSeq event)
    (last_seq (ProcessorName p) (Symbol event) ep)) as [|Hgt].
  - simpl. destruct err; apply IH; intros; apply Hall; by right.
  - pose proof (Hall p ltac:(left)). lia.
Qed.

(** Dispatch is idempotent: an event that no processor has left to process is
    accepted without an error and changes neither the world, nor any offset, nor
    the counters; at most the checkpoints are flushed again. *)
Theorem dispatch_duplicate now sch enum event ctx ep :
  (forall l, sch l ≡ₚ l) ->
  (forall p, p ∈ ep_processors ep -> EventSeq event <= GetProcessorOffset (ProcessorName p) (Symbol event) ep) ->
  exists ep', dispatchToProcessorsInternal now sch enum (Some event) ctx ep = Ok (ep', None) /\
    ep_world ep' = ep_world ep /\ ep_processorOffsets ep' = ep_processorOffsets ep /\
    ep_kafkaOffsets ep' = ep_kafkaOffsets ep /\ GetPipelineStats ep' = GetPipelineStats ep.
Proof.
  intros Hsch Hall. exists (flush_checkpoints now enum ep). split.
  - unfold dispatchToProcessorsInternal. rewrite run_all_stale; [done|].
    intros p Hp. rewrite Hsch in Hp. specialize (Hall p Hp). unfold GetProcessorOffset, last_seq in *.
    by destruct (ep_processorOffsets ep !! ProcessorName p).
  - unfold flush_checkpoints. by destruct (ep_checkpointMgr ep).
Qed.

(** A processor that panics brings the process down when it is the first to run. *)
Lemma processor_panics now sch enum event ep log p ps :
  AppendEvent (Some event) (ep_eventLog ep) = (log, None) ->
  sch (ep_processors ep) = p :: ps ->
  last_seq (ProcessorName p) (Symbol event) ep < EventSeq event ->
  proc_ProcessEvent p event (ep_world ep) = Panic ->
  ProcessEvent now sch enum (Some event) ep = Panic.
Proof.
  intros Happ Hsch Hlt Hproc. unfold ProcessEvent. rewrite Happ.
  unfold dispatchToProcessorsInternal. cbn [set_log ep_processors]. rewrite Hsch. cbn [run_all].
  unfold run_processor, last_seq. cbn [set_log ep_processorOffsets ep_world]. rewrite Hproc.
  unfold last_seq in Hlt. by rewrite (proj2 (Z.leb_gt _ _) Hlt).
Qed.

(** [ProcessEvent] passes a nil context, and recording the checkpoint reads
    it: with a checkpoint manager set, a new event that is appended and that the
    first processor to run accepts brings the process down, although a nil context
    is documented as safe. *)
Theorem nil_context_panics now sch enum event ep log cm p ps w :
  ep_checkpointMgr ep = Some cm ->
  AppendEvent (Some event) (ep_eventLog ep) = (log, None) ->
  sch (ep_processors ep) = p :: ps ->
  GetProcessorOffset (ProcessorName p) (Symbol event) ep < EventSeq event ->
  proc_ProcessEvent p event (ep_world ep) = Ok (w, None) ->
  ProcessEvent now sch enum (Some event) ep = Panic.
Proof.
  intros Hcm Happ Hsch Hlt Hproc. unfold ProcessEvent. rewrite Happ.
  unfold dispatchToProcessorsInternal. cbn [set_log ep_processors]. rewrite Hsch. cbn [run_all].
  unfold run_processor, record_progress, last_seq. cbn [set_log ep_processorOffsets ep_world
    ep_kafkaOffsets ep_checkpointMgr]. rewrite Hproc, Hcm. unfold GetProcessorOffset in Hlt.
  destruct (ep_processorOffsets ep !! ProcessorName p) as [m|]; simpl;
    destruct (Z.leb_spec (EventSeq event) (default 0 (m !! Symbol event)))
    || destruct (Z.leb_spec (EventSeq event) 0); done || lia.
Qed.

(** An event that failed is not retried once a later event of its symbol has
    succeeded: its redelivery is skipped as a duplicate and reported as success,
    and the processor never sees it again. *)
Theorem overtaken_event_lost now now1 now2 event later ctx ctx1 ctx2 p ep ep1 ep2 e :
  Symbol later = Symbol event -> EventSeq event < EventSeq later ->
  run_processor now event ctx p ep = Ok (ep1, Some e) ->
  run_processor now1 later ctx1 p ep1 = Ok (ep2, None) ->
  last_seq (ProcessorName p) (Symbol event) ep1 < EventSeq later ->
  run_processor now2 event ctx2 p ep2 = Ok (ep2, None).
Proof.
  intros Hsym Hlt _ Hlater Hnew. unfold run_processor in Hlater.
  rewrite Hsym in Hlater. destruct (Z.leb_spec (EventSeq later)
    (last_seq (ProcessorName p) (Symbol event) ep1)); [lia|].
  destruct (proc_ProcessEvent p later (ep_world ep1)) as [[w [?|]]| |]; cbn [obind] in Hlater; [done| |done..].
  destruct (record_progress _ _ _ _ _ _) as [ep3| |] eqn:Hrec; simplify_eq/=.
  apply record_progress_last in Hrec as (_ & _ & Hlast). unfold run_processor.
  rewrite Hlast, Hsym, !bool_decide_eq_true_2 by done. simpl.
  destruct (Z.leb_spec (EventSeq event) (EventSeq later)); [done|lia].
Qed.
End Behaviour.
End Props.

(** ** Witnesses *)

#[local] Instance pipe_table : Table (ListTable EventOffsetCheckpoint) EventOffsetCheckpoint :=
  ListTable_ops (fun a b => cp_same a b).

Definition counting : EventProcessor Z := mkEventProcessor "count" (fun _ w => Ok (w + 1, None)).
(** Fails on odd sequence numbers. *)
Definition picky : EventProcessor Z :=
  mkEventProcessor "picky" (fun ev w => if Z.odd (EventSeq ev) then Ok (w, Some "odd") else Ok (w + 1, None)).

Definition cancelled (q : Z) : MatchingEngineEvent :=
  OrderCancelled (mkOrderCancelledEvent q 0 "o" "BTC" "").

Abbreviation demo_pipeline W := (EventPipeline Memory.InMemoryEventLog (ListTable EventOffsetCheckpoint) W).

Definition demo_pipe : demo_pipeline (Z * list (string * string * Z)) :=
  (RegisterProcessor (Some (logged counting)) (NewEventPipeline Memory.NewInMemoryEventLog (0, []))).1.

Definition run_or {W} (ep : demo_pipeline W) (o : outcome (demo_pipeline W * option error)) : demo_pipeline W :=
  match o with Ok (ep', _) => ep' | _ => ep end.

Definition demo_send (q : Z) (ep : demo_pipeline (Z * list (string * string * Z))) :=
  ProcessEvent 0 id (fun _ => []) (Some (cancelled q)) ep.

Definition demo_ran : demo_pipeline (Z * list (string * string * Z)) :=
  let ep1 := run_or demo_pipe (demo_send 2 demo_pipe) in
  let ep2 := run_or ep1 (demo_send 2 ep1) in
  run_or ep2 (demo_send 5 ep2).

Lemma demo_send_run q ep : pipeline_run ep -> pipeline_run (run_or ep (demo_send q ep)).
Proof.
  intros Hr. destruct (demo_send q ep) as [[ep' err]| |] eqn:Hs; simpl; [|done..].
  by apply (run_event 0 id (fun _ => []) (Some (cancelled q)) ep ep' err).
Qed.

Lemma demo_ran_run : pipeline_run demo_ran.
Proof. do 3 apply demo_send_run. apply run_register; [apply run_new|done]. Qed.


Lemma dispatch_duplicate_witness :
  exists ep', dispatchToProcessorsInternal 0 id (fun _ => []) (Some (cancelled 3)) None demo_ran =
      Ok (ep', None) /\ ep_world ep' = ep_world demo_ran.
Proof.
  destruct (dispatch_duplicate 0 id (fun _ => []) (cancelled 3) None demo_ran) as (ep' & H & Hw & _).
  - done.
  - intros p Hp. change (ep_processors demo_ran) with [logged counting] in Hp.
    apply list_elem_of_singleton in Hp as ->. vm_compute. discriminate.
  - exists ep'. by split.
Defined.

Definition demo_checkpointed : demo_pipeline Z :=
  SetCheckpointManager (Some (NewCheckpointManager (mkListTable [])))
    (RegisterProcessor (Some counting) (NewEventPipeline Memory.NewInMemoryEventLog 0)).1.

Lemma nil_context_panics_witness :
  ProcessEvent 0 id (fun _ => []) (Some (cancelled 1)) demo_checkpointed = Panic.
Proof.
  exact (nil_context_panics 0 id (fun _ => []) (cancelled 1) demo_checkpointed _ _ counting [] 1
    eq_refl eq_refl eq_refl eq_refl eq_refl).
Defined.

Definition demo_picky : demo_pipeline Z :=
  (RegisterProcessor (Some picky) (NewEventPipeline Memory.NewInMemoryEventLog 0)).1.
Definition demo_failed : demo_pipeline Z :=
  run_or demo_picky (run_processor 0 (cancelled 1) None picky demo_picky).
Definition demo_overtaken : demo_pipeline Z :=
  run_or demo_failed (run_processor 0 (cancelled 2) None picky demo_failed).

Lemma overtaken_event_lost_witness :
  run_processor 0 (cancelled 1) None picky demo_overtaken = Ok (demo_overtaken, None).
Proof.
  exact (overtaken_event_lost 0 0 0 (cancelled 1) (cancelled 2) None None None picky demo_picky
    demo_failed demo_overtaken "processor picky: odd" eq_refl eq_refl
    ltac:(vm_compute; reflexivity) ltac:(vm_compute; reflexivity) ltac:(vm_compute; reflexivity)).
Defined.
