(* ===== verification/MatchEngine.v ===== *)
(** * The matching engine

    Models src/biz/service/match_engine.go: validation and submission of orders,
    the per-symbol queues and books, the processing of a queued order and the
    messages sent to subscribers.  [SubmitOrder] runs on request goroutines and
    [processOrder] on the worker of a symbol; the two meet in the sequencer and in
    the pipeline.  [engine_step] is their interleaving: drawing sequence numbers
    and dispatching the events that carry them are separate steps of separate
    goroutines.  The scheduler runs every processor of a dispatch once, in any
    order. *)

From stdpp Require Import base gmap strings list sorting pretty.
From Stdlib Require Import ZArith Lia.
From S2P Require Import Prelude Money Events Database Sequencer SkipList OrderBook EventLog Checkpoint Pipeline.

Local Open Scope go_scope.
Local Open Scope Z_scope.

(** What the engine hands to its callbacks; the data is the marshalled map, whose
    keys encoding/json sorts. *)
Inductive message : Type :=
| Broadcast (symbol : string) (data : json)
| Unicast (userID : string) (data : json).

Section MatchEngine.
Context {sl : Type -> Type} {Hsl : SkipList sl}.
Context {L D W : Type} {HL : EventStore L} {HD : Table D EventOffsetCheckpoint}.

(** The two callbacks may be nil; [me_sent] is what they were called with. *)
Record MatchEngine := mkMatchEngine {
  me_orderQueues : gmap string (list SubmitOrderMsg);
  me_orderBooks : gmap string (OrderBook sl);
  me_pipeline : EventPipeline L D W;
  me_sequencer : Sequencer;
  me_done : bool;
  me_broadcaster : bool;
  me_unicaster : bool;
  me_sent : list message }.
Implicit Types (me : MatchEngine).

Definition NewMatchEngine (pipeline : EventPipeline L D W) (sq : Sequencer)
    (broadcaster unicaster : bool) : MatchEngine :=
  mkMatchEngine ∅ ∅ pipeline sq false broadcaster unicaster [].

Definition set_pipeline (ep : EventPipeline L D W) me : MatchEngine :=
  mkMatchEngine (me_orderQueues me) (me_orderBooks me) ep (me_sequencer me) (me_done me)
    (me_broadcaster me) (me_unicaster me) (me_sent me).
Definition set_sequencer (sq : Sequencer) me : MatchEngine :=
  mkMatchEngine (me_orderQueues me) (me_orderBooks me) (me_pipeline me) sq (me_done me)
    (me_broadcaster me) (me_unicaster me) (me_sent me).
Definition set_book (symbol : string) (ob : OrderBook sl) me : MatchEngine :=
  mkMatchEngine (me_orderQueues me) (<[symbol := ob]> (me_orderBooks me)) (me_pipeline me)
    (me_sequencer me) (me_done me) (me_broadcaster me) (me_unicaster me) (me_sent me).
Definition set_queue (symbol : string) (q : list SubmitOrderMsg) me : MatchEngine :=
  mkMatchEngine (<[symbol := q]> (me_orderQueues me)) (me_orderBooks me) (me_pipeline me)
    (me_sequencer me) (me_done me) (me_broadcaster me) (me_unicaster me) (me_sent me).
Definition send (ms : list message) me : MatchEngine :=
  mkMatchEngine (me_orderQueues me) (me_orderBooks me) (me_pipeline me) (me_sequencer me)
    (me_done me) (me_broadcaster me) (me_unicaster me) (me_sent me ++ ms).

Section Run.
Context (now : Z) (schedule : list (EventProcessor W) -> list (EventProcessor W))
        (enum : gmap string EventOffsetCheckpoint -> list string).

(** ** Messages *)

Definition trade_message (trade : TradeExecutedEvent) : json :=
  JObj [("maker", JStr (te_MakerUser trade));
        ("price", JStr (PriceInNano_String (te_Price trade)));
        ("quantity", JStr (QuantityInNano_String (te_Quantity trade)));
        ("symbol", JStr (te_SymbolStr trade));
        ("taker", JStr (te_TakerUser trade));
        ("timestamp", JNum (te_Timestamp trade));
        ("trade_id", JStr (te_TradeID trade));
        ("type", JStr "trade")].

(** Calling a nil unicaster panics. *)
Definition broadcastTrade (trade : TradeExecutedEvent) me : outcome MatchEngine :=
  if negb (me_broadcaster me) then Ok me
  else
    let data := trade_message trade in
    let users := List.filter (fun u => negb (u =s "")) [te_TakerUser trade; te_MakerUser trade] in
    match users with
    | [] => Ok (send [Broadcast (te_SymbolStr trade) data] me)
    | _ => if me_unicaster me
           then Ok (send (Broadcast (te_SymbolStr trade) data :: ((fun u => Unicast u data) <$> users)) me)
           else Panic
    end.

Definition notifyOrderFilled (order : SubmitOrderMsg) me : MatchEngine :=
  if negb (me_unicaster me) then me
  else send [Unicast (so_UserID order)
               (JObj [("order_id", JStr (so_OrderID order)); ("status", JStr "filled");
                      ("timestamp", JNum now); ("type", JStr "order_status")])] me.

Definition notifyOrderPending (order : SubmitOrderMsg) (remainingQty : Z) me : MatchEngine :=
  if negb (me_unicaster me) then me
  else send [Unicast (so_UserID order)
               (JObj [("order_id", JStr (so_OrderID order));
                      ("remaining_qty", JStr (QuantityInNano_String remainingQty));
                      ("status", JStr "pending"); ("timestamp", JNum now);
                      ("type", JStr "order_status")])] me.

(** ** Submission *)

Definition valid_order (order : SubmitOrderMsg) : bool :=
  negb ((so_Symbol order =s "") || (so_Side order =s "") || (so_UserID order =s "")).

(** Fill in the order ID: ["ord-%d-%d"] of the clock in nanoseconds and a fresh
    sequence number. *)
Definition assign_id (nowNano : Z) (order : SubmitOrderMsg) (sq : Sequencer)
    : SubmitOrderMsg * Sequencer :=
  if so_OrderID order =s "" then
    let '(q, sq') := NextGlobalSeq sq in
    (mkSubmitOrderMsg ("ord-" +:+ pretty nowNano +:+ "-" +:+ pretty q) (so_Symbol order)
       (so_Side order) (so_Price order) (so_Quantity order) (so_UserID order), sq')
  else (order, sq).

Definition submitted_event (seq : Z) (order : SubmitOrderMsg) : OrderSubmittedEvent :=
  mkOrderSubmittedEvent seq now (so_OrderID order) (so_UserID order) (so_Symbol order)
    (so_Side order) (parsePrice (so_Price order)) (parseQuantity (so_Quantity order)) "submitted".

(** Queue and book of the symbol are created on first use.  [pick] is the choice
    of [select] when both its cases are ready; [None] is an enqueue that blocks. *)
Definition enqueueOrder (pick : bool) (order : SubmitOrderMsg) me : option MatchEngine :=
  let symbol := so_Symbol order in
  let queue := default [] (me_orderQueues me !! symbol) in
  let me1 := set_queue symbol queue me in
  let me2 := match me_orderBooks me !! symbol with
             | Some _ => me1
             | None => set_book symbol (NewOrderBook symbol) me1
             end in
  if (Z.of_nat (length queue) <? 10000) && (negb (me_done me) || pick)
  then Some (set_queue symbol (queue ++ [order]) me2)
  else if me_done me then Some me2
  else None.

(** [Ok None] is a call that blocks in the queue. *)
Definition SubmitOrder (nowNano : Z) (pick : bool) (order : SubmitOrderMsg) me
    : outcome (option (MatchEngine * option error)) :=
  if negb (valid_order order) then
    Ok (Some (me, Some "invalid order: missing required fields"))
  else
    let '(order, sq1) := assign_id nowNano order (me_sequencer me) in
    let '(seq, sq2) := NextGlobalSeq sq1 in
    let event := OrderSubmitted (submitted_event seq order) in
    let me1 := set_sequencer sq2 me in
    let? r := ProcessEvent now schedule enum (Some event) (me_pipeline me1) in
    let '(ep, err) := r in
    match err with
    | Some e => Ok (Some (set_pipeline ep me1, Some e))
    | None => Ok ((fun me2 => (me2, None)) <$> enqueueOrder pick order (set_pipeline ep me1))
    end.

(** ** Processing a queued order *)

Definition book_entry (symbol : string) (orderMsg : SubmitOrderMsg) (seq : Z) : OrderBookEntry :=
  mkOrderBookEntry (so_OrderID orderMsg) (so_UserID orderMsg) symbol (so_Side orderMsg)
    (parsePrice (so_Price orderMsg)) (parseQuantity (so_Quantity orderMsg)) 0 now seq.

(** One iteration of the loop over the trades: errors are only logged. *)
Definition processTrade (trade : TradeExecutedEvent) me : outcome MatchEngine :=
  let? r := ProcessEvent now schedule enum (Some (TradeExecuted trade)) (me_pipeline me) in
  broadcastTrade trade (set_pipeline r.1 me).

Fixpoint process_trades (trades : list TradeExecutedEvent) me : outcome MatchEngine :=
  match trades with
  | [] => Ok me
  | t :: trades' => let? me' := processTrade t me in process_trades trades' me'
  end.

Definition notify (orderMsg : SubmitOrderMsg) (remainingQty : Z) (trades : nat) me : MatchEngine :=
  if (remainingQty =? 0) && (0 <? trades)%nat then notifyOrderFilled orderMsg me
  else if 0 <? remainingQty then notifyOrderPending orderMsg remainingQty me
  else me.

(** Matching itself: the book and the sequencer change, nothing is sent yet. *)
Definition match_queued (tradeNow : Z -> Z) (symbol : string) (ob : OrderBook sl)
    (orderMsg : SubmitOrderMsg) me : MatchEngine * list TradeExecutedEvent * Z :=
  let '(seq, sq) := NextGlobalSeq (me_sequencer me) in
  let res := MatchOrder tradeNow ob (book_entry symbol orderMsg seq) sq in
  (set_sequencer (mr_seq res) (set_book symbol (mr_book res) me), mr_events res, mr_remaining res).

Definition processOrder (tradeNow : Z -> Z) (symbol : string) (ob : OrderBook sl)
    (orderMsg : SubmitOrderMsg) me : outcome MatchEngine :=
  let '(me1, trades, remainingQty) := match_queued tradeNow symbol ob orderMsg me in
  let? me2 := process_trades trades me1 in
  Ok (notify orderMsg remainingQty (length trades) me2).

(** One round of the worker of [symbol]: take the head of its queue. *)
Definition matchWorker_round (tradeNow : Z -> Z) (symbol : string) me : outcome MatchEngine :=
  match me_orderQueues me !! symbol, me_orderBooks me !! symbol with
  | Some (item :: rest), Some ob => processOrder tradeNow symbol ob item (set_queue symbol rest me)
  | _, _ => Ok me
  end.
End Run.

Definition Shutdown me : MatchEngine :=
  mkMatchEngine (me_orderQueues me) (me_orderBooks me) (me_pipeline me) (me_sequencer me) true
    (me_broadcaster me) (me_unicaster me) (me_sent me).

Definition GetOrderBook (symbol : string) me : option (OrderBook sl) := me_orderBooks me !! symbol.

Definition GetDepth (symbol : string) (levels : Z) me : list (string * string) * list (string * string) :=
  match GetOrderBook symbol me with
  | None => ([], [])
  | Some ob => OrderBook.GetDepth ob levels
  end.

(** ** Interleaving

    The state of the goroutines beside the engine: events drawn by submitters and
    not yet dispatched, with their orders; and for each symbol whose worker is
    inside [processOrder], the trades it still has to dispatch, its order, the
    remaining quantity and the number of trades of the order. *)
Record goroutines := mkGoroutines {
  g_submitting : list (OrderSubmittedEvent * SubmitOrderMsg);
  g_workers : gmap string (list TradeExecutedEvent * SubmitOrderMsg * Z * nat) }.

Inductive engine_step : MatchEngine * goroutines -> MatchEngine * goroutines -> Prop :=
| step_draw me g order nowNano now o sq1 seq sq2 :
    (** a request goroutine draws the number of its submitted event *)
    valid_order order = true ->
    assign_id nowNano order (me_sequencer me) = (o, sq1) ->
    NextGlobalSeq sq1 = (seq, sq2) ->
    engine_step (me, g)
      (set_sequencer sq2 me,
       mkGoroutines (g_submitting g ++ [(submitted_event now seq o, o)]) (g_workers g))
| step_submit me g l1 ev order l2 now sch enum ep err me' pick :
    (** one of them runs the pipeline and, without an error, enqueues its order *)
    g_submitting g = l1 ++ (ev, order) :: l2 -> (forall l, sch l ≡ₚ l) ->
    ProcessEvent now sch enum (Some (OrderSubmitted ev)) (me_pipeline me) = Ok (ep, err) ->
    match err with
    | Some _ => Some (set_pipeline ep me)
    | None => enqueueOrder pick order (set_pipeline ep me)
    end = Some me' ->
    engine_step (me, g) (me', mkGoroutines (l1 ++ l2) (g_workers g))
| step_match me g symbol item rest ob now tradeNow me' trades r :
    (** an idle worker matches the next order of its queue *)
    me_orderQueues me !! symbol = Some (item :: rest) ->
    me_orderBooks me !! symbol = Some ob ->
    g_workers g !! symbol = None ->
    match_queued now tradeNow symbol ob item (set_queue symbol rest me) = (me', trades, r) ->
    engine_step (me, g)
      (me', mkGoroutines (g_submitting g) (<[symbol := (trades, item, r, length trades)]> (g_workers g)))
| step_trade me g symbol t trades item r n now sch enum me' :
    (** it dispatches and broadcasts its next trade *)
    g_workers g !! symbol = Some (t :: trades, item, r, n) -> (forall l, sch l ≡ₚ l) ->
    processTrade now sch enum t me = Ok me' ->
    engine_step (me, g)
      (me', mkGoroutines (g_submitting g) (<[symbol := (trades, item, r, n)]> (g_workers g)))
| step_notify me g symbol item r n now :
    (** it sends the status of the order and is idle again *)
    g_workers g !! symbol = Some ([], item, r, n) ->
    engine_step (me, g)
      (notify now item r n me, mkGoroutines (g_submitting g) (delete symbol (g_workers g))).
End MatchEngine.
Arguments MatchEngine sl L D W : clear implicits.
Arguments goroutines : clear implicits.
