(* ===== verification/MatchEngineProps.v ===== *)
(** * Properties of the matching engine *)

From stdpp Require Import base gmap strings list sorting pretty relations.
From Stdlib Require Import ZArith Lia.
From S2P Require Import Prelude Money Events Database Sequencer SkipList OrderBook Matching BookSpec BookProps EventLog Checkpoint Pipeline PipelineProps MatchEngine.

Local Open Scope go_scope.
Local Open Scope Z_scope.

Section Props.
Context {sl : Type -> Type} {Hsl : SkipList sl} {Hlaws : SkipListLaws sl}.
Context {L D W : Type} {HL : EventStore L} {HD : Table D EventOffsetCheckpoint}.
Implicit Types (me : MatchEngine sl L D W).

(** An accepted order is the last of its symbol's queue, under the order ID of
    the event that was logged for it and with the user's fields; the symbol has a
    book; queues and books of other symbols are untouched. *)
Theorem submit_enqueues now sch enum nowNano pick order me me' :
  me_done me = false ->
  SubmitOrder now sch enum nowNano pick order me = Ok (Some (me', None)) ->
  valid_order order = true /\
  exists o, so_Symbol o = so_Symbol order /\ so_Side o = so_Side order /\
    so_Price o = so_Price order /\ so_Quantity o = so_Quantity order /\
    so_UserID o = so_UserID order /\ so_OrderID o <> "" /\
    me_orderQueues me' =
      <[so_Symbol order := default [] (me_orderQueues me !! so_Symbol order) ++ [o]]> (me_orderQueues me) /\
    is_Some (GetOrderBook (so_Symbol order) me') /\
    (forall s ob, GetOrderBook s me = Some ob -> GetOrderBook s me' = Some ob) /\
    (exists seq ep, ProcessEvent now sch enum (Some (OrderSubmitted (submitted_event now seq o)))
       (me_pipeline me) = Ok (ep, None) /\ me_pipeline me' = ep).
Proof.
  intros Hdone. unfold SubmitOrder. destruct (valid_order order); cbn [negb]; [|intros [=]].
  destruct (assign_id nowNano order (me_sequencer me)) as [o sq1] eqn:Hid.
  destruct (NextGlobalSeq sq1) as [seq sq2].
  cbn [set_sequencer me_pipeline].
  destruct (ProcessEvent now sch enum (Some (OrderSubmitted (submitted_event now seq o)))
    (me_pipeline me)) as [[ep [e|]]| |] eqn:Hpe;
    cbn [obind]; [intros [=]| |done..].
  unfold enqueueOrder. cbn [set_pipeline set_sequencer me_orderQueues me_orderBooks me_done].
  rewrite Hdone. simpl. rewrite andb_true_r. destruct (_ <? 10000); [|done]. simpl.
  intros [= <-]. split; [done|].
  assert (Ho : so_Symbol o = so_Symbol order /\ so_Side o = so_Side order /\
    so_Price o = so_Price order /\ so_Quantity o = so_Quantity order /\
    so_UserID o = so_UserID order /\ so_OrderID o <> "").
  { unfold assign_id in Hid. case_bool_decide as Hempty; [|by simplify_eq].
    destruct (NextGlobalSeq _). by simplify_eq. }
  destruct Ho as (Hsym & Hrest). exists o. split; [done|].
  destruct Hrest as (? & ? & ? & ? & ?). split_and!; auto.
  - rewrite Hsym. destruct (me_orderBooks me !! so_Symbol order); simpl; by rewrite insert_insert_eq.
  - unfold GetOrderBook. rewrite Hsym.
    destruct (me_orderBooks me !! so_Symbol order) eqn:Hb; simpl; [by rewrite Hb|].
    rewrite lookup_insert_eq. eauto.
  - unfold GetOrderBook. intros s ob Hs. destruct (me_orderBooks me !! so_Symbol o) eqn:Hb; simpl; [done|].
    rewrite lookup_insert_ne; [done|]. intros Heq. congruence.
  - exists seq, ep. split; [done|]. by destruct (me_orderBooks me !! so_Symbol o).
Qed.

(** ** The books of a running engine *)

Definition books_ok me : Prop :=
  forall symbol ob, GetOrderBook symbol me = Some ob -> book_ok ob /\ ob_symbol ob = symbol.

(** A submission with a non-positive quantity does not touch the book's sides. *)
Lemma match_order_nonpos now (ob : OrderBook sl) order sq :
  obe_Quantity order <= 0 ->
  ob_buys (mr_book (MatchOrder now ob order sq)) = ob_buys ob /\
  ob_sells (mr_book (MatchOrder now ob order sq)) = ob_sells ob /\
  ob_symbol (mr_book (MatchOrder now ob order sq)) = ob_symbol ob.
Proof.
  intros Hq. unfold MatchOrder. fold (is_buy order). rewrite matchOrder_loop.
  rewrite loop_stopped by (by apply step_stopped). cbn [ms_rem ms_book].
  destruct (Z.ltb_spec 0 (obe_Quantity order)); [lia|].
  unfold opposite. by destruct (is_buy order).
Qed.

Lemma match_order_any now (ob : OrderBook sl) order sq :
  book_ok ob -> is_i64 (obe_Quantity order) ->
  book_ok (mr_book (MatchOrder now ob order sq)) /\
  ob_symbol (mr_book (MatchOrder now ob order sq)) = ob_symbol ob.
Proof.
  intros Hok Hq. destruct (decide (0 <= obe_Quantity order)).
  - assert (Ho : order_ok order) by (unfold order_ok; solve_i64).
    pose proof (match_order_spec now ob order sq Hok Ho) as H. cbv zeta in H.
    destruct (fill_greedy _ _ _) as [[fs r] rest]. tauto.
  - destruct (match_order_nonpos now ob order sq) as (Hb & Hs & Hsym); [lia|].
    split; [|done]. destruct Hok. split; rewrite ?Hb, ?Hs; auto.
Qed.

Lemma processTrade_books now sch enum t me me' :
  processTrade now sch enum t me = Ok me' -> me_orderBooks me' = me_orderBooks me.
Proof.
  unfold processTrade.
  destruct (ProcessEvent now sch enum (Some (TradeExecuted t)) (me_pipeline me)) as [[ep e]| |]; simpl; [|done..].
  unfold broadcastTrade. simpl. repeat case_match; intros; by simplify_eq.
Qed.

Lemma notify_books now item r n me : me_orderBooks (notify now item r n me) = me_orderBooks me.
Proof.
  unfold notify, notifyOrderFilled, notifyOrderPending. by repeat case_match.
Qed.

Lemma enqueue_books pick order me me' :
  enqueueOrder pick order me = Some me' -> books_ok me -> books_ok me'.
Proof.
  intros He Hok symbol ob Hs. unfold GetOrderBook in Hs.
  assert (Hb : me_orderBooks me' = me_orderBooks me \/
    (me_orderBooks me !! so_Symbol order = None /\
     me_orderBooks me' = <[so_Symbol order := NewOrderBook (so_Symbol order)]> (me_orderBooks me))).
  { unfold enqueueOrder in He. destruct (me_orderBooks me !! so_Symbol order) eqn:Hb;
      repeat case_match; simplify_eq; auto. }
  destruct Hb as [Hb|[Hn Hb]]; rewrite Hb in Hs; [by apply Hok|].
  destruct (decide (symbol = so_Symbol order)) as [->|].
  - rewrite lookup_insert_eq in Hs. simplify_eq. split; [apply new_book_ok|done].
  - rewrite lookup_insert_ne in Hs by done. by apply Hok.
Qed.

Lemma match_queued_books now tn symbol ob item me me' trades r :
  books_ok me -> GetOrderBook symbol me = Some ob ->
  match_queued now tn symbol ob item me = (me', trades, r) -> books_ok me'.
Proof.
  intros Hok Hob. unfold match_queued. destruct (NextGlobalSeq _) as [q sq]. intros Heq.
  pose proof (f_equal (fun x => x.1.1) Heq) as Hme. cbn [fst] in Hme. clear Heq. subst me'.
  destruct (Hok _ _ Hob) as [Hbok Hbs].
  intros s ob' Hs. unfold GetOrderBook in Hs. cbn [set_sequencer set_book me_orderBooks] in Hs.
  destruct (decide (s = symbol)) as [->|].
  - rewrite lookup_insert_eq in Hs.
    assert (ob' = mr_book (MatchOrder tn ob (book_entry now symbol item q) sq)) as -> by congruence.
    destruct (match_order_any tn ob (book_entry now symbol item q) sq Hbok) as [? Heq];
      [apply parseQuantity_range|]. by rewrite Heq.
  - rewrite lookup_insert_ne in Hs by done. by apply Hok.
Qed.

Lemma engine_step_books s s' : engine_step s s' -> books_ok s.1 -> books_ok s'.1.
Proof.
  destruct 1 as [| me g l1 ev order l2 now sch enum ep err me' pick _ _ _ He| me g symbol item rest ob
    now tn me' trades r Hq Hb Hw Hm|me g symbol t trades item r n now sch enum me' _ _ Ht|]; simpl; intros Hok.
  - exact Hok.
  - destruct err; [simplify_eq; exact Hok|]. eapply enqueue_books; [exact He|exact Hok].
  - exact (match_queued_books now tn symbol ob item (set_queue symbol rest me) me' trades r Hok Hb Hm).
  - intros s ob Hs. unfold GetOrderBook in Hs. rewrite (processTrade_books _ _ _ _ _ _ Ht) in Hs. by apply Hok.
  - intros s ob Hs. unfold GetOrderBook in Hs. rewrite notify_books in Hs. by apply Hok.
Qed.

(** In every interleaving of submitters and workers, whatever the clients
    send, every book of the engine satisfies the representation invariant and
    belongs to its symbol. *)
Theorem engine_books_invariant ep sq b u me g :
  rtc engine_step (NewMatchEngine (sl := sl) (L := L) (D := D) (W := W) ep sq b u, mkGoroutines [] ∅) (me, g) ->
  forall symbol ob, GetOrderBook symbol me = Some ob -> book_ok ob /\ ob_symbol ob = symbol.
Proof.
  intros Hr. assert (Hinit : books_ok (NewMatchEngine (sl := sl) (L := L) (D := D) (W := W) ep sq b u)).
  { intros symbol ob H. unfold GetOrderBook in H. simpl in H. by rewrite lookup_empty in H. }
  change (books_ok (me, g).1). remember (NewMatchEngine _ _ _ _, _) as s0 eqn:Hs0.
  assert (H0 : books_ok s0.1) by (by rewrite Hs0). clear Hs0 Hinit.
  induction Hr as [|s1 s2 s3 Hstep _ IH]; [done|]. apply IH. by eapply engine_step_books.
Qed.
End Props.

(** ** Executions as programs

    A schedule is a list of actions; running one gives a state that the steps
    reach. *)

Inductive action :=
| ADraw (order : SubmitOrderMsg)
| ASubmit
| AMatch (symbol : string)
| ATrade (symbol : string)
| ANotify (symbol : string).

Section Run.
Context {sl : Type -> Type} {Hsl : SkipList sl}.
Context {L D W : Type} {HL : EventStore L} {HD : Table D EventOffsetCheckpoint}.

Abbreviation state := (MatchEngine sl L D W * goroutines)%type.

Definition do_draw (order : SubmitOrderMsg) (s : state) : option state :=
  if valid_order order then
    let '(o, sq1) := assign_id 0 order (me_sequencer s.1) in
    let '(seq, sq2) := NextGlobalSeq sq1 in
    Some (set_sequencer sq2 s.1,
          mkGoroutines (g_submitting s.2 ++ [(submitted_event 0 seq o, o)]) (g_workers s.2))
  else None.

Definition do_submit (s : state) : option state :=
  match g_submitting s.2 with
  | [] => None
  | (ev, order) :: l2 =>
      match ProcessEvent 0 id (fun _ => []) (Some (OrderSubmitted ev)) (me_pipeline s.1) with
      | Ok (ep, None) =>
          (fun me' => (me', mkGoroutines l2 (g_workers s.2))) <$>
            enqueueOrder true order (set_pipeline ep s.1)
      | _ => None
      end
  end.

Definition do_match (symbol : string) (s : state) : option state :=
  match me_orderQueues s.1 !! symbol, me_orderBooks s.1 !! symbol, g_workers s.2 !! symbol with
  | Some (item :: rest), Some ob, None =>
      let '(me', trades, r) := match_queued 0 id symbol ob item (set_queue symbol rest s.1) in
      Some (me', mkGoroutines (g_submitting s.2) (<[symbol := (trades, item, r, length trades)]> (g_workers s.2)))
  | _, _, _ => None
  end.

Definition do_trade (symbol : string) (s : state) : option state :=
  match g_workers s.2 !! symbol with
  | Some (t :: trades, item, r, n) =>
      match processTrade 0 id (fun _ => []) t s.1 with
      | Ok me' => Some (me', mkGoroutines (g_submitting s.2) (<[symbol := (trades, item, r, n)]> (g_workers s.2)))
      | _ => None
      end
  | _ => None
  end.

Definition do_notify (symbol : string) (s : state) : option state :=
  match g_workers s.2 !! symbol with
  | Some ([], item, r, n) =>
      Some (notify 0 item r n s.1, mkGoroutines (g_submitting s.2) (delete symbol (g_workers s.2)))
  | _ => None
  end.

Definition run_action (a : action) : state -> option state :=
  match a with
  | ADraw order => do_draw order
  | ASubmit => do_submit
  | AMatch symbol => do_match symbol
  | ATrade symbol => do_trade symbol
  | ANotify symbol => do_notify symbol
  end.

Fixpoint run_actions (l : list action) (s : state) : option state :=
  match l with
  | [] => Some s
  | a :: l' => run_action a s ≫= run_actions l'
  end.

Lemma run_action_step a s s' : run_action a s = Some s' -> engine_step s s'.
Proof.
  destruct s as [me g], a as [order| |symbol|symbol|symbol]; cbn [run_action];
    unfold do_draw, do_submit, do_match, do_trade, do_notify; cbn [fst snd].
  - destruct (valid_order order) eqn:Hv; [|done].
    destruct (assign_id 0 order (me_sequencer me)) as [o sq1] eqn:Ha.
    destruct (NextGlobalSeq sq1) as [seq sq2] eqn:Hn. intros [= <-]. by eapply step_draw.
  - destruct (g_submitting g) as [|[ev order] l2] eqn:Hg; [done|].
    destruct (ProcessEvent 0 id (fun _ => []) (Some (OrderSubmitted ev)) (me_pipeline me))
      as [[ep [e|]]| |] eqn:Hp; [done| |done..].
    destruct (enqueueOrder true order (set_pipeline ep me)) as [me'|] eqn:He; [|done].
    intros [= <-]. by eapply (step_submit me g [] ev order l2 0 id (fun _ => []) ep None me' true).
  - destruct (me_orderQueues me !! symbol) as [[|item rest]|] eqn:Hq; [done| |done].
    destruct (me_orderBooks me !! symbol) as [ob|] eqn:Hb; [|done].
    destruct (g_workers g !! symbol) eqn:Hw; [done|].
    destruct (match_queued 0 id symbol ob item (set_queue symbol rest me)) as [[me' trades] r] eqn:Hm.
    intros [= <-]. by eapply step_match.
  - destruct (g_workers g !! symbol) as [[[[[|t trades] item] r] n]|] eqn:Hw; [done| |done].
    destruct (processTrade 0 id (fun _ => []) t me) as [me'| |] eqn:Ht; [|done..].
    intros [= <-]. by eapply (step_trade me g symbol t trades item r n 0 id (fun _ => [])).
  - destruct (g_workers g !! symbol) as [[[[[|t trades] item] r] n]|] eqn:Hw; [|done..].
    intros [= <-]. by apply step_notify.
Qed.

Lemma run_actions_reachable l s s' : run_actions l s = Some s' -> rtc engine_step s s'.
Proof.
  revert s. induction l as [|a l IH]; intros s; cbn [run_actions]; [intros [= <-]; apply rtc_refl|].
  intros (s1 & H1%run_action_step & H2%IH)%bind_Some. by eapply rtc_l.
Qed.
End Run.

(** ** An execution that loses a trade

    The engine of the demonstration has one processor, which logs what it has
    processed; the log is the one in memory, and there are no checkpoints. *)

#[local] Instance engine_table : Table (ListTable EventOffsetCheckpoint) EventOffsetCheckpoint :=
  ListTable_ops (fun a b => cp_same a b).

Abbreviation demo_engine :=
  (MatchEngine cmp_list Memory.InMemoryEventLog (ListTable EventOffsetCheckpoint)
     (Z * list (string * string * Z))).
Abbreviation demo_state := (demo_engine * goroutines)%type.

Definition engine0 : demo_engine := NewMatchEngine demo_pipe NewSequencer true true.

Definition sell_order : SubmitOrderMsg := mkSubmitOrderMsg "s1" "BTC" "sell" "10" "2" "alice".
Definition buy_order : SubmitOrderMsg := mkSubmitOrderMsg "b1" "BTC" "buy" "10" "2" "bob".
Definition late_order : SubmitOrderMsg := mkSubmitOrderMsg "b2" "BTC" "buy" "9" "1" "carol".

(** A sell rests; a buy matches it; before the worker dispatches the trade, a third
    client submits and its event, drawn later, is dispatched first. *)
Definition race : option demo_state :=
  run_actions [ADraw sell_order; ASubmit; AMatch "BTC"; ANotify "BTC"; ADraw buy_order; ASubmit; AMatch "BTC";
               ADraw late_order; ASubmit; ATrade "BTC"; ANotify "BTC"] (engine0, mkGoroutines [] ∅).

Lemma race_reachable s : race = Some s -> rtc engine_step (engine0, mkGoroutines [] ∅) s.
Proof. apply run_actions_reachable. Qed.

(** The trades an engine has announced to subscribers. *)
Definition announced (me : demo_engine) : list json :=
  omap (fun m => match m with Broadcast _ d => Some d | Unicast _ _ => None end) (me_sent me).

Definition observe (s : demo_state) : list Z * list Z * nat * bool :=
  (env_Seq <$> Memory.events (ep_eventLog (me_pipeline s.1)),
   seqs_of "count" "BTC" (ep_world (me_pipeline s.1)).2,
   length (announced s.1), bool_decide (g_workers s.2 = ∅)).

Lemma race_observed : observe <$> race = Some ([1; 3; 6; 5], [1; 3; 6], 1%nat, true).
Proof. vm_compute. reflexivity. Qed.


(** ** Witnesses *)

Lemma submit_enqueues_witness :
  exists me', SubmitOrder 0 id (fun _ => []) 0 true sell_order engine0 = Ok (Some (me', None)) /\
    is_Some (GetOrderBook "BTC" me').
Proof.
  assert (Hs : match SubmitOrder 0 id (fun _ => []) 0 true sell_order engine0 with
               | Ok (Some (_, None)) => true | _ => false end = true) by (vm_compute; reflexivity).
  destruct (SubmitOrder 0 id (fun _ => []) 0 true sell_order engine0) as [[[me' [e|]]|]| |] eqn:H;
    [discriminate Hs| |discriminate Hs..].
  exists me'. split; [done|].
  destruct (submit_enqueues 0 id (fun _ => []) 0 true sell_order engine0 me' eq_refl H)
    as (_ & o & _ & _ & _ & _ & _ & _ & _ & Hb & _).
  exact Hb.
Defined.

Lemma engine_books_invariant_witness :
  exists me g ob, race = Some (me, g) /\ GetOrderBook "BTC" me = Some ob /\ book_ok ob.
Proof.
  destruct race as [[me g]|] eqn:Hr.
  - destruct (GetOrderBook "BTC" me) as [ob|] eqn:Hob.
    + exists me, g, ob. split; [done|]. split; [done|].
      exact (proj1 (engine_books_invariant demo_pipe NewSequencer true true me g
        (race_reachable _ Hr) "BTC" ob Hob)).
    + exfalso. assert (Hs : match race with
        | Some s => match GetOrderBook "BTC" s.1 with Some _ => true | None => false end
        | None => false end = true)
        by (vm_compute; reflexivity).
      rewrite Hr in Hs. simpl in Hs. by rewrite Hob in Hs.
  - exfalso. assert (Hs : match race with Some _ => true | None => false end = true) by (vm_compute; reflexivity).
    by rewrite Hr in Hs.
Defined.
