(* ===== verification/Ownership.v ===== *)
(** * Ownership of partitions

    Models src/biz/model/partition_ownership.go: the state machine of a partition's
    ownership with its guards and actions, and the interface [TransferCoordinator]
    of src/biz/model/transfer_coordinator.go it consults.  [now] is the clock in
    seconds.  Listeners only observe a transition and are left out. *)

From stdpp Require Import base gmap strings list pretty.
From Stdlib Require Import ZArith Lia.
From S2P Require Import Prelude.

Local Open Scope go_scope.
Local Open Scope Z_scope.

Inductive OwnershipState : Type :=
| Owned
| MigrationPending
| Frozen
| Flushing
| Transferring
| Standby
| Failed.

#[global] Instance OwnershipState_eq_dec : EqDecision OwnershipState.
Proof. solve_decision. Defined.

Definition state_String (s : OwnershipState) : string :=
  match s with
  | Owned => "Owned"
  | MigrationPending => "MigrationPending"
  | Frozen => "Frozen"
  | Flushing => "Flushing"
  | Transferring => "Transferring"
  | Standby => "Standby"
  | Failed => "Failed"
  end.

Record StateTransition := mkStateTransition {
  st_FromState : OwnershipState;
  st_ToState : OwnershipState;
  st_Reason : string;
  st_Timestamp : Z;
  st_Actor : string }.

Record OwnershipMetadata := mkOwnershipMetadata {
  om_PartitionID : string;
  om_CurrentOwner : string;
  om_PreviousOwner : string;
  om_TargetOwner : string;
  om_State : OwnershipState;
  om_Symbols : list string;
  om_LastProcessedSeq : Z;
  om_StateTransitionTime : Z;
  om_MigrationStartTime : Z;
  om_CheckpointSeq : Z;
  om_TransferID : string;
  om_KafkaOffset : gmap string Z;
  om_Version : Z;
  om_TransitionHistory : list StateTransition }.

(** [model.TransferCoordinator], without the operations the machine does not use. *)
Class TransferCoordinator (C : Type) := {
  InitiateTransfer : string -> string -> string -> Z -> C -> C * outcome string;
  IsTargetReady : string -> C -> outcome bool }.

Section Machine.
Context {C : Type} `{!TransferCoordinator C}.

(** The coordinator is shared with other nodes and threaded separately;
    [fsm_coordinated] says whether one was injected. *)
Record OwnershipStateMachine := mkFSM {
  fsm_metadata : OwnershipMetadata;
  fsm_migrationTimeout : Z;
  fsm_coordinated : bool }.
Implicit Types (fsm : OwnershipStateMachine) (m : OwnershipMetadata) (c : C).

Definition NewOwnershipStateMachine (now : Z) (defaultCoordinator : bool)
    (partitionID owner : string) (symbols : list string) : OwnershipStateMachine :=
  mkFSM (mkOwnershipMetadata partitionID owner "" "" Owned symbols 0 now 0 0 "" ∅ 1 []) 30
    defaultCoordinator.

(** *** Field updates *)

Definition set_target (t : string) m : OwnershipMetadata :=
  mkOwnershipMetadata (om_PartitionID m) (om_CurrentOwner m) (om_PreviousOwner m) t (om_State m)
    (om_Symbols m) (om_LastProcessedSeq m) (om_StateTransitionTime m) (om_MigrationStartTime m)
    (om_CheckpointSeq m) (om_TransferID m) (om_KafkaOffset m) (om_Version m) (om_TransitionHistory m).
Definition set_migration_start (t : Z) m : OwnershipMetadata :=
  mkOwnershipMetadata (om_PartitionID m) (om_CurrentOwner m) (om_PreviousOwner m) (om_TargetOwner m)
    (om_State m) (om_Symbols m) (om_LastProcessedSeq m) (om_StateTransitionTime m) t
    (om_CheckpointSeq m) (om_TransferID m) (om_KafkaOffset m) (om_Version m) (om_TransitionHistory m).
Definition set_transfer_id (i : string) m : OwnershipMetadata :=
  mkOwnershipMetadata (om_PartitionID m) (om_CurrentOwner m) (om_PreviousOwner m) (om_TargetOwner m)
    (om_State m) (om_Symbols m) (om_LastProcessedSeq m) (om_StateTransitionTime m)
    (om_MigrationStartTime m) (om_CheckpointSeq m) i (om_KafkaOffset m) (om_Version m)
    (om_TransitionHistory m).
Definition hand_over m : OwnershipMetadata :=
  mkOwnershipMetadata (om_PartitionID m) (om_TargetOwner m) (om_CurrentOwner m) "" (om_State m)
    (om_Symbols m) (om_LastProcessedSeq m) (om_StateTransitionTime m) (om_MigrationStartTime m)
    (om_CheckpointSeq m) (om_TransferID m) (om_KafkaOffset m) (om_Version m) (om_TransitionHistory m).
Definition set_progress (last checkpoint : Z) (offsets : gmap string Z) m : OwnershipMetadata :=
  mkOwnershipMetadata (om_PartitionID m) (om_CurrentOwner m) (om_PreviousOwner m) (om_TargetOwner m)
    (om_State m) (om_Symbols m) last (om_StateTransitionTime m) (om_MigrationStartTime m) checkpoint
    (om_TransferID m) offsets (i64 (om_Version m + 1)) (om_TransitionHistory m).

(** The last hundred entries. *)
Definition cap_history (h : list StateTransition) : list StateTransition :=
  if (100 <? length h)%nat then drop (length h - 100) h else h.

Definition enter (now : Z) (toState : OwnershipState) (reason actor : string) m : OwnershipMetadata :=
  mkOwnershipMetadata (om_PartitionID m) (om_CurrentOwner m) (om_PreviousOwner m) (om_TargetOwner m)
    toState (om_Symbols m) (om_LastProcessedSeq m) now (om_MigrationStartTime m) (om_CheckpointSeq m)
    (om_TransferID m) (om_KafkaOffset m) (i64 (om_Version m + 1))
    (cap_history (om_TransitionHistory m ++ [mkStateTransition (om_State m) toState reason now actor])).

Definition with_metadata m fsm : OwnershipStateMachine :=
  mkFSM m (fsm_migrationTimeout fsm) (fsm_coordinated fsm).

(** *** Guards and actions

    [guard] is the table of registered guards: [None] for a pair of states that is
    not registered, otherwise what the guard returns. *)
Definition guard (now : Z) fsm c (from to : OwnershipState) : option (bool * option error) :=
  let m := fsm_metadata fsm in
  match from, to with
  | Owned, MigrationPending =>
      Some (if om_TargetOwner m =s "" then (false, Some "TargetOwner not set")
            else if om_TargetOwner m =s om_CurrentOwner m
            then (false, Some "Cannot migrate to same owner")
            else (true, None))
  | MigrationPending, Frozen =>
      let elapsed := i64 (now - om_MigrationStartTime m) in
      Some (if fsm_migrationTimeout fsm <? elapsed then (false, Some "Migration timeout")
            else (true, None))
  | Frozen, Flushing => Some (true, None)
  | Flushing, Transferring =>
      Some (if om_CheckpointSeq m <=? om_LastProcessedSeq m then (true, None)
            else (false, Some "checkpoint not persisted"))
  | Transferring, Standby =>
      Some (if negb (fsm_coordinated fsm) then (true, None)
            else if om_TransferID m =s "" then (false, Some "no transfer record")
            else match IsTargetReady (om_TransferID m) c with
                 | Ok ready => (ready, None)
                 | Err e => (false, Some e)
                 | Panic => (false, None)
                 end)
  | MigrationPending, Failed | Frozen, Failed | Flushing, Failed | Transferring, Failed =>
      Some (true, None)
  | Failed, Owned => Some (true, None)
  | _, _ => None
  end.

Definition action (now : Z) fsm c (from to : OwnershipState) : OwnershipMetadata * C * option error :=
  let m := fsm_metadata fsm in
  match from, to with
  | Owned, MigrationPending => (set_migration_start now m, c, None)
  | Flushing, Transferring =>
      if negb (fsm_coordinated fsm) then (m, c, None)
      else match InitiateTransfer (om_PartitionID m) (om_CurrentOwner m) (om_TargetOwner m)
                   (om_CheckpointSeq m) c with
           | (c', Ok transferID) => (set_transfer_id transferID m, c', None)
           | (c', Err e) => (m, c', Some (errorf_w "InitiateTransfer failed" (Some e)))
           | (c', Panic) => (m, c', Some "InitiateTransfer failed")
           end
  | Transferring, Standby => (hand_over m, c, None)
  | MigrationPending, Failed | Frozen, Failed | Flushing, Failed | Transferring, Failed
  | Failed, Owned => (set_target "" m, c, None)
  | _, _ => (m, c, None)
  end.

Definition Transition (now : Z) (toState : OwnershipState) (reason actor : string) fsm c
    : OwnershipStateMachine * C * option error :=
  let fromState := om_State (fsm_metadata fsm) in
  match guard now fsm c fromState toState with
  | None => (fsm, c, Some ("Invalid transition: " +:+ state_String fromState +:+ " -> "
                           +:+ state_String toState))
  | Some (allowed, err) =>
      if negb allowed || bool_decide (is_Some err)
      then (fsm, c, Some (errorf_w "Transition guard failed" err))
      else match action now fsm c fromState toState with
           | (m, c', Some e) => (with_metadata m fsm, c', Some (errorf_w "Transition action failed" (Some e)))
           | (m, c', None) => (with_metadata (enter now toState reason actor m) fsm, c', None)
           end
  end.

(** *** Operations *)

(** First critical section of [StartMigration] and of [Rollback]. *)
Definition assign_target (targetOwner : string) fsm : OwnershipStateMachine :=
  with_metadata (set_target targetOwner (fsm_metadata fsm)) fsm.

Definition StartMigration (now : Z) (targetOwner actor : string) fsm c :=
  Transition now MigrationPending "StartMigration" actor (assign_target targetOwner fsm) c.
Definition Freeze (now : Z) (actor : string) fsm c := Transition now Frozen "Freeze" actor fsm c.
Definition Flush (now : Z) (actor : string) fsm c := Transition now Flushing "Flush" actor fsm c.
Definition Transfer (now : Z) (actor : string) fsm c := Transition now Transferring "Transfer" actor fsm c.
Definition Commit (now : Z) (actor : string) fsm c := Transition now Standby "Commit" actor fsm c.
Definition Rollback (now : Z) (actor : string) fsm c :=
  Transition now Failed "Rollback" actor (assign_target "" fsm) c.
Definition Recover (now : Z) (actor : string) fsm c := Transition now Owned "Recover" actor fsm c.

(** The copy leaves out the transfer ID and the history. *)
Definition GetMetadata fsm : OwnershipMetadata :=
  let m := fsm_metadata fsm in
  mkOwnershipMetadata (om_PartitionID m) (om_CurrentOwner m) (om_PreviousOwner m) (om_TargetOwner m)
    (om_State m) (om_Symbols m) (om_LastProcessedSeq m) (om_StateTransitionTime m)
    (om_MigrationStartTime m) (om_CheckpointSeq m) "" (om_KafkaOffset m) (om_Version m) [].

Definition UpdateLastProcessedSeq (seq : Z) fsm : OwnershipStateMachine * option error :=
  let m := fsm_metadata fsm in
  if seq <? om_LastProcessedSeq m
  then (fsm, Some ("Seq cannot go backward: " +:+ pretty (om_LastProcessedSeq m) +:+ " -> " +:+ pretty seq))
  else (with_metadata (set_progress seq (om_CheckpointSeq m) (om_KafkaOffset m) m) fsm, None).

Definition UpdateCheckpoint (seq : Z) fsm : OwnershipStateMachine * option error :=
  let m := fsm_metadata fsm in
  if om_LastProcessedSeq m <? seq
  then (fsm, Some ("Checkpoint seq cannot exceed LastProcessedSeq: " +:+ pretty seq +:+ " > "
                   +:+ pretty (om_LastProcessedSeq m)))
  else (with_metadata (set_progress (om_LastProcessedSeq m) seq (om_KafkaOffset m) m) fsm, None).

Definition UpdateKafkaOffset (symbol : string) (offset : Z) fsm : OwnershipStateMachine * option error :=
  let m := fsm_metadata fsm in
  if offset <? 0 then (fsm, Some ("Invalid Kafka offset: " +:+ pretty offset))
  else (with_metadata (set_progress (om_LastProcessedSeq m) (om_CheckpointSeq m)
          (<[symbol := offset]> (om_KafkaOffset m)) m) fsm, None).

Definition GetState fsm : OwnershipState := om_State (fsm_metadata fsm).
Definition IsOwner (nodeID : string) fsm : bool := om_CurrentOwner (fsm_metadata fsm) =s nodeID.
Definition SetMigrationTimeout (seconds : Z) fsm : OwnershipStateMachine :=
  mkFSM (fsm_metadata fsm) seconds (fsm_coordinated fsm).
Definition SetTransferCoordinator (present : bool) fsm : OwnershipStateMachine :=
  mkFSM (fsm_metadata fsm) (fsm_migrationTimeout fsm) present.
Definition GetTransitionHistory fsm : list StateTransition := om_TransitionHistory (fsm_metadata fsm).
End Machine.
