(* ===== verification/Transfer.v ===== *)
(** * The transfer protocol and its coordinator

    Models src/biz/model/transfer_protocol.go (the message handlers that drive the
    state machine of Ownership.v) and src/biz/service/db_transfer_coordinator.go
    (transfer records in a table, the coordinator in production). *)

From stdpp Require Import base gmap strings list pretty.
From Stdlib Require Import ZArith Lia.
From S2P Require Import Prelude Money Database Ownership.

Local Open Scope go_scope.
Local Open Scope Z_scope.

(** ** Messages; the wall-clock fields of the source are not read by any handler *)

Record TransferRequest := mkTransferRequest {
  trq_PartitionID : string; trq_SourceOwner : string; trq_TargetOwner : string;
  trq_TimeoutMs : Z; trq_MaxRetries : Z; trq_RequestID : string }.
Record TransferResponse := mkTransferResponse {
  trs_Accepted : bool; trs_Reason : string; trs_CheckpointSeq : Z; trs_RequestID : string }.
Record FreezeSignal := mkFreezeSignal {
  fz_PartitionID : string; fz_FreezeTimestamp : Z; fz_SourceOwner : string }.
Record FlushAck := mkFlushAck {
  fa_PartitionID : string; fa_LastProcessedSeq : Z; fa_CheckpointSeq : Z;
  fa_KafkaOffsets : gmap string Z; fa_SourceOwner : string; fa_RequestID : string }.
Record TransferSignal := mkTransferSignal {
  ts_PartitionID : string; ts_SourceOwner : string; ts_TargetOwner : string;
  ts_StartFromSeq : Z; ts_StartFromCheckpoint : Z; ts_KafkaOffsets : gmap string Z;
  ts_RequestID : string }.
Record TransferContext := mkTransferContext {
  tc_PartitionID : string; tc_SourceOwner : string; tc_TargetOwner : string;
  tc_State : OwnershipState; tc_TimeoutMs : Z; tc_CheckpointSeq : Z;
  tc_KafkaOffsets : gmap string Z }.

Section Protocol.
Context {C : Type} `{!TransferCoordinator C}.
Implicit Types (c : C) (now : Z).

(** The protocol object holds one pointer to a machine, nil before wiring. *)
Abbreviation protocol := (option OwnershipStateMachine).
Definition not_initialized : error := "state machine not initialized".

Definition NewTransferProtocol (fsm : option OwnershipStateMachine) : protocol := fsm.

Definition StartTransfer now (req : TransferRequest) (tp : protocol) c
    : protocol * C * outcome TransferResponse :=
  match tp with
  | None => (tp, c, Err not_initialized)
  | Some fsm =>
      if negb (bool_decide (GetState fsm = Owned)) then
        (tp, c, Ok (mkTransferResponse false
           ("source not in Owned state, current state: " +:+ state_String (GetState fsm)) (-1)
           (trq_RequestID req)))
      else
        match StartMigration now (trq_TargetOwner req) "protocol" fsm c with
        | (fsm', c', Some err) =>
            (Some fsm', c', Ok (mkTransferResponse false ("failed to start migration: " +:+ err) (-1)
               (trq_RequestID req)))
        | (fsm', c', None) =>
            (Some fsm', c', Ok (mkTransferResponse true "" (om_CheckpointSeq (GetMetadata fsm'))
               (trq_RequestID req)))
        end
  end.

Definition ApplyFreezeSignal now (sig : FreezeSignal) (tp : protocol) c : protocol * C * option error :=
  match tp with
  | None => (tp, c, Some not_initialized)
  | Some fsm =>
      if negb (bool_decide (GetState fsm = MigrationPending)) then
        (tp, c, Some ("cannot freeze: not in MigrationPending state, current: "
                      +:+ state_String (GetState fsm)))
      else let '(fsm', c', err) := Freeze now (fz_SourceOwner sig) fsm c in (Some fsm', c', err)
  end.

Definition CompleteFlushing now (sourceOwner : string) (tp : protocol) c
    : protocol * C * outcome FlushAck :=
  match tp with
  | None => (tp, c, Err not_initialized)
  | Some fsm =>
      if negb (bool_decide (GetState fsm = Frozen)) then
        (tp, c, Err ("cannot flush: not in Frozen state, current: " +:+ state_String (GetState fsm)))
      else
        match Flush now sourceOwner fsm c with
        | (fsm', c', Some err) => (Some fsm', c', Err (errorf_w "failed to flush" (Some err)))
        | (fsm', c', None) =>
            let m := GetMetadata fsm' in
            (Some fsm', c', Ok (mkFlushAck (om_PartitionID m) (om_LastProcessedSeq m)
               (om_CheckpointSeq m) (om_KafkaOffset m) sourceOwner ""))
        end
  end.

Definition ApplyTransferSignal now (sig : TransferSignal) (tp : protocol) c
    : protocol * C * option error :=
  match tp with
  | None => (tp, c, Some not_initialized)
  | Some fsm =>
      if negb (bool_decide (GetState fsm = Flushing)) then
        (tp, c, Some ("cannot transfer: not in Flushing state, current: " +:+ state_String (GetState fsm)))
      else
        match Transfer now (ts_SourceOwner sig) fsm c with
        | (fsm', c', Some err) => (Some fsm', c', Some (errorf_w "failed to transfer" (Some err)))
        | (fsm', c', None) => (Some fsm', c', None)
        end
  end.

Definition CommitTransfer now (targetOwner : string) (tp : protocol) c : protocol * C * option error :=
  match tp with
  | None => (tp, c, Some not_initialized)
  | Some fsm =>
      if negb (bool_decide (GetState fsm = Transferring)) then
        (tp, c, Some ("cannot commit: not in Transferring state, current: "
                      +:+ state_String (GetState fsm)))
      else let '(fsm', c', err) := Commit now targetOwner fsm c in (Some fsm', c', err)
  end.

Definition RollbackTransfer now (reason : string) (tp : protocol) c : protocol * C * option error :=
  match tp with
  | None => (tp, c, Some not_initialized)
  | Some fsm => let '(fsm', c', err) := Rollback now reason fsm c in (Some fsm', c', err)
  end.

Definition GetTransferContext (tp : protocol) : option TransferContext :=
  match tp with
  | None => None
  | Some fsm =>
      let m := GetMetadata fsm in
      Some (mkTransferContext (om_PartitionID m) (om_CurrentOwner m) (om_TargetOwner m) (om_State m)
              30000 (om_CheckpointSeq m) (om_KafkaOffset m))
  end.

Definition migrating (s : OwnershipState) : bool :=
  match s with
  | MigrationPending | Frozen | Flushing | Transferring => true
  | _ => false
  end.

Definition ValidateTransferInvariants (tp : protocol) : option error :=
  match tp with
  | None => Some not_initialized
  | Some fsm =>
      let m := GetMetadata fsm in
      if om_LastProcessedSeq m <? om_CheckpointSeq m then
        Some ("invariant violation: CheckpointSeq (" +:+ pretty (om_CheckpointSeq m)
              +:+ ") > LastProcessedSeq (" +:+ pretty (om_LastProcessedSeq m) +:+ ")")
      else if bool_decide (om_State m = Transferring \/ om_State m = Flushing)
              && bool_decide (om_KafkaOffset m = ∅) then
        Some "invariant violation: KafkaOffset empty during transfer"
      else if migrating (om_State m) && (om_TargetOwner m =s "") then
        Some ("invariant violation: no TargetOwner during transfer in state "
              +:+ state_String (om_State m))
      else None
  end.
End Protocol.

(** ** The coordinator on a table *)

Record OwnershipTransfer := mkOwnershipTransfer {
  ot_ID : Z;
  ot_PartitionID : string;
  ot_FromOwner : string;
  ot_ToOwner : string;
  ot_CheckpointSeq : Z;
  ot_Status : string;
  ot_Attempts : Z;
  ot_LastError : string }.

(** [fmt.Sscanf(s, "%d", &id)] into an unsigned integer. *)
Definition sscanf_uint (s : string) : outcome Z :=
  match scan_digits 0 0 (trim_left s) with
  | (_, O, _) => Err "expected integer"
  | (v, _, _) => Ok v
  end.

Section Coordinator.
Context {D : Type} `{!Table D OwnershipTransfer}.
(** The next value of the table's auto-increment column. *)
Context (next_id : D -> Z).
Implicit Types (c : D).

Definition with_status (status : string) (t : OwnershipTransfer) : OwnershipTransfer :=
  mkOwnershipTransfer (ot_ID t) (ot_PartitionID t) (ot_FromOwner t) (ot_ToOwner t)
    (ot_CheckpointSeq t) status (ot_Attempts t) (ot_LastError t).

Definition db_InitiateTransfer (partitionID fromOwner toOwner : string) (checkpointSeq : Z) c
    : D * outcome string :=
  let id := next_id c in
  match db_create (mkOwnershipTransfer id partitionID fromOwner toOwner checkpointSeq "pending" 0 "") c with
  | (c', Some e) => (c', Err e)
  | (c', None) => (c', Ok (pretty id))
  end.

Definition db_GetTransfer (transferID : string) c : outcome OwnershipTransfer :=
  let? id := sscanf_uint transferID in
  let? rows := db_find (fun t => ot_ID t =? id) None (Some 1%nat) c in
  match rows with
  | [] => Err "record not found"
  | t :: _ => Ok t
  end.

Definition db_IsTargetReady (transferID : string) c : outcome bool :=
  let? tr := db_GetTransfer transferID c in Ok (ot_Status tr =s "completed").

(** [db.Save] writes every column of the row with that primary key. *)
Definition db_MarkTransferCompleted (transferID : string) c : D * option error :=
  match db_GetTransfer transferID c with
  | Ok tr =>
      match db_update (fun t => ot_ID t =? ot_ID tr) (fun _ => with_status "completed" tr) c with
      | (c', Err e) => (c', Some e)
      | (c', _) => (c', None)
      end
  | Err e => (c, Some e)
  | Panic => (c, None)
  end.

Definition DBTransferCoordinator : TransferCoordinator D := {|
  InitiateTransfer := db_InitiateTransfer;
  IsTargetReady := db_IsTargetReady |}.
End Coordinator.
