(* ===== verification/OwnershipProps.v ===== *)
(** * Properties of ownership and of its transfer *)

From stdpp Require Import base gmap strings list pretty relations.
From Stdlib Require Import ZArith Lia.
From S2P Require Import Prelude Money Database Ownership Transfer.

Local Open Scope go_scope.
Local Open Scope Z_scope.

Section Machine.
Context {C : Type} `{!TransferCoordinator C}.
Implicit Types (fsm : OwnershipStateMachine) (m : OwnershipMetadata) (c : C).

(** The atomic steps of a machine: each critical section of each method, whether it
    reports an error or not, and whatever happens at the shared coordinator. *)
Inductive fsm_step : OwnershipStateMachine * C -> OwnershipStateMachine * C -> Prop :=
| fs_transition fsm c now to reason actor fsm' c' err :
    Transition now to reason actor fsm c = (fsm', c', err) -> fsm_step (fsm, c) (fsm', c')
| fs_assign fsm c target : fsm_step (fsm, c) (assign_target target fsm, c)
| fs_seq fsm c seq : fsm_step (fsm, c) ((UpdateLastProcessedSeq seq fsm).1, c)
| fs_checkpoint fsm c seq : fsm_step (fsm, c) ((UpdateCheckpoint seq fsm).1, c)
| fs_offset fsm c symbol offset : fsm_step (fsm, c) ((UpdateKafkaOffset symbol offset fsm).1, c)
| fs_timeout fsm c t : fsm_step (fsm, c) (SetMigrationTimeout t fsm, c)
| fs_coordinator fsm c b : fsm_step (fsm, c) (SetTransferCoordinator b fsm, c)
| fs_environment fsm c c' : fsm_step (fsm, c) (fsm, c').

(** The registered transitions. *)
Definition legal (from to : OwnershipState) : bool :=
  match from, to with
  | Owned, MigrationPending | MigrationPending, Frozen | Frozen, Flushing | Flushing, Transferring
  | Transferring, Standby | MigrationPending, Failed | Frozen, Failed | Flushing, Failed
  | Transferring, Failed | Failed, Owned => true
  | _, _ => false
  end.

Lemma guard_legal now fsm c from to : is_Some (guard now fsm c from to) <-> legal from to = true.
Proof.
  split.
  - intros [x Hg]. by destruct from, to.
  - destruct from, to; simpl; intros; try done; eauto.
Qed.

(** The actions touch neither the progress nor the history nor the state. *)
Lemma action_frame now fsm c from to m c' err :
  action now fsm c from to = (m, c', err) ->
  om_LastProcessedSeq m = om_LastProcessedSeq (fsm_metadata fsm) /\
  om_CheckpointSeq m = om_CheckpointSeq (fsm_metadata fsm) /\
  om_TransitionHistory m = om_TransitionHistory (fsm_metadata fsm) /\
  om_State m = om_State (fsm_metadata fsm) /\
  om_PartitionID m = om_PartitionID (fsm_metadata fsm).
Proof. unfold action. intros H. repeat case_match; by simplify_eq. Qed.

(** All outcomes of [Transition]. *)
Lemma transition_cases now to reason actor fsm c fsm' c' err :
  Transition now to reason actor fsm c = (fsm', c', err) ->
  (is_Some err /\ exists m, fsm' = with_metadata m fsm /\
     (m = fsm_metadata fsm \/
      exists e, action now fsm c (om_State (fsm_metadata fsm)) to = (m, c', Some e))) \/
  (err = None /\ legal (om_State (fsm_metadata fsm)) to = true /\
   guard now fsm c (om_State (fsm_metadata fsm)) to = Some (true, None) /\
   exists m, action now fsm c (om_State (fsm_metadata fsm)) to = (m, c', None) /\
     fsm' = with_metadata (enter now to reason actor m) fsm).
Proof.
  unfold Transition. destruct (guard _ _ _ _ _) as [[allowed ge]|] eqn:Hg.
  - destruct (negb allowed || bool_decide (is_Some ge)) eqn:Hb.
    { intros [= <- <- <-]. left. split; [eauto|]. exists (fsm_metadata fsm). destruct fsm. by split; [|left]. }
    destruct (action _ _ _ _ _) as [[m c1] [e|]] eqn:Ha; intros [= <- <- <-].
    + left. split; [eauto|]. exists m. eauto.
    + right. apply orb_false_iff in Hb as [Ha1 Ha2].
      apply negb_false_iff in Ha1 as ->. apply bool_decide_eq_false in Ha2.
      assert (ge = None) as -> by (destruct ge; [by destruct Ha2|done]).
      split_and!; auto; [apply (guard_legal now fsm c); eauto|]. eauto.
  - intros [= <- <- <-]. left. split; [eauto|]. exists (fsm_metadata fsm). destruct fsm. by split; [|left].
Qed.

(** ** The invariant of a machine *)

Definition chained (h : list StateTransition) : Prop :=
  forall i a b, h !! i = Some a -> h !! S i = Some b -> st_ToState a = st_FromState b.

Record metadata_ok m : Prop := {
  mo_checkpoint : om_CheckpointSeq m <= om_LastProcessedSeq m;
  mo_bounded : (length (om_TransitionHistory m) <= 100)%nat;
  mo_chained : chained (om_TransitionHistory m);
  mo_legal : Forall (fun t => legal (st_FromState t) (st_ToState t) = true) (om_TransitionHistory m);
  mo_current : match last (om_TransitionHistory m) with
               | Some t => st_ToState t = om_State m
               | None => om_State m = Owned
               end }.

Lemma chained_snoc h t :
  chained h -> (forall x, last h = Some x -> st_ToState x = st_FromState t) -> chained (h ++ [t]).
Proof.
  intros Hc Hl i a b Ha Hb. destruct (decide (S i < length h)%nat).
  - rewrite lookup_app_l in Ha, Hb by lia. by eapply Hc.
  - assert (S i = length h) as Hi.
    { apply lookup_lt_Some in Hb. rewrite length_app in Hb. simpl in Hb. lia. }
    rewrite lookup_app_r in Hb by lia. rewrite Hi, Nat.sub_diag in Hb. simplify_eq/=.
    rewrite lookup_app_l in Ha by lia. apply Hl. rewrite last_lookup, <- Hi. done.
Qed.

Lemma cap_history_ok h t :
  chained (h ++ [t]) -> Forall (fun t => legal (st_FromState t) (st_ToState t) = true) (h ++ [t]) ->
  let h' := cap_history (h ++ [t]) in
  (length h' <= 100)%nat /\ chained h' /\
  Forall (fun t => legal (st_FromState t) (st_ToState t) = true) h' /\ last h' = Some t.
Proof.
  intros Hc Hl. cbv zeta. unfold cap_history. rewrite length_app. simpl.
  destruct (Nat.ltb_spec 100 (length h + 1)).
  - rewrite length_drop, length_app. simpl. split_and!; [lia| |by apply Forall_drop|].
    + intros i a b. rewrite !lookup_drop. intros Ha Hb. eapply Hc; [exact Ha|].
      by rewrite Nat.add_succ_r in Hb.
    + rewrite drop_app_le by lia. apply last_snoc.
  - rewrite length_app. simpl. split_and!; [lia|done|done|apply last_snoc].
Qed.

Lemma transition_ok now to reason actor fsm c fsm' c' err :
  metadata_ok (fsm_metadata fsm) -> Transition now to reason actor fsm c = (fsm', c', err) ->
  metadata_ok (fsm_metadata fsm').
Proof.
  intros [Hcp Hb Hch Hlg Hcur] Ht.
  apply transition_cases in Ht as [(_ & m & -> & [->|[e Ha]])|(_ & Hlegal & _ & m & Ha & ->)]; simpl;
    [by split| |]; pose proof (action_frame _ _ _ _ _ _ _ _ Ha) as (H1 & H2 & H3 & H4 & _).
  1: split; rewrite ?H1, ?H2, ?H3, ?H4; done.
  set (t := mkStateTransition (om_State m) to reason now actor).
  assert (Hc' : chained (om_TransitionHistory m ++ [t])).
  { apply chained_snoc; rewrite H3; [done|]. intros x Hx. rewrite Hx in Hcur. simpl. congruence. }
  assert (Hl' : Forall (fun t => legal (st_FromState t) (st_ToState t) = true) (om_TransitionHistory m ++ [t])).
  { rewrite H3. apply Forall_app_1; [done|]. simpl. by rewrite H4. }
  destruct (cap_history_ok _ _ Hc' Hl') as (? & ? & ? & Hlast).
  split; simpl; auto; [by rewrite H1, H2|]. fold t. by rewrite Hlast.
Qed.

Lemma fsm_step_ok s s' : fsm_step s s' -> metadata_ok (fsm_metadata s.1) -> metadata_ok (fsm_metadata s'.1).
Proof.
  destruct 1 as [fsm c now to reason actor fsm' c' err Ht| | | | | | |]; simpl; intros Hok; auto.
  - by eapply transition_ok.
  - destruct Hok. by split.
  - unfold UpdateLastProcessedSeq. destruct (Z.ltb_spec seq (om_LastProcessedSeq (fsm_metadata fsm)));
      [done|]. destruct Hok. split; simpl; auto. lia.
  - unfold UpdateCheckpoint. destruct (Z.ltb_spec (om_LastProcessedSeq (fsm_metadata fsm)) seq);
      [done|]. destruct Hok. split; simpl; auto.
  - unfold UpdateKafkaOffset. destruct (offset <? 0); [done|]. destruct Hok. by split.
Qed.

(** C29: whatever sequence of calls, timeouts, errors and coordinator activity a
    machine sees, the checkpoint never exceeds the last processed number; the
    history holds at most a hundred entries, each a registered transition, each
    starting where the previous ended, the last ending in the current state. *)
Theorem ownership_invariant now b pid owner symbols c fsm c' :
  rtc fsm_step (NewOwnershipStateMachine now b pid owner symbols, c) (fsm, c') ->
  metadata_ok (fsm_metadata fsm).
Proof.
  intros Hr. change (metadata_ok (fsm_metadata (fsm, c').1)).
  assert (H0 : metadata_ok (fsm_metadata (NewOwnershipStateMachine now b pid owner symbols, c).1)).
  { split; simpl; [lia|lia|by intros i a x|constructor|done]. }
  revert H0. induction Hr as [|s1 s2 s3 Hs _ IH]; [done|]. intros H0. apply IH. by eapply fsm_step_ok.
Qed.

(** C30: ownership changes hands at one point only: a step that changes the owner is
    a successful transition from Transferring to Standby, to the target that was
    set, with the old owner recorded as the previous one; with a coordinator, the
    target has then confirmed the transfer. *)
Theorem owner_changes_on_commit fsm c fsm' c' :
  fsm_step (fsm, c) (fsm', c') ->
  om_CurrentOwner (fsm_metadata fsm') <> om_CurrentOwner (fsm_metadata fsm) ->
  GetState fsm = Transferring /\ GetState fsm' = Standby /\
  om_CurrentOwner (fsm_metadata fsm') = om_TargetOwner (fsm_metadata fsm) /\
  om_PreviousOwner (fsm_metadata fsm') = om_CurrentOwner (fsm_metadata fsm) /\
  (fsm_coordinated fsm = true ->
     IsTargetReady (om_TransferID (fsm_metadata fsm)) c = Ok true).
Proof.
  inversion 1 as [? ? now to reason actor ? ? err Ht| | |? ? seq|? ? sym off| | |]; subst; simpl; try done.
  - apply transition_cases in Ht as [(_ & m & -> & Hm)|(_ & _ & Hg & m & Ha & ->)]; simpl.
    + intros Hne. exfalso. apply Hne. destruct Hm as [->|[e Ha]]; [done|];
        unfold action in Ha; repeat case_match; by simplify_eq.
    + unfold GetState. destruct (om_State (fsm_metadata fsm)) eqn:Hs, to; simpl in Ha, Hg |- *; try done;
        repeat case_match; simplify_eq/=; try done.
      all: intros _; split_and!; try done; intros Hcoord; bool_props; congruence.
  - unfold UpdateLastProcessedSeq. by case_match.
  - unfold UpdateCheckpoint. by case_match.
  - unfold UpdateKafkaOffset. by case_match.
Qed.

(** ** Machines driven by the transfer protocol *)

Inductive protocol_step : option OwnershipStateMachine * C -> option OwnershipStateMachine * C -> Prop :=
| ps_start tp c now req tp' c' r : StartTransfer now req tp c = (tp', c', r) -> protocol_step (tp, c) (tp', c')
| ps_freeze tp c now sig tp' c' r : ApplyFreezeSignal now sig tp c = (tp', c', r) -> protocol_step (tp, c) (tp', c')
| ps_flush tp c now o tp' c' r : CompleteFlushing now o tp c = (tp', c', r) -> protocol_step (tp, c) (tp', c')
| ps_transfer tp c now sig tp' c' r : ApplyTransferSignal now sig tp c = (tp', c', r) -> protocol_step (tp, c) (tp', c')
| ps_commit tp c now o tp' c' r : CommitTransfer now o tp c = (tp', c', r) -> protocol_step (tp, c) (tp', c')
| ps_rollback tp c now o tp' c' r : RollbackTransfer now o tp c = (tp', c', r) -> protocol_step (tp, c) (tp', c')
| ps_recover fsm c now o fsm' c' r : Recover now o fsm c = (fsm', c', r) -> protocol_step (Some fsm, c) (Some fsm', c')
| ps_seq fsm c seq : protocol_step (Some fsm, c) (Some (UpdateLastProcessedSeq seq fsm).1, c)
| ps_checkpoint fsm c seq : protocol_step (Some fsm, c) (Some (UpdateCheckpoint seq fsm).1, c)
| ps_offset fsm c s o : protocol_step (Some fsm, c) (Some (UpdateKafkaOffset s o fsm).1, c)
| ps_environment tp c c' : protocol_step (tp, c) (tp, c').

(** A migration under way has a target other than the owner. *)
Definition target_ok fsm : Prop :=
  migrating (GetState fsm) = true ->
  om_TargetOwner (fsm_metadata fsm) <> "" /\
  om_TargetOwner (fsm_metadata fsm) <> om_CurrentOwner (fsm_metadata fsm).

Lemma transition_target now to reason actor fsm c fsm' c' err :
  target_ok fsm -> Transition now to reason actor fsm c = (fsm', c', err) -> target_ok fsm'.
Proof.
  intros Hok Ht. unfold target_ok in *.
  apply transition_cases in Ht as [(_ & m & -> & Hm)|(_ & _ & Hg & m & Ha & ->)]; simpl.
  - destruct Hm as [->|[e Ha]]; [done|]; unfold action in Ha; repeat case_match; by simplify_eq.
  - unfold GetState in *. simpl. destruct (om_State (fsm_metadata fsm)) eqn:Hs, to; simpl in Ha, Hg, Hok |- *;
      try done; repeat case_match; simplify_eq/=; try done; try (intros _; by apply Hok);
      bool_props; done.
Qed.

Lemma assign_not_migrating t fsm : migrating (GetState fsm) = false -> target_ok (assign_target t fsm).
Proof. intros H Hm. unfold GetState in *. simpl in Hm. congruence. Qed.

(** Rolling back from a migrating state always succeeds. *)
Lemma rollback_target now o fsm c fsm' c' err :
  Rollback now o fsm c = (fsm', c', err) -> target_ok fsm'.
Proof.
  unfold Rollback, Transition, target_ok, GetState. simpl.
  destruct (om_State (fsm_metadata fsm)) eqn:Hs; simpl; intros; simplify_eq/=; try done;
    rewrite Hs in *; done.
Qed.

Definition protocol_target_ok (tp : option OwnershipStateMachine) : Prop :=
  match tp with Some fsm => target_ok fsm | None => True end.

Lemma protocol_step_target s s' :
  protocol_step s s' -> protocol_target_ok s.1 -> protocol_target_ok s'.1.
Proof.
  destruct 1 as [tp c now req tp' c' r H|tp c now sig tp' c' r H|tp c now o tp' c' r H
    |tp c now sig tp' c' r H|tp c now o tp' c' r H|tp c now o tp' c' r H|fsm c now o fsm' c' r H
    |fsm c seq|fsm c seq|fsm c sy o|]; simpl; intros Hok; auto.
  - unfold StartTransfer in H. destruct tp as [fsm|]; [|by simplify_eq].
    destruct (negb _) eqn:Hst; [by simplify_eq|]. bool_props.
    destruct (StartMigration _ _ _ _ _) as [[fsm1 c1] e] eqn:Hm.
    apply transition_target in Hm; [by destruct e; simplify_eq|].
    apply assign_not_migrating. by rewrite Hst.
  - unfold ApplyFreezeSignal in H. destruct tp as [fsm|]; [|by simplify_eq].
    destruct (negb _); [by simplify_eq|]. destruct (Freeze _ _ _ _) as [[fsm1 c1] e] eqn:Hm.
    simplify_eq. by eapply transition_target.
  - unfold CompleteFlushing in H. destruct tp as [fsm|]; [|by simplify_eq].
    destruct (negb _); [by simplify_eq|]. destruct (Flush _ _ _ _) as [[fsm1 c1] e] eqn:Hm.
    destruct e; simplify_eq; by eapply transition_target.
  - unfold ApplyTransferSignal in H. destruct tp as [fsm|]; [|by simplify_eq].
    destruct (negb _); [by simplify_eq|]. destruct (Transfer _ _ _ _) as [[fsm1 c1] e] eqn:Hm.
    destruct e; simplify_eq; by eapply transition_target.
  - unfold CommitTransfer in H. destruct tp as [fsm|]; [|by simplify_eq].
    destruct (negb _); [by simplify_eq|]. destruct (Commit _ _ _ _) as [[fsm1 c1] e] eqn:Hm.
    simplify_eq. by eapply transition_target.
  - unfold RollbackTransfer in H. destruct tp as [fsm|]; [|by simplify_eq].
    destruct (Rollback _ _ _ _) as [[fsm1 c1] e] eqn:Hm. simplify_eq. by eapply rollback_target.
  - by eapply transition_target.
  - unfold UpdateLastProcessedSeq. by case_match.
  - unfold UpdateCheckpoint. by case_match.
  - unfold UpdateKafkaOffset. by case_match.
Qed.

(** A machine driven through the transfer protocol, from creation, whatever
    messages arrive in whatever order and whatever the coordinator answers, has a
    target during every migration, and never the owner itself. *)
Theorem protocol_target_invariant now b pid owner symbols c fsm c' :
  rtc protocol_step (Some (NewOwnershipStateMachine now b pid owner symbols), c) (Some fsm, c') ->
  migrating (GetState fsm) = true ->
  om_TargetOwner (fsm_metadata fsm) <> "" /\
  om_TargetOwner (fsm_metadata fsm) <> om_CurrentOwner (fsm_metadata fsm).
Proof.
  intros Hr. change (protocol_target_ok (Some fsm, c').1).
  assert (H0 : protocol_target_ok (Some (NewOwnershipStateMachine now b pid owner symbols), c).1) by done.
  revert H0. induction Hr as [|s1 s2 s3 Hs _ IH]; [done|]. intros H0. apply IH. by eapply protocol_step_target.
Qed.

(** ** A complete transfer *)

(** The five messages of a transfer, in order; [None] as soon as one is refused. *)
Definition run_transfer (t0 t1 t2 t3 t4 : Z) (req : TransferRequest) (fz : FreezeSignal)
    (sig : TransferSignal) fsm c : option (OwnershipStateMachine * C) :=
  match StartTransfer t0 req (Some fsm) c with
  | (tp1, c1, Ok resp) =>
      if negb (trs_Accepted resp) then None else
      match ApplyFreezeSignal t1 fz tp1 c1 with
      | (tp2, c2, None) =>
          match CompleteFlushing t2 (trq_SourceOwner req) tp2 c2 with
          | (tp3, c3, Ok _) =>
              match ApplyTransferSignal t3 sig tp3 c3 with
              | (tp4, c4, None) =>
                  match CommitTransfer t4 (trq_TargetOwner req) tp4 c4 with
                  | (Some fsm5, c5, None) => Some (fsm5, c5)
                  | _ => None
                  end
              | _ => None
              end
          | _ => None
          end
      | _ => None
      end
  | _ => None
  end.

End Machine.

(** ** Races between the critical sections

    [StartMigration] and [Rollback] assign the target in one critical section and
    take the transition in another. *)

#[local] Instance no_coordinator : TransferCoordinator unit := {|
  InitiateTransfer _ _ _ _ c := (c, Ok "");
  IsTargetReady _ _ := Ok true |}.

Definition fsm_a : OwnershipStateMachine := NewOwnershipStateMachine 0 false "p1" "nodeA" ["BTC"].
Definition fsm_of (r : OwnershipStateMachine * unit * option error) : OwnershipStateMachine := r.1.1.

(** The machine in state Transferring, on its way from nodeA to nodeB. *)
Definition fsm_transferring : OwnershipStateMachine :=
  fsm_of (Transfer 3 "nodeA" (fsm_of (Flush 2 "nodeA" (fsm_of (Freeze 1 "nodeA"
    (fsm_of (StartMigration 0 "nodeB" "ops" fsm_a tt)) tt)) tt)) tt).

(** A refused migration request still redirects the transfer that is under way:
    asking for nodeC during the transfer to nodeB reports an invalid transition, and
    the commit that follows makes nodeC the owner. *)
Theorem refused_start_hijacks_target :
  let '(fsm1, _, err) := StartMigration 4 "nodeC" "ops" fsm_transferring tt in
  err = Some "Invalid transition: Transferring -> MigrationPending" /\
  let '(fsm2, _, err2) := Commit 5 "nodeB" fsm1 tt in
  err2 = None /\ om_CurrentOwner (fsm_metadata fsm2) = "nodeC".
Proof. vm_compute. split_and!; reflexivity. Qed.

(** A commit between the two critical sections of a rollback leaves the
    partition without an owner. *)
Theorem rollback_race_loses_owner :
  exists fsm, rtc fsm_step (fsm_transferring, tt) (fsm, tt) /\
    (** clear the target, commit by another goroutine, then the rollback's own
        transition, which is refused *)
    GetState fsm = Standby /\ om_CurrentOwner (fsm_metadata fsm) = "" /\
    om_PreviousOwner (fsm_metadata fsm) = "nodeA".
Proof.
  set (cleared := assign_target "" fsm_transferring).
  set (committed := fsm_of (Commit 5 "nodeB" cleared tt)).
  exists (fsm_of (Transition 6 Failed "Rollback" "ops" committed tt)). split.
  - eapply rtc_l; [apply (fs_assign fsm_transferring tt "")|].
    eapply rtc_l; [apply (fs_transition cleared tt 5 Standby "Commit" "nodeB" committed tt None); vm_compute; reflexivity|].
    eapply rtc_l; [|apply rtc_refl].
    apply (fs_transition committed tt 6 Failed "Rollback" "ops" _ tt
             (Some "Invalid transition: Standby -> Failed")). vm_compute. reflexivity.
  - vm_compute. split_and!; reflexivity.
Qed.

(** ** The coordinator on a table *)

Lemma scan_digits_pretty (n : N) k s :
  exists j, scan_digits 0 k (pretty_N_go n s) = scan_digits (Z.of_N n) j s /\
    (n <> 0%N -> (k < j)%nat) /\ (k <= j)%nat.
Proof.
  revert k s. induction (N.lt_wf_0 n) as [n _ IH]. intros k s.
  destruct (decide (n = 0)%N) as [->|Hn]; [exists k; split_and!; [by rewrite pretty_N_go_0|done|lia]|].
  rewrite pretty_N_go_step by lia.
  destruct (IH (n `div` 10)%N ltac:(apply N.div_lt; lia) k (String (pretty_N_char (n `mod` 10)) s))
    as (j & Hj & _ & Hle).
  exists (S j). split_and!; [|lia|lia]. rewrite Hj. cbn [scan_digits].
  assert (Hd : digit_val (pretty_N_char (n `mod` 10)) = Some (Z.of_N (n `mod` 10))).
  { assert (Hlt : (n `mod` 10 < 10)%N) by (apply N.mod_lt; lia).
    remember (n `mod` 10)%N as d eqn:Hd. clear -Hlt.
    assert (d = 0 \/ d = 1 \/ d = 2 \/ d = 3 \/ d = 4 \/ d = 5 \/ d = 6 \/ d = 7 \/ d = 8 \/ d = 9)%N
      as Hcases by lia.
    destruct_or? Hcases; subst; reflexivity. }
  rewrite Hd. f_equal. rewrite N2Z.inj_div, N2Z.inj_mod.
  pose proof (Z.div_mod (Z.of_N n) (Z.of_N 10) ltac:(lia)). lia.
Qed.

Lemma trim_left_digits s v k rest : scan_digits 0 0 s = (v, S k, rest) -> trim_left s = s.
Proof.
  destruct s as [|ch s]; [done|]. cbn [scan_digits trim_left].
  destruct (digit_val ch) as [d|] eqn:Hd; [|done]. intros _.
  replace (is_space ch) with false; [done|]. symmetry.
  unfold digit_val in Hd. unfold is_space. set (n := Ascii.nat_of_ascii ch) in *.
  destruct ((48 <=? Z.of_nat n) && (Z.of_nat n <=? 57)) eqn:Hr; [|done]. bool_props.
  rewrite bool_decide_eq_false_2 by lia. simpl.
  destruct (Nat.leb_spec 9 n), (Nat.leb_spec n 13); simpl; done || lia.
Qed.

(** A transfer ID reads back as the number it was printed from. *)
Lemma sscanf_pretty id : 0 <= id -> sscanf_uint (pretty id) = Ok id.
Proof.
  intros Hid. assert (Hscan : exists k, scan_digits 0 0 (pretty id) = (id, S k, "")).
  { destruct id as [|p|p]; [by exists 0%nat| |lia].
    change (pretty (Z.pos p)) with (pretty_N (N.pos p)). unfold pretty_N.
    rewrite decide_False by done.
    destruct (scan_digits_pretty (N.pos p) 0 "") as ([|j] & Hj & Hlt & _); [specialize (Hlt ltac:(done)); lia|].
    exists j. by rewrite Hj. }
  destruct Hscan as [k Hk]. unfold sscanf_uint. by rewrite (trim_left_digits _ _ _ _ Hk), Hk.
Qed.

Section Coordinator.
Context {D : Type} `{!Table D OwnershipTransfer, !TableLaws D OwnershipTransfer}.
Context (next_id : D -> Z).
(** Auto-increment: the next ID is a natural number that no row has. *)
Hypothesis Hfresh : forall d, 0 <= next_id d /\ forall t, t ∈ db_rows d -> ot_ID t <> next_id d.

Lemma get_transfer_found d id t :
  0 <= id -> db_GetTransfer (pretty id) d = Ok t -> t ∈ db_rows d /\ ot_ID t = id.
Proof.
  intros Hid. unfold db_GetTransfer. rewrite sscanf_pretty by done. simpl.
  destruct (db_find _ _ _ _) as [rows| |] eqn:Hf; simpl; [|done..].
  destruct rows as [|t' rows]; [done|]. intros [= <-].
  destruct (select_elem _ _ _ _ _ t' (db_find_ok _ _ _ _ _ Hf) ltac:(left)) as [? ?]. split; [done|lia].
Qed.

(** The coordinator gates the commit: the record a transfer creates is found
    under the ID it returns, the target is not ready until that record is marked,
    and is ready once it has been, whatever other records the table holds. *)
Theorem coordinator_gates_commit pid from to cp d d1 tid r1 d2 r2 :
  db_InitiateTransfer next_id pid from to cp d = (d1, Ok tid) ->
  db_IsTargetReady tid d1 = Ok r1 ->
  db_MarkTransferCompleted tid d1 = (d2, None) ->
  db_IsTargetReady tid d2 = Ok r2 ->
  r1 = false /\ r2 = true /\ (forall t, t ∈ db_rows d -> t ∈ db_rows d2).
Proof.
  intros Hinit Hr1 Hmark Hr2. unfold db_InitiateTransfer in Hinit.
  set (new := mkOwnershipTransfer (next_id d) pid from to cp "pending" 0 "") in *.
  destruct (db_create new d) as [d1' [e|]] eqn:Hc; [done|]. injection Hinit as <- <-.
  apply db_create_ok in Hc. destruct (Hfresh d) as [Hge Hne].
  assert (Hget : forall t, db_GetTransfer (pretty (next_id d)) d1' = Ok t -> t = new).
  { intros t Ht. apply get_transfer_found in Ht as [Hin Hid]; [|done]. rewrite Hc in Hin.
    apply elem_of_cons in Hin as [->|Hin]; [done|]. by destruct (Hne t Hin). }
  unfold db_IsTargetReady in Hr1.
  destruct (db_GetTransfer (pretty (next_id d)) d1') as [t1| |] eqn:Hg1; simpl in Hr1; [|done..].
  pose proof (Hget t1 eq_refl) as ->. injection Hr1 as <-.
  unfold db_MarkTransferCompleted in Hmark. rewrite Hg1 in Hmark.
  destruct (db_update _ _ d1') as [d2' o] eqn:Hu.
  destruct o as [n|e|]; simplify_eq.
  - apply db_update_ok in Hu as [Hu _].
    split_and!; [done| |].
    + unfold db_IsTargetReady in Hr2.
      destruct (db_GetTransfer (pretty (next_id d)) d2) as [t2| |] eqn:Hg2; simpl in Hr2; [|done..].
      apply get_transfer_found in Hg2 as [Hin Hid]; [|done]. rewrite Hu in Hin.
      apply list_elem_of_fmap in Hin as (t & -> & Hin). rewrite Hc in Hin. simpl in Hid, Hr2.
      destruct (Z.eqb_spec (ot_ID t) (next_id d)) as [|Hdiff]; [by simplify_eq/=|done].
    + intros t Ht. rewrite Hu. apply list_elem_of_fmap. exists t. simpl.
      destruct (Z.eqb_spec (ot_ID t) (next_id d)); [by destruct (Hne t Ht)|].
      split; [done|]. rewrite Hc. by right.
  - by apply db_update_no_panic in Hu.
Qed.
End Coordinator.

(** ** Witnesses *)

Lemma transition_step fsm now to reason actor fsm' err :
  Transition now to reason actor fsm tt = (fsm', tt, err) -> fsm_step (fsm, tt) (fsm', tt).
Proof. apply fs_transition. Qed.

Lemma ownership_invariant_witness :
  metadata_ok (fsm_metadata (fsm_of (StartMigration 0 "nodeB" "ops" fsm_a tt))).
Proof.
  apply (ownership_invariant 0 false "p1" "nodeA" ["BTC"] tt _ tt).
  eapply rtc_l; [apply (fs_assign fsm_a tt "nodeB")|].
  eapply rtc_l; [|apply rtc_refl].
  eapply (transition_step _ 0 MigrationPending "StartMigration" "ops" _ None). vm_compute. reflexivity.
Defined.

Lemma owner_changes_on_commit_witness :
  om_PreviousOwner (fsm_metadata (fsm_of (Commit 5 "nodeB" fsm_transferring tt))) = "nodeA".
Proof.
  assert (Hstep : fsm_step (fsm_transferring, tt) (fsm_of (Commit 5 "nodeB" fsm_transferring tt), tt)).
  { apply (fs_transition fsm_transferring tt 5 Standby "Commit" "nodeB" _ tt None). vm_compute. reflexivity. }
  assert (Hne : om_CurrentOwner (fsm_metadata (fsm_of (Commit 5 "nodeB" fsm_transferring tt))) <>
                om_CurrentOwner (fsm_metadata fsm_transferring)) by (vm_compute; discriminate).
  destruct (owner_changes_on_commit fsm_transferring tt _ tt Hstep Hne) as (_ & _ & _ & H & _).
  rewrite H. vm_compute. reflexivity.
Defined.

Definition start_req : TransferRequest := mkTransferRequest "p1" "nodeA" "nodeB" 30000 3 "r1".
Definition fsm_started : OwnershipStateMachine := fsm_of (StartMigration 0 "nodeB" "protocol" fsm_a tt).

Lemma protocol_target_invariant_witness :
  migrating (GetState fsm_started) = true /\ om_TargetOwner (fsm_metadata fsm_started) <> "".
Proof.
  split; [vm_compute; reflexivity|].
  refine (proj1 (protocol_target_invariant 0 false "p1" "nodeA" ["BTC"] tt fsm_started tt _ _));
    [|vm_compute; reflexivity].
  eapply rtc_l; [|apply rtc_refl].
  eapply (ps_start _ _ 0 start_req _ _ (Ok (mkTransferResponse true "" 0 "r1"))). vm_compute. reflexivity.
Defined.


#[local] Instance transfers_table : Table (ListTable OwnershipTransfer) OwnershipTransfer :=
  ListTable_ops (fun a b => ot_ID a =? ot_ID b).
#[local] Instance transfers_table_laws : TableLaws (ListTable OwnershipTransfer) OwnershipTransfer :=
  ListTable_laws _.

Definition serial (d : ListTable OwnershipTransfer) : Z :=
  fold_right (fun t m => Z.max m (ot_ID t + 1)) 0 (lt_rows d).

Lemma serial_fresh d : 0 <= serial d /\ forall t, t ∈ db_rows d -> ot_ID t <> serial d.
Proof.
  destruct d as [rows]. unfold serial. simpl.
  assert (H : 0 <= fold_right (fun t m => Z.max m (ot_ID t + 1)) 0 rows /\
    forall t, t ∈ rows -> ot_ID t < fold_right (fun t m => Z.max m (ot_ID t + 1)) 0 rows).
  { induction rows as [|t rows [IH1 IH2]]; simpl; [split; [lia|by intros t ?%elem_of_nil]|].
    split; [lia|]. intros t' [->|Hin]%elem_of_cons; [lia|]. specialize (IH2 t' Hin). lia. }
  destruct H as [? H]. split; [done|]. intros t Ht. specialize (H t Ht). lia.
Qed.

Definition transfers0 : ListTable OwnershipTransfer :=
  mkListTable [mkOwnershipTransfer 4 "p0" "x" "y" 0 "completed" 0 ""].
Definition transfers1 := (db_InitiateTransfer serial "p1" "nodeA" "nodeB" 9 transfers0).1.
Definition transfers2 := (db_MarkTransferCompleted "5" transfers1).1.

Lemma coordinator_gates_commit_witness :
  db_IsTargetReady "5" transfers1 = Ok false /\ db_IsTargetReady "5" transfers2 = Ok true /\
  mkOwnershipTransfer 4 "p0" "x" "y" 0 "completed" 0 "" ∈ db_rows transfers2.
Proof.
  destruct (coordinator_gates_commit serial serial_fresh "p1" "nodeA" "nodeB" 9 transfers0 transfers1
    "5" false transfers2 true ltac:(vm_compute; reflexivity) ltac:(vm_compute; reflexivity)
    ltac:(vm_compute; reflexivity) ltac:(vm_compute; reflexivity)) as (_ & _ & H).
  split; [vm_compute; reflexivity|]. split; [vm_compute; reflexivity|]. apply H. left.
Defined.
