(* ===== verification/Lock.v ===== *)
(** * The distributed lock

    Models src/biz/service/redis_lock_manager.go.  The mutexes are those of
    go-redsync and the contexts those of the caller; neither is part of the
    repository: [Redsync] names the calls made to them and [RedsyncLaws] what they
    document.  The value a mutex stores under its key tells one holder from
    another. *)

From stdpp Require Import base gmap strings list pretty.
From Stdlib Require Import ZArith Lia.
From S2P Require Import Prelude.

Local Open Scope go_scope.
Local Open Scope Z_scope.

Class Redsync (R : Type) := {
  (** The value the mutex has stored, or the error. *)
  mutex_LockContext : string -> R -> R * (string + error);
  mutex_TryLockContext : string -> R -> R * (string + error);
  mutex_Unlock : string -> string -> R -> R * option error;
  ctx_Err : R -> option error;
  (** Wait for the delay (milliseconds); [true] if the context was done first. *)
  ctx_wait : Z -> R -> R * bool;
  (** The value stored under a key. *)
  rs_holder : R -> string -> option string }.

(** [redsync.ErrFailed]. *)
Definition ErrFailed : error := "redsync: failed to acquire lock".

Class RedsyncLaws (R : Type) {H : Redsync R} := {
  lock_holds key r r' v : mutex_LockContext key r = (r', inl v) -> rs_holder r' key = Some v;
  trylock_holds key r r' v : mutex_TryLockContext key r = (r', inl v) ->
    rs_holder r key = None /\ rs_holder r' key = Some v;
  trylock_taken key r r' : mutex_TryLockContext key r = (r', inr ErrFailed) ->
    rs_holder r key <> None /\ rs_holder r' key = rs_holder r key;
  unlock_releases key v r r' : mutex_Unlock key v r = (r', None) ->
    rs_holder r' key <> Some v;
  wait_done d r r' : ctx_wait d r = (r', true) -> ctx_Err r' <> None }.

(** Locks beside other state. *)
#[global] Instance redsync_prod {R} (B : Type) `{Redsync R} : Redsync (R * B) := {|
  mutex_LockContext key s := let '(r, v) := mutex_LockContext key s.1 in ((r, s.2), v);
  mutex_TryLockContext key s := let '(r, v) := mutex_TryLockContext key s.1 in ((r, s.2), v);
  mutex_Unlock key v s := let '(r, e) := mutex_Unlock key v s.1 in ((r, s.2), e);
  ctx_Err s := ctx_Err s.1;
  ctx_wait d s := let '(r, b) := ctx_wait d s.1 in ((r, s.2), b);
  rs_holder s key := rs_holder s.1 key |}.

#[global] Instance redsync_prod_laws {R} (B : Type) `{RedsyncLaws R} : RedsyncLaws (R * B).
Proof.
  split; simpl; intros *; go_cases; intros ?; simplify_eq/=;
    eauto using lock_holds, trylock_holds, trylock_taken, unlock_releases, wait_done.
Qed.

(** Durations are milliseconds. *)
Record LockOptions := mkLockOptions {
  ExpireDuration : Z;
  MaxRetries : Z;
  RetryDelay : Z }.

Definition DefaultLockOptions : LockOptions := mkLockOptions 30000 3 100.

Section Manager.
Context {R : Type} `{!Redsync R}.
Implicit Types (r : R).

(** How the loop of [WithLock] ends: with a return, or at its end with the value
    of the mutex and the last error. *)
Inductive acquired : Type :=
| Returned (err : option error)
| LoopDone (value : string) (err : option error).

(** [left] is the number of attempts still to make. *)
Fixpoint acquire (key : string) (delay : Z) (left : nat) (err : option error) r : R * acquired :=
  match left with
  | O => (r, LoopDone "" err)
  | S left' =>
      match mutex_LockContext key r with
      | (r1, inl v) => (r1, LoopDone v None)
      | (r1, inr e) =>
          match ctx_Err r1 with
          | Some ce => (r1, Returned (Some (errorf_w "lock context expired" (Some ce))))
          | None =>
              match left' with
              | O => acquire key delay left' (Some e) r1
              | S _ =>
                  match ctx_wait delay r1 with
                  | (r2, true) => (r2, Returned (ctx_Err r2))
                  | (r2, false) => acquire key delay left' (Some e) r2
                  end
              end
          end
      end
  end.

(** An error of the deferred Unlock is only logged. *)
Definition WithLock (key : string) (fn : R -> outcome (R * option error))
    (opts : option LockOptions) r : outcome (R * option error) :=
  let opt := default DefaultLockOptions opts in
  match acquire key (RetryDelay opt) (Z.to_nat (MaxRetries opt)) None r with
  | (r1, Returned err) => Ok (r1, err)
  | (r1, LoopDone _ (Some e)) =>
      Ok (r1, Some (errorf_w ("failed to acquire lock on " +:+ key) (Some e)))
  | (r1, LoopDone v None) =>
      let? res := fn r1 in
      Ok ((mutex_Unlock key v res.1).1, res.2)
  end.

(** The value of the locked mutex, [None] if the lock is taken. *)
Definition TryLock (key : string) r : R * outcome (option string) :=
  match mutex_TryLockContext key r with
  | (r1, inl v) => (r1, Ok (Some v))
  | (r1, inr e) =>
      if e =s ErrFailed then (r1, Ok None) else (r1, Err (errorf_w "lock error" (Some e)))
  end.

Definition IsLocked (key : string) r : R * outcome bool :=
  match TryLock key r with
  | (r1, Ok (Some v)) => ((mutex_Unlock key v r1).1, Ok false)
  | (r1, Ok None) => (r1, Ok true)
  | (r1, Err e) => (r1, Err e)
  | (r1, Panic) => (r1, Panic)
  end.

Definition WithEventProcessingLock (topic : string) (partition offset : Z)
    (fn : R -> outcome (R * option error)) r : outcome (R * option error) :=
  WithLock ("event:processing:" +:+ topic +:+ ":" +:+ pretty partition +:+ ":" +:+ pretty offset)
    fn (Some (mkLockOptions 300000 1 0)) r.

Definition WithPartitionOwnershipUpdate (partitionID : string)
    (fn : R -> outcome (R * option error)) r : outcome (R * option error) :=
  WithLock ("partition:" +:+ partitionID +:+ ":owner_update")
    fn (Some (mkLockOptions 10000 3 50)) r.

Definition recovery_lock_key (processorName symbol : string) : string :=
  "recovery:lock:" +:+ processorName +:+ ":" +:+ symbol.

Definition WithRecoveryLock (processorName symbol : string)
    (fn : R -> outcome (R * option error)) r : outcome (R * option error) :=
  WithLock (recovery_lock_key processorName symbol) fn (Some (mkLockOptions 1800000 1 0)) r.

(** ** Properties *)

Context `{!RedsyncLaws R}.

(** The loop ends without an error only with the lock held, unless it made no
    attempt at all. *)
Lemma acquire_held key delay left err r r' v :
  acquire key delay left err r = (r', LoopDone v None) -> (0 < left)%nat \/ err <> None ->
  rs_holder r' key = Some v.
Proof.
  revert err r. induction left as [|left IH]; intros err r; simpl.
  { intros [= _ _ ->] [Hl|Hn]; [lia|done]. }
  destruct (mutex_LockContext key r) as [r1 [v1|e]] eqn:Hlock.
  { intros [= <- <-] _. by eapply lock_holds. }
  destruct (ctx_Err r1); [done|]. destruct left as [|left].
  { intros H _. apply (IH (Some e) r1); [done|by right]. }
  destruct (ctx_wait delay r1) as [r2 [|]]; [done|].
  intros H _. apply (IH (Some e) r2); [done|by right].
Qed.

Lemma acquire_returned key delay left err r r' o :
  acquire key delay left err r = (r', Returned o) -> o <> None.
Proof.
  revert err r. induction left as [|left IH]; intros err r; simpl; [done|].
  destruct (mutex_LockContext key r) as [r1 [v1|e]]; [done|].
  destruct (ctx_Err r1); [by intros [= _ <-]|]. destruct left as [|left]; [apply IH|].
  destruct (ctx_wait delay r1) as [r2 [|]] eqn:Hw; [|apply IH].
  intros [= _ <-]. by eapply wait_done.
Qed.

(** [WithLock] with at least one attempt runs the operation only while its mutex
    holds the key, releases with the value it locked with and passes the
    operation's error on; if it cannot lock it returns an error instead. *)
Theorem with_lock_exclusive key fn opts r r' err :
  0 < MaxRetries (default DefaultLockOptions opts) ->
  WithLock key fn opts r = Ok (r', err) ->
  (exists r1 v r2, rs_holder r1 key = Some v /\ fn r1 = Ok (r2, err) /\
                   r' = (mutex_Unlock key v r2).1) \/
  err <> None.
Proof.
  intros Hpos. unfold WithLock.
  destruct (acquire _ _ _ _ _) as [r1 [o|v [e|]]] eqn:Hacq.
  - intros [= <- <-]. right. by eapply acquire_returned.
  - intros [= <- <-]. by right.
  - destruct (fn r1) as [[r2 o]|e|] eqn:Hfn; simpl; [|done|done].
    intros [= <- <-]. left. exists r1, v, r2. split_and!; [|done|done].
    eapply acquire_held; [done|left; lia].
Qed.

(** Options whose [MaxRetries] is zero, such as a literal that leaves the field
    out, run the operation without locking anything. *)
Theorem zero_retries_unlocked key fn opt r :
  MaxRetries opt <= 0 ->
  WithLock key fn (Some opt) r =
    obind (fn r) (fun res => Ok ((mutex_Unlock key "" res.1).1, res.2)).
Proof. intros H. unfold WithLock. simpl. by rewrite (Z2Nat.nonpos (MaxRetries opt) H). Qed.
End Manager.

(** ** Locks in memory: a map from key to the value stored; the second component
    is the supply of fresh values. *)
Definition MemLocks : Type := gmap string string * nat.

#[global] Instance MemLocks_redsync : Redsync MemLocks := {|
  mutex_LockContext key r :=
    match r.1 !! key with
    | None => ((<[key := pretty (S r.2)]> r.1, S r.2), inl (pretty (S r.2)))
    | Some _ => (r, inr ErrFailed)
    end;
  mutex_TryLockContext key r :=
    match r.1 !! key with
    | None => ((<[key := pretty (S r.2)]> r.1, S r.2), inl (pretty (S r.2)))
    | Some _ => (r, inr ErrFailed)
    end;
  mutex_Unlock key v r :=
    match r.1 !! key with
    | Some v' => if bool_decide (v' = v) then ((delete key r.1, r.2), None)
                 else (r, Some "redsync: lock was already expired")
    | None => (r, Some "redsync: lock was already expired")
    end;
  ctx_Err _ := None;
  ctx_wait _ r := (r, false);
  rs_holder r key := r.1 !! key |}.

#[global] Instance MemLocks_laws : RedsyncLaws MemLocks.
Proof.
  split; simpl; intros *; go_cases; intros; simplify_eq/=;
    rewrite ?lookup_insert_eq, ?lookup_delete_eq; try done; congruence.
Qed.

(** An operation that does nothing. *)
Definition noop (r : MemLocks) : outcome (MemLocks * option error) := Ok (r, None).

Lemma with_lock_exclusive_witness :
  (exists r1 v r2, rs_holder r1 "k" = Some v /\ noop r1 = Ok (r2, None) /\
     ((∅, 1%nat) : MemLocks) = (mutex_Unlock "k" v r2).1) \/ (None : option error) <> None.
Proof.
  apply (with_lock_exclusive "k" noop None (∅, 0%nat));
    [vm_compute; reflexivity|vm_compute; reflexivity].
Defined.

Lemma zero_retries_unlocked_witness :
  WithLock "k" noop (Some (mkLockOptions 5 0 0)) (∅, 0%nat) = Ok ((∅, 0%nat), None).
Proof. rewrite zero_retries_unlocked by (simpl; lia). vm_compute. reflexivity. Defined.
