(* ===== verification/Recovery.v ===== *)
(** * Crash recovery

    Models src/biz/service/recovery_executor.go.  The executor is the one
    src/main.go builds: its checkpoint manager and its event log are those of the
    pipeline of the match engine, and a lock manager is optional.  The goroutines
    of [ExecuteRecovery] each run under the lock of their processor and symbol;
    [order] is the order in which they ran.  Not modelled: the logging, and the
    reading of the clock more than once per call. *)

From stdpp Require Import base gmap strings list sorting pretty.
From Stdlib Require Import ZArith Lia.
From S2P Require Import Prelude Events Database Sequencer EventLog Checkpoint Pipeline Lock.

Local Open Scope go_scope.
Local Open Scope Z_scope.

Inductive RecoveryStrategy : Type := FULL_REPLAY | INCREMENTAL.

Record RecoveryOptions := mkRecoveryOptions {
  ro_Strategy : RecoveryStrategy;
  ro_ProcessorNames : list string;
  ro_Symbols : list string;
  ro_ValidateAfterRecovery : bool;
  ro_Timeout : Z;
  ro_MaxRetries : Z }.

Record RecoveryResult := mkRecoveryResult {
  rr_ProcessorName : string;
  rr_Symbol : string;
  rr_RecoveryStart : Z;
  rr_RecoveryEnd : Z;
  rr_EventsReplayed : Z;
  rr_OrdersRestored : Z;
  rr_TradesRestored : Z;
  rr_PreCrashChecksum : string;
  rr_PostRecoveryChecksum : string;
  rr_IsValid : bool;
  rr_ValidationError : option error }.

Record RecoveryStats := mkRecoveryStats {
  rs_TotalRecoveryTime : Z;
  rs_ProcessorsRecovered : Z;
  rs_EventsProcessed : Z;
  rs_StateValidated : bool;
  rs_LastRecoveryTime : Z }.

(** [recoveryItem]. *)
Record recoveryItem := mkRecoveryItem { ri_processorName : string; ri_symbol : string }.

Section Recovery.
Context {L D W R : Type} {HL : EventStore L} {HD : Table D EventOffsetCheckpoint} {HR : Redsync R}.

(** [lastRecoveryTime] is written and never read. *)
Record RecoveryExecutor := mkRecoveryExecutor {
  re_pipeline : EventPipeline L D W;
  re_lockMgr : option R;
  re_stats : RecoveryStats;
  re_isRecovering : bool }.
Implicit Types (re : RecoveryExecutor) (ep : EventPipeline L D W).

Definition NewRecoveryExecutor (ep : EventPipeline L D W) (lockMgr : option R) : RecoveryExecutor :=
  mkRecoveryExecutor ep lockMgr (mkRecoveryStats 0 0 0 false 0) false.

(** A nil manager panics in its first method. *)
Definition re_checkpointMgr ep : outcome (CheckpointManager D) :=
  match ep_checkpointMgr ep with Some cm => Ok cm | None => Panic end.

Definition ShouldRecover re : outcome bool :=
  match ep_checkpointMgr (re_pipeline re) with
  | None => Ok false
  | Some cm => let? items := ListPendingRecoveryItems cm in Ok (0 <? Z.of_nat (length items))
  end.

Definition ShouldRecoverWithList re : outcome (bool * list (string * string)) :=
  match ep_checkpointMgr (re_pipeline re) with
  | None => Ok (false, [])
  | Some cm =>
      let? items := ListPendingRecoveryItems cm in Ok (0 <? Z.of_nat (length items), items)
  end.

Section Run.
Context (now : Z) (schedule : list (EventProcessor W) -> list (EventProcessor W))
        (enum : gmap string EventOffsetCheckpoint -> list string)
        (md5hex : string -> string) (fmt_book : string -> string).

(** The envelopes decoded; those that do not decode are skipped, an unknown event
    type gives a nil event. *)
Fixpoint decode_events (envs : list EventEnvelope) : list (option MatchingEngineEvent) :=
  match envs with
  | [] => []
  | env :: envs' =>
      match UnmarshalEvent env with
      | Ok event => event :: decode_events envs'
      | _ => decode_events envs'
      end
  end.

(** The loop over the events; [expired n] tells whether the context is done at the
    n-th round.  The message of a failure prints the sequence number of the event,
    which panics on a nil event. *)
Fixpoint replay_events (expired : nat -> bool) (rctx : RecoveryContext)
    (events : list (option MatchingEngineEvent)) (n : nat) (offset : Z) ep
    : outcome (EventPipeline L D W * (nat + error)) :=
  match events with
  | [] => Ok (ep, inl n)
  | event :: events' =>
      if expired n then Ok (ep, inr "recovery context timeout")
      else
        let ctx := WithOwnershipEpoch
                     (NewEventContext (now * 1000000) event (rc_Topic rctx) (rc_Partition rctx) offset)
                     1 "recovery" in
        let? r := ProcessEventWithContext now schedule enum (Some ctx) ep in
        match r with
        | (ep', Some err) =>
            match event with
            | None => Panic
            | Some _ => Ok (ep', inr (errorf_w "failed to process event" (Some err)))
            end
        | (ep', None) => replay_events expired rctx events' (S n) (i64 (offset + 1)) ep'
        end
  end.

(** The state of the closure: the pipeline and the result under construction. *)
Abbreviation running := (EventPipeline L D W * RecoveryResult)%type.

Definition validate (opts : RecoveryOptions) (item : recoveryItem) (rctx : RecoveryContext)
    (res : RecoveryResult) : RecoveryResult :=
  let set post valid err :=
    mkRecoveryResult (rr_ProcessorName res) (rr_Symbol res) (rr_RecoveryStart res) now
      (rr_EventsReplayed res) (rr_OrdersRestored res) (rr_TradesRestored res)
      (rr_PreCrashChecksum res) post valid err in
  if ro_ValidateAfterRecovery opts then
    let post := CalculateStateChecksum md5hex now (fmt_book (ri_symbol item)) "map[]" in
    match ValidateRecovery (rc_PreCrashChecksum rctx) post (rc_ExpectedOrderCount rctx)
            (rc_ExpectedOrderCount rctx) (rc_ExpectedTradeCount rctx) (rc_ExpectedTradeCount rctx) with
    | (true, _) => set post true (rr_ValidationError res)
    | (false, msg) => set post false (Some msg)
    end
  else set (rr_PostRecoveryChecksum res) true (rr_ValidationError res).

(** What runs under the lock.  The recovery context is never nil. *)
Definition recover_locked (expired : nat -> bool) (opts : RecoveryOptions) (item : recoveryItem)
    (st : running) : outcome (running * option error) :=
  let '(ep, res) := st in
  let? cm := re_checkpointMgr ep in
  match GetRecoveryContext now (ri_processorName item) (ri_symbol item) cm with
  | Panic => Panic
  | Err e => Ok (st, Some ("failed to get recovery context: " +:+ e))
  | Ok rctx =>
      let res1 := mkRecoveryResult (rr_ProcessorName res) (rr_Symbol res) (rr_RecoveryStart res)
                    (rr_RecoveryEnd res) (rr_EventsReplayed res) (rr_OrdersRestored res)
                    (rr_TradesRestored res) (rc_PreCrashChecksum rctx) (rr_PostRecoveryChecksum res)
                    (rr_IsValid res) (rr_ValidationError res) in
      match GetEventsBySymbol (rc_Symbol rctx) (rc_StartEventSeq rctx) 1000 (ep_eventLog ep) with
      | Panic => Panic
      | Err e => Ok ((ep, res1), Some ("failed to get events for replay: " +:+ e))
      | Ok envs =>
          let? r := replay_events expired rctx (decode_events envs) 0 (rc_StartKafkaOffset rctx) ep in
          match r with
          | (ep', inr e) => Ok ((ep', res1), Some e)
          | (ep', inl n) =>
              let res2 := mkRecoveryResult (rr_ProcessorName res1) (rr_Symbol res1)
                            (rr_RecoveryStart res1) (rr_RecoveryEnd res1) (Z.of_nat n)
                            (rc_ExpectedOrderCount rctx) (rc_ExpectedTradeCount rctx)
                            (rr_PreCrashChecksum res1) (rr_PostRecoveryChecksum res1)
                            (rr_IsValid res1) (rr_ValidationError res1) in
              Ok ((ep', validate opts item rctx res2), None)
          end
      end
  end.

(** A method of a nil lock manager reads its field and panics. *)
Definition recoverSingleProcessor (expired : nat -> bool) (opts : RecoveryOptions)
    (item : recoveryItem) (lockMgr : option R) ep
    : outcome (option R * EventPipeline L D W * RecoveryResult * option error) :=
  let result := mkRecoveryResult (ri_processorName item) (ri_symbol item) now 0 0 0 0 "" "" false None in
  match lockMgr with
  | None => Panic
  | Some r =>
      let? o := WithRecoveryLock (ri_processorName item) (ri_symbol item)
                  (fun s : R * running =>
                     let? o := recover_locked expired opts item s.2 in
                     Ok ((s.1, o.1), o.2))
                  (r, (ep, result)) in
      let '((r', (ep', res)), err) := o in
      Ok (Some r', ep', res, err)
  end.

Fixpoint with_context (cm : CheckpointManager D) (pairs : list (string * string))
    : outcome (list recoveryItem) :=
  match pairs with
  | [] => Ok []
  | (procName, symbol) :: rest =>
      match GetRecoveryContext now procName symbol cm with
      | Panic => Panic
      | Err _ => with_context cm rest
      | Ok _ => let? l := with_context cm rest in Ok (mkRecoveryItem procName symbol :: l)
      end
  end.

Definition getPendingRecoveryList (opts : RecoveryOptions) ep : outcome (list recoveryItem) :=
  let? cm := re_checkpointMgr ep in
  if (0 <? Z.of_nat (length (ro_ProcessorNames opts))) && (0 <? Z.of_nat (length (ro_Symbols opts)))
  then with_context cm (List.list_prod (ro_ProcessorNames opts) (ro_Symbols opts))
  else
    match ListPendingRecoveryItems cm with
    | Ok items => Ok ((fun it => mkRecoveryItem it.1 it.2) <$> items)
    | Err e => Err ("failed to list pending recovery items: " +:+ e)
    | Panic => Panic
    end.

Definition DefaultRecoveryOptions : RecoveryOptions :=
  mkRecoveryOptions INCREMENTAL [] [] true 300000 3.

(** The goroutines in the order they ran; [results] is the array, by index. *)
Fixpoint run_items (expired : nat -> nat -> bool) (opts : RecoveryOptions)
    (items : list (nat * recoveryItem)) (lockMgr : option R) ep
    (results : gmap nat RecoveryResult) (total : Z)
    : outcome (option R * EventPipeline L D W * gmap nat RecoveryResult * Z) :=
  match items with
  | [] => Ok (lockMgr, ep, results, total)
  | (idx, item) :: items' =>
      let? o := recoverSingleProcessor (expired idx) opts item lockMgr ep in
      let '(lockMgr', ep', res, err) := o in
      let result := match err with
                    | None => res
                    | Some e => mkRecoveryResult (ri_processorName item) (ri_symbol item) 0 0 0 0 0
                                  "" "" false (Some e)
                    end in
      run_items expired opts items' lockMgr' ep' (<[idx := result]> results)
        (i64 (total + rr_EventsReplayed result))
  end.

Definition ExecuteRecovery (expired : nat -> nat -> bool)
    (order : list (nat * recoveryItem) -> list (nat * recoveryItem))
    (opts : option RecoveryOptions) re : outcome (RecoveryExecutor * (RecoveryResult + error)) :=
  if re_isRecovering re then Ok (re, inr "recovery already in progress")
  else
    let opts := default DefaultRecoveryOptions opts in
    let empty valid total :=
      mkRecoveryResult "" "" now now total 0 0 "" "" valid None in
    match getPendingRecoveryList opts (re_pipeline re) with
    | Panic => Panic
    | Err e => Ok (re, inr ("failed to get pending recovery list: " +:+ e))
    | Ok [] => Ok (re, inl (empty true 0))
    | Ok pendingList =>
        let? o := run_items expired opts (order (imap pair pendingList)) (re_lockMgr re)
                    (re_pipeline re) ∅ 0 in
        let '(lockMgr, ep, results, total) := o in
        let stats := mkRecoveryStats 0 (Z.of_nat (length pendingList)) total
                       (rs_StateValidated (re_stats re)) now in
        let allValid := forallb (fun i => match results !! i with
                                          | Some r => rr_IsValid r
                                          | None => true
                                          end) (seq 0 (length pendingList)) in
        let re' := mkRecoveryExecutor ep lockMgr stats false in
        match results !! 0%nat with
        | Some r =>
            Ok (re', inl (mkRecoveryResult (rr_ProcessorName r) (rr_Symbol r) (rr_RecoveryStart r)
                            (rr_RecoveryEnd r) total (rr_OrdersRestored r) (rr_TradesRestored r)
                            (rr_PreCrashChecksum r) (rr_PostRecoveryChecksum r) allValid
                            (rr_ValidationError r)))
        | None => Ok (re', inl (empty allValid total))
        end
    end.
End Run.

Definition GetRecoveryStats re : RecoveryStats := re_stats re.
End Recovery.
Arguments RecoveryExecutor L D W R : clear implicits.
