(* ===== verification/RecoveryProps.v ===== *)
(** * Properties of crash recovery

    The context a recovery runs with is built by the checkpoint repository, which
    leaves the Kafka topic empty; the pipeline refuses events whose context has no
    topic.  The theorems below follow that through the executor of Recovery.v. *)

From stdpp Require Import base gmap strings list sorting pretty.
From Stdlib Require Import ZArith Lia.
From S2P Require Import Prelude Events Database Sequencer EventLog Checkpoint Pipeline Lock Recovery.

Local Open Scope go_scope.
Local Open Scope Z_scope.

Section Props.
Context {L D W R : Type} {HL : EventStore L} {HD : Table D EventOffsetCheckpoint} {HR : Redsync R}.
Context (now : Z) (schedule : list (EventProcessor W) -> list (EventProcessor W))
        (enum : gmap string EventOffsetCheckpoint -> list string)
        (md5hex : string -> string) (fmt_book : string -> string).
Implicit Types (ep : EventPipeline L D W) (re : RecoveryExecutor L D W R).

(** The repository fills in neither topic nor partition. *)
Lemma recovery_context_topic proc symbol (cm : CheckpointManager D) rctx :
  GetRecoveryContext now proc symbol cm = Ok rctx -> rc_Topic rctx = "".
Proof.
  unfold GetRecoveryContext, Repo.GetRecoveryContext.
  destruct (Repo.GetCheckpointSummary _ _ _ _) as [[s|]|e|]; simpl; intros; by simplify_eq.
Qed.

(** So the first event already ends the replay. *)
Lemma replay_events_stuck expired rctx events n offset ep :
  rc_Topic rctx = "" ->
  replay_events now schedule enum expired rctx events n offset ep =
    match events with
    | [] => Ok (ep, inl n)
    | event :: _ =>
        if expired n then Ok (ep, inr "recovery context timeout")
        else match event with
             | None => Panic
             | Some _ => Ok (ep, inr (errorf_w "failed to process event" (Some "event context is invalid")))
             end
    end.
Proof.
  intros Ht. destruct events as [|event events]; [done|]. cbn [replay_events].
  destruct (expired n); [done|].
  assert (Hv : IsValid (WithOwnershipEpoch
     (NewEventContext (now * 1000000) event (rc_Topic rctx) (rc_Partition rctx) offset) 1 "recovery") = false).
  { rewrite Ht. destruct event; done. }
  unfold ProcessEventWithContext at 1. rewrite Hv. by destruct event.
Qed.

Lemma recover_locked_spec expired opts item ep res ep' res' err :
  recover_locked now schedule enum md5hex fmt_book expired opts item (ep, res) = Ok ((ep', res'), err) ->
  rr_EventsReplayed res = 0 ->
  ep' = ep /\ rr_EventsReplayed res' = 0 /\
  (err = None -> exists cm rctx envs,
     ep_checkpointMgr ep = Some cm /\
     GetRecoveryContext now (ri_processorName item) (ri_symbol item) cm = Ok rctx /\
     GetEventsBySymbol (rc_Symbol rctx) (rc_StartEventSeq rctx) 1000 (ep_eventLog ep) = Ok envs /\
     decode_events envs = []).
Proof.
  unfold recover_locked, re_checkpointMgr.
  destruct (ep_checkpointMgr ep) as [cm|] eqn:Hcm; [|done]. cbn [obind].
  destruct (GetRecoveryContext _ _ _ _) as [rctx|e|] eqn:Hrc; [|by intros [= <- <- <-]|done].
  destruct (GetEventsBySymbol _ _ _ _) as [envs|e|] eqn:Hev; [|by intros [= <- <- <-]|done].
  rewrite replay_events_stuck by (by eapply recovery_context_topic).
  destruct (decode_events envs) as [|event events] eqn:Hdec.
  - cbn [obind]. intros [= <- <- <-] _. split_and!; [done| |intros _; by exists cm, rctx, envs].
    unfold validate. destruct (ro_ValidateAfterRecovery opts); [|done].
    by destruct (ValidateRecovery _ _ _ _ _ _) as [[|] ?].
  - destruct (expired 0%nat); cbn [obind]; [by intros [= <- <- <-]|].
    destruct event; cbn [obind]; [by intros [= <- <- <-]|done].
Qed.

(** The lock is taken beside the state of the recovery, which it leaves alone. *)
Lemma lock_then_run {B} key fn opts (r : R) (b : B) r' b' err :
  WithLock key (fun s : R * B => let? o := fn s.2 in Ok ((s.1, o.1), o.2)) (Some opts) (r, b)
    = Ok ((r', b'), err) ->
  (b' = b) \/ fn b = Ok (b', err).
Proof.
  unfold WithLock. destruct (acquire _ _ _ _ _) as [s a] eqn:Hacq.
  assert (Hs : s.2 = b).
  { revert Hacq. generalize (Z.to_nat (MaxRetries (default DefaultLockOptions (Some opts)))) (None : option error) r.
    intros n. induction n as [|n IH]; intros e r0; cbn -[mutex_LockContext ctx_wait]; [by intros [= <- _]|].
    simpl. destruct (mutex_LockContext key r0) as [r1 [v|e1]]; [by intros [= <- _]|]. simpl.
    destruct (ctx_Err r1); [by intros [= <- _]|]. destruct n; [apply IH|].
    destruct (ctx_wait (RetryDelay opts) r1) as [r2 [|]]; [by intros [= <- _]|apply IH]. }
  destruct s as [r0 b0]. simpl in Hs. subst b0. destruct a as [o|v [e|]].
  - intros [= _ <- _]. by left.
  - intros [= _ <- _]. by left.
  - simpl. destruct (fn b) as [[b1 o]|e|]; simpl; [|done|done].
    destruct (mutex_Unlock key v r0). intros [= _ <- <-]. by right.
Qed.

Lemma recover_single_spec expired opts item lm ep lm' ep' res err :
  recoverSingleProcessor now schedule enum md5hex fmt_book expired opts item lm ep
    = Ok (lm', ep', res, err) ->
  ep' = ep /\ rr_EventsReplayed res = 0 /\ is_Some lm.
Proof.
  unfold recoverSingleProcessor. destruct lm as [r|]; [|done].
  unfold WithRecoveryLock. destruct (WithLock _ _ _ _) as [[[r' [ep1 res1]] e1]|e|] eqn:Hl; [|done|done].
  cbn [obind]. intros [= <- <- <- <-].
  apply lock_then_run in Hl as [[= -> ->]|Hl]; [done|].
  apply recover_locked_spec in Hl as (-> & H0 & _); [|done]. done.
Qed.

Lemma run_items_spec expired opts items lm ep results total o :
  run_items now schedule enum md5hex fmt_book expired opts items lm ep results total = Ok o ->
  is_i64 total ->
  o.1.1.2 = ep /\ o.2 = total /\ (items <> [] -> is_Some lm).
Proof.
  revert lm ep results total. induction items as [|[idx item] items IH]; intros lm ep results total.
  { simpl. by intros [= <-]. }
  cbn [run_items].
  destruct (recoverSingleProcessor _ _ _ _ _ _ _ _ _ _) as [[[[lm1 ep1] res] err]|e|] eqn:Hr; [|done|done].
  cbn [obind]. apply recover_single_spec in Hr as (-> & H0 & Hlm). intros H Ht.
  replace (i64 _) with total in H; [by apply IH in H as (-> & -> & _)|].
  destruct err; cbn [rr_EventsReplayed]; rewrite ?H0, Z.add_0_r; by rewrite i64_id.
Qed.

Lemma execute_cases expired order opts re re' o :
  ExecuteRecovery now schedule enum md5hex fmt_book expired order opts re = Ok (re', o) ->
  re_pipeline re' = re_pipeline re /\
  (forall res, o = inl res -> rr_EventsReplayed res = 0) /\
  (re_isRecovering re = false -> forall items,
     getPendingRecoveryList now (default DefaultRecoveryOptions opts) (re_pipeline re) = Ok items ->
     order (imap pair items) = [] \/ is_Some (re_lockMgr re) \/ items = []).
Proof.
  unfold ExecuteRecovery. destruct (re_isRecovering re); [by intros [= <- <-]|].
  destruct (getPendingRecoveryList _ _ _) as [[|i items]|e|]; [| | |done].
  - intros [= <- <-]. split_and!; [done|by intros ? [= <-]|naive_solver].
  - destruct (run_items _ _ _ _ _ _ _ _ _ _ _ _) as [[[[lm ep] results] total]|e|] eqn:Hrun; [|done|done].
    cbn [obind]. apply run_items_spec in Hrun as (Hep & Htot & Hlm); [|solve_i64].
    simpl in Hep, Htot. subst ep total. intros H.
    assert (Hord : order (imap pair (i :: items)) = [] \/ is_Some (re_lockMgr re)).
    { destruct (order _); [by left|right; by apply Hlm]. }
    destruct (results !! 0%nat); simplify_eq; (split_and!; [done|by intros ? [= <-]|naive_solver]).
  - intros [= <- <-]. done.
Qed.

(** A recovery that returns has replayed nothing: the pipeline (its log, offsets,
    checkpoints and the world behind the processors) is as it was, so that what was
    pending still is, and the result counts no event. *)
Theorem recovery_replays_nothing expired order opts re re' res :
  ExecuteRecovery now schedule enum md5hex fmt_book expired order opts re = Ok (re', inl res) ->
  re_pipeline re' = re_pipeline re /\ rr_EventsReplayed res = 0.
Proof. intros (H1 & H2 & _)%execute_cases. auto. Qed.

(** With the lock taken, a processor and symbol whose log holds an event after the
    checkpoint fail to recover: the event is refused for its context. *)
Theorem recovery_refuses_events expired opts item r r1 v ep cm rctx envs e events :
  mutex_LockContext (recovery_lock_key (ri_processorName item) (ri_symbol item)) r = (r1, inl v) ->
  ep_checkpointMgr ep = Some cm ->
  GetRecoveryContext now (ri_processorName item) (ri_symbol item) cm = Ok rctx ->
  GetEventsBySymbol (rc_Symbol rctx) (rc_StartEventSeq rctx) 1000 (ep_eventLog ep) = Ok envs ->
  decode_events envs = Some e :: events ->
  expired 0%nat = false ->
  exists lm res,
    recoverSingleProcessor now schedule enum md5hex fmt_book expired opts item (Some r) ep =
      Ok (lm, ep, res, Some "failed to process event: event context is invalid") /\
    rr_IsValid res = false.
Proof.
  intros Hlock Hcm Hrc Hev Hdec Hexp.
  unfold recoverSingleProcessor, WithRecoveryLock, WithLock.
  set (key := recovery_lock_key _ _) in *.
  replace (acquire key _ _ _ _) with ((r1, (ep,
     mkRecoveryResult (ri_processorName item) (ri_symbol item) now 0 0 0 0 "" "" false None)), LoopDone v None)
    by (simpl; by rewrite Hlock).
  cbn [snd fst].
  unfold recover_locked, re_checkpointMgr. rewrite Hcm. cbn [obind]. rewrite Hrc, Hev, Hdec.
  rewrite replay_events_stuck by (by eapply recovery_context_topic). rewrite Hexp. cbn [obind].
  cbn. destruct (mutex_Unlock _ v r1) as [r2 ?]. cbn. by eexists _, _.
Qed.

(** An executor without a lock manager, as the program builds it on start, panics
    as soon as one item is pending. *)
Theorem recovery_crashes_without_lock expired order opts re items :
  re_isRecovering re = false -> re_lockMgr re = None ->
  getPendingRecoveryList now (default DefaultRecoveryOptions opts) (re_pipeline re) = Ok items ->
  items <> [] -> (forall l, order l ≡ₚ l) ->
  ExecuteRecovery now schedule enum md5hex fmt_book expired order opts re = Panic.
Proof.
  intros Hre Hlm Hp Hne Hord. unfold ExecuteRecovery. rewrite Hre, Hp.
  destruct items as [|i items]; [done|].
  destruct (order (imap pair (i :: items))) as [|[idx it] rest] eqn:Ho.
  { exfalso. pose proof (Hord (imap pair (i :: items))) as Hx. rewrite Ho in Hx.
    by apply Permutation_nil in Hx. }
  cbn [run_items]. unfold recoverSingleProcessor at 1. by rewrite Hlm.
Qed.
End Props.

(** ** Witnesses *)

#[local] Instance cp_ops : Table (ListTable EventOffsetCheckpoint) EventOffsetCheckpoint :=
  ListTable_ops cp_same.

Definition crashed : CheckpointManager (ListTable EventOffsetCheckpoint) :=
  mkCheckpointManager
    (mkListTable [mkCheckpoint "DatabaseProcessor" "BTC" 4 9 0 100 "abc" 0 0 "in_progress"
                    (Some 100) None "" 100 100]) ∅.

Definition logged : MatchingEngineEvent :=
  OrderSubmitted (mkOrderSubmittedEvent 5 120 "o-1" "alice" "BTC" "buy" 100 10 "submitted").

Definition crashed_pipeline
    : EventPipeline Memory.InMemoryEventLog (ListTable EventOffsetCheckpoint) unit :=
  SetCheckpointManager (Some crashed)
    (NewEventPipeline (Memory.append_all [logged] Memory.NewInMemoryEventLog) tt).

Definition start_executor (lockMgr : option MemLocks)
    : RecoveryExecutor Memory.InMemoryEventLog (ListTable EventOffsetCheckpoint) unit MemLocks :=
  NewRecoveryExecutor crashed_pipeline lockMgr.

Definition execute (lockMgr : option MemLocks) :=
  ExecuteRecovery 200 id (fun _ => []) id id (fun _ _ => false) id None (start_executor lockMgr).

Lemma recovery_crashes_without_lock_witness : execute None = Panic.
Proof.
  apply (recovery_crashes_without_lock 200 id (fun _ => []) id id (fun _ _ => false) id None
           (start_executor None) [mkRecoveryItem "DatabaseProcessor" "BTC"]);
    [reflexivity|reflexivity|vm_compute; reflexivity|done|done].
Defined.

Lemma recovery_refuses_events_witness :
  exists lm res,
    recoverSingleProcessor 200 id (fun _ => []) id id (fun _ => false) DefaultRecoveryOptions
      (mkRecoveryItem "DatabaseProcessor" "BTC") (Some ((∅, 0%nat) : MemLocks)) crashed_pipeline =
      Ok (lm, crashed_pipeline, res, Some "failed to process event: event context is invalid") /\
    rr_IsValid res = false.
Proof.
  eapply (recovery_refuses_events 200 id (fun _ => []) id id (fun _ => false) DefaultRecoveryOptions
            (mkRecoveryItem "DatabaseProcessor" "BTC") _ _ _ crashed_pipeline crashed
            (mkRecoveryContext "BTC" "DatabaseProcessor" 5 10 "" 0 "abc" 0 0 0 200 0 0 false "")
            [MarshalEvent logged] logged []);
    [reflexivity|reflexivity|vm_compute; reflexivity|vm_compute; reflexivity|vm_compute; reflexivity|done].
Defined.

Lemma recovery_replays_nothing_witness :
  exists re' res, execute (Some (∅, 0%nat)) = Ok (re', inl res) /\
    re_pipeline re' = crashed_pipeline /\ rr_EventsReplayed res = 0.
Proof.
  destruct (execute (Some (∅, 0%nat))) as [[re' [res|e]]|e|] eqn:H.
  - exists re', res. split; [done|].
    exact (recovery_replays_nothing 200 id (fun _ => []) id id (fun _ _ => false) id None
             (start_executor (Some (∅, 0%nat))) re' res H).
  - exfalso. assert (Hx : match execute (Some (∅, 0%nat)) with Ok (_, inr _) => true | _ => false end = false)
      by (vm_compute; reflexivity). by rewrite H in Hx.
  - exfalso. assert (Hx : match execute (Some (∅, 0%nat)) with Err _ => true | _ => false end = false)
      by (vm_compute; reflexivity). by rewrite H in Hx.
  - exfalso. assert (Hx : match execute (Some (∅, 0%nat)) with Panic => true | _ => false end = false)
      by (vm_compute; reflexivity). by rewrite H in Hx.
Defined.
