(* ===== verification/Outbox.v ===== *)
(** * The outbox

    Models src/biz/model/outbox.go, src/biz/dal/pg/outbox_repo.go (the table of
    events to publish) and src/biz/service/outbox_dispatcher.go (the loop that
    sends them to Kafka).  The Kafka client is a parameter: [KafkaSender] is
    kafkadal.MessageSender.  A payload is its JSON tree, [None] a text that is not
    JSON.  The dispatcher always has a sender: GetWriter makes one. *)

From stdpp Require Import base gmap strings list sorting.
From Stdlib Require Import ZArith Lia SpecFloat.
From S2P Require Import Prelude Money Events Database.

Local Open Scope go_scope.
Local Open Scope Z_scope.

Record OutboxEntry := mkOutboxEntry {
  oe_EventID : string;
  oe_EventType : string;
  oe_AggregateID : string;
  oe_AggregateType : string;
  oe_Payload : option json;
  oe_Published : bool;
  oe_PublishedAt : option Z;
  oe_CreatedAt : Z;
  oe_UpdatedAt : Z;
  oe_RetryCount : Z;
  oe_LastError : string }.

(** The unique index on event_id. *)
Definition oe_same (old new : OutboxEntry) : bool := oe_EventID old =s oe_EventID new.

(** What gorm fills in before an INSERT. *)
Definition oe_stamp (now : Z) (e : OutboxEntry) : OutboxEntry :=
  mkOutboxEntry (oe_EventID e) (oe_EventType e) (oe_AggregateID e) (oe_AggregateType e)
    (oe_Payload e) (oe_Published e) (oe_PublishedAt e)
    (if oe_CreatedAt e =? 0 then now else oe_CreatedAt e)
    (if oe_UpdatedAt e =? 0 then now else oe_UpdatedAt e) (oe_RetryCount e) (oe_LastError e).

Definition oe_publish (now : Z) (e : OutboxEntry) : OutboxEntry :=
  mkOutboxEntry (oe_EventID e) (oe_EventType e) (oe_AggregateID e) (oe_AggregateType e)
    (oe_Payload e) true (Some now) (oe_CreatedAt e) now (oe_RetryCount e) (oe_LastError e).

Definition oe_fail (now : Z) (errMsg : string) (e : OutboxEntry) : OutboxEntry :=
  mkOutboxEntry (oe_EventID e) (oe_EventType e) (oe_AggregateID e) (oe_AggregateType e)
    (oe_Payload e) (oe_Published e) (oe_PublishedAt e) (oe_CreatedAt e) now
    (oe_RetryCount e + 1) errMsg.

(** ** The repository *)

Module OutboxRepo.
Section Repo.
Context {D : Type} `{!Table D OutboxEntry}.
Implicit Types (r : D).

Definition error_of (res : D * outcome Z) : D * option error :=
  match res with
  | (r, Err e) => (r, Some e)
  | (r, _) => (r, None)
  end.

Definition WriteOutboxEntry (now : Z) (entry : OutboxEntry) r : D * option error :=
  db_create (oe_stamp now entry) r.

Definition WriteOutboxEntryIfNotExists (now : Z) (entry : OutboxEntry) r : D * outcome bool :=
  db_insert_ignore oe_same (oe_stamp now entry) r.

Definition GetUnpublished (limit : Z) r : outcome (list OutboxEntry) :=
  db_find (fun e => negb (oe_Published e)) (Some oe_CreatedAt)
    (if limit <? 0 then None else Some (Z.to_nat limit)) r.

Definition MarkPublished (now : Z) (eventID : string) r : D * option error :=
  error_of (db_update (fun e => oe_EventID e =s eventID) (oe_publish now) r).

Definition MarkPublishedBatch (now : Z) (eventIDs : list string) r : D * option error :=
  error_of (db_update (fun e => existsb (fun id => oe_EventID e =s id) eventIDs) (oe_publish now) r).

Definition RecordPublishError (now : Z) (eventID errMsg : string) r : D * option error :=
  error_of (db_update (fun e => oe_EventID e =s eventID) (oe_fail now errMsg) r).

Definition CleanPublished (now retentionDays : Z) r : D * outcome Z :=
  let cutoffTime := now - retentionDays * 86400000 in
  db_delete (fun e => oe_Published e && match oe_PublishedAt e with
                                        | Some t => t <? cutoffTime
                                        | None => false
                                        end) r.

(** ORDER BY retry_count, created_at: the pair as one key, times being int64. *)
Definition GetFailedEntries (maxRetries : Z) r : outcome (list OutboxEntry) :=
  db_find (fun e => negb (oe_Published e) && (oe_RetryCount e <? maxRetries))
    (Some (fun e => oe_RetryCount e * 18446744073709551616 + oe_CreatedAt e)) (Some 100%nat) r.
End Repo.
End OutboxRepo.

(** ** The dispatcher *)

(** A Kafka message by the values it encodes. *)
Record kafka_message := mkKafkaMessage {
  msg_Topic : string;
  msg_Key : string;
  msg_Value : json;
  msg_Headers : list (string * string) }.

Class KafkaSender (K : Type) := {
  WriteMessages : kafka_message -> K -> K * option error;
  (** The messages the brokers have acknowledged. *)
  k_delivered : K -> list kafka_message }.

(** A call that returns no error has delivered its message; nothing is taken back. *)
Class SynchronousSender (K : Type) {HK : KafkaSender K} := {
  write_delivers m k k' : WriteMessages m k = (k', None) -> m ∈ k_delivered k';
  write_keeps m k k' o m' : WriteMessages m k = (k', o) -> m' ∈ k_delivered k -> m' ∈ k_delivered k' }.

(** Decoding into [interface{}] makes every number a float64. *)
Definition f64_value (z : Z) : Z :=
  match f64_of_int z with
  | S754_finite s m e =>
      let a := if 0 <=? e then Zpos m * 2 ^ e else Zpos m / 2 ^ (- e) in if s then - a else a
  | _ => 0
  end.

Fixpoint renumber (j : json) : json :=
  match j with
  | JNum z => JNum (f64_value z)
  | JArr l => JArr (map renumber l)
  | JObj fs => JObj (map (fun '(k, v) => (k, renumber v)) fs)
  | _ => j
  end.

Section Dispatcher.
Context {D K : Type} `{!Table D OutboxEntry} `{!KafkaSender K}.
(** The configured topics in the order Go enumerates the map. *)
Context (topics : list (string * string)) (batchSize : Z) (now : Z).

Definition topic_of (key : string) : option string :=
  snd <$> List.find (fun kt => kt.1 =s key) topics.

Definition defaultTopic : string :=
  match topics with
  | [] => "trade"
  | (_, first) :: _ => default first (topic_of "trade")
  end.

(** [strings.EqualFold] and [strings.ToLower] on ASCII names. *)
Definition topic_of_aggregate (aggregateType : string) : option string :=
  if aggregateType =s "" then None
  else snd <$> List.find (fun kt => fold_name kt.1 =s fold_name aggregateType) topics.

Definition resolveTopic (entry : OutboxEntry) : string :=
  let ty := fold_name (oe_EventType entry) in
  let byType := if (ty =s "tradeexecuted") || (ty =s "trade_executed") then topic_of "trade"
                else if (ty =s "positionupdated") || (ty =s "position_updated") then topic_of "order"
                else None in
  match byType with
  | Some topic => topic
  | None => default defaultTopic (topic_of_aggregate (oe_AggregateType entry))
  end.

Definition outbox_message (entry : OutboxEntry) (payload : json) : kafka_message :=
  mkKafkaMessage (resolveTopic entry) (oe_EventID entry) (renumber payload)
    [("event_id", oe_EventID entry); ("aggregate_id", oe_AggregateID entry);
     ("aggregate_type", oe_AggregateType entry)].

Definition publishToKafka (entry : OutboxEntry) (payload : json) (k : K) : K * option error :=
  match WriteMessages (outbox_message entry payload) k with
  | (k', Some e) =>
      (k', Some (errorf_w ("write message to kafka topic " +:+ resolveTopic entry) (Some e)))
  | (k', None) => (k', None)
  end.

(** The event types that are sent; others are dropped with a warning. *)
Definition publishable (eventType : string) : bool :=
  (eventType =s "TradeExecuted") || (eventType =s "PositionUpdated").

Definition publishEntry (entry : OutboxEntry) (k : K) : K * option error :=
  match oe_Payload entry with
  | None => (k, Some "invalid character in payload")
  | Some event =>
      if publishable (oe_EventType entry) then publishToKafka entry event k else (k, None)
  end.

(** The loop over the batch; the result has the IDs of what was sent. *)
Fixpoint publish_all (entries : list OutboxEntry) (d : D) (k : K) (successful : list string)
    : D * K * list string :=
  match entries with
  | [] => (d, k, successful)
  | entry :: rest =>
      match publishEntry entry k with
      | (k', Some e) =>
          publish_all rest (OutboxRepo.RecordPublishError now (oe_EventID entry) e d).1 k' successful
      | (k', None) => publish_all rest d k' (successful ++ [oe_EventID entry])
      end
  end.

Definition dispatchBatch (d : D) (k : K) : D * K :=
  match OutboxRepo.GetUnpublished batchSize d with
  | Ok entries =>
      match publish_all entries d k [] with
      | (d', k', []) => (d', k')
      | (d', k', ids) => ((OutboxRepo.MarkPublishedBatch now ids d').1, k')
      end
  | _ => (d, k)
  end.

Definition CleanupPublished (retentionDays : Z) (d : D) : D * option error :=
  OutboxRepo.error_of (OutboxRepo.CleanPublished now retentionDays d).
End Dispatcher.
