(* ===== verification/OutboxProps.v ===== *)
(** * Properties of the outbox

    What is marked published was delivered, in every history of writes, dispatches
    and clean-ups; a dispatch without failures publishes a whole batch; entries that
    keep failing starve the younger ones; a sender that does not wait for the
    brokers defeats the first property. *)

From stdpp Require Import base gmap strings list sorting.
From Stdlib Require Import ZArith Lia Relations.
From S2P Require Import Prelude Money Events Database Outbox.

Local Open Scope go_scope.
Local Open Scope Z_scope.

(** What the properties are about: ID, type and whether it was published. *)
Definition oe_view (e : OutboxEntry) : string * string * bool :=
  (oe_EventID e, oe_EventType e, oe_Published e).

Section Props.
Context {D K : Type} {HD : Table D OutboxEntry} {HDL : TableLaws D OutboxEntry} {HK : KafkaSender K}.
Implicit Types (d : D) (k : K).

Definition views d : list (string * string * bool) := oe_view <$> db_rows d.

(** ** Updates on the view *)

Lemma update_views wh f d :
  views (OutboxRepo.error_of (db_update wh f d)).1 ≡ₚ views d \/
  views (OutboxRepo.error_of (db_update wh f d)).1 ≡ₚ
    (fun r => oe_view (if wh r then f r else r)) <$> db_rows d.
Proof.
  destruct (db_update wh f d) as [d' [n|e|]] eqn:Hu; simpl.
  - right. apply db_update_ok in Hu as [Hp _]. unfold views. rewrite Hp, <- list_fmap_compose. done.
  - left. unfold views. by rewrite (db_update_err _ _ _ _ _ Hu).
  - by apply db_update_no_panic in Hu.
Qed.

(** Recording a failure touches only the retry columns. *)
Lemma record_error_proj {B} (g : OutboxEntry -> B) now id msg d :
  (forall e, g (oe_fail now msg e) = g e) ->
  g <$> db_rows (OutboxRepo.RecordPublishError now id msg d).1 ≡ₚ g <$> db_rows d.
Proof.
  intros Hg. unfold OutboxRepo.RecordPublishError.
  destruct (db_update _ _ d) as [d' [n|e|]] eqn:Hu; simpl.
  - apply db_update_ok in Hu as [Hp _]. rewrite Hp, <- list_fmap_compose.
    apply Permutation_refl', list_fmap_ext. intros i r _. simpl.
    destruct (oe_EventID r =s id); [apply Hg|done].
  - by rewrite (db_update_err _ _ _ _ _ Hu).
  - by apply db_update_no_panic in Hu.
Qed.

Lemma record_error_views now id msg d : views (OutboxRepo.RecordPublishError now id msg d).1 ≡ₚ views d.
Proof. by apply record_error_proj. Qed.

Definition mark_view (ids : list string) (v : string * string * bool) : string * string * bool :=
  if existsb (fun id => v.1.1 =s id) ids then (v.1.1, v.1.2, true) else v.

Lemma mark_batch_views now ids d :
  views (OutboxRepo.MarkPublishedBatch now ids d).1 ≡ₚ views d \/
  views (OutboxRepo.MarkPublishedBatch now ids d).1 ≡ₚ mark_view ids <$> views d.
Proof.
  unfold OutboxRepo.MarkPublishedBatch.
  destruct (update_views (fun e => existsb (fun id => oe_EventID e =s id) ids) (oe_publish now) d)
    as [H|H]; [by left|right]. rewrite H. unfold views. rewrite <- list_fmap_compose.
  apply Permutation_refl', list_fmap_ext. intros i r _. unfold mark_view. simpl.
  by destruct (existsb _ _).
Qed.

(** ** At least once *)

Definition delivered_key (id : string) k : Prop := exists m, m ∈ k_delivered k /\ msg_Key m = id.

(** Every entry marked published, of a type that is sent, has been delivered; and
    event IDs are unique. *)
Definition outbox_ok d k : Prop :=
  NoDup ((fun v => v.1.1) <$> views d) /\
  forall id ty, (id, ty, true) ∈ views d -> publishable ty = true -> delivered_key id k.

Context {HKL : SynchronousSender K}.

Lemma publish_entry_spec topics entry k k' o :
  publishEntry topics entry k = (k', o) ->
  (forall id, delivered_key id k -> delivered_key id k') /\
  (o = None -> publishable (oe_EventType entry) = true -> delivered_key (oe_EventID entry) k').
Proof.
  unfold publishEntry. destruct (oe_Payload entry) as [payload|]; [|by intros [= <- <-]].
  destruct (publishable _); [|intros [= <- <-]; by split].
  unfold publishToKafka. destruct (WriteMessages _ k) as [k1 [e|]] eqn:Hw; intros [= <- <-].
  - split; [|done]. intros id (m & Hm & Hid). exists m. split; [by eapply write_keeps|done].
  - split; [intros id (m & Hm & Hid); exists m; split; [by eapply write_keeps|done]|].
    intros _ _. eexists. split; [by eapply write_delivers|done].
Qed.

Lemma publish_all_spec topics now entries d k ids0 d' k' ids :
  publish_all topics now entries d k ids0 = (d', k', ids) ->
  views d' ≡ₚ views d /\
  (forall id, delivered_key id k -> delivered_key id k') /\
  (forall id, id ∈ ids -> id ∈ ids0 \/
     exists e, e ∈ entries /\ oe_EventID e = id /\
       (publishable (oe_EventType e) = true -> delivered_key id k')).
Proof.
  revert d k ids0. induction entries as [|e entries IH]; intros d k ids0; simpl.
  { intros [= <- <- <-]. split_and!; auto. }
  destruct (publishEntry topics e k) as [k1 [err|]] eqn:Hp; intros H;
    apply publish_entry_spec in Hp as [Hk Hd]; apply IH in H as (Hv & Hk' & Hids);
    split_and!; try (by auto).
  - by rewrite Hv, record_error_views.
  - intros id Hin. destruct (Hids id Hin) as [?|(e' & He' & ? & ?)]; [by left|right].
    exists e'. split_and!; [set_solver|done|done].
  - intros id [Hin|(e' & He' & ? & ?)]%Hids; [|right; exists e'; split_and!; [set_solver|done|done]].
    apply elem_of_app in Hin as [?|Hin]; [by left|right]. apply list_elem_of_singleton in Hin as ->.
    exists e. split_and!; [set_solver|done|auto].
Qed.

Lemma views_elem d v : v ∈ views d <-> exists r, r ∈ db_rows d /\ v = oe_view r.
Proof. unfold views. rewrite list_elem_of_fmap. naive_solver. Qed.

Lemma mark_view_ids ids (l : list (string * string * bool)) : (fun v => v.1.1) <$> (mark_view ids <$> l) = (fun v => v.1.1) <$> l.
Proof.
  rewrite <- list_fmap_compose. apply list_fmap_ext. intros i v _. unfold mark_view. simpl.
  by destruct (existsb _ _).
Qed.

Lemma outbox_ok_perm d d' k k' :
  views d' ≡ₚ views d -> (forall id, delivered_key id k -> delivered_key id k') ->
  outbox_ok d k -> outbox_ok d' k'.
Proof.
  intros Hv Hk [Hnd Hall]. split; [by rewrite Hv|]. intros id ty Hin Hp. rewrite Hv in Hin. eauto.
Qed.

Lemma dispatch_ok topics batch now d k :
  outbox_ok d k ->
  outbox_ok (dispatchBatch topics batch now d k).1 (dispatchBatch topics batch now d k).2.
Proof.
  intros Hok. unfold dispatchBatch.
  destruct (OutboxRepo.GetUnpublished batch d) as [entries|e|] eqn:Hg; [|done|done].
  destruct (publish_all topics now entries d k []) as [[d1 k1] ids] eqn:Hp.
  apply publish_all_spec in Hp as (Hv & Hk & Hids).
  assert (Hok1 : outbox_ok d1 k1) by by eapply outbox_ok_perm.
  destruct ids as [|i ids]; [done|]. simpl.
  destruct (mark_batch_views now (i :: ids) d1) as [Hm|Hm]; [eapply (outbox_ok_perm d1 _ k1); auto|].
  destruct Hok1 as [Hnd Hall]. split; [by rewrite Hm, mark_view_ids|].
  intros id ty Hin Hpub. rewrite Hm, list_elem_of_fmap in Hin. destruct Hin as ([[id0 ty0] p] & Heq & Hin).
  unfold mark_view in Heq. cbn [fst snd] in Heq.
  destruct (existsb _ _) eqn:Hex; [|simplify_eq; eauto].
  injection Heq as -> ->. apply existsb_exists in Hex as (id1 & Hin1 & Heq1).
  apply bool_decide_eq_true in Heq1 as ->. apply list_elem_of_In in Hin1.
  destruct (Hids _ Hin1) as [Hno|(e & He & <- & Hd)]; [by apply not_elem_of_nil in Hno|].
  apply Hd. apply db_find_ok in Hg. eapply select_elem in Hg as [Hrow _]; [|done].
  assert (Hve : oe_view e ∈ views d1) by (rewrite Hv; apply views_elem; eauto).
  by pose proof (NoDup_fmap_eq _ _ _ _ Hnd Hve Hin eq_refl) as [= <- <-].
Qed.

(** ** Histories *)

Inductive outbox_step : D * K -> D * K -> Prop :=
| step_write now entry d k d' o :
    oe_Published entry = false ->
    OutboxRepo.WriteOutboxEntryIfNotExists now entry d = (d', o) ->
    outbox_step (d, k) (d', k)
| step_dispatch topics batch now d k :
    outbox_step (d, k) (dispatchBatch topics batch now d k)
| step_cleanup now days d k :
    outbox_step (d, k) ((CleanupPublished now days d).1, k).

Lemma write_ok now entry d k d' o :
  oe_Published entry = false -> OutboxRepo.WriteOutboxEntryIfNotExists now entry d = (d', o) ->
  outbox_ok d k -> outbox_ok d' k.
Proof.
  intros Hpub Hw. pose proof (db_insert_ignore_spec _ _ _ _ _ Hw) as Hs. destruct o as [[|]|e|].
  - destruct Hs as [Hno Hp]. intros [Hnd Hall].
    assert (Hv : views d' ≡ₚ oe_view (oe_stamp now entry) :: views d) by (unfold views; by rewrite Hp).
    split.
    + rewrite Hv. csimpl. apply NoDup_cons. split; [|done]. simpl. intros (v & Heq & (r & Hr & ->)%views_elem)%list_elem_of_fmap.
      apply not_true_iff_false in Hno. apply Hno, existsb_exists. exists r.
      split; [by apply list_elem_of_In|]. unfold oe_same. apply bool_decide_eq_true. done.
    + intros id ty Hin. rewrite Hv in Hin. apply elem_of_cons in Hin as [Heq|Hin]; [|by eauto].
      unfold oe_view in Heq. simpl in Heq. rewrite Hpub in Heq. done.
  - destruct Hs as [_ Hp]. intros. apply (outbox_ok_perm d _ k k); auto. unfold views. by rewrite Hp.
  - intros. apply (outbox_ok_perm d _ k k); auto. unfold views. by rewrite Hs.
  - done.
Qed.

Lemma cleanup_ok now days d k : outbox_ok d k -> outbox_ok (CleanupPublished now days d).1 k.
Proof.
  intros Hok. unfold CleanupPublished, OutboxRepo.CleanPublished.
  destruct (db_delete _ d) as [d' o] eqn:Hd. destruct o as [n|e|]; simpl.
  - apply db_delete_ok in Hd as [Hp _]. destruct Hok as [Hnd Hall].
    set (kept := List.filter _ _) in Hp.
    assert (Hsub : oe_view <$> kept `sublist_of` views d).
    { apply fmap_sublist. subst kept. clear. generalize (db_rows d). intros l.
      induction l as [|r l IH]; simpl; [done|].
      destruct (negb _); [by apply sublist_skip|by apply sublist_cons]. }
    assert (Hv : views d' ≡ₚ oe_view <$> kept) by (unfold views; by rewrite Hp).
    split; [rewrite Hv; eapply sublist_NoDup; [exact Hnd|by apply fmap_sublist]|].
    intros id ty Hin. rewrite Hv in Hin. apply Hall. by eapply elem_of_sublist.
  - apply (outbox_ok_perm d _ k k); auto. unfold views. by rewrite (db_delete_err _ _ _ _ Hd).
  - apply (outbox_ok_perm d _ k k); auto. unfold views. by rewrite (db_delete_err _ _ _ _ Hd).
Qed.

Lemma outbox_step_ok s s' : outbox_step s s' -> outbox_ok s.1 s.2 -> outbox_ok s'.1 s'.2.
Proof. destruct 1; simpl in *; eauto using write_ok, dispatch_ok, cleanup_ok. Qed.

Lemma empty_outbox_ok d k : db_rows d = [] -> outbox_ok d k.
Proof.
  intros Hempty. split; unfold views; rewrite Hempty; [by constructor|]. by intros ? ? ?%not_elem_of_nil.
Qed.

Lemma outbox_ok_rows d k :
  outbox_ok d k ->
  NoDup (oe_EventID <$> db_rows d) /\
  forall e, e ∈ db_rows d -> oe_Published e = true -> publishable (oe_EventType e) = true ->
    delivered_key (oe_EventID e) k.
Proof.
  intros [Hnd Hall]. split; [unfold views in Hnd; by rewrite <- list_fmap_compose in Hnd|].
  intros e He Hp. apply Hall, views_elem. exists e. split; [done|]. unfold oe_view. by rewrite Hp.
Qed.


(** ** A round without failures *)

Lemma publish_all_sends topics now entries d k ids0 :
  (forall e k, e ∈ entries -> (publishEntry topics e k).2 = None) ->
  exists k', publish_all topics now entries d k ids0 = (d, k', ids0 ++ (oe_EventID <$> entries)).
Proof.
  revert k ids0. induction entries as [|e entries IH]; intros k ids0 Hall; simpl.
  { exists k. by rewrite app_nil_r. }
  assert (He : (publishEntry topics e k).2 = None) by (apply Hall; left).
  destruct (publishEntry topics e k) as [k1 [err|]]; [done|].
  destruct (IH k1 (ids0 ++ [oe_EventID e])) as [k' ->]; [intros; apply Hall; by right|].
  exists k'. by rewrite <- app_assoc.
Qed.

Lemma dispatch_publishes topics batch now d k entries :
  OutboxRepo.GetUnpublished batch d = Ok entries ->
  (forall e k, e ∈ entries -> (publishEntry topics e k).2 = None) ->
  (forall wh f, exists d' n, db_update wh f d = (d', Ok n)) ->
  forall e', e' ∈ db_rows (dispatchBatch topics batch now d k).1 ->
    oe_EventID e' ∈ oe_EventID <$> entries -> oe_Published e' = true.
Proof.
  intros Hg Hsend Hupd e' He' Hin. unfold dispatchBatch in He'. rewrite Hg in He'.
  destruct (publish_all_sends topics now entries d k [] Hsend) as [k' Heq]. rewrite Heq in He'.
  simpl in He'. destruct (oe_EventID <$> entries) as [|i ids] eqn:Hids; [by apply not_elem_of_nil in Hin|].
  cbn [fst] in He'. unfold OutboxRepo.MarkPublishedBatch in He'.
  destruct (Hupd (fun e => existsb (fun id => oe_EventID e =s id) (i :: ids)) (oe_publish now))
    as (d' & n & Hu). rewrite Hu in He'. apply db_update_ok in Hu as [Hp _].
  cbn [OutboxRepo.error_of fst] in He'. rewrite Hp, list_elem_of_fmap in He'.
  destruct He' as (r & -> & _). destruct (existsb _ _) eqn:Hex; [done|exfalso].
  apply not_true_iff_false in Hex. apply Hex, existsb_exists. exists (oe_EventID r).
  split; [by apply list_elem_of_In|by apply bool_decide_eq_true].
Qed.

(** ** Entries that keep failing *)

Definition oe_kind (e : OutboxEntry) : string * string := (oe_EventID e, oe_EventType e).

Definition aged d : list (string * string * bool * Z) :=
  (fun e => (oe_kind e, oe_Published e, oe_CreatedAt e)) <$> db_rows d.

Section Poison.
Context (poison : string * string -> bool) (topics : list (string * string)) (batch : Z).

Definition waiting (v : string * string * bool * Z) : bool := negb v.1.2 && poison v.1.1.

(** At least a batch of entries fails for good, and they are the oldest. *)
Definition starved d : Prop :=
  batch <= Z.of_nat (length (List.filter waiting (aged d))) /\
  forall v v', v ∈ aged d -> v' ∈ aged d -> waiting v = true ->
    v'.1.2 = false -> poison v'.1.1 = false -> v.2 < v'.2.

Lemma starved_perm d d' : aged d' ≡ₚ aged d -> starved d -> starved d'.
Proof.
  intros Hp [Hc Ho]. split.
  - by rewrite (filter_perm waiting _ _ Hp).
  - intros v v'. rewrite Hp. apply Ho.
Qed.

Lemma aged_elem d e : e ∈ db_rows d -> (oe_kind e, oe_Published e, oe_CreatedAt e) ∈ aged d.
Proof. intros He. unfold aged. apply list_elem_of_fmap. eauto. Qed.

(** The batch then has only such entries. *)
Lemma starved_batch d entries :
  0 <= batch -> starved d -> OutboxRepo.GetUnpublished batch d = Ok entries ->
  forall e, e ∈ entries -> poison (oe_kind e) = true.
Proof.
  intros Hb [Hc Ho] Hg e He. destruct (poison (oe_kind e)) eqn:Hpe; [done|exfalso].
  apply db_find_ok in Hg as (full & Hp & Hs & Heq). simpl in Hs.
  replace (batch <? 0) with false in Heq by lia. simpl in Heq. subst entries.
  assert (Hrow : forall x, x ∈ full -> x ∈ db_rows d /\ oe_Published x = false).
  { intros x Hx. rewrite Hp, list_elem_of_In, List.filter_In, negb_true_iff in Hx.
    by rewrite list_elem_of_In. }
  apply elem_of_take in He as (i & Hi & Hlt).
  pose proof (take_drop_middle _ _ _ Hi) as Hsplit.
  assert (Hcount : length (List.filter waiting (aged d)) =
    length (List.filter (fun x => poison (oe_kind x)) full)).
  { rewrite Hp. unfold aged. clear. generalize (db_rows d). intros l.
    induction l as [|x l IH]; csimpl; [done|]. unfold waiting at 1. simpl.
    destruct (oe_Published x); simpl; [done|]. destruct (poison _); simpl; by rewrite IH. }
  rewrite Hcount, <- Hsplit, List.filter_app in Hc. simpl in Hc. rewrite Hpe in Hc.
  assert (Hnil : List.filter (fun x => poison (oe_kind x)) (drop (S i) full) = []).
  { rewrite <- Hsplit in Hs. apply StronglySorted_app_1_r in Hs.
    inversion Hs as [|? ? _ Hall]; subst. rewrite Forall_forall in Hall.
    destruct (List.filter (fun x => poison (oe_kind x)) (drop (S i) full)) as [|y l] eqn:Hf; [done|exfalso].
    assert (Hy : y ∈ List.filter (fun x => poison (oe_kind x)) (drop (S i) full))
      by (rewrite Hf; left). rewrite list_elem_of_In, List.filter_In in Hy. destruct Hy as [Hy Hpy].
    rewrite <- list_elem_of_In in Hy. pose proof (Hall _ Hy) as Hle. unfold key_le in Hle.
    assert (Hyf : y ∈ full) by (rewrite <- Hsplit; set_solver).
    assert (Hef : e ∈ full) by (by eapply list_elem_of_lookup_2).
    destruct (Hrow y Hyf) as [Hyr Hyp], (Hrow e Hef) as [Her Hep].
    assert (oe_CreatedAt y < oe_CreatedAt e); [|lia].
    apply (Ho _ _ (aged_elem _ _ Hyr) (aged_elem _ _ Her)); [|done|done].
    unfold waiting. simpl. by rewrite Hyp, Hpy. }
  rewrite Hnil, app_nil_r in Hc. pose proof (List.filter_length_le (fun x => poison (oe_kind x)) (take i full)).
  rewrite length_take in *. lia.
Qed.

Context (Hfail : forall e k, poison (oe_kind e) = true -> (publishEntry topics e k).2 <> None).

Lemma publish_all_fails now entries d k ids0 :
  (forall e, e ∈ entries -> poison (oe_kind e) = true) ->
  exists d' k', publish_all topics now entries d k ids0 = (d', k', ids0) /\ aged d' ≡ₚ aged d.
Proof.
  revert d k. induction entries as [|e entries IH]; intros d k Hall; simpl; [by eexists _, _|].
  destruct (publishEntry topics e k) as [k1 [err|]] eqn:Hp.
  - destruct (IH (OutboxRepo.RecordPublishError now (oe_EventID e) err d).1 k1) as (d' & k' & -> & Ha);
      [set_solver|]. eexists _, _. split; [done|]. rewrite Ha. by apply record_error_proj.
  - exfalso. apply (Hfail e k); [set_solver|by rewrite Hp].
Qed.

(** Rounds of the dispatcher, with the clock of each. *)
Fixpoint dispatch_rounds (nows : list Z) d k : D * K :=
  match nows with
  | [] => (d, k)
  | now :: nows' => let '(d', k') := dispatchBatch topics batch now d k in dispatch_rounds nows' d' k'
  end.

(** Entries whose sending keeps failing are tried again in every round: when they
    are the oldest and fill a batch, no younger entry is ever published, however
    many rounds are run.  The retry limit of the dispatcher is not consulted. *)
Theorem poison_starves nows d k :
  0 <= batch -> starved d ->
  forall e, e ∈ db_rows d -> oe_Published e = false ->
    exists e', e' ∈ db_rows (dispatch_rounds nows d k).1 /\
      oe_EventID e' = oe_EventID e /\ oe_Published e' = false.
Proof.
  intros Hb Hst e He Hpub.
  assert (Ha : aged (dispatch_rounds nows d k).1 ≡ₚ aged d).
  { clear e He Hpub. revert d k Hst. induction nows as [|now nows IH]; intros d k Hst; [done|].
    cbn [dispatch_rounds]. destruct (dispatchBatch topics batch now d k) as [d1 k1] eqn:Hd.
    assert (Ha1 : aged d1 ≡ₚ aged d).
    { unfold dispatchBatch in Hd.
      destruct (OutboxRepo.GetUnpublished batch d) as [entries|err|] eqn:Hg; [|by simplify_eq|by simplify_eq].
      destruct (publish_all_fails now entries d k []) as (d2 & k2 & Heq & Ha);
        [by apply (starved_batch d)|]. rewrite Heq in Hd. by simplify_eq. }
    rewrite IH; [done|by eapply starved_perm]. }
  assert (Hv := aged_elem _ _ He). rewrite <- Ha, Hpub in Hv.
  apply list_elem_of_fmap in Hv as (e' & Heq & He'). unfold oe_kind in Heq. simplify_eq. by exists e'.
Qed.
End Poison.
End Props.

(** ** Senders *)

(** A sender in memory: everything written is delivered, except the messages of
    one key, which the broker refuses. *)
Record MemKafka := mkMemKafka { mk_log : list kafka_message }.

#[global] Instance MemKafka_sender : KafkaSender MemKafka := {|
  WriteMessages m k :=
    if msg_Key m =s "oversized" then (k, Some "message too large")
    else (mkMemKafka (mk_log k ++ [m]), None);
  k_delivered := mk_log |}.

#[global] Instance MemKafka_synchronous : SynchronousSender MemKafka.
Proof.
  split; simpl; intros *; case_bool_decide; intros; simplify_eq/=; try done; set_solver.
Qed.

(** A writer with the option Async: a call puts the message in a buffer and returns
    at once, without an error; [aw_acked] of the buffered messages have reached the
    brokers. *)
Record AsyncWriter := mkAsyncWriter { aw_buffer : list kafka_message; aw_acked : nat }.

#[global] Instance AsyncWriter_sender : KafkaSender AsyncWriter := {|
  WriteMessages m k := (mkAsyncWriter (aw_buffer k ++ [m]) (aw_acked k), None);
  k_delivered k := take (aw_acked k) (aw_buffer k) |}.

Lemma async_write_acked topics entry (k : AsyncWriter) :
  aw_acked (publishEntry topics entry k).1 = aw_acked k.
Proof. unfold publishEntry. go_cases; by simplify_eq/=. Qed.

Lemma async_all_acked {D} `{Table D OutboxEntry} topics now entries (d : D) (k : AsyncWriter) ids :
  aw_acked (publish_all topics now entries d k ids).1.2 = aw_acked k.
Proof.
  revert d k ids. induction entries as [|e entries IH]; intros d k ids; simpl; [done|].
  pose proof (async_write_acked topics e k).
  destruct (publishEntry topics e k) as [k1 [err|]]; simpl in *; by rewrite IH.
Qed.

(** With the asynchronous writer that the program configures, a dispatch marks every
    entry of its batch published although the brokers have acknowledged nothing. *)
Theorem async_marks_undelivered {D} `{HD : Table D OutboxEntry} {HDL : TableLaws D OutboxEntry}
    topics batch now (d : D) (k : AsyncWriter) entries :
  OutboxRepo.GetUnpublished batch d = Ok entries ->
  (forall e, e ∈ entries -> is_Some (oe_Payload e)) ->
  (forall wh f, exists d' n, db_update wh f d = (d', Ok n)) ->
  aw_acked k = O ->
  k_delivered (dispatchBatch topics batch now d k).2 = [] /\
  forall e', e' ∈ db_rows (dispatchBatch topics batch now d k).1 ->
    oe_EventID e' ∈ oe_EventID <$> entries -> oe_Published e' = true.
Proof.
  intros Hg Hpay Hupd Hack. split.
  - unfold dispatchBatch. rewrite Hg. pose proof (async_all_acked topics now entries d k []) as Ha.
    destruct (publish_all topics now entries d k []) as [[d1 k1] ids]. simpl in Ha.
    destruct ids; simpl; by rewrite Ha, Hack.
  - apply dispatch_publishes; [done| |done]. intros e k0 He. destruct (Hpay e He) as [j Hj].
    unfold publishEntry, publishToKafka. rewrite Hj. simpl. by destruct (publishable _).
Qed.

(** ** Witnesses *)

#[local] Instance oe_ops : Table (ListTable OutboxEntry) OutboxEntry := ListTable_ops oe_same.
#[local] Instance oe_laws : TableLaws (ListTable OutboxEntry) OutboxEntry := ListTable_laws _.

Definition trade_entry (id : string) (created : Z) : OutboxEntry :=
  mkOutboxEntry id "TradeExecuted" "BTC" "OrderBook" (Some (JObj [("Seq", JNum 7)])) false None
    created created 0 "".

Definition one_trade : ListTable OutboxEntry :=
  (OutboxRepo.WriteOutboxEntryIfNotExists 5 (trade_entry "t-1" 5) (mkListTable [])).1.


Definition jammed : ListTable OutboxEntry :=
  mkListTable [trade_entry "oversized" 1; trade_entry "t-2" 2].

Lemma poison_starves_witness :
  exists e', e' ∈ db_rows (dispatch_rounds [] 1 [10; 20; 30] jammed (mkMemKafka [])).1 /\
    oe_EventID e' = "t-2" /\ oe_Published e' = false.
Proof.
  apply (poison_starves (fun kt => bool_decide (kt = ("oversized", "TradeExecuted"))) [] 1)
    with (e := trade_entry "t-2" 2).
  - intros e k [= Hid Hty]%bool_decide_eq_true. unfold publishEntry, publishToKafka.
    destruct (oe_Payload e); [|done]. rewrite Hty. simpl. by rewrite Hid.
  - lia.
  - split; [vm_compute; discriminate|].
    intros v v' Hv Hv'. vm_compute in Hv, Hv'. repeat setoid_rewrite elem_of_cons in Hv.
    repeat setoid_rewrite elem_of_cons in Hv'. set_unfold.
    destruct Hv as [->|[->|[]]], Hv' as [->|[->|[]]]; vm_compute; congruence.
  - vm_compute. right. left.
  - reflexivity.
Defined.

Lemma async_marks_undelivered_witness :
  k_delivered (dispatchBatch [] 10 6 one_trade (mkAsyncWriter [] 0)).2 = [] /\
  oe_Published (oe_publish 6 (trade_entry "t-1" 5)) = true.
Proof.
  destruct (async_marks_undelivered [] 10 6 one_trade (mkAsyncWriter [] 0) [trade_entry "t-1" 5])
    as [H1 H2].
  - vm_compute. reflexivity.
  - intros e ->%list_elem_of_singleton. by eexists.
  - intros wh f. by eexists _, _.
  - reflexivity.
  - split; [exact H1|]. apply H2; vm_compute; left.
Defined.
