(* ===== verification/Positions.v ===== *)
(** * Positions and their processor

    Models src/biz/model/asset.go (the position), src/biz/service/asset_service.go
    (buying and selling on a position), src/biz/dal/pg/processed_repo.go (the table
    of processed trades) and src/biz/service/event_processor_position.go (the
    processor that turns trades into position changes, with the outbox of Outbox.v
    or without).  The three tables form one database; [fresh_id] is the sequence
    behind the primary key of the positions and [commit] the COMMIT of a
    transaction.  A transaction handle that is nil panics on its first use. *)

From stdpp Require Import base gmap strings list sorting.
From Stdlib Require Import ZArith Lia.
From S2P Require Import Prelude Money Events Database Outbox.

Local Open Scope go_scope.
Local Open Scope Z_scope.

Record Position := mkPosition {
  pos_ID : Z;
  pos_UserID : string;
  pos_Symbol : string;
  pos_Volume : string;
  pos_AvgPrice : string;
  pos_VolumeBigint : Z;
  pos_AvgPriceBigint : Z }.

Record ProcessedTrade := mkProcessedTrade { pt_EventID : string; pt_CreatedAt : Z }.

(** The primary key event_id. *)
Definition pt_same (old new : ProcessedTrade) : bool := pt_EventID old =s pt_EventID new.

(** [Div] of big.Int: Euclidean division, the remainder is never negative. *)
Definition big_Div (a b : Z) : Z := Z.sgn b * (a / Z.abs b).

Definition ErrRecordNotFound : error := "record not found".

(** ** The asset service *)

Section Assets.
Context {DP : Type} `{!Table DP Position} (fresh_id : DP -> Z).
Implicit Types (d : DP).

Definition GetUserPositions (userID : string) d : outcome (list Position) :=
  db_find (fun p => pos_UserID p =s userID) None None d.

(** [First]: the row of the smallest primary key. *)
Definition first_position (userID symbol : string) d : outcome (option Position) :=
  let? rows := db_find (fun p => (pos_UserID p =s userID) && (pos_Symbol p =s symbol))
                 (Some pos_ID) (Some 1%nat) d in
  Ok (head rows).

Definition GetUserPositionBySymbol (userID symbol : string) d : outcome Position :=
  let? found := first_position userID symbol d in
  match found with Some p => Ok p | None => Err ErrRecordNotFound end.

(** [tx.Save]: write the row of the same primary key. *)
Definition save_position (pos : Position) d : DP * option error :=
  db_upsert (fun old new => pos_ID old =? pos_ID new) (fun _ new => new) pos d.

(** [tx] tells whether the handle is not nil. *)
Definition BuyPositionTx (tx : bool) (userID symbol buyQtyStr buyPriceStr : string) d
    : outcome (DP * option error) :=
  if negb tx then Panic
  else
    let query := first_position userID symbol d in
    match ParseQuantity buyQtyStr with
    | Panic => Panic
    | Err e => Ok (d, Some e)
    | Ok buyQty =>
        match ParsePrice buyPriceStr with
        | Panic => Panic
        | Err e => Ok (d, Some e)
        | Ok buyPrice =>
            match query with
            | Panic => Panic
            | Err e => Ok (d, Some e)
            | Ok None =>
                Ok (db_create (mkPosition (fresh_id d) userID symbol (QuantityInNano_String buyQty)
                                 (PriceInNano_String buyPrice) buyQty buyPrice) d)
            | Ok (Some pos) =>
                let oldQty := pos_VolumeBigint pos in
                let oldAvg := pos_AvgPriceBigint pos in
                let newQty := i64 (oldQty + buyQty) in
                let sum := oldQty * oldAvg + buyQty * buyPrice in
                if newQty =? 0 then Ok (d, Some "new quantity is zero")
                else
                  let newAvg := big_Div sum newQty in
                  if negb ((MinI64 <=? newAvg) && (newAvg <=? MaxI64))
                  then Ok (d, Some "price overflow when computing weighted average")
                  else
                    Ok (save_position
                          (mkPosition (pos_ID pos) (pos_UserID pos) (pos_Symbol pos)
                             (QuantityInNano_String newQty) (PriceInNano_String newAvg) newQty newAvg) d)
            end
        end
    end.

Definition SellPositionTx (tx : bool) (userID symbol sellQtyStr : string) d
    : outcome (DP * option error) :=
  if negb tx then Panic
  else
    match first_position userID symbol d with
    | Panic => Panic
    | Err e => Ok (d, Some e)
    | Ok None => Ok (d, Some ErrRecordNotFound)
    | Ok (Some pos) =>
        match ParseQuantity sellQtyStr with
        | Panic => Panic
        | Err e => Ok (d, Some e)
        | Ok sellQty =>
            let oldQty := pos_VolumeBigint pos in
            if oldQty <? sellQty then Ok (d, Some "持仓不足")
            else
              let newQty := i64 (oldQty - sellQty) in
              let avg := if newQty =? 0 then 0 else pos_AvgPriceBigint pos in
              let avgText := if newQty =? 0 then "0" else PriceInNano_String (pos_AvgPriceBigint pos) in
              Ok (save_position
                    (mkPosition (pos_ID pos) (pos_UserID pos) (pos_Symbol pos)
                       (QuantityInNano_String newQty) avgText newQty avg) d)
        end
    end.

(** The versions on the global database. *)
Definition BuyPosition (userID symbol buyQty buyPrice : string) d : outcome (DP * option error) :=
  BuyPositionTx true userID symbol buyQty buyPrice d.
Definition SellPosition (userID symbol sellQty : string) d : outcome (DP * option error) :=
  SellPositionTx true userID symbol sellQty d.
End Assets.

(** ** The table of processed trades *)

Module ProcessedRepo.
Section Repo.
Context {DT : Type} `{!Table DT ProcessedTrade}.

Definition WriteIfNotExists (now : Z) (eventID : string) (r : DT) : DT * outcome bool :=
  db_insert_ignore pt_same (mkProcessedTrade eventID now) r.

Definition Delete (eventID : string) (r : DT) : DT * option error :=
  match db_delete (fun t => pt_EventID t =s eventID) r with
  | (r', Err e) => (r', Some e)
  | (r', _) => (r', None)
  end.
End Repo.
End ProcessedRepo.

(** ** The processor *)

Section Processor.
Context {DP DO DT : Type} `{!Table DP Position} `{!Table DO OutboxEntry} `{!Table DT ProcessedTrade}.

Record store := mkStore { st_positions : DP; st_outbox : DO; st_processed : DT }.
Implicit Types (s : store).

(** The functions that update positions are given to the constructor; [tx] tells
    whether the handle they get is not nil. *)
Context (commit : store -> option error)
        (buyPositionFn : bool -> string -> string -> string -> string -> DP -> outcome (DP * option error))
        (sellPositionFn : bool -> string -> string -> string -> DP -> outcome (DP * option error)).

(** Whether the database and the outbox are there, and the trades seen. *)
Record PositionProcessor := mkPositionProcessor {
  pp_db : bool;
  pp_outboxRepo : bool;
  pp_processedTrades : gset string }.
Implicit Types (pp : PositionProcessor).

Definition NewPositionProcessor : PositionProcessor := mkPositionProcessor false false ∅.
Definition NewPositionProcessorWithOutbox (db outboxRepo : bool) : PositionProcessor :=
  mkPositionProcessor db outboxRepo ∅.

(** The taker and then the maker, one buys and the other sells. *)
Definition apply_trade (tx : bool) (e : TradeExecutedEvent) (d : DP) : outcome (DP * option error) :=
  let quantityStr := sprintf_8f (f64_div (f64_of_int (te_Quantity e)) f64_1e8) in
  let priceStr := sprintf_8f (f64_div (f64_of_int (te_Price e)) f64_1e8) in
  let symbol := te_SymbolStr e in
  let buy user := buyPositionFn tx user symbol quantityStr priceStr in
  let sell user := sellPositionFn tx user symbol quantityStr in
  let '(first, second) := if te_TakerSide e =s "buy" then (buy (te_TakerUser e), sell (te_MakerUser e))
                          else (sell (te_TakerUser e), buy (te_MakerUser e)) in
  let? r := first d in
  match r with
  | (d', Some err) => Ok (d', Some err)
  | (d', None) => second d'
  end.

Definition set_positions (d : DP) s : store := mkStore d (st_outbox s) (st_processed s).
Definition set_outbox (o : DO) s : store := mkStore (st_positions s) o (st_processed s).
Definition set_processed (t : DT) s : store := mkStore (st_positions s) (st_outbox s) t.

(** Without an outbox: the trade ID is noted in the database if there is one, and
    taken out again on an error; else in memory, after the update. *)
Definition handleTradeExecuted (now : Z) (e : TradeExecutedEvent) pp s
    : outcome (PositionProcessor * store * option error) :=
  if pp_db pp then
    match ProcessedRepo.WriteIfNotExists now (te_TradeID e) (st_processed s) with
    | (_, Panic) => Panic
    | (t, Err err) => Ok (pp, set_processed t s, Some err)
    | (t, Ok false) => Ok (pp, set_processed t s, None)
    | (t, Ok true) =>
        let? r := apply_trade false e (st_positions s) in
        match r with
        | (d, Some err) =>
            Ok (pp, mkStore d (st_outbox s) (ProcessedRepo.Delete (te_TradeID e) t).1, Some err)
        | (d, None) => Ok (pp, mkStore d (st_outbox s) t, None)
        end
    end
  else if bool_decide (te_TradeID e ∈ pp_processedTrades pp) then Ok (pp, s, None)
  else
    let? r := apply_trade false e (st_positions s) in
    match r with
    | (d, Some err) => Ok (pp, set_positions d s, Some err)
    | (d, None) =>
        Ok (mkPositionProcessor (pp_db pp) (pp_outboxRepo pp) ({[te_TradeID e]} ∪ pp_processedTrades pp),
            set_positions d s, None)
    end.

Definition outbox_entry (now : Z) (e : TradeExecutedEvent) : OutboxEntry :=
  mkOutboxEntry (te_TradeID e) "TradeExecuted" (te_SymbolStr e) "OrderBook"
    (Some (env_Payload (MarshalEvent (TradeExecuted e)))) false None now now 0 "".

(** The function run in the transaction. *)
Definition trade_tx (now : Z) (e : TradeExecutedEvent) s : outcome (store * option error) :=
  match OutboxRepo.WriteOutboxEntryIfNotExists now (outbox_entry now e) (st_outbox s) with
  | (_, Panic) => Panic
  | (o, Err err) => Ok (set_outbox o s, Some err)
  | (o, Ok false) => Ok (set_outbox o s, None)
  | (o, Ok true) =>
      let? r := apply_trade true e (st_positions s) in
      Ok (set_positions r.1 (set_outbox o s), r.2)
  end.

(** [db.Transaction]: an error of the function or of the commit rolls back. *)
Definition handleTradeExecutedTransactional (now : Z) (e : TradeExecutedEvent) s
    : outcome (store * option error) :=
  let? r := trade_tx now e s in
  match r with
  | (_, Some err) => Ok (s, Some err)
  | (s', None) => match commit s' with
                  | None => Ok (s', None)
                  | Some err => Ok (s, Some err)
                  end
  end.

Definition PositionProcessor_ProcessEvent (now : Z) (event : MatchingEngineEvent) pp s
    : outcome (PositionProcessor * store * option error) :=
  match event with
  | TradeExecuted e =>
      if pp_db pp && pp_outboxRepo pp then
        let? r := handleTradeExecutedTransactional now e s in Ok (pp, r.1, r.2)
      else handleTradeExecuted now e pp s
  | _ => Ok (pp, s, None)
  end.

Definition Reset pp : PositionProcessor := mkPositionProcessor (pp_db pp) (pp_outboxRepo pp) ∅.
End Processor.
Arguments store DP DO DT : clear implicits.
