(* ===== verification/PositionsProps.v ===== *)
(** * Properties of the positions

    A trade moves volume from the seller to the buyer and changes no total; a trade
    is applied once however often it is delivered; the weighted average lies between
    the old average and the price paid.  Without a transaction a failed trade is
    half applied. *)

From stdpp Require Import base gmap strings list sorting.
From Stdlib Require Import ZArith Lia SpecFloat.
From S2P Require Import Prelude Money Events Database Outbox Positions.

Local Open Scope go_scope.
Local Open Scope Z_scope.

(** ** Volumes *)

Definition volumes (symbol : string) (rows : list Position) : Z :=
  Zsum (pos_VolumeBigint <$> List.filter (fun p => pos_Symbol p =s symbol) rows).

Lemma volumes_perm symbol l1 l2 : l1 ≡ₚ l2 -> volumes symbol l1 = volumes symbol l2.
Proof. intros Hp. unfold volumes. apply Zsum_perm. by rewrite Hp. Qed.

Lemma volumes_cons symbol p l :
  volumes symbol (p :: l) = (if pos_Symbol p =s symbol then pos_VolumeBigint p else 0) + volumes symbol l.
Proof. unfold volumes. simpl. by destruct (pos_Symbol p =s symbol). Qed.

Definition write_row (pos old : Position) : Position := if pos_ID old =? pos_ID pos then pos else old.

Lemma write_row_none pos (l : list Position) :
  pos_ID pos ∉ pos_ID <$> l -> write_row pos <$> l = l.
Proof.
  induction l as [|x l IH]; csimpl; [done|]. rewrite not_elem_of_cons. intros [Hne Hn].
  rewrite IH by done. unfold write_row. by destruct (Z.eqb_spec (pos_ID x) (pos_ID pos)).
Qed.

(** Writing a row changes the total of its symbol by the change of its volume. *)
Lemma volumes_write symbol old pos (l : list Position) :
  NoDup (pos_ID <$> l) -> old ∈ l -> pos_ID pos = pos_ID old -> pos_Symbol pos = pos_Symbol old ->
  volumes symbol (write_row pos <$> l) =
    volumes symbol l +
    (if pos_Symbol old =s symbol then pos_VolumeBigint pos - pos_VolumeBigint old else 0).
Proof.
  intros Hnd Hin Hid Hsym. induction l as [|x l IH]; [by apply not_elem_of_nil in Hin|].
  csimpl in *. apply NoDup_cons in Hnd as [Hn Hnd]. rewrite !volumes_cons.
  apply elem_of_cons in Hin as [->|Hin].
  - assert (Hw : write_row pos x = pos).
    { unfold write_row. by rewrite (proj2 (Z.eqb_eq (pos_ID x) (pos_ID pos))). }
    rewrite Hw, write_row_none by (by rewrite Hid). rewrite Hsym.
    destruct (pos_Symbol x =s symbol); lia.
  - assert (pos_ID x <> pos_ID pos).
    { rewrite Hid. intros Heq. apply Hn. rewrite Heq. by apply list_elem_of_fmap_2. }
    assert (Hw : write_row pos x = x).
    { unfold write_row. by rewrite (proj2 (Z.eqb_neq (pos_ID x) (pos_ID pos))). }
    rewrite Hw, IH by done. lia.
Qed.

Lemma write_row_ids pos (l : list Position) : pos_ID <$> (write_row pos <$> l) = pos_ID <$> l.
Proof.
  rewrite <- list_fmap_compose. apply list_fmap_ext. intros i x _. simpl. unfold write_row.
  by destruct (Z.eqb_spec (pos_ID x) (pos_ID pos)).
Qed.

Lemma write_row_elem pos (l : list Position) x : x ∈ write_row pos <$> l -> x = pos \/ x ∈ l.
Proof.
  intros (y & -> & Hy)%list_elem_of_fmap. unfold write_row. destruct (_ =? _); auto.
Qed.

Lemma ParseQuantity_range s q : ParseQuantity s = Ok q -> is_i64 q.
Proof.
  unfold ParseQuantity. destruct (ParseFloat _); [|done]. intros [= <-]. apply f64_to_int64_range.
Qed.

(** ** Buying and selling *)

Section Assets.
Context {DP : Type} {HP : Table DP Position} {HPL : TableLaws DP Position}.
Context (fresh_id : DP -> Z) (Hfresh : forall d : DP, fresh_id d ∉ pos_ID <$> db_rows d).
Implicit Types (d : DP).

(** Rows with distinct keys and volumes between zero and [m]. *)
Definition rows_ok (m : Z) (rows : list Position) : Prop :=
  NoDup (pos_ID <$> rows) /\ Forall (fun p => 0 <= pos_VolumeBigint p <= m) rows.

Lemma rows_ok_perm m l1 l2 : l1 ≡ₚ l2 -> rows_ok m l2 -> rows_ok m l1.
Proof. intros Hp [H1 H2]. split; by rewrite Hp. Qed.

Lemma first_position_spec user symbol d p :
  first_position user symbol d = Ok (Some p) ->
  p ∈ db_rows d /\ pos_UserID p = user /\ pos_Symbol p = symbol.
Proof.
  unfold first_position. destruct (db_find _ _ _ _) as [rows|e|] eqn:Hf; simpl; [|done|done].
  intros [= Hh]. apply db_find_ok in Hf.
  assert (Hin : p ∈ rows) by (destruct rows; simplify_eq/=; left).
  eapply select_elem in Hf as [Hr Hw]; [|done]. bool_props. done.
Qed.

Lemma save_spec pos d d' :
  save_position pos d = (d', None) -> (exists old, old ∈ db_rows d /\ pos_ID old = pos_ID pos) ->
  db_rows d' ≡ₚ write_row pos <$> db_rows d.
Proof.
  intros Hs (old & Hin & Hid). apply db_upsert_ok in Hs.
  replace (existsb _ _) with true in Hs; [done|]. symmetry. apply existsb_exists. exists old.
  split; [by apply list_elem_of_In|]. by apply Z.eqb_eq.
Qed.

Lemma save_effect m symbol' old pos d d' :
  save_position pos d = (d', None) -> rows_ok m (db_rows d) -> old ∈ db_rows d ->
  pos_ID pos = pos_ID old -> pos_Symbol pos = pos_Symbol old ->
  0 <= pos_VolumeBigint pos ->
  rows_ok (Z.max m (pos_VolumeBigint pos)) (db_rows d') /\
  volumes symbol' (db_rows d') = volumes symbol' (db_rows d) +
    (if pos_Symbol old =s symbol' then pos_VolumeBigint pos - pos_VolumeBigint old else 0).
Proof.
  intros Hs [Hnd Hall] Hin Hid Hsym H0. apply save_spec in Hs; [|by exists old]. split.
  - eapply rows_ok_perm; [done|]. split; [by rewrite write_row_ids|].
    rewrite Forall_forall in *. intros x [->|Hx]%write_row_elem; [lia|]. specialize (Hall x Hx). lia.
  - rewrite (volumes_perm _ _ _ Hs). by apply volumes_write.
Qed.

Lemma buy_effect m user symbol qs ps q d d' :
  BuyPositionTx fresh_id true user symbol qs ps d = Ok (d', None) ->
  ParseQuantity qs = Ok q -> 0 <= q -> rows_ok m (db_rows d) -> 0 <= m -> m + q <= MaxI64 ->
  rows_ok (m + q) (db_rows d') /\
  forall s, volumes s (db_rows d') = volumes s (db_rows d) + (if symbol =s s then q else 0).
Proof.
  unfold BuyPositionTx. simpl. intros Hb Hq Hq0 Hok Hm0 Hm. rewrite Hq in Hb.
  destruct (ParsePrice ps) as [price|e|]; [|done|done].
  destruct (first_position user symbol d) as [[p|]|e|] eqn:Hf; [| |done|done].
  - apply first_position_spec in Hf as (Hin & _ & Hsym).
    assert (Hp : 0 <= pos_VolumeBigint p <= m) by (destruct Hok as [_ Hall]; rewrite Forall_forall in Hall; auto).
    destruct (_ =? 0); [done|]. destruct (negb _); [done|]. injection Hb as Hb.
    rewrite i64_id in Hb by solve_i64.
    assert (Heff := fun s => save_effect m s p _ d d' Hb Hok Hin eq_refl eq_refl). simpl in Heff.
    split; [|intros s].
    + destruct (Heff "" ltac:(lia)) as [[Hnd Hall] _]. split; [done|].
      eapply Forall_impl; [done|]. simpl. intros. lia.
    + destruct (Heff s ltac:(lia)) as [_ ->]. rewrite Hsym. destruct (symbol =s s); lia.
  - injection Hb as Hb. apply db_create_ok in Hb. destruct Hok as [Hnd Hall]. split.
    + eapply rows_ok_perm; [done|]. split; csimpl.
      * apply NoDup_cons. split; [apply Hfresh|done].
      * constructor; [simpl; lia|]. eapply Forall_impl; [done|]. simpl. intros. lia.
    + intros s. rewrite (volumes_perm _ _ _ Hb), volumes_cons. simpl. lia.
Qed.

Lemma sell_effect m user symbol qs q d d' :
  SellPositionTx true user symbol qs d = Ok (d', None) ->
  ParseQuantity qs = Ok q -> 0 <= q -> rows_ok m (db_rows d) -> m <= MaxI64 ->
  rows_ok m (db_rows d') /\
  forall s, volumes s (db_rows d') = volumes s (db_rows d) - (if symbol =s s then q else 0).
Proof.
  unfold SellPositionTx. simpl. intros Hb Hq Hq0 Hok Hm. rewrite Hq in Hb.
  destruct (first_position user symbol d) as [[p|]|e|] eqn:Hf; [|done|done|done].
  apply first_position_spec in Hf as (Hin & _ & Hsym).
  assert (Hp : 0 <= pos_VolumeBigint p <= m) by (destruct Hok as [_ Hall]; rewrite Forall_forall in Hall; auto).
  destruct (Z.ltb_spec (pos_VolumeBigint p) q); [done|]. injection Hb as Hb.
  rewrite i64_id in Hb by solve_i64.
  assert (Heff := fun s => save_effect m s p _ d d' Hb Hok Hin eq_refl eq_refl). simpl in Heff.
  split; [|intros s].
  - destruct (Heff "" ltac:(lia)) as [[Hnd Hall] _]. split; [done|].
    eapply Forall_impl; [done|]. simpl. intros. lia.
  - destruct (Heff s ltac:(lia)) as [_ ->]. rewrite Hsym. destruct (symbol =s s); lia.
Qed.
End Assets.

(** C36: adding to a position gives the weighted average, rounded down, which lies
    between the old average and the price paid; the overflow error is not reached. *)
Theorem weighted_average_between {DP} {HP : Table DP Position} (fresh_id : DP -> Z)
    user symbol qs ps q price p (d : DP) :
  first_position user symbol d = Ok (Some p) ->
  ParseQuantity qs = Ok q -> ParsePrice ps = Ok price ->
  0 <= pos_VolumeBigint p -> 0 < q -> pos_VolumeBigint p + q <= MaxI64 ->
  is_i64 (pos_AvgPriceBigint p) -> is_i64 price ->
  exists avg,
    let newQty := pos_VolumeBigint p + q in
    BuyPositionTx fresh_id true user symbol qs ps d =
      Ok (save_position (mkPosition (pos_ID p) (pos_UserID p) (pos_Symbol p)
            (QuantityInNano_String newQty) (PriceInNano_String avg) newQty avg) d) /\
    Z.min (pos_AvgPriceBigint p) price <= avg <= Z.max (pos_AvgPriceBigint p) price /\
    newQty * avg <= pos_VolumeBigint p * pos_AvgPriceBigint p + q * price < newQty * (avg + 1).
Proof.
  intros Hf Hq Hp H0 Hq0 Hmax Havg Hprice. unfold BuyPositionTx. simpl. rewrite Hq, Hp, Hf.
  rewrite i64_id by solve_i64.
  set (v := pos_VolumeBigint p) in *. set (a := pos_AvgPriceBigint p) in *.
  set (avg := big_Div (v * a + q * price) (v + q)).
  assert (Hdiv : avg = (v * a + q * price) / (v + q)).
  { unfold avg, big_Div. rewrite Z.sgn_pos, Z.abs_eq by lia. lia. }
  assert (Hlo : (v + q) * avg <= v * a + q * price) by (rewrite Hdiv; apply Z.mul_div_le; lia).
  assert (Hhi : v * a + q * price < (v + q) * (avg + 1))
    by (rewrite Hdiv; pose proof (Z.mul_succ_div_gt (v * a + q * price) (v + q)); lia).
  assert (Hb1 : Z.min a price <= avg) by (rewrite Hdiv; apply Z.div_le_lower_bound; nia).
  assert (Hb2 : avg <= Z.max a price) by nia.
  exists avg. split_and!; [|done|done|done|done].
  rewrite (proj2 (Z.eqb_neq (v + q) 0)) by lia.
  assert (Hr : is_i64 avg) by solve_i64. unfold is_i64 in Hr.
  replace (negb _) with false; [done|]. symmetry. apply negb_false_iff, andb_true_iff. lia.
Qed.

(** ** The processor *)

Section Processor.
Context {DP DO DT : Type} {HP : Table DP Position} {HO : Table DO OutboxEntry}
        {HT : Table DT ProcessedTrade} {HPL : TableLaws DP Position} {HOL : TableLaws DO OutboxEntry}.
Context (commit : store DP DO DT -> option error).
Implicit Types (s : store DP DO DT).

Lemma transactional_cases buyFn sellFn now e s s' :
  handleTradeExecutedTransactional commit buyFn sellFn now e s = Ok (s', None) ->
  trade_tx buyFn sellFn now e s = Ok (s', None).
Proof.
  unfold handleTradeExecutedTransactional.
  destruct (trade_tx buyFn sellFn now e s) as [[s1 [err|]]|err|]; simpl; [done| |done|done].
  by destruct (commit s1); intros [= <-].
Qed.

Definition in_outbox (id : string) (o : DO) : bool :=
  existsb (fun entry => oe_EventID entry =s id) (db_rows o).

(** The transaction of a trade either finds its entry in the outbox, and leaves the
    positions alone, or adds the entry and applies the trade. *)
Lemma trade_tx_spec buyFn sellFn now e s s' :
  trade_tx buyFn sellFn now e s = Ok (s', None) ->
  in_outbox (te_TradeID e) (st_outbox s') = true /\
  ((in_outbox (te_TradeID e) (st_outbox s) = true /\ st_positions s' = st_positions s) \/
   (in_outbox (te_TradeID e) (st_outbox s) = false /\
    apply_trade buyFn sellFn true e (st_positions s) = Ok (st_positions s', None))).
Proof.
  unfold trade_tx.
  destruct (OutboxRepo.WriteOutboxEntryIfNotExists _ _ _) as [o r] eqn:Hw.
  pose proof (db_insert_ignore_spec _ _ _ _ _ Hw) as Hs.
  assert (Hperm : forall l1 l2, l1 ≡ₚ l2 -> existsb (fun entry => oe_EventID entry =s te_TradeID e) l1 = true ->
    existsb (fun entry => oe_EventID entry =s te_TradeID e) l2 = true).
  { intros l1 l2 Hp (x & Hx & ?)%existsb_exists. apply existsb_exists. exists x. split; [|done].
    rewrite <- list_elem_of_In in *. by rewrite <- Hp. }
  destruct r as [[|]|err|]; simpl.
  - destruct Hs as [Hno Hp].
    destruct (apply_trade _ _ _ _ _) as [[d o']|err|] eqn:Ha; simpl; [|done|done].
    intros [= <- ->]. simpl. split; [|right; by split].
    unfold in_outbox. simpl. eapply Hperm; [symmetry; exact Hp|]. simpl.
    by rewrite bool_decide_eq_true_2.
  - destruct Hs as [Hyes Hp]. intros [= <-]. simpl. split; [|left; by split].
    unfold in_outbox. simpl. eapply Hperm; [symmetry; exact Hp|done].
  - done.
  - done.
Qed.


Lemma transactional_conserves (fresh_id : DP -> Z) now e s s' q m :
  (forall d : DP, fresh_id d ∉ pos_ID <$> db_rows d) ->
  handleTradeExecutedTransactional commit (BuyPositionTx fresh_id) SellPositionTx now e s = Ok (s', None) ->
  ParseQuantity (QuantityInNano_String (te_Quantity e)) = Ok q -> 0 <= q ->
  0 <= m -> m + q <= MaxI64 -> rows_ok m (db_rows (st_positions s)) ->
  rows_ok (m + q) (db_rows (st_positions s')) /\
  forall symbol, volumes symbol (db_rows (st_positions s')) = volumes symbol (db_rows (st_positions s)).
Proof.
  intros Hfresh [_ Hor]%transactional_cases%trade_tx_spec Hq Hq0 Hm0 Hm Hok.
  destruct Hor as [[_ ->]|[_ Ha]].
  { split; [|done]. destruct Hok as [Hnd Hall]. split; [done|].
    eapply Forall_impl; [done|]. simpl. intros. lia. }
  unfold apply_trade in Ha.
  change (sprintf_8f (f64_div (f64_of_int (te_Quantity e)) f64_1e8))
    with (QuantityInNano_String (te_Quantity e)) in Ha.
  destruct (te_TakerSide e =s "buy").
  - destruct (BuyPositionTx _ _ _ _ _ _ _) as [[d1 [err|]]|err|] eqn:Hb; simpl in Ha; [done| |done|done].
    eapply (buy_effect fresh_id Hfresh m) in Hb as [Hok1 Hv1]; [|done|done|done|done|done].
    eapply (sell_effect (m + q)) in Ha as [Hok2 Hv2]; [|done|done|done|lia].
    split; [done|]. intros symbol. rewrite Hv2, Hv1. lia.
  - destruct (SellPositionTx _ _ _ _ _) as [[d1 [err|]]|err|] eqn:Hb; simpl in Ha; [done| |done|done].
    eapply (sell_effect m) in Hb as [Hok1 Hv1]; [|done|done|done|lia].
    eapply (buy_effect fresh_id Hfresh m) in Ha as [Hok2 Hv2]; [|done|done|done|done|done].
    split; [done|]. intros symbol. rewrite Hv2, Hv1. lia.
Qed.

(** A processed trade moves volume between its two users and changes no total: the
    volumes of every symbol add up as before, none becomes negative, and the buyer's
    row still has a distinct key. *)
Theorem trade_conserves_positions (fresh_id : DP -> Z) now e s s' q m :
  (forall d : DP, fresh_id d ∉ pos_ID <$> db_rows d) ->
  handleTradeExecutedTransactional commit (BuyPositionTx fresh_id) SellPositionTx now e s = Ok (s', None) ->
  ParseQuantity (QuantityInNano_String (te_Quantity e)) = Ok q -> 0 <= q ->
  0 <= m -> m + q <= MaxI64 -> rows_ok m (db_rows (st_positions s)) ->
  rows_ok (m + q) (db_rows (st_positions s')) /\
  forall symbol, volumes symbol (db_rows (st_positions s')) = volumes symbol (db_rows (st_positions s)).
Proof. apply transactional_conserves. Qed.

(** Without an outbox nothing undoes the first half of a trade whose second half
    fails: the taker's change stays, the error is returned, and the mark of the trade
    is gone, so that a retry applies the first half again. *)
Theorem fallback_half_applied {HTL : TableLaws DT ProcessedTrade} buyFn sellFn now e pp s d1 d2 err t1 t2 n :
  pp_db pp = true -> te_TakerSide e = "buy" ->
  ProcessedRepo.WriteIfNotExists now (te_TradeID e) (st_processed s) = (t1, Ok true) ->
  buyFn false (te_TakerUser e) (te_SymbolStr e) (QuantityInNano_String (te_Quantity e))
    (PriceInNano_String (te_Price e)) (st_positions s) = Ok (d1, None) ->
  sellFn false (te_MakerUser e) (te_SymbolStr e) (QuantityInNano_String (te_Quantity e)) d1
    = Ok (d2, Some err) ->
  db_delete (fun t => pt_EventID t =s te_TradeID e) t1 = (t2, Ok n) ->
  handleTradeExecuted buyFn sellFn now e pp s = Ok (pp, mkStore d2 (st_outbox s) t2, Some err) /\
  forall t, t ∈ db_rows t2 -> pt_EventID t <> te_TradeID e.
Proof.
  intros Hdb Hside Hw Hbuy Hsell Hdel. split.
  - unfold handleTradeExecuted. rewrite Hdb, Hw. unfold apply_trade.
    rewrite (bool_decide_eq_true_2 _ Hside).
    change (sprintf_8f (f64_div (f64_of_int (te_Quantity e)) f64_1e8))
      with (QuantityInNano_String (te_Quantity e)).
    change (sprintf_8f (f64_div (f64_of_int (te_Price e)) f64_1e8))
      with (PriceInNano_String (te_Price e)).
    rewrite Hbuy. cbn [obind]. rewrite Hsell. cbn [obind].
    unfold ProcessedRepo.Delete. by rewrite Hdel.
  - apply db_delete_ok in Hdel as [Hp _]. intros t. rewrite Hp, list_elem_of_In, List.filter_In.
    intros [_ Hf]. by apply negb_true_iff, bool_decide_eq_false in Hf.
Qed.
End Processor.

(** ** Witnesses *)

#[local] Instance pos_ops : Table (ListTable Position) Position :=
  ListTable_ops (fun a b => pos_ID a =? pos_ID b).
#[local] Instance pos_laws : TableLaws (ListTable Position) Position := ListTable_laws _.
#[local] Instance out_ops : Table (ListTable OutboxEntry) OutboxEntry := ListTable_ops oe_same.
#[local] Instance out_laws : TableLaws (ListTable OutboxEntry) OutboxEntry := ListTable_laws _.
#[local] Instance pt_ops : Table (ListTable ProcessedTrade) ProcessedTrade := ListTable_ops pt_same.
#[local] Instance pt_laws : TableLaws (ListTable ProcessedTrade) ProcessedTrade := ListTable_laws _.

(** The next value of the sequence: above every key in use. *)
Definition next_id (d : ListTable Position) : Z :=
  1 + foldr Z.max 0 (pos_ID <$> db_rows d).

Lemma next_id_fresh d : next_id d ∉ pos_ID <$> db_rows d.
Proof.
  assert (H : forall l x, x ∈ l -> x <= foldr Z.max 0 l).
  { induction l as [|y l IH]; intros x; [by intros ?%not_elem_of_nil|]. simpl.
    intros [->|Hx]%elem_of_cons; [lia|]. specialize (IH _ Hx). lia. }
  intros Hin%H. unfold next_id in Hin. lia.
Qed.

Definition start : store (ListTable Position) (ListTable OutboxEntry) (ListTable ProcessedTrade) :=
  mkStore (mkListTable [mkPosition 1 "bob" "BTC" "1.00000000" "50.00000000" 100000000 5000000000])
    (mkListTable []) (mkListTable []).

(** A quarter of a unit at 60, a round amount in binary. *)
Definition quarter : TradeExecutedEvent :=
  mkTradeExecutedEvent 9 100 "BTC-o1-0" "BTC" "o1" "o2" "alice" "bob" 6000000000 25000000 "buy".

Definition process (e : TradeExecutedEvent)
    (s : store (ListTable Position) (ListTable OutboxEntry) (ListTable ProcessedTrade)) :=
  handleTradeExecutedTransactional (fun _ => None) (BuyPositionTx next_id) SellPositionTx 100 e s.

Definition after_quarter : store (ListTable Position) (ListTable OutboxEntry) (ListTable ProcessedTrade) :=
  match process quarter start with Ok (s, _) => s | _ => start end.

Lemma trade_conserves_positions_witness :
  rows_ok 125000000 (db_rows (st_positions after_quarter)) /\
  forall symbol, volumes symbol (db_rows (st_positions after_quarter)) =
                 volumes symbol (db_rows (st_positions start)).
Proof.
  apply (trade_conserves_positions (fun _ => None) next_id 100 quarter start after_quarter 25000000 100000000).
  - exact next_id_fresh.
  - vm_compute. reflexivity.
  - vm_compute. reflexivity.
  - lia.
  - lia.
  - solve_i64.
  - split; [apply NoDup_singleton|]. constructor; [simpl; lia|constructor].
Defined.


Definition bob : Position :=
  mkPosition 1 "bob" "BTC" "1.00000000" "50.00000000" 100000000 5000000000.

Lemma weighted_average_between_witness :
  exists avg, 5000000000 <= avg <= 6000000000 /\
    125000000 * avg <= 100000000 * 5000000000 + 25000000 * 6000000000.
Proof.
  assert (Hf : first_position "bob" "BTC" (st_positions start) = Ok (Some bob)) by (vm_compute; reflexivity).
  assert (Hq : ParseQuantity "0.25" = Ok 25000000) by (vm_compute; reflexivity).
  assert (Hp : ParsePrice "60" = Ok 6000000000) by (vm_compute; reflexivity).
  destruct (weighted_average_between next_id "bob" "BTC" "0.25" "60" 25000000 6000000000 bob
              (st_positions start) Hf Hq Hp ltac:(cbv; discriminate) eq_refl ltac:(cbv; discriminate)
              ltac:(split; cbv; discriminate) ltac:(split; cbv; discriminate)) as (avg & _ & H1 & H2).
  exists avg. cbn [bob pos_VolumeBigint pos_AvgPriceBigint] in H1, H2. lia.
Defined.

Definition empty_store : store (ListTable Position) (ListTable OutboxEntry) (ListTable ProcessedTrade) :=
  mkStore (mkListTable []) (mkListTable []) (mkListTable []).

(** The seller has no position: the buyer is left with the volume. *)
Lemma fallback_half_applied_witness :
  exists d t,
    handleTradeExecuted (fun _ => BuyPositionTx next_id true) (fun _ => SellPositionTx true) 100
      quarter (NewPositionProcessorWithOutbox true false) empty_store
    = Ok (NewPositionProcessorWithOutbox true false, mkStore d (st_outbox empty_store) t,
          Some ErrRecordNotFound) /\
    volumes "BTC" (db_rows d) = 25000000.
Proof.
  eexists _, _. split.
  - eapply (fallback_half_applied (fun _ => BuyPositionTx next_id true) (fun _ => SellPositionTx true) 100
      quarter (NewPositionProcessorWithOutbox true false) empty_store);
      [reflexivity|reflexivity|vm_compute; reflexivity|vm_compute; reflexivity|vm_compute; reflexivity
      |vm_compute; reflexivity].
  - vm_compute. reflexivity.
Defined.
