(* ===== verification/NodeId.v ===== *)
(** * Node IDs

    Models src/biz/service/node_id_manager.go: a node looks its address up in a
    registry kept in Consul and, the first time, takes the next ID from a counter by
    compare-and-swap.  Consul is a parameter: [Consul] names the calls and
    [ConsulLaws] what it documents of them.  [GetOrAllocateNodeID] is the code of one
    node; [node_step] interleaves the calls of many nodes. *)

From stdpp Require Import base gmap strings list pretty.
From Stdlib Require Import ZArith Lia Relations.
From S2P Require Import Prelude Money.

Local Open Scope go_scope.
Local Open Scope Z_scope.

Record NodeIDEntry := mkNodeIDEntry { ne_NodeID : Z; ne_NodeAddr : string; ne_Timestamp : Z }.

(** The values under the keys: text, or the JSON of an entry. *)
Inductive kv_value : Type :=
| Bytes (s : string)
| EntryJson (e : NodeIDEntry).

(** [json.Unmarshal] into an entry: the text of a number is not an object. *)
Definition unmarshal_entry (v : kv_value) : option NodeIDEntry :=
  match v with EntryJson e => Some e | Bytes _ => None end.

(** [fmt.Sscanf(s, "%d", &id)] into a uint64: blanks, then digits; the ID stays zero
    if there are none or too many. *)
Definition parseNodeID (v : kv_value) : Z :=
  match v with
  | EntryJson _ => 0
  | Bytes s =>
      let '(id, _, _) := scan_digits 0 0 (trim_left s) in
      if MaxU64 <? id then 0 else id
  end.

Definition nodeRegistryPrefix : string := "node_registry/".
Definition nodeIDCounterKey : string := "node_registry/next_id".
Definition registry_key (nodeAddr : string) : string := nodeRegistryPrefix +:+ nodeAddr.

Class Consul (C : Type) := {
  (** The value of a key and its ModifyIndex. *)
  kv_Get : string -> C -> outcome (option (kv_value * Z));
  kv_CAS : string -> kv_value -> Z -> C -> C * outcome bool;
  kv_Put : string -> kv_value -> C -> C * option error;
  (** What is stored, and the index of the last write. *)
  kv_view : C -> string -> option (kv_value * Z);
  kv_last : C -> Z }.

(** A write stores the value under a new index and leaves other keys alone. *)
Definition written {C} `{Consul C} (key : string) (v : kv_value) (c c' : C) : Prop :=
  kv_last c < kv_last c' /\ kv_view c' key = Some (v, kv_last c') /\
  forall key', key' <> key -> kv_view c' key' = kv_view c key'.

(** Nothing was stored. *)
Definition untouched {C} `{Consul C} (c c' : C) : Prop :=
  kv_last c' = kv_last c /\ forall key, kv_view c' key = kv_view c key.

(** A call that fails may have been carried out. *)
Class ConsulLaws (C : Type) {H : Consul C} := {
  get_view key c o : kv_Get key c = Ok o -> o = kv_view c key;
  get_no_panic key c : kv_Get key c <> Panic;
  index_range key c v i : kv_view c key = Some (v, i) -> 0 < i <= kv_last c;
  last_nonneg c : 0 <= kv_last c;
  cas_true key v i c c' : kv_CAS key v i c = (c', Ok true) ->
    written key v c c' /\
    match kv_view c key with Some (_, j) => i = j | None => i = 0 end;
  cas_false key v i c c' : kv_CAS key v i c = (c', Ok false) -> untouched c c';
  cas_fails key v i c c' o : kv_CAS key v i c = (c', o) -> (forall b, o <> Ok b) ->
    untouched c c' \/
    (written key v c c' /\ match kv_view c key with Some (_, j) => i = j | None => i = 0 end);
  put_ok key v c c' : kv_Put key v c = (c', None) -> written key v c c';
  put_fails key v c c' e : kv_Put key v c = (c', Some e) -> untouched c c' \/ written key v c c' }.

Section NodeID.
Context {C : Type} `{!Consul C}.
Implicit Types (c : C).

(** The counter and its index; it starts at one. *)
Definition read_counter c : outcome (Z * Z) :=
  match kv_Get nodeIDCounterKey c with
  | Ok None => Ok (1, 0)
  | Ok (Some (v, modifyIndex)) => Ok (parseNodeID v, modifyIndex)
  | Err e => Err (errorf_w "failed to read counter" (Some e))
  | Panic => Panic
  end.

Definition cas_counter (currentID modifyIndex : Z) c : C * outcome bool :=
  kv_CAS nodeIDCounterKey (Bytes (pretty (u64 (currentID + 1)))) modifyIndex c.

(** The attempts still to make. *)
Fixpoint allocate (left : nat) c : C * outcome Z :=
  match left with
  | O => (c, Err "failed to allocate NodeID after 3 retries (CAS conflict)")
  | S left' =>
      match read_counter c with
      | Err e => (c, Err e)
      | Panic => (c, Panic)
      | Ok (currentID, modifyIndex) =>
          if 1023 <? currentID then
            (c, Err ("NodeID exhausted: max 1024 nodes supported, current=" +:+ pretty currentID))
          else
            match cas_counter currentID modifyIndex c with
            | (c', Ok true) => (c', Ok currentID)
            | (c', Ok false) => allocate left' c'
            | (c', Err e) => (c', Err (errorf_w "CAS operation failed" (Some e)))
            | (c', Panic) => (c', Panic)
            end
      end
  end.

Definition allocateNewNodeID c : C * outcome Z := allocate 3 c.

(** The entry of an address, if one is registered and decodes. *)
Definition registered (nodeAddr : string) c : outcome (option Z) :=
  match kv_Get (registry_key nodeAddr) c with
  | Ok None => Ok None
  | Ok (Some (v, _)) => Ok (ne_NodeID <$> unmarshal_entry v)
  | Err e => Err (errorf_w "failed to query node registry" (Some e))
  | Panic => Panic
  end.

Definition save_registry (now : Z) (nodeAddr : string) (id : Z) c : C * option error :=
  kv_Put (registry_key nodeAddr) (EntryJson (mkNodeIDEntry id nodeAddr now)) c.

Definition GetOrAllocateNodeID (now : Z) (nodeAddr : string) c : C * outcome Z :=
  if nodeAddr =s "" then (c, Err "nodeAddr must not be empty")
  else
    match registered nodeAddr c with
    | Err e => (c, Err e)
    | Panic => (c, Panic)
    | Ok (Some id) => (c, Ok id)
    | Ok None =>
        match allocateNewNodeID c with
        | (c1, Err e) => (c1, Err (errorf_w "failed to allocate new NodeID" (Some e)))
        | (c1, Panic) => (c1, Panic)
        | (c1, Ok newNodeID) =>
            match save_registry now nodeAddr newNodeID c1 with
            | (c2, Some e) => (c2, Err (errorf_w "failed to save node registry" (Some e)))
            | (c2, None) => (c2, Ok newNodeID)
            end
        end
    end.

(** ** Many nodes

    Where a node is in [GetOrAllocateNodeID]; a node is known by its address. *)
Inductive phase : Type :=
| Allocating (left : nat)
| ReadCounter (left : nat) (currentID modifyIndex : Z)
| Won (id : Z)
| Returned (o : outcome Z).

Abbreviation nodes := (gmap string phase).

(** [addrs] are the addresses the nodes are deployed with. *)
Context (addrs : list string).

Inductive node_step : C * nodes -> C * nodes -> Prop :=
| step_query addr c ph id :
    (** a call starts with the registry *)
    addr ∈ addrs -> addr <> "" -> (match ph !! addr with None | Some (Returned _) => True | _ => False end) ->
    registered addr c = Ok (Some id) ->
    node_step (c, ph) (c, <[addr := Returned (Ok id)]> ph)
| step_absent addr c ph :
    addr ∈ addrs -> addr <> "" -> (match ph !! addr with None | Some (Returned _) => True | _ => False end) ->
    registered addr c = Ok None ->
    node_step (c, ph) (c, <[addr := Allocating 3]> ph)
| step_read addr c ph left currentID modifyIndex :
    ph !! addr = Some (Allocating (S left)) ->
    read_counter c = Ok (currentID, modifyIndex) -> currentID <= 1023 ->
    node_step (c, ph) (c, <[addr := ReadCounter left currentID modifyIndex]> ph)
| step_cas addr c ph left currentID modifyIndex c' o :
    ph !! addr = Some (ReadCounter left currentID modifyIndex) ->
    cas_counter currentID modifyIndex c = (c', o) ->
    node_step (c, ph)
      (c', <[addr := match o with
                     | Ok true => Won currentID
                     | Ok false => Allocating left
                     | Err e => Returned (Err e)
                     | Panic => Returned Panic
                     end]> ph)
| step_save addr c ph id now c' o :
    ph !! addr = Some (Won id) ->
    save_registry now addr id c = (c', o) ->
    node_step (c, ph)
      (c', <[addr := match o with None => Returned (Ok id) | Some e => Returned (Err e) end]> ph)
| step_give_up addr c ph p e :
    (** any of the calls that only read may fail, and the attempts end *)
    ph !! addr = Some p -> (match p with Allocating _ => True | _ => False end) ->
    node_step (c, ph) (c, <[addr := Returned (Err e)]> ph).
End NodeID.
