(* ===== verification/NodeIdProps.v ===== *)
(** * Properties of the node IDs

    Whatever the interleaving of the nodes, and although any call may fail before or
    after it took effect, two addresses never hold the same ID; a node that comes
    back gets the ID it had. *)

From stdpp Require Import base gmap strings list pretty.
From Stdlib Require Import ZArith Lia Relations.
From S2P Require Import Prelude Money Sequencer NodeId.

Local Open Scope go_scope.
Local Open Scope Z_scope.

(** The counter is written as decimal text and read back. *)
Lemma parse_counter n : 0 <= n <= 1024 -> parseNodeID (Bytes (pretty n)) = n.
Proof.
  intros Hn. assert (Hall : forallb (fun k => parseNodeID (Bytes (pretty (Z.of_nat k))) =? Z.of_nat k) (seq 0 1025) = true)
    by (vm_compute; reflexivity).
  rewrite forallb_forall in Hall. specialize (Hall (Z.to_nat n)).
  rewrite Z2Nat.id in Hall by lia. apply Z.eqb_eq, Hall, in_seq. lia.
Qed.

Lemma registry_key_inj a b : registry_key a = registry_key b -> a = b.
Proof. unfold registry_key, nodeRegistryPrefix. simpl. intros H. by injection H. Qed.

Lemma registry_key_counter a : a <> "next_id" -> registry_key a <> nodeIDCounterKey.
Proof. unfold registry_key, nodeRegistryPrefix, nodeIDCounterKey. simpl. intros Hne H. by injection H. Qed.

Section Props.
Context {C : Type} {HC : Consul C} {HCL : ConsulLaws C}.
Implicit Types (c : C) (ph : gmap string phase).

(** The next ID to hand out. *)
Definition next_free c : Z :=
  match kv_view c nodeIDCounterKey with Some (v, _) => parseNodeID v | None => 1 end.

(** The ID registered under an address. *)
Definition registry_id c (addr : string) : option Z :=
  kv_view c (registry_key addr) ≫= fun vi => ne_NodeID <$> unmarshal_entry vi.1.

(** An address holds an ID once it won it, and for good once it is registered. *)
Definition holds c ph (addr : string) (id : Z) : Prop :=
  ph !! addr = Some (Won id) \/ registry_id c addr = Some id.

Record nodes_ok c ph : Prop := {
  ok_next : 1 <= next_free c <= 1024;
  ok_reserved : ph !! "next_id" = None;
  ok_bounds addr id : addr <> "next_id" -> holds c ph addr id -> 1 <= id < next_free c;
  ok_unique a b id : a <> "next_id" -> b <> "next_id" -> holds c ph a id -> holds c ph b id -> a = b;
  ok_read addr left cur idx : ph !! addr = Some (ReadCounter left cur idx) ->
    cur <= 1023 /\ 0 <= idx <= kv_last c /\
    match kv_view c nodeIDCounterKey with
    | Some (v, i) => i = idx -> cur = parseNodeID v
    | None => idx = 0 -> cur = 1
    end;
  ok_absent addr p : ph !! addr = Some p -> match p with NodeId.Returned _ => False | _ => True end ->
    registry_id c addr = None;
  ok_returned addr id : ph !! addr = Some (NodeId.Returned (Ok id)) -> registry_id c addr = Some id }.

(** What [registered] and [read_counter] answer. *)
Lemma registered_view addr c o : registered addr c = Ok o -> o = registry_id c addr.
Proof.
  unfold registered, registry_id. destruct (kv_Get _ c) as [[[v i]|]|e|] eqn:Hg; try done;
    apply get_view in Hg; rewrite <- Hg; intros [= <-]; done.
Qed.

Lemma read_counter_view c cur idx :
  read_counter c = Ok (cur, idx) ->
  cur = next_free c /\
  match kv_view c nodeIDCounterKey with Some (_, i) => idx = i | None => idx = 0 end.
Proof.
  unfold read_counter, next_free. destruct (kv_Get _ c) as [[[v i]|]|e|] eqn:Hg; try done;
    apply get_view in Hg; rewrite <- Hg; intros [= <- <-]; done.
Qed.

(** The state of Consul only changes by writes of the counter and of entries. *)
Lemma untouched_views c c' : untouched c c' ->
  next_free c' = next_free c /\ (forall a, registry_id c' a = registry_id c a) /\
  kv_view c' nodeIDCounterKey = kv_view c nodeIDCounterKey /\ kv_last c' = kv_last c.
Proof. intros [Hl Hv]. unfold next_free, registry_id. rewrite Hv. split_and!; [done| |done|done]. intros a. by rewrite Hv. Qed.

Lemma counter_written cur c c' :
  1 <= cur <= 1023 -> written nodeIDCounterKey (Bytes (pretty (u64 (cur + 1)))) c c' ->
  next_free c' = cur + 1 /\ (forall a, a <> "next_id" -> registry_id c' a = registry_id c a) /\
  kv_view c' nodeIDCounterKey = Some (Bytes (pretty (cur + 1)), kv_last c') /\ kv_last c < kv_last c'.
Proof.
  intros Hcur (Hl & Hk & Ho). rewrite (u64_id (cur + 1)) in Hk by solve_i64.
  unfold next_free. rewrite Hk. split_and!; [apply parse_counter; lia| |done|done].
  intros a Ha. unfold registry_id. by rewrite Ho by (by apply registry_key_counter).
Qed.

Lemma entry_written addr e c c' :
  addr <> "next_id" -> written (registry_key addr) (EntryJson e) c c' ->
  next_free c' = next_free c /\ registry_id c' addr = Some (ne_NodeID e) /\
  (forall a, a <> addr -> registry_id c' a = registry_id c a) /\
  kv_view c' nodeIDCounterKey = kv_view c nodeIDCounterKey /\ kv_last c < kv_last c'.
Proof.
  intros Ha (Hl & Hk & Ho).
  assert (Hc : kv_view c' nodeIDCounterKey = kv_view c nodeIDCounterKey)
    by (apply Ho; intros Heq; by apply (registry_key_counter addr)).
  unfold next_free, registry_id. rewrite Hc, Hk. split_and!; [done|done| |done|done].
  intros a Hne. rewrite Ho; [done|]. by intros Heq%registry_key_inj.
Qed.

(** ** The invariant *)

Lemma holds_insert c c' ph addr p a id :
  registry_id c' a = registry_id c a ->
  (a = addr -> p <> Won id) -> holds c' (<[addr := p]> ph) a id -> holds c ph a id.
Proof.
  intros Hr Hp [Hw|Hw]; [|right; by rewrite <- Hr]. destruct (decide (a = addr)) as [->|Hne].
  - rewrite lookup_insert_eq in Hw. simplify_eq. by destruct Hp.
  - rewrite lookup_insert_ne in Hw by done. by left.
Qed.

(** A step that leaves Consul alone and does not win. *)
Lemma ok_local c c' ph addr p :
  nodes_ok c ph -> untouched c c' -> addr <> "next_id" ->
  (forall id, p <> Won id) ->
  match p with
  | ReadCounter _ cur idx => read_counter c = Ok (cur, idx) /\ cur <= 1023 /\ registry_id c addr = None
  | Allocating _ => registry_id c addr = None
  | NodeId.Returned (Ok id) => registry_id c addr = Some id
  | _ => True
  end ->
  nodes_ok c' (<[addr := p]> ph).
Proof.
  intros Hok Hun Ha Hp Hcond. apply untouched_views in Hun as (Hnf & Hreg & Hcnt & Hlast).
  assert (Hh : forall a id, holds c' (<[addr := p]> ph) a id -> holds c ph a id)
    by (intros a id; apply holds_insert; [apply Hreg|intros _; apply Hp]).
  destruct Hok. split.
  - by rewrite Hnf.
  - by rewrite lookup_insert_ne.
  - intros a id Hne H. rewrite Hnf. eauto.
  - intros a b id Hna Hnb H1 H2. eauto.
  - intros a left cur idx. rewrite Hcnt, Hlast. destruct (decide (a = addr)) as [->|Hne].
    + rewrite lookup_insert_eq. intros [= ->]. destruct Hcond as ([Hcur Hidx]%read_counter_view & Hle & _).
      split; [done|]. unfold next_free in Hcur. pose proof (last_nonneg c).
      destruct (kv_view c nodeIDCounterKey) as [[v i]|] eqn:Hv; subst; [|split; [lia|done]].
      apply index_range in Hv. split; [lia|done].
    + rewrite lookup_insert_ne by done. eauto.
  - intros a q. rewrite Hreg. destruct (decide (a = addr)) as [->|Hne].
    + rewrite lookup_insert_eq. intros [= ->] Hq. destruct q; try done; [naive_solver|by destruct (Hp id)].
    + rewrite lookup_insert_ne by done. eauto.
  - intros a id. rewrite Hreg. destruct (decide (a = addr)) as [->|Hne].
    + rewrite lookup_insert_eq. by intros [= ->].
    + rewrite lookup_insert_ne by done. eauto.
Qed.

(** The counter moved on; [p] is what the node that moved it does next. *)
Lemma ok_counter c c' ph addr p left idx :
  nodes_ok c ph -> ph !! addr = Some (ReadCounter left (next_free c) idx) -> addr <> "next_id" ->
  written nodeIDCounterKey (Bytes (pretty (u64 (next_free c + 1)))) c c' ->
  (p = Won (next_free c) \/ exists o, p = NodeId.Returned o /\ forall id, o <> Ok id) ->
  nodes_ok c' (<[addr := p]> ph).
Proof.
  intros Hok Hph Ha Hw Hp.
  assert (Hcur : 1 <= next_free c <= 1023) by (destruct (ok_read _ _ Hok _ _ _ _ Hph); pose proof (ok_next _ _ Hok); lia).
  apply counter_written in Hw as (Hnf & Hreg & Hcnt & Hlast); [|done].
  assert (Hnone : registry_id c addr = None) by by eapply (ok_absent _ _ Hok).
  assert (Hh : forall a id, a <> "next_id" -> holds c' (<[addr := p]> ph) a id ->
     holds c ph a id \/ (a = addr /\ id = next_free c)).
  { intros a id Hna [H|H]; [|left; right; by rewrite <- Hreg].
    destruct (decide (a = addr)) as [->|Hne].
    - rewrite lookup_insert_eq in H. destruct Hp as [->|(o & -> & _)]; simplify_eq. by right.
    - rewrite lookup_insert_ne in H by done. by left; left. }
  assert (Hsame : forall a, a <> addr -> (<[addr := p]> ph : gmap string phase) !! a = ph !! a)
    by (intros; by apply lookup_insert_ne).
  destruct Hok as [Hnext Hres Hb Hu Hr Hab Hret]. split.
  - lia.
  - by rewrite Hsame.
  - intros a id Hna [H|[-> ->]]%Hh; [apply Hb in H; [lia|done]|lia|done].
  - intros a b id Hna Hnb H1%Hh H2%Hh; [|done|done].
    destruct H1 as [H1|[-> ->]], H2 as [H2|[-> Heq]]; [by eapply Hu| | |done].
    + subst id. apply Hb in H1; [lia|done].
    + apply Hb in H2; [lia|done].
  - intros a l cur i. destruct (decide (a = addr)) as [->|Hne].
    + rewrite lookup_insert_eq. destruct Hp as [->|(o & -> & _)]; done.
    + rewrite Hsame by done. intros Hx. destruct (Hr _ _ _ _ Hx) as (? & ? & _).
      split_and!; [done|lia|lia|]. rewrite Hcnt. lia.
  - intros a q. destruct (decide (a = addr)) as [->|Hne].
    + intros _ _. by rewrite Hreg.
    + rewrite Hsame by done. intros Hx Hq. rewrite Hreg; [eauto|]. intros ->. by rewrite Hres in Hx.
  - intros a id. destruct (decide (a = addr)) as [->|Hne].
    + rewrite lookup_insert_eq. destruct Hp as [->|(o & -> & Ho)]; [done|].
      intros [= ->]. by destruct (Ho id).
    + rewrite Hsame by done. intros Hx. rewrite Hreg; [eauto|]. intros ->. by rewrite Hres in Hx.
Qed.

(** The entry of a winner is stored. *)
Lemma ok_saved c c' ph addr id p now :
  nodes_ok c ph -> ph !! addr = Some (Won id) -> addr <> "next_id" ->
  written (registry_key addr) (EntryJson (mkNodeIDEntry id addr now)) c c' ->
  (exists o, p = NodeId.Returned o /\ forall i, o = Ok i -> i = id) ->
  nodes_ok c' (<[addr := p]> ph).
Proof.
  intros Hok Hph Ha Hw (o & -> & Ho).
  apply entry_written in Hw as (Hnf & Hme & Hreg & Hcnt & Hlast); [|done]. simpl in Hme.
  assert (Hh : forall a i, holds c' (<[addr := NodeId.Returned o]> ph) a i -> holds c ph a i).
  { intros a i [H|H]; destruct (decide (a = addr)) as [->|Hne].
    - by rewrite lookup_insert_eq in H.
    - rewrite lookup_insert_ne in H by done. by left.
    - left. congruence.
    - right. by rewrite <- Hreg. }
  destruct Hok as [Hnext Hres Hb Hu Hr Hab Hret]. split.
  - by rewrite Hnf.
  - by rewrite lookup_insert_ne.
  - intros a i Hne H. rewrite Hnf. eauto.
  - intros a b i Hna Hnb H1 H2. eauto.
  - intros a l cur i. destruct (decide (a = addr)) as [->|Hne]; [by rewrite lookup_insert_eq|].
    rewrite lookup_insert_ne by done. rewrite Hcnt. intros Hx.
    destruct (Hr _ _ _ _ Hx) as (? & ? & ?). split_and!; [done|lia|lia|done].
  - intros a q. destruct (decide (a = addr)) as [->|Hne]; [rewrite lookup_insert_eq; by intros [= <-]|].
    rewrite lookup_insert_ne by done. intros. rewrite Hreg by done. eauto.
  - intros a i. destruct (decide (a = addr)) as [->|Hne].
    + rewrite lookup_insert_eq. intros [= ->]. by rewrite Hme, (Ho i).
    + rewrite lookup_insert_ne by done. intros. rewrite Hreg by done. eauto.
Qed.

Context (addrs : list string) (Hreserved : "next_id" ∉ addrs).

Lemma untouched_refl c : untouched c c.
Proof. by split. Qed.

Lemma phase_addr c ph addr p : nodes_ok c ph -> ph !! addr = Some p -> addr <> "next_id".
Proof. intros Hok Hph ->. by rewrite (ok_reserved _ _ Hok) in Hph. Qed.

(** The node whose swap went through had read the counter as it is. *)
Lemma cas_current c ph addr left cur idx :
  nodes_ok c ph -> ph !! addr = Some (ReadCounter left cur idx) ->
  match kv_view c nodeIDCounterKey with Some (_, j) => idx = j | None => idx = 0 end ->
  cur = next_free c.
Proof.
  intros Hok Hph Hidx. destruct (ok_read _ _ Hok _ _ _ _ Hph) as (_ & _ & Hm). unfold next_free.
  destruct (kv_view c nodeIDCounterKey) as [[v j]|]; auto.
Qed.

Lemma step_ok c ph c' ph' : node_step addrs (c, ph) (c', ph') -> nodes_ok c ph -> nodes_ok c' ph'.
Proof.
  intros Hstep Hok. inversion Hstep; subst.
  - apply (ok_local c' c'); [done|apply untouched_refl|by intros ->|done|].
    symmetry. by apply registered_view.
  - apply (ok_local c' c'); [done|apply untouched_refl|by intros ->|done|].
    symmetry. by apply registered_view.
  - apply (ok_local c' c'); [done|apply untouched_refl|by eapply phase_addr|done|].
    split_and!; [done|done|by eapply (ok_absent _ _ Hok)].
  - match goal with H : cas_counter _ _ _ = _ |- _ => rename H into Hcas end.
    match goal with H : ph !! addr = _ |- _ => rename H into Hph end.
    assert (Ha := phase_addr _ _ _ _ Hok Hph). unfold cas_counter in Hcas.
    destruct o as [[|]|e|].
    + apply cas_true in Hcas as [Hw Hi]. pose proof (cas_current _ _ _ _ _ _ Hok Hph Hi) as ->.
      eapply ok_counter; eauto.
    + apply cas_false in Hcas. eapply ok_local; eauto. by eapply (ok_absent _ _ Hok).
    + apply cas_fails in Hcas as [Hun|[Hw Hi]]; [eapply ok_local; eauto; done| |done].
      pose proof (cas_current _ _ _ _ _ _ Hok Hph Hi) as ->. eapply ok_counter; eauto; right; by eexists.
    + apply cas_fails in Hcas as [Hun|[Hw Hi]]; [eapply ok_local; eauto; done| |done].
      pose proof (cas_current _ _ _ _ _ _ Hok Hph Hi) as ->. eapply ok_counter; eauto; right; by eexists.
  - match goal with H : save_registry _ _ _ _ = _ |- _ => rename H into Hsave end.
    match goal with H : ph !! addr = _ |- _ => rename H into Hph end.
    assert (Ha := phase_addr _ _ _ _ Hok Hph). unfold save_registry in Hsave. destruct o as [e|].
    + apply put_fails in Hsave as [Hun|Hw]; [eapply ok_local; eauto; done|].
      eapply ok_saved; eauto. by eexists.
    + apply put_ok in Hsave. eapply ok_saved; eauto. eexists. split; [done|]. by intros i [= ->].
  - apply (ok_local c' c'); [done|apply untouched_refl|by eapply phase_addr|done|done].
Qed.

(** An entry, once stored, stays. *)
Lemma step_keeps c ph c' ph' a id :
  node_step addrs (c, ph) (c', ph') -> nodes_ok c ph -> a <> "next_id" ->
  registry_id c a = Some id -> registry_id c' a = Some id.
Proof.
  intros Hstep Hok Hna Hid. inversion Hstep; subst; try done.
  - match goal with H : cas_counter _ _ _ = _ |- _ => rename H into Hcas end.
    match goal with H : ph !! addr = _ |- _ => rename H into Hph end. unfold cas_counter in Hcas.
    assert (Hw : forall v, written nodeIDCounterKey v c c' -> registry_id c' a = Some id).
    { intros v (_ & _ & Ho). unfold registry_id. by rewrite Ho by (by apply registry_key_counter). }
    assert (Hu : untouched c c' -> registry_id c' a = Some id)
      by (intros (_ & Hreg & _)%untouched_views; by rewrite Hreg).
    destruct o as [[|]|e|];
      [apply cas_true in Hcas as [? _]|apply cas_false in Hcas|apply cas_fails in Hcas as [?|[? _]]
      |apply cas_fails in Hcas as [?|[? _]]]; eauto; done.
  - match goal with H : save_registry _ _ _ _ = _ |- _ => rename H into Hsave end.
    match goal with H : ph !! addr = _ |- _ => rename H into Hph end. unfold save_registry in Hsave.
    assert (Hne : a <> addr) by (intros ->; by rewrite (ok_absent _ _ Hok _ _ Hph) in Hid).
    assert (Hw : forall v, written (registry_key addr) v c c' -> registry_id c' a = Some id).
    { intros v (_ & _ & Ho). unfold registry_id. rewrite Ho; [done|]. by intros ?%registry_key_inj. }
    assert (Hu : untouched c c' -> registry_id c' a = Some id)
      by (intros (_ & Hreg & _)%untouched_views; by rewrite Hreg).
    destruct o; [apply put_fails in Hsave as [?|?]|apply put_ok in Hsave]; eauto.
Qed.

Lemma steps_ok s s' : clos_refl_trans _ (node_step addrs) s s' ->
  nodes_ok s.1 s.2 -> nodes_ok s'.1 s'.2.
Proof. induction 1 as [[c ph] [c' ph'] Hs| |]; simpl in *; eauto using step_ok. Qed.

Lemma steps_keep s s' a id : clos_refl_trans _ (node_step addrs) s s' ->
  nodes_ok s.1 s.2 -> a <> "next_id" -> registry_id s.1 a = Some id -> registry_id s'.1 a = Some id.
Proof.
  intros Hs Hok Ha. revert Hok. induction Hs as [[c ph] [c' ph'] Hs| |x y z H1 IH1 H2 IH2]; simpl in *;
    [eauto using step_keeps|done|]. intros Hok Hid. apply IH2; [by eapply steps_ok|by apply IH1].
Qed.

Lemma empty_ok c : (forall key, kv_view c key = None) -> nodes_ok c ∅.
Proof.
  intros Hv. assert (Hr : forall a, registry_id c a = None) by (intros; unfold registry_id; by rewrite Hv).
  assert (Hh : forall a id, ~ holds c ∅ a id) by (intros a id [H|H]; [by rewrite lookup_empty in H|by rewrite Hr in H]).
  split; try (intros *; by rewrite lookup_empty); try by (intros * ? H; destruct (Hh _ _ H)).
  - unfold next_free. rewrite Hv. lia.
  - intros a b id _ _ H. by destruct (Hh _ _ H).
Qed.

(** C27: from an empty Consul, in every interleaving of the nodes and with calls that
    fail at any point: an ID a node got is between 1 and 1023, a node that asks again
    later gets the same ID, and no other node ever gets it. *)
Theorem node_ids_unique c0 c1 ph1 c2 ph2 a b i j :
  (forall key, kv_view c0 key = None) ->
  clos_refl_trans _ (node_step addrs) (c0, ∅) (c1, ph1) ->
  clos_refl_trans _ (node_step addrs) (c1, ph1) (c2, ph2) ->
  ph1 !! a = Some (NodeId.Returned (Ok i)) -> ph2 !! b = Some (NodeId.Returned (Ok j)) ->
  1 <= i <= 1023 /\ (i = j <-> a = b).
Proof.
  intros H0 H1 H2 Ha Hb. pose proof (steps_ok _ _ H1 (empty_ok _ H0)) as Hok1. simpl in Hok1.
  pose proof (steps_ok _ _ H2 Hok1) as Hok2. simpl in Hok2.
  assert (Hna := phase_addr _ _ _ _ Hok1 Ha). assert (Hnb := phase_addr _ _ _ _ Hok2 Hb).
  apply (ok_returned _ _ Hok1) in Ha. apply (ok_returned _ _ Hok2) in Hb.
  pose proof (steps_keep _ _ _ _ H2 Hok1 Hna Ha) as Ha2. simpl in Ha2.
  split.
  - pose proof (ok_bounds _ _ Hok1 a i Hna (or_intror Ha)). pose proof (ok_next _ _ Hok1). lia.
  - split; [|congruence]. intros <-. apply (ok_unique _ _ Hok2 a b i); [done|done|by right|by right].
Qed.

(** ** The code of one node is a run of the steps *)

Lemma allocate_run left c c' id addr ph :
  allocate left c = (c', Ok id) ->
  clos_refl_trans _ (node_step addrs) (c, <[addr := Allocating left]> ph) (c', <[addr := Won id]> ph).
Proof.
  revert c. induction left as [|left IH]; intros c; simpl; [done|].
  destruct (read_counter c) as [[cur idx]|e|] eqn:Hr; [|done|done].
  destruct (Z.ltb_spec 1023 cur); [done|].
  destruct (cas_counter cur idx c) as [c1 [[|]|e|]] eqn:Hc; [| |done|done].
  - intros [= <- <-]. eapply rt_trans; apply rt_step.
    + eapply (step_read _ addr); [by rewrite lookup_insert_eq|done|lia].
    + rewrite insert_insert_eq.
      replace (<[addr := Won cur]> ph) with (<[addr := Won cur]> (<[addr := ReadCounter left cur idx]> ph))
        by apply insert_insert_eq.
      eapply (step_cas _ addr _ _ _ _ _ _ (Ok true)); [by rewrite lookup_insert_eq|done].
  - intros Hrest. eapply rt_trans; [|eapply IH, Hrest]. eapply rt_trans; apply rt_step.
    + eapply (step_read _ addr); [by rewrite lookup_insert_eq|done|lia].
    + rewrite insert_insert_eq.
      replace (<[addr := Allocating left]> ph) with (<[addr := Allocating left]> (<[addr := ReadCounter left cur idx]> ph))
        by apply insert_insert_eq.
      eapply (step_cas _ addr _ _ _ _ _ _ (Ok false)); [by rewrite lookup_insert_eq|done].
Qed.

Lemma get_or_allocate_run now addr c c' id ph :
  addr ∈ addrs -> ph !! addr = None ->
  GetOrAllocateNodeID now addr c = (c', Ok id) ->
  clos_refl_trans _ (node_step addrs) (c, ph) (c', <[addr := NodeId.Returned (Ok id)]> ph).
Proof.
  intros Hin Hph. unfold GetOrAllocateNodeID. case_bool_decide as Hne; [done|].
  destruct (registered addr c) as [[i|]|e|] eqn:Hr; [| |done|done].
  - intros [= <- <-]. apply rt_step. apply step_query; [done|done|by rewrite Hph|done].
  - destruct (allocateNewNodeID c) as [c1 [i|e|]] eqn:Ha; [|done|done].
    destruct (save_registry now addr i c1) as [c2 [e|]] eqn:Hs; [done|]. intros [= <- <-].
    eapply rt_trans; [apply rt_step, step_absent; [done|done|by rewrite Hph|done]|].
    eapply rt_trans; [eapply allocate_run, Ha|]. apply rt_step.
    replace (<[addr := NodeId.Returned (Ok i)]> ph)
      with (<[addr := NodeId.Returned (Ok i)]> (<[addr := Won i]> ph)) by apply insert_insert_eq.
    eapply (step_save _ addr _ _ _ _ _ None); [by rewrite lookup_insert_eq|done].
Qed.
End Props.

(** ** Consul in memory, and a witness *)

(** The writes, the latest first; the index of a write is its position. *)
Record MemConsul := mkMemConsul { mc_log : list (string * kv_value) }.

Fixpoint mc_view (log : list (string * kv_value)) (key : string) : option (kv_value * Z) :=
  match log with
  | [] => None
  | (k, v) :: rest => if k =s key then Some (v, Z.of_nat (length log)) else mc_view rest key
  end.

#[global] Instance MemConsul_ops : Consul MemConsul := {|
  kv_Get key c := Ok (mc_view (mc_log c) key);
  kv_CAS key v i c :=
    if bool_decide (i = match mc_view (mc_log c) key with Some (_, j) => j | None => 0 end)
    then (mkMemConsul ((key, v) :: mc_log c), Ok true) else (c, Ok false);
  kv_Put key v c := (mkMemConsul ((key, v) :: mc_log c), None);
  kv_view c key := mc_view (mc_log c) key;
  kv_last c := Z.of_nat (length (mc_log c)) |}.

Lemma mc_write_written key v c : written key v c (mkMemConsul ((key, v) :: mc_log c)).
Proof.
  split_and!; simpl; [lia|by rewrite bool_decide_eq_true_2|]. intros key' Hne.
  by rewrite bool_decide_eq_false_2.
Qed.

#[global] Instance MemConsul_laws : ConsulLaws MemConsul.
Proof.
  split; simpl; intros *.
  - by intros [= <-].
  - done.
  - destruct c as [log]. simpl. induction log as [|[k w] log IH]; simpl; [done|].
    case_bool_decide; [intros [= <- <-]; lia|]. intros Hx%IH. lia.
  - lia.
  - case_bool_decide as Hi; [|done]. intros [= <-]. split; [apply mc_write_written|].
    by destruct (mc_view _ _) as [[? ?]|].
  - case_bool_decide; intros; simplify_eq. by split.
  - case_bool_decide; intros [= <- <-] Hn; exfalso; by eapply Hn.
  - intros [= <-]. apply mc_write_written.
  - done.
Qed.

(** Two nodes start one after the other. *)
Lemma node_ids_unique_witness : 1 <= 1 <= 1023 /\ (1 = 2 <-> "worker-0" = "worker-1").
Proof.
  set (c1 := (GetOrAllocateNodeID 10 "worker-0" (mkMemConsul [])).1).
  set (c2 := (GetOrAllocateNodeID 20 "worker-1" c1).1).
  eapply (node_ids_unique ["worker-0"; "worker-1"] ltac:(set_solver) (mkMemConsul [])
           c1 (<["worker-0" := NodeId.Returned (Ok 1)]> ∅)
           c2 (<["worker-1" := NodeId.Returned (Ok 2)]> (<["worker-0" := NodeId.Returned (Ok 1)]> ∅))).
  - done.
  - apply (get_or_allocate_run _ 10); [set_solver|done|vm_compute; reflexivity].
  - apply (get_or_allocate_run _ 20); [set_solver|done|vm_compute; reflexivity].
  - done.
  - done.
Defined.
