(* ===== verification/Offsets.v ===== *)
(** * The Kafka offset tracker

    Models src/biz/service/kafka_offset_tracker.go: the offsets a processor has
    consumed and committed for a symbol and the highest offset produced, and the
    manager that keeps one tracker per processor and symbol.  Commits go to the
    checkpoint repository of Checkpoint.v. *)

From stdpp Require Import base gmap strings list sorting pretty fin_maps.
From Stdlib Require Import ZArith Lia Relations.
From S2P Require Import Prelude Database Checkpoint CheckpointProps.

Local Open Scope go_scope.
Local Open Scope Z_scope.

Record OffsetTracker := mkOffsetTracker {
  ot_symbol : string;
  ot_processorName : string;
  ot_consumedOffset : Z;
  ot_committedOffset : Z;
  ot_lastCommitTime : Z;
  ot_kafkaProducerOffset : Z;
  ot_kafkaConsumerGroup : string;
  ot_commitCount : Z;
  ot_commitFailureCount : Z;
  ot_lagHighWaterMark : Z }.
Implicit Types (t : OffsetTracker).

Record OffsetStatus := mkOffsetStatus {
  os_Symbol : string;
  os_ProcessorName : string;
  os_ConsumedOffset : Z;
  os_CommittedOffset : Z;
  os_ProducedOffset : Z;
  os_ConsumerLag : Z;
  os_ConsumedButNotCommitted : Z;
  os_LastCommitTime : Z;
  os_CommitCount : Z;
  os_CommitFailureCount : Z;
  os_LagHighWaterMark : Z }.

Definition NewOffsetTracker (now : Z) (symbol processorName : string) : OffsetTracker :=
  mkOffsetTracker symbol processorName 0 0 now 0 ("cex-hertz-" +:+ processorName) 0 0 0.

Definition set_consumed (offset : Z) t : OffsetTracker :=
  mkOffsetTracker (ot_symbol t) (ot_processorName t) offset (ot_committedOffset t)
    (ot_lastCommitTime t) (ot_kafkaProducerOffset t) (ot_kafkaConsumerGroup t) (ot_commitCount t)
    (ot_commitFailureCount t) (ot_lagHighWaterMark t).

Definition TrackConsumedOffset (offset : Z) t : OffsetTracker :=
  if ot_consumedOffset t <? offset then set_consumed offset t else t.

Definition UpdateKafkaProducerOffset (offset : Z) t : OffsetTracker :=
  if ot_kafkaProducerOffset t <? offset
  then mkOffsetTracker (ot_symbol t) (ot_processorName t) (ot_consumedOffset t)
         (ot_committedOffset t) (ot_lastCommitTime t) offset (ot_kafkaConsumerGroup t)
         (ot_commitCount t) (ot_commitFailureCount t) (ot_lagHighWaterMark t)
  else t.

(** The lag, and the tracker with its high-water mark. *)
Definition GetConsumerLag t : Z * OffsetTracker :=
  let lag := i64 (ot_kafkaProducerOffset t - ot_committedOffset t) in
  (lag, if ot_lagHighWaterMark t <? lag
        then mkOffsetTracker (ot_symbol t) (ot_processorName t) (ot_consumedOffset t)
               (ot_committedOffset t) (ot_lastCommitTime t) (ot_kafkaProducerOffset t)
               (ot_kafkaConsumerGroup t) (ot_commitCount t) (ot_commitFailureCount t) lag
        else t).

Definition GetConsumedButNotCommitted t : Z := i64 (ot_consumedOffset t - ot_committedOffset t).

Definition GetRecoveryStartOffset t : Z := i64 (ot_committedOffset t + 1).

Definition VerifyOffsetConsistency t : option error :=
  if ot_consumedOffset t <? ot_committedOffset t then
    Some ("offset constraint violated: committedOffset=" +:+ pretty (ot_committedOffset t)
          +:+ " > consumedOffset=" +:+ pretty (ot_consumedOffset t))
  else if ot_kafkaProducerOffset t <? ot_consumedOffset t then
    Some ("offset constraint violated: consumedOffset=" +:+ pretty (ot_consumedOffset t)
          +:+ " > producedOffset=" +:+ pretty (ot_kafkaProducerOffset t))
  else
    let lag := i64 (ot_kafkaProducerOffset t - ot_committedOffset t) in
    if lag <? 0 then Some ("negative consumer lag: " +:+ pretty lag) else None.

Definition GetStatus t : OffsetStatus :=
  mkOffsetStatus (ot_symbol t) (ot_processorName t) (ot_consumedOffset t) (ot_committedOffset t)
    (ot_kafkaProducerOffset t) (i64 (ot_kafkaProducerOffset t - ot_committedOffset t))
    (i64 (ot_consumedOffset t - ot_committedOffset t)) (ot_lastCommitTime t) (ot_commitCount t)
    (ot_commitFailureCount t) (ot_lagHighWaterMark t).

Section Commit.
Context {D : Type} `{!Table D EventOffsetCheckpoint}.

Definition CommitOffset (now offset eventSeq : Z) t (repo : D) : OffsetTracker * D * option error :=
  if ot_consumedOffset t <? offset then
    (t, repo, Some ("cannot commit offset " +:+ pretty offset +:+ " > consumedOffset "
                    +:+ pretty (ot_consumedOffset t)))
  else
    let checkpoint := mkCheckpoint (ot_processorName t) (ot_symbol t) eventSeq offset 0 now "" 0 0
                        "none" None None "" 0 0 in
    match Repo.SaveCheckpoint now checkpoint repo with
    | (repo', Some e, _) =>
        (mkOffsetTracker (ot_symbol t) (ot_processorName t) (ot_consumedOffset t)
           (ot_committedOffset t) (ot_lastCommitTime t) (ot_kafkaProducerOffset t)
           (ot_kafkaConsumerGroup t) (ot_commitCount t) (i64 (ot_commitFailureCount t + 1))
           (ot_lagHighWaterMark t), repo', Some (errorf_w "save checkpoint failed" (Some e)))
    | (repo', None, _) =>
        (mkOffsetTracker (ot_symbol t) (ot_processorName t) (ot_consumedOffset t) offset now
           (ot_kafkaProducerOffset t) (ot_kafkaConsumerGroup t) (i64 (ot_commitCount t + 1))
           (ot_commitFailureCount t) (ot_lagHighWaterMark t), repo', None)
    end.

(** ** The manager *)

Abbreviation OffsetTrackerManager := (gmap string OffsetTracker).

Definition GetOrCreateTracker (now : Z) (processorName symbol : string) (m : OffsetTrackerManager)
    : OffsetTracker * OffsetTrackerManager :=
  let key := processorName +:+ ":" +:+ symbol in
  match m !! key with
  | Some t => (t, m)
  | None => let t := NewOffsetTracker now symbol processorName in (t, <[key := t]> m)
  end.

Definition NewOffsetTrackerManager : OffsetTrackerManager := ∅.

(** [enum] is the order in which Go enumerates the map. *)
Definition GetAllTrackers (enum : OffsetTrackerManager -> list OffsetTracker) (m : OffsetTrackerManager)
    : list OffsetTracker := enum m.

Definition OffsetStatus_String (s : OffsetStatus) : string :=
  "[" +:+ os_ProcessorName s +:+ ":" +:+ os_Symbol s +:+ "] Consumed=" +:+ pretty (os_ConsumedOffset s)
  +:+ " Committed=" +:+ pretty (os_CommittedOffset s) +:+ " Produced=" +:+ pretty (os_ProducedOffset s)
  +:+ " Lag=" +:+ pretty (os_ConsumerLag s) +:+ " (consumed_not_committed="
  +:+ pretty (os_ConsumedButNotCommitted s) +:+ ") Commits=" +:+ pretty (os_CommitCount s)
  +:+ "(failures=" +:+ pretty (os_CommitFailureCount s) +:+ ")".

(** The lines PrintStatus logs for the trackers. *)
Definition PrintStatus (enum : OffsetTrackerManager -> list OffsetTracker) (m : OffsetTrackerManager)
    : list string :=
  (fun t => "  - " +:+ OffsetStatus_String (GetStatus t)) <$> GetAllTrackers enum m.

(** In the order [trackers] in which Go enumerates the map. *)
Fixpoint VerifyAllConsistency (trackers : list OffsetTracker) : option error :=
  match trackers with
  | [] => None
  | t :: rest =>
      match VerifyOffsetConsistency t with
      | Some e => Some (errorf_w ("consistency check failed for " +:+ ot_processorName t +:+ ":"
                                  +:+ ot_symbol t) (Some e))
      | None => VerifyAllConsistency rest
      end
  end.

(** ** Properties *)

Inductive tracker_step : OffsetTracker * D -> OffsetTracker * D -> Prop :=
| step_consume offset t repo : is_i64 offset ->
    tracker_step (t, repo) (TrackConsumedOffset offset t, repo)
| step_produce offset t repo : is_i64 offset ->
    tracker_step (t, repo) (UpdateKafkaProducerOffset offset t, repo)
| step_lag t repo : tracker_step (t, repo) ((GetConsumerLag t).2, repo)
| step_commit now offset eventSeq t repo t' repo' o : is_i64 offset ->
    CommitOffset now offset eventSeq t repo = (t', repo', o) ->
    tracker_step (t, repo) (t', repo').

Definition offsets_ok t : Prop :=
  is_i64 (ot_consumedOffset t) /\ is_i64 (ot_committedOffset t) /\
  is_i64 (ot_kafkaProducerOffset t) /\ ot_committedOffset t <= ot_consumedOffset t.

(** A step keeps the invariant and never takes the consumed or produced offset back. *)
Lemma tracker_step_ok s s' : tracker_step s s' -> offsets_ok s.1 ->
  offsets_ok s'.1 /\ ot_consumedOffset s.1 <= ot_consumedOffset s'.1 /\
  ot_kafkaProducerOffset s.1 <= ot_kafkaProducerOffset s'.1.
Proof.
  unfold offsets_ok. intros Hstep (Hc & Hm & Hp & Hle).
  destruct Hstep as [offset t repo Hr|offset t repo Hr|t repo|now offset seq t repo t' repo' o Hr Hco];
    simpl in *.
  - unfold TrackConsumedOffset. destruct (Z.ltb_spec (ot_consumedOffset t) offset); simpl;
      split_and!; solve_i64 || done || lia.
  - unfold UpdateKafkaProducerOffset. destruct (Z.ltb_spec (ot_kafkaProducerOffset t) offset); simpl;
      split_and!; solve_i64 || done || lia.
  - destruct (_ <? _); simpl; split_and!; done || lia.
  - unfold CommitOffset in Hco. destruct (Z.ltb_spec (ot_consumedOffset t) offset); [simplify_eq; auto with lia|].
    destruct (Repo.SaveCheckpoint _ _ _) as [[r [e|]] cp]; simplify_eq/=; split_and!; done || lia.
Qed.

(** In every history of a tracker the committed offset is at most the consumed one
    (so that [VerifyOffsetConsistency] never reports the first constraint), and the
    consumed and produced offsets never go back. *)
Theorem offsets_ordered now symbol proc (repo0 : D) s1 s2 :
  clos_refl_trans _ tracker_step (NewOffsetTracker now symbol proc, repo0) s1 ->
  clos_refl_trans _ tracker_step s1 s2 ->
  ot_committedOffset s2.1 <= ot_consumedOffset s2.1 /\
  ot_consumedOffset s1.1 <= ot_consumedOffset s2.1 /\
  ot_kafkaProducerOffset s1.1 <= ot_kafkaProducerOffset s2.1.
Proof.
  intros H1 H2.
  assert (Hall : forall s s', clos_refl_trans _ tracker_step s s' -> offsets_ok s.1 ->
    offsets_ok s'.1 /\ ot_consumedOffset s.1 <= ot_consumedOffset s'.1 /\
    ot_kafkaProducerOffset s.1 <= ot_kafkaProducerOffset s'.1).
  { induction 1 as [? ? Hs|?|x y z _ IH1 _ IH2]; [by apply tracker_step_ok|intros Hok; split; [done|lia]|].
    intros Hok. destruct (IH1 Hok) as (Hy & ? & ?). destruct (IH2 Hy) as (? & ? & ?). split_and!; done || lia. }
  destruct (Hall _ _ H1) as (Hok & _); [unfold offsets_ok; simpl; split_and!; solve_i64|].
  destruct (Hall _ _ H2 Hok) as ((_ & _ & _ & ?) & ? & ?). done.
Qed.

Context {HDL : TableLaws D EventOffsetCheckpoint}.

(** What a successful commit wrote is where recovery starts: the context read from
    the repository continues right after the committed offset and event, and agrees
    with the tracker. *)
Theorem commit_then_recover now now' offset seq t repo t' repo' ctx :
  CommitOffset now offset seq t repo = (t', repo', None) ->
  Repo.GetRecoveryContext now' (ot_processorName t) (ot_symbol t) repo' = Ok ctx ->
  rc_StartKafkaOffset ctx = GetRecoveryStartOffset t' /\
  rc_StartKafkaOffset ctx = i64 (offset + 1) /\ rc_StartEventSeq ctx = u64 (seq + 1).
Proof.
  intros Hc Hctx. unfold CommitOffset in Hc. destruct (_ <? _); [done|].
  destruct (Repo.SaveCheckpoint _ _ _) as [[r [e|]] cp] eqn:Hs; simplify_eq.
  apply save_ok in Hs as (_ & _ & (row0 & Hin0 & Hid0) & Hprog & _).
  unfold Repo.GetRecoveryContext, Repo.GetCheckpointSummary in Hctx.
  destruct (Repo.GetLatestCheckpoint _ _ _) as [found| |] eqn:Hf; simpl in Hctx; [|done..].
  apply latest_found in Hf. destruct found as [row|]; [|by apply Hf in Hin0].
  destruct Hf as [Hin Hid]. destruct (Hprog row Hin Hid) as [Hsp _].
  unfold same_progress in Hsp. simpl in Hsp. simplify_eq/=. unfold GetRecoveryStartOffset. simpl.
  destruct Hsp as (-> & -> & _). done.
Qed.
End Commit.

(** A tracker that has committed nothing starts recovery at offset one, past the
    first message of the partition; a repository without a checkpoint starts at
    zero. *)
Theorem fresh_tracker_skips_first now symbol proc :
  GetRecoveryStartOffset (NewOffsetTracker now symbol proc) = 1 /\
  forall (D : Type) `{Table D EventOffsetCheckpoint} (repo : D) ctx,
    Repo.GetLatestCheckpoint proc symbol repo = Ok None ->
    Repo.GetRecoveryContext now proc symbol repo = Ok ctx -> rc_StartKafkaOffset ctx = 0.
Proof.
  split; [done|]. intros D HT repo ctx Hf. unfold Repo.GetRecoveryContext, Repo.GetCheckpointSummary.
  rewrite Hf. simpl. by intros [= <-].
Qed.

(** ** Witnesses *)

#[local] Instance offsets_table : Table (ListTable EventOffsetCheckpoint) EventOffsetCheckpoint :=
  ListTable_ops cp_same.
#[local] Instance offsets_table_laws : TableLaws (ListTable EventOffsetCheckpoint) EventOffsetCheckpoint :=
  ListTable_laws _.

Definition consumed_seven : OffsetTracker := TrackConsumedOffset 7 (NewOffsetTracker 0 "BTC" "DatabaseProcessor").

Definition committed_five : OffsetTracker * ListTable EventOffsetCheckpoint :=
  (CommitOffset 10 5 42 consumed_seven (mkListTable [])).1.

Lemma offsets_ordered_witness :
  5 <= 7 /\ 7 <= 7 /\ 0 <= 0.
Proof.
  apply (offsets_ordered 0 "BTC" "DatabaseProcessor" (mkListTable [])
           (consumed_seven, mkListTable []) committed_five).
  - apply rt_step, step_consume. solve_i64.
  - apply rt_step, (step_commit 10 5 42 _ _ _ _ None); [solve_i64|vm_compute; reflexivity].
Defined.

Lemma commit_then_recover_witness :
  exists ctx, Repo.GetRecoveryContext 20 "DatabaseProcessor" "BTC" committed_five.2 = Ok ctx /\
    rc_StartKafkaOffset ctx = 6 /\ rc_StartEventSeq ctx = 43.
Proof.
  eexists. split; [vm_compute; reflexivity|].
  apply (commit_then_recover 10 20 5 42 consumed_seven (mkListTable []) committed_five.1 committed_five.2);
    vm_compute; reflexivity.
Defined.

Lemma fresh_tracker_skips_first_witness :
  GetRecoveryStartOffset (NewOffsetTracker 0 "BTC" "DatabaseProcessor") = 1.
Proof. exact (proj1 (fresh_tracker_skips_first 0 "BTC" "DatabaseProcessor")). Defined.
