(* ===== verification/Epoch.v ===== *)
(** * Ownership epochs and fencing

    Models src/biz/service/ownership_epoch_manager.go (the epoch of a partition, a
    hash in Redis updated under the lock of Lock.v, and the cache of a node) and
    src/biz/handler/order_fencing.go (the test that refuses requests with an old
    epoch).  Redis is a parameter: [RedisHash] names the calls and [RedisHashLaws]
    what they document.  Times are nanoseconds. *)

From stdpp Require Import base gmap strings list pretty.
From Stdlib Require Import ZArith Lia.
From S2P Require Import Prelude Money Events Lock.

Local Open Scope go_scope.
Local Open Scope Z_scope.

Class RedisHash (R : Type) := {
  (** [None] is the error "redis: nil". *)
  r_HGet : string -> string -> R -> outcome (option string);
  r_HGetAll : string -> R -> outcome (gmap string string);
  (** A pipeline of HSET of the fields and EXPIRE of the key. *)
  r_HSetExpire : string -> list (string * string) -> Z -> R -> R * option error;
  r_view : R -> string -> gmap string string }.

Definition set_fields (fields : list (string * string)) (m : gmap string string) : gmap string string :=
  fold_left (fun m fv => <[fv.1 := fv.2]> m) fields m.

Class RedisHashLaws (R : Type) {H : RedisHash R} {HL : Redsync R} := {
  hget_view key f r o : r_HGet key f r = Ok o -> o = r_view r key !! f;
  hget_no_panic key f r : r_HGet key f r <> Panic;
  hgetall_view key r m : r_HGetAll key r = Ok m -> m = r_view r key;
  hset_view key fields ttl r r' : r_HSetExpire key fields ttl r = (r', None) ->
    r_view r' key = set_fields fields (r_view r key) /\
    forall key', key' <> key -> r_view r' key' = r_view r key';
  unlock_view key v r k : r_view (mutex_Unlock key v r).1 k = r_view r k }.

#[global] Instance redis_prod {R} (B : Type) `{RedisHash R} : RedisHash (R * B) := {|
  r_HGet key f s := r_HGet key f s.1;
  r_HGetAll key s := r_HGetAll key s.1;
  r_HSetExpire key fields ttl s := let '(r, e) := r_HSetExpire key fields ttl s.1 in ((r, s.2), e);
  r_view s := r_view s.1 |}.

Record OwnershipEpochInfo := mkOwnershipEpochInfo { ei_Epoch : Z; ei_Owner : string; ei_UpdatedAt : Z }.

Definition ownership_key (partitionID : string) : string := "partition:" +:+ partitionID +:+ ":ownership".
Definition update_lock_key (partitionID : string) : string :=
  "partition:" +:+ partitionID +:+ ":ownership_update".

Section Manager.
Context {R : Type} `{!Redsync R} `{!RedisHash R}.
Implicit Types (r : R).

Definition GetEpoch (partitionID : string) r : outcome Z :=
  match r_HGet (ownership_key partitionID) "epoch" r with
  | Ok None => Ok 0
  | Ok (Some val) => match scan_int64 val with
                     | Some epoch => Ok epoch
                     | None => Err (errorf_w "invalid epoch value" (Some "expected integer"))
                     end
  | Err e => Err (errorf_w "failed to get epoch" (Some e))
  | Panic => Panic
  end.

(** A number that does not parse stays zero. *)
Definition info_of (data : gmap string string) : option OwnershipEpochInfo :=
  if bool_decide (data = ∅) then None
  else Some (mkOwnershipEpochInfo (default 0 (data !! "epoch" ≫= scan_int64))
               (default "" (data !! "owner")) (default 0 (data !! "updated_at" ≫= scan_int64))).

Definition GetOwnershipInfo (partitionID : string) r : outcome (option OwnershipEpochInfo) :=
  match r_HGetAll (ownership_key partitionID) r with
  | Ok data => Ok (info_of data)
  | Err e => Err (errorf_w "failed to get ownership info" (Some e))
  | Panic => Panic
  end.

Definition epoch_fields (now newEpoch : Z) (newOwner : string) : list (string * string) :=
  [("epoch", pretty newEpoch); ("owner", newOwner); ("updated_at", pretty (Z.quot now 1000000000))].

(** What runs under the lock; the second component is the result variable. *)
Definition update_locked (now : Z) (partitionID newOwner : string) (s : R * Z)
    : outcome (R * Z * option error) :=
  match GetOwnershipInfo partitionID s.1 with
  | Panic => Panic
  | Err e => Ok (s, Some (errorf_w "failed to get current ownership" (Some e)))
  | Ok info =>
      let currentEpoch := match info with Some i => ei_Epoch i | None => 0 end in
      if match info with Some i => ei_Owner i =s newOwner | None => false end
      then Ok ((s.1, currentEpoch), None)
      else
        let newEpoch := i64 (currentEpoch + 1) in
        match r_HSetExpire (ownership_key partitionID) (epoch_fields now newEpoch newOwner)
                86400000000000 s.1 with
        | (r', Some e) => Ok ((r', newEpoch), Some (errorf_w "failed to update ownership" (Some e)))
        | (r', None) => Ok ((r', newEpoch), None)
        end
  end.

Definition UpdateOwnershipEpoch (now : Z) (partitionID newOwner : string) r
    : outcome (R * Z * option error) :=
  WithLock (update_lock_key partitionID) (update_locked now partitionID newOwner) None (r, 0).

Definition VerifyOwnershipFencing (partitionID : string) (eventEpoch : Z) r : outcome (bool * Z) :=
  match GetEpoch partitionID r with
  | Ok currentEpoch => Ok (currentEpoch =? eventEpoch, currentEpoch)
  | Err e => Err (errorf_w "failed to verify fencing" (Some e))
  | Panic => Panic
  end.

Definition FillEventContextWithEpoch (eventCtx : EventContext) (partitionID nodeID : string) r
    : outcome EventContext :=
  match GetEpoch partitionID r with
  | Ok epoch => Ok (WithOwnershipEpoch eventCtx epoch nodeID)
  | Err e => Err (errorf_w "failed to fill epoch" (Some e))
  | Panic => Panic
  end.

(** ** The fencing of orders *)

Record OrderProcessingContext := mkOrderProcessingContext {
  op_Symbol : string;
  op_PartitionID : string;
  op_CurrentEpoch : Z;
  op_ProcessingNodeID : string;
  op_IsFenced : bool;
  op_ErrorMsg : string }.

(** The context and the error. *)
Definition VerifyOrderOwnershipFencing (symbol partitionID : string) (cachedEpoch : Z)
    (nodeID : string) r : outcome (OrderProcessingContext * option error) :=
  match GetEpoch partitionID r with
  | Panic => Panic
  | Err e => Ok (mkOrderProcessingContext symbol partitionID 0 nodeID false
                   ("failed to get epoch: " +:+ e), Some e)
  | Ok currentEpoch =>
      if (0 <? cachedEpoch) && negb (cachedEpoch =? currentEpoch) then
        Ok (mkOrderProcessingContext symbol partitionID currentEpoch nodeID true
              ("ownership epoch mismatch: expected " +:+ pretty cachedEpoch +:+ ", got "
               +:+ pretty currentEpoch +:+ " (partition may have migrated)"), None)
      else Ok (mkOrderProcessingContext symbol partitionID currentEpoch nodeID false "", None)
  end.

Definition OrderOwnershipInterceptor (symbol partitionID : string) (cachedEpoch : Z)
    (nodeID : string) r : outcome (OrderProcessingContext * option error) :=
  VerifyOrderOwnershipFencing symbol partitionID cachedEpoch nodeID r.

(** ** Diagnostics *)

Inductive diagnosis : Type :=
| DError (e : error)
| DUninitialized
| DOwner (epoch : Z) (owner : string) (timestamp : Z).

Definition diagnose (partitionID : string) r : outcome diagnosis :=
  match GetOwnershipInfo partitionID r with
  | Panic => Panic
  | Err e => Ok (DError e)
  | Ok None => Ok DUninitialized
  | Ok (Some info) => Ok (DOwner (ei_Epoch info) (ei_Owner info) (ei_UpdatedAt info))
  end.

(** The partition of a symbol is taken to be its name with a prefix. *)
Definition diagnostics_partition (symbol : string) : string := "partition:" +:+ symbol.

Fixpoint GetOwnershipDiagnostics (symbols : list string) r (diagnostics : gmap string diagnosis)
    : outcome (gmap string diagnosis) :=
  match symbols with
  | [] => Ok diagnostics
  | symbol :: rest =>
      let? d := diagnose (diagnostics_partition symbol) r in
      GetOwnershipDiagnostics rest r (<[symbol := d]> diagnostics)
  end.

(** [rfc3339] prints a time in seconds. *)
Definition GetOwnershipAuditLog (rfc3339 : Z -> string) (partitionID : string) r
    : outcome (option (string * Z * string * string)) :=
  let? info := GetOwnershipInfo partitionID r in
  Ok ((fun i => (partitionID, ei_Epoch i, ei_Owner i, rfc3339 (ei_UpdatedAt i))) <$> info).
End Manager.

(** ** The cache of a node *)

Record LocalEpochCache := mkLocalEpochCache {
  lec_cache : gmap string Z;
  lec_expiresAt : gmap string Z;
  lec_ttl : Z }.
Implicit Types (lec : LocalEpochCache).

Definition NewLocalEpochCache (ttl : Z) : LocalEpochCache := mkLocalEpochCache ∅ ∅ ttl.

Definition lec_Get (now : Z) (partitionID : string) lec : Z * bool :=
  match lec_expiresAt lec !! partitionID with
  | Some expireTime =>
      if now <? expireTime then (default 0 (lec_cache lec !! partitionID), true) else (0, false)
  | None => (0, false)
  end.

Definition lec_Set (now : Z) (partitionID : string) (epoch : Z) lec : LocalEpochCache :=
  mkLocalEpochCache (<[partitionID := epoch]> (lec_cache lec))
    (<[partitionID := i64 (now + lec_ttl lec)]> (lec_expiresAt lec)) (lec_ttl lec).

Definition lec_Invalidate (partitionID : string) lec : LocalEpochCache :=
  mkLocalEpochCache (delete partitionID (lec_cache lec)) (delete partitionID (lec_expiresAt lec))
    (lec_ttl lec).

Definition lec_InvalidateAll lec : LocalEpochCache := mkLocalEpochCache ∅ ∅ (lec_ttl lec).
