(* ===== verification/EpochProps.v ===== *)
(** * Properties of the epochs

    An update under the lock advances the epoch exactly when the owner changes, and
    from then on requests with any other epoch are fenced; once the hash has expired
    the epochs start again, and the oldest requests pass. *)

From stdpp Require Import base gmap strings list pretty.
From Stdlib Require Import ZArith Lia.
From S2P Require Import Prelude Money Events Lock Epoch.

Local Open Scope go_scope.
Local Open Scope Z_scope.

Section Props.
Context {R : Type} {HS : Redsync R} {HSL : RedsyncLaws R} {HR : RedisHash R} {HRL : RedisHashLaws R}.
Implicit Types (r : R).

Definition epoch_of r (partitionID : string) : Z :=
  default 0 (r_view r (ownership_key partitionID) !! "epoch" ≫= scan_int64).
Definition owner_of r (partitionID : string) : option string :=
  r_view r (ownership_key partitionID) !! "owner".

Lemma epoch_fields_lookup now n o m :
  set_fields (epoch_fields now n o) m !! "epoch" = Some (pretty n) /\
  set_fields (epoch_fields now n o) m !! "owner" = Some o.
Proof.
  unfold set_fields, epoch_fields. simpl.
  split; rewrite ?(lookup_insert_ne _ "updated_at"), ?(lookup_insert_ne _ "owner" "epoch"), lookup_insert_eq; done.
Qed.

Lemma get_epoch_view pid r n : GetEpoch pid r = Ok n -> n = epoch_of r pid.
Proof.
  unfold GetEpoch, epoch_of. destruct (r_HGet _ _ r) as [[val|]|e|] eqn:Hg; try done;
    apply hget_view in Hg; rewrite <- Hg; simpl; [|by intros [= <-]].
  destruct (scan_int64 val); [by intros [= <-]|done].
Qed.

(** The test of a request against the current epoch. *)
Lemma fencing_spec symbol pid c node r ctx :
  VerifyOrderOwnershipFencing symbol pid c node r = Ok (ctx, None) ->
  op_CurrentEpoch ctx = epoch_of r pid /\
  op_IsFenced ctx = (0 <? c) && negb (c =? epoch_of r pid).
Proof.
  unfold VerifyOrderOwnershipFencing. destruct (GetEpoch pid r) as [n|e|] eqn:Hg; [|done|done].
  apply get_epoch_view in Hg as ->. destruct ((0 <? c) && _) eqn:Hc; by intros [= <-].
Qed.

(** What the update does where it holds the lock. *)
Lemma update_locked_spec now pid newOwner r z r' n :
  update_locked now pid newOwner (r, z) = Ok ((r', n), None) ->
  0 <= epoch_of r pid < MaxI64 ->
  if bool_decide (owner_of r pid = Some newOwner)
  then n = epoch_of r pid /\ r' = r
  else newOwner <> "" \/ owner_of r pid <> None \/ r_view r (ownership_key pid) = ∅ ->
       n = epoch_of r pid + 1 /\ epoch_of r' pid = n /\ owner_of r' pid = Some newOwner.
Proof.
  unfold update_locked, GetOwnershipInfo. simpl.
  destruct (r_HGetAll _ r) as [data|e|] eqn:Hg; [|done|done]. apply hgetall_view in Hg. subst data.
  intros H Hr. unfold info_of in H.
  assert (Hnew : forall cur, r_HSetExpire (ownership_key pid) (epoch_fields now (i64 (cur + 1)) newOwner)
       86400000000000 r = (r', None) -> 0 <= cur < MaxI64 ->
       epoch_of r' pid = cur + 1 /\ owner_of r' pid = Some newOwner).
  { intros cur Hs Hc. apply hset_view in Hs as [Hv _]. rewrite i64_id in Hv by solve_i64.
    destruct (epoch_fields_lookup now (cur + 1) newOwner (r_view r (ownership_key pid))) as [H1 H2].
    unfold epoch_of, owner_of. rewrite Hv, H1, H2. simpl.
    by rewrite scan_int64_pretty by solve_i64. }
  case_bool_decide as Hempty.
  - unfold owner_of, epoch_of in *. rewrite Hempty, !lookup_empty in *. simpl in *.
    destruct (r_HSetExpire _ _ _ r) as [r1 [e|]] eqn:Hs; simplify_eq. intros _.
    destruct (Hnew 0 Hs ltac:(lia)) as [He Ho]. by rewrite He.
  - simpl in H.
    change (default 0 (r_view r (ownership_key pid) !! "epoch" ≫= scan_int64)) with (epoch_of r pid) in H.
    change (r_view r (ownership_key pid) !! "owner") with (owner_of r pid) in H.
    destruct (decide (owner_of r pid = Some newOwner)) as [Hown|Hown].
    + rewrite Hown in H. simpl in H. rewrite bool_decide_eq_true_2 in H by done.
      rewrite bool_decide_eq_true_2 by done. by simplify_eq.
    + rewrite (bool_decide_eq_false_2 _ Hown). intros Hne. rewrite bool_decide_eq_false_2 in H.
      * destruct (r_HSetExpire _ _ _ r) as [r1 [e|]] eqn:Hs; simplify_eq.
        destruct (Hnew _ Hs Hr) as [He Ho]. rewrite He, i64_id by solve_i64. done.
      * destruct (owner_of r pid) as [o|]; simpl; [congruence|]. destruct Hne as [?|[?|?]]; congruence.
Qed.


(** The hash of a partition expires a day after the last change of owner.  From then
    on the next owner gets epoch one again, and a request that still carries epoch
    one, from the first owner ever, passes the test. *)
Theorem expired_epoch_restarts now pid newOwner r z r' n symbol node ctx :
  r_view r (ownership_key pid) = ∅ ->
  update_locked now pid newOwner (r, z) = Ok ((r', n), None) ->
  VerifyOrderOwnershipFencing symbol pid 1 node r' = Ok (ctx, None) ->
  n = 1 /\ op_IsFenced ctx = false.
Proof.
  intros Hempty Hu [_ ->]%fencing_spec.
  assert (He : epoch_of r pid = 0) by (unfold epoch_of; by rewrite Hempty, lookup_empty).
  assert (Ho : owner_of r pid = None) by (unfold owner_of; by rewrite Hempty, lookup_empty).
  apply update_locked_spec in Hu; [|rewrite He; solve_i64].
  rewrite Ho, bool_decide_eq_false_2 in Hu by done.
  destruct Hu as (-> & Hn & _); [by right; right|]. rewrite He in Hn. by rewrite He, Hn.
Qed.

(** The diagnostics answer for exactly the symbols that were asked for, each with the
    state of its partition. *)
Theorem diagnostics_exact symbols r m0 m symbol :
  GetOwnershipDiagnostics symbols r m0 = Ok m ->
  (symbol ∈ symbols -> exists d, diagnose (diagnostics_partition symbol) r = Ok d /\ m !! symbol = Some d) /\
  (symbol ∉ symbols -> m !! symbol = m0 !! symbol).
Proof.
  revert m0. induction symbols as [|x symbols IH]; intros m0; cbn [GetOwnershipDiagnostics].
  { intros [= <-]. split; [by intros ?%not_elem_of_nil|done]. }
  destruct (diagnose (diagnostics_partition x) r) as [d| |] eqn:Hd; cbn [obind]; [|done|done]. intros [Hin Hout]%IH. split.
  - intros [->|Hs]%elem_of_cons; [|auto]. destruct (decide (x ∈ symbols)); [auto|].
    exists d. split; [done|]. rewrite Hout by done. apply lookup_insert_eq.
  - intros [Hne Hs]%not_elem_of_cons. rewrite Hout by done. by apply lookup_insert_ne.
Qed.
End Props.

(** ** Redis in memory, and witnesses *)

Definition MemRedis : Type := MemLocks * gmap string (gmap string string).

#[local] Instance MemRedis_locks : Redsync MemRedis := redsync_prod _.
#[local] Instance MemRedis_locks_laws : RedsyncLaws MemRedis := redsync_prod_laws _.

#[local] Instance MemRedis_hash : RedisHash MemRedis := {|
  r_HGet key f r := Ok (default ∅ (r.2 !! key) !! f);
  r_HGetAll key r := Ok (default ∅ (r.2 !! key));
  r_HSetExpire key fields ttl r :=
    ((r.1, <[key := set_fields fields (default ∅ (r.2 !! key))]> r.2), None);
  r_view r key := default ∅ (r.2 !! key) |}.

#[local] Instance MemRedis_laws : RedisHashLaws MemRedis.
Proof.
  split; simpl; intros *.
  - by intros [= <-].
  - done.
  - by intros [= <-].
  - intros _ r r' [= <-]. simpl. rewrite lookup_insert_eq. split; [done|]. intros key' Hne.
    by rewrite lookup_insert_ne.
  - destruct (r.1.1 !! key); [case_bool_decide|]; done.
Qed.

Definition owned_by_a : MemRedis :=
  ((∅, 0%nat), {["partition:p1:ownership" := set_fields (epoch_fields 0 4 "node-a") ∅]}).

Definition moved_to_b : MemRedis :=
  match UpdateOwnershipEpoch 0 "p1" "node-b" owned_by_a with Ok (r, _, _) => r | _ => owned_by_a end.


Definition expired : MemRedis := ((∅, 0%nat), ∅).

Lemma expired_epoch_restarts_witness :
  exists ctx, VerifyOrderOwnershipFencing "BTC" "p1" 1 "node-a"
      (r_HSetExpire (ownership_key "p1") (epoch_fields 0 1 "node-c") 0 expired).1 = Ok (ctx, None) /\
    1 = 1 /\ op_IsFenced ctx = false.
Proof.
  eexists. split; [vm_compute; reflexivity|].
  eapply (expired_epoch_restarts 0 "p1" "node-c" expired 0
            (r_HSetExpire (ownership_key "p1") (epoch_fields 0 1 "node-c") 0 expired).1 1 "BTC" "node-a");
    vm_compute; reflexivity.
Defined.
