(* ===== verification/Partitions.v ===== *)
(** * Partition table and autoscaler

    Models src/biz/model/partition.go and src/biz/service/partition_autoscaler.go.
    A partition serves symbols on worker nodes; the table maps symbols to
    partitions and partitions to what they serve.  The autoscaler gives hot symbols
    partitions of their own and merges cold ones.  It works on a deep copy, so the
    records are values; a table read from JSON with a null entry, on which every
    reader of the table panics, is [Panic] of [table_of_json].

    The autoscaler ranges over maps: [order] is the order in which the runtime
    yields the keys.  splitHotSymbols inserts into the map it ranges over, and Go
    leaves open which of the new keys are visited; the theorems hold for every
    [order].  [clock] gives the readings of [time.Now().Format("150405")], the
    number of the reading counts them. *)

From stdpp Require Import base gmap strings list sorting pretty.
From Stdlib Require Import ZArith Lia.
From S2P Require Import Prelude Events.

Local Open Scope go_scope.
Local Open Scope Z_scope.

(** ** The table *)

Record Partition := mkPartition {
  PartitionID : string;
  Symbols : list string;
  Workers : list string }.

Record SymbolMigrationInfo := mkSymbolMigrationInfo {
  mi_Symbol : string;
  mi_From : string;
  mi_To : string;
  mi_Migrating : bool;
  mi_UpdateTime : Z;
  mi_NewPartitionID : string }.

Record PartitionTable := mkPartitionTable {
  SymbolToPartition : gmap string (list string);
  Partitions : gmap string Partition;
  MigrationInfo : gmap string SymbolMigrationInfo }.

#[global] Instance Partition_eq_dec : EqDecision Partition.
Proof. solve_decision. Defined.
#[global] Instance SymbolMigrationInfo_eq_dec : EqDecision SymbolMigrationInfo.
Proof. solve_decision. Defined.
#[global] Instance PartitionTable_eq_dec : EqDecision PartitionTable.
Proof. solve_decision. Defined.

Definition NewPartitionTable : PartitionTable := mkPartitionTable ∅ ∅ ∅.

Definition Partition_DeepCopy (p : Partition) : Partition :=
  mkPartition (PartitionID p) (Symbols p) (Workers p).

(** The copy of a migration record has no target partition. *)
Definition copy_migration (v : SymbolMigrationInfo) : SymbolMigrationInfo :=
  mkSymbolMigrationInfo (mi_Symbol v) (mi_From v) (mi_To v) (mi_Migrating v) (mi_UpdateTime v) "".

Definition DeepCopy (pt : PartitionTable) : PartitionTable :=
  mkPartitionTable (SymbolToPartition pt) (Partition_DeepCopy <$> Partitions pt)
    (copy_migration <$> MigrationInfo pt).

(** The symbols of a partition, once for each time the worker is listed. *)
Definition symbols_at (workerAddr : string) (p : Partition) (acc : gset string) : gset string :=
  foldl (fun acc worker => if worker =s workerAddr then acc ∪ list_to_set (Symbols p) else acc)
    acc (Workers p).

Definition symbol_set (workerAddr : string) (pt : PartitionTable) : gset string :=
  map_fold (fun _ p acc => symbols_at workerAddr p acc) ∅ (Partitions pt).

Definition GetSymbolsForWorker (enum : gset string -> list string) (workerAddr : string)
    (pt : PartitionTable) : list string :=
  enum (symbol_set workerAddr pt).

(** ** Its JSON *)

Definition json_of_strings (l : list string) : json := JArr (JStr <$> l).

Definition json_of_map {V} (enc : V -> json) (m : gmap string V) : json :=
  JObj ((fun k => (k, from_option enc JNull (m !! k))) <$> sort_strings (elements (dom m))).

Definition json_of_partition (p : Partition) : json :=
  JObj [("partition_id", JStr (PartitionID p)); ("symbols", json_of_strings (Symbols p));
        ("workers", json_of_strings (Workers p))].

Definition json_of_migration (v : SymbolMigrationInfo) : json :=
  JObj [("symbol", JStr (mi_Symbol v)); ("from", JStr (mi_From v)); ("to", JStr (mi_To v));
        ("migrating", JBool (mi_Migrating v)); ("update_time", JNum (mi_UpdateTime v));
        ("new_partition_id", JStr (mi_NewPartitionID v))].

Definition json_of_table (pt : PartitionTable) : json :=
  JObj [("symbol_to_partition", json_of_map json_of_strings (SymbolToPartition pt));
        ("partitions", json_of_map json_of_partition (Partitions pt));
        ("migration_info", json_of_map json_of_migration (MigrationInfo pt))].

Definition dec_bool (old : bool) (j : json) : option bool :=
  match j with JNull => Some old | JBool b => Some b | _ => None end.

Definition dec_strings (j : json) : option (list string) :=
  match j with
  | JNull => Some []
  | JArr l => mapM (dec_string "") l
  | _ => None
  end.

Fixpoint dec_entries {V} (dec : json -> option V) (fs : list (string * json)) (m : gmap string V)
    : option (gmap string V) :=
  match fs with
  | [] => Some m
  | (k, j) :: fs' => match dec j with
                     | Some v => dec_entries dec fs' (<[k := v]> m)
                     | None => None
                     end
  end.

Definition dec_map {V} (dec : json -> option V) (old : gmap string V) (j : json)
    : option (gmap string V) :=
  match j with JNull => Some ∅ | JObj fs => dec_entries dec fs old | _ => None end.

(** A pointer to a struct: null is nil. *)
Definition dec_pointer {E} (tbl : field_table E) (zero : E) (j : json) : option (option E) :=
  match j with
  | JNull => Some None
  | JObj fs => Some <$> dec_fields tbl fs zero
  | _ => None
  end.

Definition partition_fields : field_table Partition :=
  [("partition_id", fun j '(mkPartition a b c) => (fun v => mkPartition v b c) <$> dec_string a j);
   ("symbols", fun j '(mkPartition a b c) => (fun v => mkPartition a v c) <$> dec_strings j);
   ("workers", fun j '(mkPartition a b c) => (fun v => mkPartition a b v) <$> dec_strings j)].

Definition migration_fields : field_table SymbolMigrationInfo :=
  [("symbol", fun j '(mkSymbolMigrationInfo a b c d e f) =>
      (fun v => mkSymbolMigrationInfo v b c d e f) <$> dec_string a j);
   ("from", fun j '(mkSymbolMigrationInfo a b c d e f) =>
      (fun v => mkSymbolMigrationInfo a v c d e f) <$> dec_string b j);
   ("to", fun j '(mkSymbolMigrationInfo a b c d e f) =>
      (fun v => mkSymbolMigrationInfo a b v d e f) <$> dec_string c j);
   ("migrating", fun j '(mkSymbolMigrationInfo a b c d e f) =>
      (fun v => mkSymbolMigrationInfo a b c v e f) <$> dec_bool d j);
   ("update_time", fun j '(mkSymbolMigrationInfo a b c d e f) =>
      (fun v => mkSymbolMigrationInfo a b c d v f) <$> dec_int64 e j);
   ("new_partition_id", fun j '(mkSymbolMigrationInfo a b c d e f) =>
      (fun v => mkSymbolMigrationInfo a b c d e v) <$> dec_string f j)].

(** The table with its pointers. *)
Record raw_table := mkRawTable {
  raw_symbols : gmap string (list string);
  raw_partitions : gmap string (option Partition);
  raw_migrations : gmap string (option SymbolMigrationInfo) }.

Definition table_fields : field_table raw_table :=
  [("symbol_to_partition", fun j '(mkRawTable a b c) =>
      (fun v => mkRawTable v b c) <$> dec_map dec_strings a j);
   ("partitions", fun j '(mkRawTable a b c) =>
      (fun v => mkRawTable a v c) <$> dec_map (dec_pointer partition_fields (mkPartition "" [] [])) b j);
   ("migration_info", fun j '(mkRawTable a b c) =>
      (fun v => mkRawTable a b v) <$>
        dec_map (dec_pointer migration_fields (mkSymbolMigrationInfo "" "" "" false 0 "")) c j)].

Definition no_nil {V} (m : gmap string (option V)) : bool := (size (omap id m) =? size m)%nat.

Definition table_of_json (j : json) : outcome PartitionTable :=
  let? raw := json_Unmarshal table_fields (mkRawTable ∅ ∅ ∅) j in
  if no_nil (raw_partitions raw) && no_nil (raw_migrations raw)
  then Ok (mkPartitionTable (raw_symbols raw) (omap id (raw_partitions raw))
             (omap id (raw_migrations raw)))
  else Panic.

(** ** The autoscaler *)

Class PartitionMetricsProvider := {
  GetPartitionQPS : string -> Z;
  GetSymbolQPS : string -> Z }.

Class WorkerLoadProvider := {
  GetAllWorkers : list string;
  GetWorkerLoad : string -> Z }.

Definition MockPartitionMetrics : PartitionMetricsProvider := {|
  GetPartitionQPS := fun _ => 100;
  GetSymbolQPS := fun _ => 100 |}.

(** A missing worker reads as zero. *)
Definition MockWorkerLoadProvider (workerPartitions : gmap string Z) (workers : list string)
    : WorkerLoadProvider := {|
  GetAllWorkers := workers;
  GetWorkerLoad := fun worker => default 0 (workerPartitions !! worker) |}.

Fixpoint idle_loop `{WorkerLoadProvider} (workers : list string) (minLoad : Z) (minWorker : string)
    : string :=
  match workers with
  | [] => minWorker
  | w :: workers' =>
      let load := GetWorkerLoad w in
      if load <? minLoad then idle_loop workers' load w else idle_loop workers' minLoad minWorker
  end.

Definition selectIdleWorker (wlp : WorkerLoadProvider) : string :=
  match GetAllWorkers with
  | [] => ""
  | w :: workers => idle_loop workers (GetWorkerLoad w) w
  end.

Definition collectLoads (metrics : PartitionMetricsProvider) (pt : PartitionTable)
    : gmap string Z * gmap string Z :=
  map_fold (fun pid p '(partitionLoad, symbolLoad) =>
      (<[pid := GetPartitionQPS pid]> partitionLoad,
       foldl (fun load symbol => <[symbol := GetSymbolQPS symbol]> load) symbolLoad (Symbols p)))
    (∅, ∅) (Partitions pt).

Section Scaling.
Context (wlp : WorkerLoadProvider) (clock : nat -> string) (symbolLoad : gmap string Z).
Implicit Types (pt : PartitionTable) (p : Partition) (pid symbol : string).

(** The load of a symbol that was not collected reads as zero. *)
Definition load_of symbol : Z := default 0 (symbolLoad !! symbol).

Definition findHotSymbols (symbols : list string) : list string :=
  List.filter (fun symbol => 800 <? load_of symbol) symbols.

Definition removeSymbolsFromPartition p (symbolsToRemove : list string) : Partition :=
  let hotSet : gset string := list_to_set symbolsToRemove in
  mkPartition (PartitionID p) (List.filter (fun s => negb (bool_decide (s ∈ hotSet))) (Symbols p))
    (Workers p).

Definition hot_pid (stamp pid symbol : string) : string :=
  pid +:+ "_hot_" +:+ symbol +:+ "_" +:+ stamp.

Definition createHotPartition (stamp : string) pt pid symbol : PartitionTable :=
  let idleWorker := selectIdleWorker wlp in
  let newPID := hot_pid stamp pid symbol in
  let newPartition := mkPartition newPID [symbol] [idleWorker] in
  let oldList := default [] (SymbolToPartition pt !! symbol) in
  let newList := List.filter (fun oldPID => negb (oldPID =s pid)) oldList ++ [newPID] in
  mkPartitionTable (<[symbol := newList]> (SymbolToPartition pt))
    (<[newPID := newPartition]> (Partitions pt)) (MigrationInfo pt).

(** The loop over the hot symbols of a partition; [n] is the number of the next
    reading of the clock. *)
Fixpoint create_all pid (hotSymbols : list string) (n : nat) pt : PartitionTable * nat :=
  match hotSymbols with
  | [] => (pt, n)
  | s :: hot => create_all pid hot (S n) (createHotPartition (clock n) pt pid s)
  end.

Definition set_partition pid p pt : PartitionTable :=
  mkPartitionTable (SymbolToPartition pt) (<[pid := p]> (Partitions pt)) (MigrationInfo pt).

(** One iteration over the map: the key is in it when it is visited. *)
Definition split_partition pid (st : PartitionTable * nat * bool) : PartitionTable * nat * bool :=
  let '(pt, n, needUpdate) := st in
  match Partitions pt !! pid with
  | None => st
  | Some p =>
      match findHotSymbols (Symbols p) with
      | [] => st
      | hotSymbols =>
          (create_all pid hotSymbols n
             (set_partition pid (removeSymbolsFromPartition p hotSymbols) pt), true)
      end
  end.

Definition splitHotSymbols (order : list string) (n : nat) pt : PartitionTable * nat * bool :=
  foldl (fun st pid => split_partition pid st) (pt, n, false) order.

(** [order] enumerates the loads. *)
Definition coldSymbols (order : list string) : list string :=
  List.filter (fun s => match symbolLoad !! s with Some qps => qps <? 5 | None => false end) order.

Definition cold_pid (stamp : string) : string := "cold_merge_" +:+ stamp.

Definition mergeColdSymbols (order : list string) (n : nat) pt : PartitionTable * bool :=
  let cold := coldSymbols order in
  if (length cold <=? 1)%nat then (pt, false)
  else
    let idleWorker := selectIdleWorker wlp in
    let newPID := cold_pid (clock n) in
    let newPartition := mkPartition newPID cold [idleWorker] in
    let partitions := <[newPID := newPartition]> (Partitions pt) in
    let symbols := foldl (fun m s => <[s := [newPID]]> m) (SymbolToPartition pt) cold in
    let coldSet : gset string := list_to_set cold in
    (mkPartitionTable symbols
       ((fun p => if PartitionID p =s newPID then p
                  else mkPartition (PartitionID p)
                         (List.filter (fun s => negb (bool_decide (s ∈ coldSet))) (Symbols p))
                         (Workers p)) <$> partitions)
       (MigrationInfo pt), true).
End Scaling.

(** The hard-coded load provider of scaleIfNeeded. *)
Definition scaling_wlp : WorkerLoadProvider :=
  MockWorkerLoadProvider (<["worker1" := 2]> (<["worker2" := 1]> ∅)) ["worker1"; "worker2"].

(** scaleIfNeeded up to the update of the manager: the new table, if there is one.
    [hotOrder] is the enumeration of the partitions, [loadOrder] that of the loads. *)
Definition rescale (metrics : PartitionMetricsProvider) (clock : nat -> string)
    (hotOrder loadOrder : list string) (pt : PartitionTable) : option PartitionTable :=
  let '(_, symbolLoad) := collectLoads metrics pt in
  let newPT := DeepCopy pt in
  let '(newPT, n, needUpdateHot) := splitHotSymbols scaling_wlp clock symbolLoad hotOrder 0 newPT in
  let '(newPT, needUpdateCold) := mergeColdSymbols scaling_wlp clock symbolLoad loadOrder n newPT in
  if needUpdateHot || needUpdateCold then Some newPT else None.
