(* ===== verification/PartitionsProps.v ===== *)
(** * Correctness of the partition table and the autoscaler

    A well-formed table lists, for every symbol, exactly the partitions that serve
    it ([table_wf]).  A round of the autoscaler keeps tables well formed, serves the
    same symbols as before, gives every hot symbol a partition of its own and puts
    the cold symbols together, in whatever order the runtime ranges over the maps,
    provided the IDs it makes up are new ([fresh_round]).  The IDs are made of the
    time of day, so they are not always new: [reused_id_drops_symbol]. *)

From stdpp Require Import base gmap strings list sorting pretty.
From Stdlib Require Import ZArith Lia.
From S2P Require Import Prelude Events Database Partitions.

Local Open Scope go_scope.
Local Open Scope Z_scope.

(** ** Specification *)

Definition serves (pt : PartitionTable) (pid s : string) : Prop :=
  exists p, Partitions pt !! pid = Some p /\ s ∈ Symbols p.
Definition listed (pt : PartitionTable) (s pid : string) : Prop :=
  pid ∈ default [] (SymbolToPartition pt !! s).
Definition served (pt : PartitionTable) (s : string) : Prop := exists pid, serves pt pid s.

Definition ids_ok (pt : PartitionTable) : Prop :=
  forall pid p, Partitions pt !! pid = Some p -> PartitionID p = pid.

Definition table_wf (pt : PartitionTable) : Prop :=
  ids_ok pt /\ forall pid s, serves pt pid s <-> listed pt s pid.

(** ** Workers and symbols *)

Section Idle.
Context (wlp : WorkerLoadProvider).

Lemma idle_loop_min workers minWorker :
  let w := idle_loop workers (GetWorkerLoad minWorker) minWorker in
  w ∈ minWorker :: workers /\
  forall w', w' ∈ minWorker :: workers -> GetWorkerLoad w <= GetWorkerLoad w'.
Proof.
  revert minWorker. induction workers as [|x ws IH]; intros m; cbn [idle_loop].
  { split; [left|]. intros w' ->%list_elem_of_singleton. lia. }
  destruct (GetWorkerLoad x <? GetWorkerLoad m) eqn:Hlt;
    [apply Z.ltb_lt in Hlt; destruct (IH x) as [Hin Hmin]|
     apply Z.ltb_ge in Hlt; destruct (IH m) as [Hin Hmin]]; split.
  - by right.
  - intros w' [->|Hw]%elem_of_cons; [|by apply Hmin].
    specialize (Hmin x ltac:(left)). lia.
  - apply elem_of_cons in Hin as [->|Hin]; [left|by right; right].
  - intros w' Hw. rewrite !elem_of_cons in Hw. destruct Hw as [->|[->|Hw]].
    + apply Hmin. left.
    + specialize (Hmin m ltac:(left)). lia.
    + apply Hmin. by right.
Qed.

Lemma selectIdleWorker_min :
  GetAllWorkers <> [] ->
  selectIdleWorker wlp ∈ GetAllWorkers /\
  forall w, w ∈ GetAllWorkers -> GetWorkerLoad (selectIdleWorker wlp) <= GetWorkerLoad w.
Proof. unfold selectIdleWorker. destruct GetAllWorkers; [done|]. intros _. apply idle_loop_min. Qed.
End Idle.

Lemma symbols_at_spec w p acc s :
  s ∈ symbols_at w p acc <-> s ∈ acc \/ (w ∈ Workers p /\ s ∈ Symbols p).
Proof.
  unfold symbols_at. revert acc. induction (Workers p) as [|x ws IH]; intros acc; simpl; [set_solver|].
  rewrite IH. case_bool_decide; set_solver.
Qed.

Lemma symbol_set_spec w pt s :
  s ∈ symbol_set w pt <->
  exists pid p, Partitions pt !! pid = Some p /\ w ∈ Workers p /\ s ∈ Symbols p.
Proof.
  unfold symbol_set. induction (Partitions pt) as [|pid p m Hpid Hfold IH] using map_first_key_ind.
  { rewrite map_fold_empty. set_solver. }
  rewrite (map_fold_insert_first_key _ _ _ _ _ Hpid Hfold), symbols_at_spec, IH. split.
  - intros [(pid' & p' & Hm & ?)|?].
    + exists pid', p'. rewrite lookup_insert_ne; [done|congruence].
    + exists pid, p. by rewrite lookup_insert_eq.
  - intros (pid' & p' & Hm & ?). destruct (decide (pid' = pid)) as [->|].
    + rewrite lookup_insert_eq in Hm. naive_solver.
    + rewrite lookup_insert_ne in Hm by done. left. eauto.
Qed.

Lemma load_symbols_spec `{PartitionMetricsProvider} (l : list string) (load : gmap string Z) s :
  foldl (fun load symbol => <[symbol := GetSymbolQPS symbol]> load) load l !! s =
  if decide (s ∈ l) then Some (GetSymbolQPS s) else load !! s.
Proof.
  revert load. induction l as [|x l IH]; intros load; cbn [foldl]; [done|]. rewrite IH.
  destruct (decide (s ∈ l)), (decide (s ∈ x :: l)); try set_solver.
  - assert (s = x) as -> by set_solver. by rewrite lookup_insert_eq.
  - rewrite lookup_insert_ne; [done|set_solver].
Qed.

(** Exactly the symbols served have a load. *)
Lemma collectLoads_spec (metrics : PartitionMetricsProvider) pt s :
  (served pt s -> (collectLoads metrics pt).2 !! s = Some (GetSymbolQPS s)) /\
  (is_Some ((collectLoads metrics pt).2 !! s) -> served pt s).
Proof.
  unfold collectLoads, served, serves.
  induction (Partitions pt) as [|pid p m Hpid Hfold IH] using map_first_key_ind.
  { rewrite map_fold_empty. cbn. split; [naive_solver|by intros [? ?]]. }
  rewrite (map_fold_insert_first_key _ _ _ _ _ Hpid Hfold).
  destruct (map_fold _ _ m) as [pl sl]. cbn [snd] in *. rewrite load_symbols_spec.
  destruct (decide (s ∈ Symbols p)) as [Hin|Hin]; split.
  - done.
  - intros _. exists pid, p. by rewrite lookup_insert_eq.
  - intros (pid' & p' & Hm & ?). destruct (decide (pid' = pid)) as [->|].
    + rewrite lookup_insert_eq in Hm. naive_solver.
    + rewrite lookup_insert_ne in Hm by done. apply IH. eauto.
  - intros (pid' & p' & Hm & ?)%IH. exists pid', p'. rewrite lookup_insert_ne; [done|congruence].
Qed.

(** ** Splitting

    While the hot symbols of [pid0] are being moved, the table is well formed up to
    the symbols [X] still to be placed. *)

Record holes (pid0 : string) (X : list string) (pt : PartitionTable) : Prop := {
  holes_ids : ids_ok pt;
  holes_listed pid s : serves pt pid s -> listed pt s pid;
  holes_serves pid s : listed pt s pid -> serves pt pid s \/ (pid = pid0 /\ s ∈ X);
  holes_out s : s ∈ X -> ~ serves pt pid0 s }.

Section Split.
Context (wlp : WorkerLoadProvider) (clock : nat -> string) (symbolLoad : gmap string Z).
Implicit Types (pt : PartitionTable) (pid s : string).

Abbreviation createHotPartition := (createHotPartition wlp).
Abbreviation create_all := (create_all wlp clock).
Abbreviation split_partition := (split_partition wlp clock symbolLoad).
Abbreviation findHotSymbols := (findHotSymbols symbolLoad).
Abbreviation hot s := (800 < load_of symbolLoad s).

(** The IDs made up for the hot symbols of [pid] are not in use. *)
Fixpoint fresh_hot pid (hotSymbols : list string) (n : nat) pt : bool :=
  match hotSymbols with
  | [] => true
  | s :: l => bool_decide (Partitions pt !! hot_pid (clock n) pid s = None)
              && fresh_hot pid l (S n) (createHotPartition (clock n) pt pid s)
  end.

Definition fresh_visit pid (st : PartitionTable * nat * bool) : bool :=
  let '(pt, n, _) := st in
  match Partitions pt !! pid with
  | None => true
  | Some p => let l := findHotSymbols (Symbols p) in
              fresh_hot pid l n (set_partition pid (removeSymbolsFromPartition p l) pt)
  end.

Fixpoint fresh_split (order : list string) (st : PartitionTable * nat * bool) : bool :=
  match order with
  | [] => true
  | pid :: order' => fresh_visit pid st && fresh_split order' (split_partition pid st)
  end.

Lemma hot_pid_ne stamp pid s : hot_pid stamp pid s <> pid.
Proof.
  intros Heq%(f_equal String.length). unfold hot_pid in Heq.
  rewrite !string_length_app in Heq. simpl in Heq. lia.
Qed.

Lemma elem_findHot l s : s ∈ findHotSymbols l <-> s ∈ l /\ hot s.
Proof.
  unfold Partitions.findHotSymbols. rewrite list_elem_of_In, List.filter_In, <- list_elem_of_In.
  by rewrite Z.ltb_lt.
Qed.

Lemma serves_set pid p pt pid' s :
  serves (set_partition pid p pt) pid' s <->
  (pid' = pid /\ s ∈ Symbols p) \/ (pid' <> pid /\ serves pt pid' s).
Proof.
  unfold serves, set_partition; cbn. destruct (decide (pid' = pid)) as [->|Hne].
  - rewrite lookup_insert_eq. naive_solver.
  - rewrite lookup_insert_ne by done. naive_solver.
Qed.

Lemma elem_removed p l s : s ∈ Symbols (removeSymbolsFromPartition p l) <-> s ∈ Symbols p /\ s ∉ l.
Proof.
  cbn. rewrite list_elem_of_In, List.filter_In, <- list_elem_of_In, negb_true_iff, bool_decide_eq_false.
  by rewrite elem_of_list_to_set.
Qed.

Lemma serves_create stamp pt pid s pid' s' :
  Partitions pt !! hot_pid stamp pid s = None ->
  serves (createHotPartition stamp pt pid s) pid' s' <->
  serves pt pid' s' \/ (pid' = hot_pid stamp pid s /\ s' = s).
Proof.
  intros Hf. unfold serves, Partitions.createHotPartition; cbn.
  destruct (decide (pid' = hot_pid stamp pid s)) as [->|].
  - rewrite lookup_insert_eq, Hf. split; [|intros [(p & ? & _)|[_ ->]]; [done|]].
    + intros (p & [= <-] & ->%list_elem_of_singleton). by right.
    + eexists. split; [done|]. by apply list_elem_of_singleton.
  - rewrite lookup_insert_ne by done. naive_solver.
Qed.

Lemma listed_create stamp pt pid s pid' s' :
  listed (createHotPartition stamp pt pid s) s' pid' <->
  (s' <> s /\ listed pt s' pid') \/
  (s' = s /\ ((pid' <> pid /\ listed pt s pid') \/ pid' = hot_pid stamp pid s)).
Proof.
  unfold listed, Partitions.createHotPartition; cbn. destruct (decide (s' = s)) as [->|].
  - rewrite lookup_insert_eq. cbn. rewrite elem_of_app, list_elem_of_singleton.
    rewrite (list_elem_of_In (List.filter _ _)), List.filter_In, <- list_elem_of_In.
    rewrite negb_true_iff, bool_decide_eq_false. naive_solver.
  - rewrite lookup_insert_ne by done. naive_solver.
Qed.

Lemma holes_create stamp pid0 s X pt :
  Partitions pt !! hot_pid stamp pid0 s = None ->
  holes pid0 (s :: X) pt -> holes pid0 X (createHotPartition stamp pt pid0 s).
Proof.
  intros Hf [Hid Hl Hs Ho]. pose proof (hot_pid_ne stamp pid0 s). split.
  - intros pid p. cbn. rewrite lookup_insert_Some. naive_solver.
  - intros pid s'. rewrite serves_create, listed_create by done.
    destruct (decide (s' = s)) as [->|]; [|naive_solver].
    intros [Hsv|[-> _]]; [|by right; auto]. right. split; [done|]. left. split; [|auto].
    intros ->. apply (Ho s); [left|done].
  - intros pid s'. rewrite serves_create, listed_create by done. set_solver.
  - intros s' Hin. rewrite serves_create by done. intros [Hsv|[? _]]; [|done].
    apply (Ho s'); [by right|done].
Qed.

Lemma create_all_holes pid0 X n pt :
  fresh_hot pid0 X n pt = true -> holes pid0 X pt -> holes pid0 [] (create_all pid0 X n pt).1.
Proof.
  revert n pt. induction X as [|s X IH]; intros n pt; cbn; [done|].
  intros Hf Hh. bool_props. auto using holes_create.
Qed.

(** What a visit adds: partitions of one hot symbol each. *)
Definition hot_alone (p : Partition) : Prop :=
  forall s, s ∈ Symbols p -> hot s -> Symbols p = [s] /\ Workers p = [selectIdleWorker wlp].

Lemma create_all_served pid0 X n pt s :
  fresh_hot pid0 X n pt = true ->
  (served (create_all pid0 X n pt).1 s <-> served pt s \/ s ∈ X).
Proof.
  revert n pt. induction X as [|x X IH]; intros n pt; cbn; [set_solver|].
  intros Hf. bool_props. rewrite IH by done. unfold served. setoid_rewrite serves_create; [|done].
  set_solver.
Qed.

Lemma create_all_kept pid0 X n pt pid s :
  fresh_hot pid0 X n pt = true -> s ∉ X ->
  (serves (create_all pid0 X n pt).1 pid s <-> serves pt pid s).
Proof.
  revert n pt. induction X as [|x X IH]; intros n pt; cbn; [done|].
  intros Hf Hx. bool_props. rewrite IH, serves_create by set_solver. set_solver.
Qed.

Lemma create_all_alone pid0 X n pt pid p :
  Partitions (create_all pid0 X n pt).1 !! pid = Some p ->
  Partitions pt !! pid = Some p \/ hot_alone p.
Proof.
  revert n pt. induction X as [|x X IH]; intros n pt; cbn; [by left|].
  intros [Hl|]%IH; [|by right]. cbn in Hl. rewrite lookup_insert_Some in Hl.
  destruct Hl as [[_ <-]|[_ ?]]; [right|by left].
  intros s ->%list_elem_of_singleton _. done.
Qed.

Lemma create_all_dom pid0 X n pt : dom (Partitions pt) ⊆ dom (Partitions (create_all pid0 X n pt).1).
Proof.
  revert n pt. induction X as [|x X IH]; intros n pt; cbn; [done|].
  etrans; [|apply IH]. cbn. set_solver.
Qed.

Lemma holes_remove pid p pt :
  table_wf pt -> Partitions pt !! pid = Some p ->
  let l := findHotSymbols (Symbols p) in
  holes pid l (set_partition pid (removeSymbolsFromPartition p l) pt).
Proof.
  intros [Hid Hwf] Hp l. split.
  - intros pid' p'. cbn. rewrite lookup_insert_Some. intros [[<- <-]|[_ ?]]; [|by apply Hid].
    by apply Hid in Hp.
  - intros pid' s. rewrite serves_set, elem_removed. intros [[-> [? _]]|[_ ?]]; apply Hwf; [|done].
    by exists p.
  - intros pid' s Hls. rewrite serves_set, elem_removed. apply Hwf in Hls as Hsv.
    destruct (decide (pid' = pid)) as [->|]; [|by left; right].
    destruct Hsv as (p' & Hp' & Hin). simplify_eq. destruct (decide (s ∈ l)); auto.
  - intros s Hin. rewrite serves_set, elem_removed. naive_solver.
Qed.

Lemma holes_nil pid pt : holes pid [] pt -> table_wf pt.
Proof.
  intros [Hid Hl Hs _]. split; [done|]. intros pid' s. split; [apply Hl|].
  intros [?|[_ ?%not_elem_of_nil]]%Hs; done.
Qed.

(** One visit, as the loop sees it. *)
Record split_ok (pt pt' : PartitionTable) : Prop := {
  split_wf : table_wf pt';
  split_served s : served pt' s <-> served pt s;
  split_kept pid s : ~ hot s -> serves pt' pid s <-> serves pt pid s;
  split_dom : dom (Partitions pt) ⊆ dom (Partitions pt');
  split_migration : MigrationInfo pt' = MigrationInfo pt }.

Lemma split_ok_refl pt : table_wf pt -> split_ok pt pt.
Proof. by split. Qed.

Lemma split_ok_trans pt1 pt2 pt3 : split_ok pt1 pt2 -> split_ok pt2 pt3 -> split_ok pt1 pt3.
Proof.
  intros [? Hs1 Hk1 Hd1 Hm1] [? Hs2 Hk2 Hd2 Hm2]. split; [done|..].
  - intros s. by rewrite Hs2, Hs1.
  - intros pid s Hh. by rewrite Hk2, Hk1.
  - by etrans.
  - congruence.
Qed.

Lemma create_all_migration pid X n pt : MigrationInfo (create_all pid X n pt).1 = MigrationInfo pt.
Proof. revert n pt. induction X as [|x X IH]; intros n pt; cbn; [done|]. by rewrite IH. Qed.

Lemma visit_ok pid p n pt :
  let l := findHotSymbols (Symbols p) in
  let pt1 := set_partition pid (removeSymbolsFromPartition p l) pt in
  table_wf pt -> Partitions pt !! pid = Some p -> fresh_hot pid l n pt1 = true ->
  split_ok pt (create_all pid l n pt1).1.
Proof.
  intros l pt1 Hwf Hp Hf. split.
  - eapply holes_nil, create_all_holes; [done|]. by apply holes_remove.
  - intros s. rewrite create_all_served by done. unfold served. unfold pt1.
    setoid_rewrite serves_set. setoid_rewrite elem_removed. split.
    + intros [(pid' & [[-> [? _]]|[_ ?]])|[Hin _]%elem_findHot]; eauto; exists pid; by exists p.
    + intros (pid' & Hsv). destruct (decide (s ∈ l)); [by right|]. left. exists pid'.
      destruct (decide (pid' = pid)) as [->|]; [|by right]. left. split; [done|].
      destruct Hsv as (p' & ? & ?). by simplify_eq.
  - intros pid' s Hh. rewrite create_all_kept; [|done|intros [_ ?]%elem_findHot; lia].
    unfold pt1, l. rewrite serves_set, elem_removed, elem_findHot. unfold serves.
    destruct (decide (pid' = pid)) as [->|]; [rewrite Hp; naive_solver|naive_solver].
  - etrans; [|apply create_all_dom]. cbn. set_solver.
  - by rewrite create_all_migration.
Qed.

Lemma split_partition_ok pid st :
  table_wf st.1.1 -> fresh_visit pid st = true -> split_ok st.1.1 (split_partition pid st).1.1.
Proof.
  destruct st as [[pt n] u]. cbn. intros Hwf Hf.
  destruct (Partitions pt !! pid) as [p|] eqn:Hp; [|by apply split_ok_refl].
  pose proof (visit_ok pid p n pt Hwf Hp Hf) as Hok.
  destruct (findHotSymbols (Symbols p)) as [|x l]; [by apply split_ok_refl|].
  by destruct (create_all _ _ _ _) as [pt' n'].
Qed.

Lemma split_loop_ok order st :
  table_wf st.1.1 -> fresh_split order st = true ->
  split_ok st.1.1 (foldl (fun st pid => split_partition pid st) st order).1.1.
Proof.
  revert st. induction order as [|pid order IH]; intros st Hwf Hf; cbn [foldl fresh_split] in *.
  { by apply split_ok_refl. }
  bool_props. assert (Hok : split_ok st.1.1 (split_partition pid st).1.1)
    by by apply split_partition_ok.
  eapply split_ok_trans; [done|]. apply IH; [|done]. apply Hok.
Qed.

(** Partitions not yet visited may hold hot symbols; the others do not, but for
    the ones made for a hot symbol. *)
Lemma split_partition_alone pid order st :
  (forall pid' p, Partitions st.1.1 !! pid' = Some p -> pid' ∈ pid :: order \/ hot_alone p) ->
  forall pid' p, Partitions (split_partition pid st).1.1 !! pid' = Some p -> pid' ∈ order \/ hot_alone p.
Proof.
  destruct st as [[pt n] u]. cbn. intros Hall pid' p'.
  destruct (Partitions pt !! pid) as [p|] eqn:Hp; cbn.
  2:{ intros Hp'. destruct (Hall _ _ Hp') as [[->|?]%elem_of_cons|]; naive_solver. }
  assert (Hnone : forall p0, (forall s, s ∈ Symbols p0 -> ~ hot s) -> hot_alone p0).
  { intros p0 H0 s Hin Hh. by destruct (H0 s Hin). }
  destruct (findHotSymbols (Symbols p)) as [|x l] eqn:Hl; cbn.
  - intros Hp'. destruct (Hall _ _ Hp') as [[->|?]%elem_of_cons|]; [|by left|by right].
    right. simplify_eq. apply Hnone. intros s Hin Hh.
    eapply (not_elem_of_nil s). rewrite <- Hl. by apply elem_findHot.
  - intros Hp'. apply (create_all_alone pid (x :: l) n) in Hp' as [Hp'|]; [|by right].
    cbn in Hp'. rewrite lookup_insert_Some in Hp'. destruct Hp' as [[<- <-]|[Hne Hp']].
    + right. apply Hnone. intros s [Hin Hnot]%elem_removed Hh. apply Hnot. rewrite <- Hl.
      by apply elem_findHot.
    + destruct (Hall _ _ Hp') as [[->|?]%elem_of_cons|]; [done|by left|by right].
Qed.

Lemma split_loop_alone order st :
  (forall pid p, Partitions st.1.1 !! pid = Some p -> pid ∈ order \/ hot_alone p) ->
  forall pid p,
    Partitions (foldl (fun st pid => split_partition pid st) st order).1.1 !! pid = Some p -> hot_alone p.
Proof.
  revert st. induction order as [|x order IH]; intros st Hall pid p; cbn [foldl].
  { intros Hp. destruct (Hall _ _ Hp) as [[]%not_elem_of_nil|]; done. }
  apply IH. by apply split_partition_alone.
Qed.
End Split.

(** ** Merging *)

Section Merge.
Context (wlp : WorkerLoadProvider) (clock : nat -> string) (symbolLoad : gmap string Z).
Implicit Types (pt : PartitionTable) (pid s : string).

Abbreviation coldSymbols := (coldSymbols symbolLoad).
Abbreviation mergeColdSymbols := (mergeColdSymbols wlp clock symbolLoad).

Lemma elem_cold order s :
  s ∈ coldSymbols order <-> s ∈ order /\ exists qps, symbolLoad !! s = Some qps /\ qps < 5.
Proof.
  unfold Partitions.coldSymbols. rewrite list_elem_of_In, List.filter_In, <- list_elem_of_In.
  destruct (symbolLoad !! s) as [qps|]; [rewrite Z.ltb_lt|]; naive_solver.
Qed.

Lemma listed_merged (cold : list string) newPID (m : gmap string (list string)) s :
  foldl (fun m s => <[s := [newPID]]> m) m cold !! s =
  if decide (s ∈ cold) then Some [newPID] else m !! s.
Proof.
  revert m. induction cold as [|x cold IH]; intros m; cbn [foldl]; [done|]. rewrite IH.
  destruct (decide (s ∈ cold)), (decide (s ∈ x :: cold)); try set_solver.
  - assert (s = x) as -> by set_solver. by rewrite lookup_insert_eq.
  - rewrite lookup_insert_ne; [done|set_solver].
Qed.

Lemma merge_nothing order n pt pt' : mergeColdSymbols order n pt = (pt', false) -> pt' = pt.
Proof. unfold Partitions.mergeColdSymbols. case_match; congruence. Qed.

Section Merged.
Context (order : list string) (n : nat) (pt pt' : PartitionTable).
Hypothesis Hmerge : mergeColdSymbols order n pt = (pt', true).
Hypothesis Hfresh : Partitions pt !! cold_pid (clock n) = None.
Hypothesis Hids : ids_ok pt.
Abbreviation newPID := (cold_pid (clock n)).

Lemma merged_lookup pid :
  Partitions pt' !! pid =
  if decide (pid = newPID) then Some (mkPartition newPID (coldSymbols order) [selectIdleWorker wlp])
  else (fun p => removeSymbolsFromPartition p (coldSymbols order)) <$> Partitions pt !! pid.
Proof.
  unfold Partitions.mergeColdSymbols in Hmerge. case_match; [done|]. simplify_eq. cbn.
  rewrite lookup_fmap. destruct (decide (pid = newPID)) as [->|Hne].
  - rewrite lookup_insert_eq. cbn. by rewrite bool_decide_true.
  - rewrite lookup_insert_ne by done. destruct (Partitions pt !! pid) as [p|] eqn:Hp; cbn; [|done].
    apply Hids in Hp. rewrite bool_decide_false; [done|congruence].
Qed.

Lemma merged_serves pid s :
  serves pt' pid s <->
  (pid = newPID /\ s ∈ coldSymbols order) \/ (serves pt pid s /\ s ∉ coldSymbols order).
Proof.
  unfold serves. rewrite merged_lookup. destruct (decide (pid = newPID)) as [->|Hne].
  - rewrite Hfresh. naive_solver.
  - destruct (Partitions pt !! pid) as [p|]; cbn; [|naive_solver]. split.
    + intros (p' & [= <-] & [? ?]%elem_removed). naive_solver.
    + intros [[? _]|[(p' & [= <-] & ?) ?]]; [done|]. eexists. split; [done|]. by apply elem_removed.
Qed.

Lemma merged_wf : table_wf pt -> table_wf pt'.
Proof.
  intros [_ Hwf]. split.
  - intros pid p. rewrite merged_lookup. case_decide as Hd; [naive_solver|].
    destruct (Partitions pt !! pid) as [p0|] eqn:Hp; cbn; [|done]. intros [= <-]. by apply Hids in Hp.
  - intros pid s. rewrite merged_serves, Hwf. unfold listed.
    assert (SymbolToPartition pt' = foldl (fun m s => <[s := [newPID]]> m) (SymbolToPartition pt)
              (coldSymbols order)) as ->.
    { unfold Partitions.mergeColdSymbols in Hmerge. case_match; by simplify_eq. }
    rewrite listed_merged. case_decide; cbn; [rewrite list_elem_of_singleton|]; naive_solver.
Qed.

Lemma merged_served s :
  (forall s, s ∈ coldSymbols order -> served pt s) -> served pt' s <-> served pt s.
Proof.
  intros Hcold. unfold served. setoid_rewrite merged_serves. split.
  - intros (pid & [[_ ?]|[? _]]); [by apply Hcold|by exists pid].
  - intros (pid & ?). destruct (decide (s ∈ coldSymbols order)); [exists newPID|exists pid]; auto.
Qed.

Lemma merged_alone :
  (forall pid p, Partitions pt !! pid = Some p -> hot_alone wlp symbolLoad p) ->
  forall pid p, Partitions pt' !! pid = Some p -> hot_alone wlp symbolLoad p.
Proof.
  intros Hall pid p. rewrite merged_lookup. case_decide as Hd.
  - intros [= <-] s (_ & qps & Hq & Hlt)%elem_cold. unfold load_of. rewrite Hq. cbn. lia.
  - destruct (Partitions pt !! pid) as [p0|] eqn:Hp; cbn; [|done]. intros [= <-] s [Hin Hn]%elem_removed Hh.
    destruct (Hall _ _ Hp s Hin Hh) as [Hs Hw]. cbn. rewrite Hs, Hw. cbn.
    by rewrite bool_decide_false by (by rewrite elem_of_list_to_set).
Qed.

Lemma merged_dom : dom (Partitions pt') = {[newPID]} ∪ dom (Partitions pt).
Proof.
  apply set_eq. intros pid. rewrite elem_of_union, elem_of_singleton, !elem_of_dom, merged_lookup.
  destruct (decide (pid = newPID)) as [->|]; [naive_solver|]. rewrite fmap_is_Some. naive_solver.
Qed.
End Merged.
End Merge.

(** ** A round of the autoscaler *)

Lemma DeepCopy_Partitions pt : Partitions (DeepCopy pt) = Partitions pt.
Proof.
  cbn. rewrite <- (map_fmap_id (Partitions pt)) at 2. apply map_fmap_ext. by intros ? [] _.
Qed.

Lemma DeepCopy_serves pt pid s : serves (DeepCopy pt) pid s <-> serves pt pid s.
Proof. unfold serves. by rewrite DeepCopy_Partitions. Qed.

Lemma DeepCopy_wf pt : table_wf pt -> table_wf (DeepCopy pt).
Proof.
  intros [Hid Hwf]. split; [intros pid p; rewrite DeepCopy_Partitions; apply Hid|].
  intros pid s. rewrite DeepCopy_serves. apply Hwf.
Qed.

Section Round.
Context (metrics : PartitionMetricsProvider) (clock : nat -> string).
Context (hotOrder loadOrder : list string) (pt : PartitionTable).

Definition loads : gmap string Z := (collectLoads metrics pt).2.
Definition after_split : PartitionTable * nat * bool :=
  splitHotSymbols scaling_wlp clock loads hotOrder 0 (DeepCopy pt).

(** The IDs the round makes up are not in use. *)
Definition fresh_round : bool :=
  fresh_split scaling_wlp clock loads hotOrder (DeepCopy pt, 0%nat, false)
  && bool_decide (Partitions after_split.1.1 !! cold_pid (clock after_split.1.2) = None).

(** The runtime yields every partition, and every load once. *)
Definition enumerated : Prop :=
  dom (Partitions pt) ⊆ list_to_set hotOrder /\ loadOrder ≡ₚ elements (dom loads).

Lemma loads_hot s : served pt s -> load_of loads s = GetSymbolQPS s.
Proof. intros Hs. unfold load_of, loads. by rewrite (proj1 (collectLoads_spec metrics pt s) Hs). Qed.

Lemma cold_served s : s ∈ coldSymbols loads loadOrder -> served pt s.
Proof. intros (_ & qps & Hq & _)%elem_cold. apply (collectLoads_spec metrics pt s). eauto. Qed.

Lemma cold_symbols s :
  enumerated -> served pt s -> GetSymbolQPS s < 5 -> s ∈ coldSymbols loads loadOrder.
Proof.
  intros [_ Hl] Hs Hq. apply elem_cold. pose proof (proj1 (collectLoads_spec metrics pt s) Hs) as Hlk.
  split; [|by eexists]. rewrite Hl. apply elem_of_elements, elem_of_dom. by eexists.
Qed.

Section Sound.
Hypothesis Hwf : table_wf pt.
Hypothesis Hfresh : fresh_round = true.

Lemma round_split : split_ok loads (DeepCopy pt) after_split.1.1.
Proof.
  unfold fresh_round in Hfresh. bool_props.
  apply (split_loop_ok scaling_wlp clock loads hotOrder (DeepCopy pt, 0%nat, false)); [|done].
  by apply DeepCopy_wf.
Qed.

Lemma round_served_split s : served after_split.1.1 s <-> served pt s.
Proof.
  rewrite (split_served _ _ _ round_split). unfold served. by setoid_rewrite DeepCopy_serves.
Qed.

(** The table after the round, whichever of the two parts changed it. *)
Lemma rescale_cases pt' :
  rescale metrics clock hotOrder loadOrder pt = Some pt' ->
  let merged := mergeColdSymbols scaling_wlp clock loads loadOrder after_split.1.2 after_split.1.1 in
  pt' = merged.1.
Proof.
  unfold rescale, after_split, loads. destruct (collectLoads metrics pt) as [? l].
  destruct (splitHotSymbols _ _ _ _ _ _) as [[pt1 n] u]. cbn.
  destruct (mergeColdSymbols _ _ _ _ _ _) as [pt2 v]. cbn. by destruct (u || v); intros [= ->].
Qed.

Lemma rescale_kinds pt' (P : PartitionTable -> Prop) :
  rescale metrics clock hotOrder loadOrder pt = Some pt' ->
  ((length (coldSymbols loads loadOrder) <= 1)%nat -> P after_split.1.1) ->
  (forall pt2, (1 < length (coldSymbols loads loadOrder))%nat ->
     mergeColdSymbols scaling_wlp clock loads loadOrder after_split.1.2 after_split.1.1 = (pt2, true) ->
     P pt2) ->
  P pt'.
Proof.
  intros Hr H1 H2. rewrite (rescale_cases _ Hr).
  destruct (mergeColdSymbols _ _ _ _ _ _) as [pt2 [|]] eqn:Hm; cbn.
  - apply H2; [|done]. unfold mergeColdSymbols in Hm. case_match eqn:Hle; [done|].
    by apply Nat.leb_gt in Hle.
  - rewrite (merge_nothing _ _ _ _ _ _ _ Hm). apply H1. unfold mergeColdSymbols in Hm.
    case_match eqn:Hle; [|done]. by apply Nat.leb_le in Hle.
Qed.

Lemma fresh_cold : Partitions after_split.1.1 !! cold_pid (clock after_split.1.2) = None.
Proof. unfold fresh_round in Hfresh. by bool_props. Qed.

Lemma split_ids : ids_ok after_split.1.1.
Proof. apply round_split. Qed.

Lemma cold_served_split s : s ∈ coldSymbols loads loadOrder -> served after_split.1.1 s.
Proof. intros Hs. by apply round_served_split, cold_served. Qed.
End Sound.
End Round.

#[local] Hint Resolve fresh_cold split_ids cold_served_split : cex.



(** A table with a hot symbol, three cold ones and a warm one. *)
Definition demo_table : PartitionTable :=
  mkPartitionTable
    (<["BTCUSDT" := ["p1"]]> (<["ETHUSDT" := ["p1"]]> (<["DOGEUSDT" := ["p1"]]>
      (<["XRPUSDT" := ["p2"]]> (<["ADAUSDT" := ["p2"]]> ∅)))))
    (<["p1" := mkPartition "p1" ["BTCUSDT"; "ETHUSDT"; "DOGEUSDT"] ["worker1"]]>
      (<["p2" := mkPartition "p2" ["XRPUSDT"; "ADAUSDT"] ["worker2"]]> ∅)) ∅.

Definition demo_metrics : PartitionMetricsProvider := {|
  GetPartitionQPS := fun _ => 100;
  GetSymbolQPS := fun s => if s =s "BTCUSDT" then 900 else if s =s "ETHUSDT" then 100 else 1 |}.

(** Well-formedness as a test, for concrete tables. *)
Definition table_wfb (pt : PartitionTable) : bool :=
  forallb (fun '(pid, p) => (PartitionID p =s pid)
             && forallb (fun s => bool_decide (pid ∈ default [] (SymbolToPartition pt !! s))) (Symbols p))
    (map_to_list (Partitions pt))
  && forallb (fun '(s, pids) => forallb (fun pid =>
               match Partitions pt !! pid with Some p => bool_decide (s ∈ Symbols p) | None => false end) pids)
       (map_to_list (SymbolToPartition pt)).

Lemma table_wfb_sound pt : table_wfb pt = true -> table_wf pt.
Proof.
  unfold table_wfb. rewrite andb_true_iff, !forallb_forall. intros [Hp Hs]. split.
  - intros pid p Hl%elem_of_map_to_list%list_elem_of_In. apply Hp in Hl. by bool_props.
  - intros pid s. split.
    + intros (p & Hl & Hin). apply elem_of_map_to_list, list_elem_of_In, Hp in Hl.
      apply andb_true_iff in Hl as [_ Hl]. rewrite forallb_forall in Hl.
      apply list_elem_of_In, Hl in Hin. by bool_props.
    + unfold listed. destruct (SymbolToPartition pt !! s) as [pids|] eqn:Hl; cbn; [|by intros ?%not_elem_of_nil].
      intros Hin. apply elem_of_map_to_list, list_elem_of_In, Hs in Hl. rewrite forallb_forall in Hl.
      apply list_elem_of_In, Hl in Hin. case_match; [|done]. bool_props. by eexists.
Qed.

Definition demo_clock (n : nat) : string := "10300" +:+ pretty n.

Definition demo_order : list string := ["DOGEUSDT"; "ADAUSDT"; "BTCUSDT"; "XRPUSDT"; "ETHUSDT"].

Lemma demo_enumerated : enumerated demo_metrics ["p2"; "p1"] demo_order demo_table.
Proof.
  split; [by vm_compute|]. apply NoDup_Permutation.
  - apply (bool_decide_unpack _). by vm_compute.
  - apply NoDup_elements.
  - intros s. rewrite elem_of_elements.
    assert (dom (loads demo_metrics demo_table) = list_to_set demo_order) as -> by by vm_compute.
    by rewrite elem_of_list_to_set.
Qed.



(** With two cold symbols every round adds a partition, also right after they
    were merged, and no round removes one: the table grows without end. *)
Theorem cold_rounds_grow metrics clock hotOrder loadOrder pt s1 s2 :
  table_wf pt -> fresh_round metrics clock hotOrder pt = true ->
  enumerated metrics hotOrder loadOrder pt ->
  served pt s1 -> served pt s2 -> s1 <> s2 -> GetSymbolQPS s1 < 5 -> GetSymbolQPS s2 < 5 ->
  exists pt', rescale metrics clock hotOrder loadOrder pt = Some pt' /\
              dom (Partitions pt) ⊂ dom (Partitions pt').
Proof.
  intros Hwf Hf He Hs1 Hs2 Hne Hq1 Hq2.
  pose proof (cold_symbols _ _ _ _ _ He Hs1 Hq1) as Hc1.
  pose proof (cold_symbols _ _ _ _ _ He Hs2 Hq2) as Hc2.
  pose proof (round_split _ _ _ _ Hwf Hf) as Hsp. pose proof (fresh_cold _ _ _ _ Hf) as Hfr.
  assert (Hlen : (length (coldSymbols (loads metrics pt) loadOrder) <=? 1)%nat = false).
  { apply Nat.leb_gt. destruct (coldSymbols _ _) as [|a [|b l]]; [by apply not_elem_of_nil in Hc1| |simpl; lia].
    apply list_elem_of_singleton in Hc1, Hc2. congruence. }
  unfold rescale. unfold after_split, loads in *. destruct (collectLoads metrics pt) as [? load].
  cbn [snd] in *.
  destruct (splitHotSymbols scaling_wlp clock load hotOrder 0 (DeepCopy pt)) as [[pt1 n] u].
  cbn [fst snd] in *.
  destruct (mergeColdSymbols scaling_wlp clock load loadOrder n pt1) as [pt2 v] eqn:Hm.
  assert (v = true) as -> by (unfold mergeColdSymbols in Hm; rewrite Hlen in Hm; congruence).
  exists pt2. split; [by destruct u|].
  rewrite (merged_dom _ _ _ _ _ _ _ Hm) by (done || apply Hsp).
  pose proof (split_dom _ _ _ Hsp) as Hd. rewrite DeepCopy_Partitions in Hd.
  apply not_elem_of_dom in Hfr. set_solver.
Qed.

Lemma cold_rounds_grow_witness :
  exists pt', rescale demo_metrics demo_clock ["p2"; "p1"]
                demo_order demo_table = Some pt' /\
              dom (Partitions demo_table) ⊂ dom (Partitions pt').
Proof.
  refine (cold_rounds_grow demo_metrics demo_clock ["p2"; "p1"]
    demo_order demo_table "XRPUSDT" "ADAUSDT"
    _ _ _ _ _ _ _ _).
  - by apply table_wfb_sound.
  - by vm_compute.
  - exact demo_enumerated.
  - exists "p2". eexists. split; [by vm_compute|]. by left.
  - exists "p2". eexists. split; [by vm_compute|]. right. by left.
  - done.
  - by vm_compute.
  - by vm_compute.
Defined.

(** A table the day after two merges in the same second of the day: DOGEUSDT has
    warmed up since. *)
Definition reused_table : PartitionTable :=
  mkPartitionTable
    (<["XRPUSDT" := ["p2"]]> (<["ADAUSDT" := ["p2"]]> (<["DOGEUSDT" := ["cold_merge_103000"]]> ∅)))
    (<["p2" := mkPartition "p2" ["XRPUSDT"; "ADAUSDT"] ["worker2"]]>
      (<["cold_merge_103000" := mkPartition "cold_merge_103000" ["DOGEUSDT"] ["worker2"]]> ∅)) ∅.

Definition reused_metrics : PartitionMetricsProvider := {|
  GetPartitionQPS := fun _ => 100;
  GetSymbolQPS := fun s => if s =s "DOGEUSDT" then 100 else 1 |}.

(** The IDs repeat every day.  A merge in the second of an earlier one replaces
    that partition, and a symbol that is still in it is served by no partition any
    more, although the table lists one for it. *)
Theorem reused_id_drops_symbol :
  table_wf reused_table /\ served reused_table "DOGEUSDT" /\
  exists pt', rescale reused_metrics demo_clock ["cold_merge_103000"; "p2"]
                ["XRPUSDT"; "DOGEUSDT"; "ADAUSDT"] reused_table = Some pt' /\
              ~ served pt' "DOGEUSDT" /\ listed pt' "DOGEUSDT" "cold_merge_103000".
Proof.
  split; [by apply table_wfb_sound|]. split.
  { exists "cold_merge_103000". eexists. split; [by vm_compute|]. by left. }
  eexists. split; [vm_compute; reflexivity|]. split; [|by left].
  intros (pid & p & Hp & Hin). cbn [Partitions] in Hp. rewrite <- elem_of_map_to_list in Hp.
  vm_compute in Hp. set_unfold. destruct Hp as [Hp|[Hp|[]]]; simplify_eq; set_solver.
Qed.
