(* ===== verification/PartitionManager.v ===== *)
(** * Partition manager and partition-aware engine

    Models src/biz/service/partition_manager.go, the update of the manager by
    scaleIfNeeded of partition_autoscaler.go, setup_coordinators.go and
    partition_aware_match_engine.go.  The manager caches the partition table that
    Consul stores and keeps the ownership machines of the partitions of this node;
    the engine polls the cache and accepts orders for the symbols of its node only.

    Consul is a parameter ([TableKV]); the value under the key is the tree of its
    JSON text, [None] if the text is no JSON.  Connecting to Consul is in Boot.v
    and the construction of the engine in Node.v. *)

From stdpp Require Import base gmap strings list sorting pretty.
From Stdlib Require Import ZArith Lia.
From S2P Require Import Prelude Money Events Database Sequencer SkipList OrderBook EventLog Checkpoint Pipeline MatchEngine Ownership Partitions.

Local Open Scope go_scope.
Local Open Scope Z_scope.

Class TableKV (K : Type) := {
  (** The pair under "partition/table", if there is one, and the index of the answer. *)
  table_Get : K -> outcome (option (option json) * Z);
  table_Put : json -> K -> K * option error }.

(** A write that succeeds is read back. *)
Class TableKVLaws (K : Type) {H : TableKV K} := {
  table_get_put j k k' r i : table_Put j k = (k', None) -> table_Get k' = Ok (r, i) -> r = Some (Some j) }.

Section Manager.
Context {K : Type} `{!TableKV K}.
Implicit Types (k : K).

(** A machine may be registered as nil. *)
Record PartitionManager := mkPartitionManager {
  pm_cache : option PartitionTable;
  pm_ownershipFSMs : gmap string (option OwnershipStateMachine);
  pm_transferCoord : bool }.
Implicit Types (pm : PartitionManager).

(** The manager NewPartitionManager returns once it is connected. *)
Definition connected_manager : PartitionManager := mkPartitionManager (Some NewPartitionTable) ∅ false.

Definition set_cache (pt : option PartitionTable) pm : PartitionManager :=
  mkPartitionManager pt (pm_ownershipFSMs pm) (pm_transferCoord pm).
Definition set_fsms (m : gmap string (option OwnershipStateMachine)) pm : PartitionManager :=
  mkPartitionManager (pm_cache pm) m (pm_transferCoord pm).

(** [json.Unmarshal] of what Consul holds. *)
Definition unmarshal_table (value : option json) : outcome PartitionTable :=
  match value with
  | Some j => table_of_json j
  | None => Err "invalid character"
  end.

Definition LoadFromConsul k pm : outcome (PartitionManager * option error) :=
  match table_Get k with
  | Err e => Ok (pm, Some e)
  | Panic => Panic
  | Ok (None, _) => Ok (pm, None)
  | Ok (Some value, _) =>
      match unmarshal_table value with
      | Ok pt => Ok (set_cache (Some pt) pm, None)
      | Err e => Ok (pm, Some e)
      | Panic => Panic
      end
  end.

Definition SaveToConsul pm k : K * option error :=
  table_Put (from_option json_of_table JNull (pm_cache pm)) k.

Definition GetPartitionTable pm : option PartitionTable := pm_cache pm.

(** One pass of the loop of WatchPartitionTable. *)
Definition watch_table k (lastIndex : Z) pm : outcome (Z * PartitionManager) :=
  match table_Get k with
  | Err _ => Ok (lastIndex, pm)
  | Panic => Panic
  | Ok (None, _) => Ok (lastIndex, pm)
  | Ok (Some value, metaIndex) =>
      if metaIndex =? lastIndex then Ok (lastIndex, pm)
      else match unmarshal_table value with
           | Ok pt => Ok (metaIndex, set_cache (Some pt) pm)
           | Err _ => Ok (metaIndex, pm)
           | Panic => Panic
           end
  end.

Definition UpdatePartitionTable (pt : option PartitionTable) pm k : PartitionManager * K * option error :=
  let pm' := set_cache pt pm in
  let '(k', err) := SaveToConsul pm' k in
  (pm', k', err).

Definition RegisterOwnershipFSM (partitionID : string) (fsm : option OwnershipStateMachine) pm
    : PartitionManager :=
  let fsm' := if pm_transferCoord pm then SetTransferCoordinator true <$> fsm else fsm in
  set_fsms (<[partitionID := fsm']> (pm_ownershipFSMs pm)) pm.

Definition UnregisterOwnershipFSM (partitionID : string) pm : PartitionManager :=
  set_fsms (delete partitionID (pm_ownershipFSMs pm)) pm.

Definition GetOwnershipFSM (partitionID : string) pm : option OwnershipStateMachine :=
  mjoin (pm_ownershipFSMs pm !! partitionID).

(** [tc] says whether a coordinator is given. *)
Definition pm_SetTransferCoordinator (tc : bool) pm : PartitionManager :=
  mkPartitionManager (pm_cache pm) (option_map (SetTransferCoordinator tc) <$> pm_ownershipFSMs pm) tc.

Definition ListRegisteredFSMs pm : gmap string (option OwnershipStateMachine) := pm_ownershipFSMs pm.

(** scaleIfNeeded; the error of the update is dropped. *)
Definition scaleIfNeeded (metrics : PartitionMetricsProvider) (clock : nat -> string)
    (hotOrder loadOrder : list string) pm k : PartitionManager * K :=
  match GetPartitionTable pm with
  | None => (pm, k)
  | Some pt =>
      match rescale metrics clock hotOrder loadOrder pt with
      | None => (pm, k)
      | Some newPT => let '(pm', k', _) := UpdatePartitionTable (Some newPT) pm k in (pm', k')
      end
  end.

(** The flags say whether there is a database, what AutoMigrate answers, and
    whether the package has a default coordinator, before and after. *)
Definition SetupCoordinators (pm : option PartitionManager) (db : bool) (migrate : option error)
    (defaultCoordinator : bool) : option PartitionManager * bool * option error :=
  if negb db then (pm, defaultCoordinator, None)
  else match migrate with
       | Some e => (pm, defaultCoordinator, Some e)
       | None => (pm_SetTransferCoordinator true <$> pm, true, None)
       end.
End Manager.

(** ** The engine *)

Section Aware.
Context {sl : Type -> Type} {Hsl : SkipList sl}.
Context {L D W : Type} {HL : EventStore L} {HD : Table D EventOffsetCheckpoint}.

(** [pa_lastSymbols] is the local variable of the watching goroutine. *)
Record PartitionAwareMatchEngine := mkPartitionAware {
  pa_engine : MatchEngine sl L D W;
  pa_pm : PartitionManager;
  pa_localAddr : string;
  pa_watchedSymbols : gset string;
  pa_lastSymbols : option (gset string);
  pa_cancelled : bool }.
Implicit Types (pa : PartitionAwareMatchEngine).

Definition start_aware (engine : MatchEngine sl L D W) (pm : PartitionManager) (localAddr : string)
    : PartitionAwareMatchEngine :=
  mkPartitionAware engine pm localAddr ∅ None false.

Definition set_engine (me : MatchEngine sl L D W) pa : PartitionAwareMatchEngine :=
  mkPartitionAware me (pa_pm pa) (pa_localAddr pa) (pa_watchedSymbols pa) (pa_lastSymbols pa)
    (pa_cancelled pa).
Definition set_manager (pm : PartitionManager) pa : PartitionAwareMatchEngine :=
  mkPartitionAware (pa_engine pa) pm (pa_localAddr pa) (pa_watchedSymbols pa) (pa_lastSymbols pa)
    (pa_cancelled pa).

(** The partitions of the table this node works for. *)
Definition currOwned (localAddr : string) (pt : PartitionTable) : gset string :=
  dom (filter (fun '(_, p) => localAddr ∈ Workers p) (Partitions pt)).

Definition register_owned (now : Z) (defaultCoordinator : bool) (localAddr pid : string) (p : Partition)
    (pm : PartitionManager) : PartitionManager :=
  if bool_decide (localAddr ∈ Workers p) then
    match GetOwnershipFSM pid pm with
    | Some _ => pm
    | None => RegisterOwnershipFSM pid
                (Some (NewOwnershipStateMachine now defaultCoordinator pid localAddr (Symbols p))) pm
    end
  else pm.

Definition register_all (now : Z) (defaultCoordinator : bool) (localAddr : string) (pt : PartitionTable)
    (pm : PartitionManager) : PartitionManager :=
  map_fold (register_owned now defaultCoordinator localAddr) pm (Partitions pt).

Definition unregister_lost (owned : gset string) (pm : PartitionManager) : PartitionManager :=
  map_fold (fun pid _ pm => if bool_decide (pid ∈ owned) then pm else UnregisterOwnershipFSM pid pm)
    pm (ListRegisteredFSMs pm).

(** The symbols newly assigned are watched, those no longer assigned are not. *)
Definition watch_symbols (lastSymbols : option (gset string)) (mySymbols watched : gset string)
    : gset string :=
  let added := match lastSymbols with Some l => mySymbols ∖ l | None => mySymbols end in
  let watched := watched ∪ added in
  match lastSymbols with Some l => watched ∖ (l ∖ mySymbols) | None => watched end.

(** One pass of the loop of watchPartitionChange. *)
Definition watchPartitionChange_round (now : Z) (defaultCoordinator : bool) pa
    : outcome PartitionAwareMatchEngine :=
  if pa_cancelled pa then Ok pa else
  match GetPartitionTable (pa_pm pa) with
  | None => Panic
  | Some pt =>
      let mySymbols := symbol_set (pa_localAddr pa) pt in
      let pm1 := register_all now defaultCoordinator (pa_localAddr pa) pt (pa_pm pa) in
      let pm2 := unregister_lost (currOwned (pa_localAddr pa) pt) pm1 in
      Ok (mkPartitionAware (pa_engine pa) pm2 (pa_localAddr pa)
            (watch_symbols (pa_lastSymbols pa) mySymbols (pa_watchedSymbols pa))
            (Some mySymbols) false)
  end.

Definition ErrSymbolNotLocallyOwned : error := "symbol is not owned by this node".

Definition pa_SubmitOrder (now : Z) (schedule : list (EventProcessor W) -> list (EventProcessor W))
    (enum : gmap string EventOffsetCheckpoint -> list string) (nowNano : Z) (pick : bool)
    (order : SubmitOrderMsg) pa : outcome (option (PartitionAwareMatchEngine * option error)) :=
  if negb (bool_decide (so_Symbol order ∈ pa_watchedSymbols pa))
  then Ok (Some (pa, Some ErrSymbolNotLocallyOwned))
  else let? r := SubmitOrder now schedule enum nowNano pick order (pa_engine pa) in
       Ok ((fun '(me, err) => (set_engine me pa, err)) <$> r).

Definition pa_Shutdown pa : PartitionAwareMatchEngine :=
  mkPartitionAware (Shutdown (pa_engine pa)) (pa_pm pa) (pa_localAddr pa) (pa_watchedSymbols pa)
    (pa_lastSymbols pa) true.

Definition GetLocalSymbols (enum : gset string -> list string) pa : list string :=
  enum (pa_watchedSymbols pa).

(** What happens to an engine: its loop passes, the watcher of the table or an
    autoscaler replaces the cache, the machines change, orders arrive. *)
Inductive aware_step : PartitionAwareMatchEngine -> PartitionAwareMatchEngine -> Prop :=
| aware_round now dc pa pa' :
    watchPartitionChange_round now dc pa = Ok pa' -> aware_step pa pa'
| aware_table pt pa : aware_step pa (set_manager (set_cache pt (pa_pm pa)) pa)
| aware_fsms m pa : aware_step pa (set_manager (set_fsms m (pa_pm pa)) pa)
| aware_submit now sch enum nowNano pick order pa pa' err :
    pa_SubmitOrder now sch enum nowNano pick order pa = Ok (Some (pa', err)) -> aware_step pa pa'
| aware_work me pa : aware_step pa (set_engine me pa)
| aware_shutdown pa : aware_step pa (pa_Shutdown pa).
End Aware.
