(* ===== verification/PartitionManagerProps.v ===== *)
(** * Properties of the partition manager and the partition-aware engine

    A table saved by one node is the table another node loads; after each pass of
    its loop an engine accepts orders for exactly the symbols the table assigns to
    it, and has an ownership machine for exactly its partitions, new ones starting
    as owner and old ones kept as they are.  The gate does not look at the machine:
    a frozen partition still takes orders. *)

From stdpp Require Import base gmap strings list sorting pretty.
From Stdlib Require Import ZArith Lia.
From S2P Require Import Prelude Money Events Database Sequencer SkipList OrderBook Matching BookSpec BookProps EventLog Checkpoint Pipeline PipelineProps MatchEngine MatchEngineProps Ownership Partitions PartitionsProps PartitionManager.

Local Open Scope go_scope.
Local Open Scope Z_scope.

(** ** The JSON of a table *)

Lemma dec_strings_json l : dec_strings (json_of_strings l) = Some l.
Proof. cbn. induction l as [|s l IH]; cbn; [done|]. by rewrite IH. Qed.

Section Maps.
Context {V U : Type} (enc : V -> json) (dec : json -> option U) (f : V -> U).

Lemma dec_entries_json (m : gmap string V) l m0 :
  (forall k v, m !! k = Some v -> dec (enc v) = Some (f v)) ->
  (forall k, k ∈ l -> is_Some (m !! k)) ->
  exists m', dec_entries dec ((fun k => (k, from_option enc JNull (m !! k))) <$> l) m0 = Some m' /\
             forall k, m' !! k = if decide (k ∈ l) then f <$> m !! k else m0 !! k.
Proof.
  intros Hdec. revert m0. induction l as [|k l IH]; intros m0 Hl.
  { eexists. split; [done|]. intros k. by rewrite decide_False by apply not_elem_of_nil. }
  destruct (Hl k ltac:(left)) as [v Hv]. cbn. rewrite Hv. cbn. rewrite (Hdec _ _ Hv).
  destruct (IH (<[k := f v]> m0)) as (m' & Hm' & Hlk); [intros; apply Hl; by right|].
  exists m'. split; [done|]. intros k'. rewrite Hlk. clear -Hv.
  destruct (decide (k' ∈ l)) as [Hin|Hnot]; [by rewrite decide_True by by right|].
  destruct (decide (k' = k)) as [->|Hne].
  - rewrite lookup_insert_eq, decide_True by left. by rewrite Hv.
  - rewrite lookup_insert_ne by done. by rewrite decide_False by by intros [?|?]%elem_of_cons.
Qed.

Lemma dec_map_json (m : gmap string V) :
  (forall k v, m !! k = Some v -> dec (enc v) = Some (f v)) ->
  dec_map dec ∅ (json_of_map enc m) = Some (f <$> m).
Proof.
  intros Hdec. unfold json_of_map, dec_map.
  destruct (dec_entries_json m (sort_strings (elements (dom m))) ∅ Hdec) as (m' & -> & Hlk).
  { intros k. rewrite sort_strings_perm, elem_of_elements. apply elem_of_dom. }
  f_equal. apply map_eq. intros k. rewrite Hlk, lookup_fmap.
  case_decide as Hd; [done|]. rewrite sort_strings_perm, elem_of_elements in Hd.
  apply not_elem_of_dom in Hd. by rewrite Hd, lookup_empty.
Qed.
End Maps.

Lemma dec_map_id {V} (enc : V -> json) dec (m : gmap string V) :
  (forall v, dec (enc v) = Some v) -> dec_map dec ∅ (json_of_map enc m) = Some m.
Proof. intros Hd. rewrite (dec_map_json enc dec id) by auto. by rewrite map_fmap_id. Qed.

Lemma omap_Some {V} (m : gmap string V) : omap id (Some <$> m) = m.
Proof. apply map_eq. intros k. rewrite lookup_omap, lookup_fmap. by destruct (m !! k). Qed.

Lemma no_nil_Some {V} (m : gmap string V) : no_nil (Some <$> m) = true.
Proof. unfold no_nil. rewrite omap_Some, map_size_fmap. apply Nat.eqb_refl. Qed.

Lemma partition_json p :
  dec_pointer partition_fields (mkPartition "" [] []) (json_of_partition p) = Some (Some p).
Proof.
  destruct p as [i s w].
  repeat (cbv -[dec_strings json_of_strings]; rewrite dec_strings_json). done.
Qed.

Definition times_in_range (pt : PartitionTable) : Prop :=
  map_Forall (fun _ v => is_i64 (mi_UpdateTime v)) (MigrationInfo pt).

Lemma migration_json v :
  is_i64 (mi_UpdateTime v) ->
  dec_pointer migration_fields (mkSymbolMigrationInfo "" "" "" false 0 "") (json_of_migration v)
    = Some (Some v).
Proof. destruct v. intros ?. simpl in *. by json_decode. Qed.

Lemma table_json_id pt : times_in_range pt -> table_of_json (json_of_table pt) = Ok pt.
Proof.
  intros Ht. unfold table_of_json, json_of_table, json_Unmarshal, dec_fields.
  assert (Hs : forall j a b c, dec_field table_fields "symbol_to_partition" j (mkRawTable a b c) =
    (fun v => mkRawTable v b c) <$> dec_map dec_strings a j) by reflexivity.
  assert (Hp : forall j a b c, dec_field table_fields "partitions" j (mkRawTable a b c) =
    (fun v => mkRawTable a v c) <$>
      dec_map (dec_pointer partition_fields (mkPartition "" [] [])) b j) by reflexivity.
  assert (Hm : forall j a b c, dec_field table_fields "migration_info" j (mkRawTable a b c) =
    (fun v => mkRawTable a b v) <$>
      dec_map (dec_pointer migration_fields (mkSymbolMigrationInfo "" "" "" false 0 "")) c j)
    by reflexivity.
  rewrite Hs, (dec_map_id _ _ _ dec_strings_json). cbn [fmap option_fmap option_map].
  rewrite Hp, (dec_map_json json_of_partition _ Some) by auto using partition_json.
  cbn [fmap option_fmap option_map].
  rewrite Hm, (dec_map_json json_of_migration _ Some) by (intros k v Hv; by apply migration_json, (Ht k v)).
  cbn [fmap option_fmap option_map obind raw_symbols raw_partitions raw_migrations].
  rewrite !no_nil_Some, !omap_Some. by destruct pt.
Qed.

(** C33: the table a node has saved to Consul is the table any node loads from it. *)
Theorem saved_table_loads {K} `{TableKVLaws K} pt pm (k k' : K) pm1 pm2 r i :
  times_in_range pt -> UpdatePartitionTable (Some pt) pm k = (pm1, k', None) ->
  table_Get k' = Ok (r, i) ->
  LoadFromConsul k' pm2 = Ok (set_cache (Some pt) pm2, None) /\ GetPartitionTable pm1 = Some pt.
Proof.
  intros Ht Hu Hg. unfold UpdatePartitionTable, SaveToConsul in Hu. cbn in Hu.
  destruct (table_Put _ k) as [k1 e] eqn:Hp. simplify_eq.
  pose proof (table_get_put _ _ _ _ _ Hp Hg) as ->. unfold LoadFromConsul. rewrite Hg. cbn.
  by rewrite table_json_id.
Qed.

(** A store in memory: the value and the index of the last write. *)
#[local] Instance memory_kv : TableKV (option json * Z) := {|
  table_Get k := Ok (Some <$> k.1, k.2);
  table_Put j k := ((Some j, k.2 + 1), None) |}.
#[local] Instance memory_kv_laws : TableKVLaws (option json * Z).
Proof. split. intros j k k' r i [= <-] [= <- _]. done. Qed.

Definition small_table : PartitionTable :=
  mkPartitionTable (<["BTCUSDT" := ["p1"]]> ∅)
    (<["p1" := mkPartition "p1" ["BTCUSDT"] ["worker1"]]> ∅)
    (<["BTCUSDT" := mkSymbolMigrationInfo "BTCUSDT" "worker0" "worker1" false 7 "p1"]> ∅).

Lemma saved_table_loads_witness :
  let k' := (Some (json_of_table small_table), 1) in
  LoadFromConsul k' connected_manager = Ok (set_cache (Some small_table) connected_manager, None).
Proof.
  refine (proj1 (saved_table_loads small_table connected_manager (None, 0) _
    (set_cache (Some small_table) connected_manager) connected_manager
    (Some (Some (json_of_table small_table))) 1 _ _ _)).
  - intros k v Hv. apply elem_of_map_to_list in Hv. vm_compute in Hv.
    apply list_elem_of_singleton in Hv. simplify_eq. by vm_compute.
  - reflexivity.
  - reflexivity.
Defined.

(** ** The ownership machines *)

Lemma register_owned_fsm now dc w pid p pm pid' :
  pm_ownershipFSMs (register_owned now dc w pid p pm) !! pid' =
  if decide (pid' = pid /\ w ∈ Workers p /\ GetOwnershipFSM pid pm = None)
  then Some (Some (NewOwnershipStateMachine now (dc || pm_transferCoord pm) pid w (Symbols p)))
  else pm_ownershipFSMs pm !! pid'.
Proof.
  unfold register_owned. case_bool_decide as Hw.
  2:{ rewrite decide_False; [done|naive_solver]. }
  destruct (GetOwnershipFSM pid pm) as [fsm|] eqn:Hf.
  { rewrite decide_False; [done|naive_solver]. }
  unfold RegisterOwnershipFSM; cbn. destruct (decide (pid' = pid)) as [->|Hne].
  - rewrite lookup_insert_eq, decide_True by done.
    destruct (pm_transferCoord pm); cbn; [by rewrite orb_true_r|by rewrite orb_false_r].
  - rewrite lookup_insert_ne by done. rewrite decide_False; [done|naive_solver].
Qed.

Lemma register_owned_coord now dc w pid p pm :
  pm_transferCoord (register_owned now dc w pid p pm) = pm_transferCoord pm.
Proof. unfold register_owned. case_bool_decide; [|done]. by case_match. Qed.

(** The machine of a partition after the registration: the one it had, or a new
    one if this node works for it. *)
Definition owned_fsm (now : Z) (dc : bool) (w : string) (pt : PartitionTable) (pm : PartitionManager)
    (pid : string) : option (option OwnershipStateMachine) :=
  match Partitions pt !! pid with
  | Some p => if bool_decide (w ∈ Workers p) then
                match GetOwnershipFSM pid pm with
                | Some fsm => Some (Some fsm)
                | None => Some (Some (NewOwnershipStateMachine now (dc || pm_transferCoord pm) pid w (Symbols p)))
                end
              else None
  | None => None
  end.

Lemma register_all_fsm now dc w pt pm pid :
  pm_ownershipFSMs (register_all now dc w pt pm) !! pid =
  match owned_fsm now dc w pt pm pid with
  | Some fsm => Some fsm
  | None => pm_ownershipFSMs pm !! pid
  end /\ pm_transferCoord (register_all now dc w pt pm) = pm_transferCoord pm.
Proof.
  unfold register_all, owned_fsm. revert pid.
  induction (Partitions pt) as [|pid0 p0 m H0 Hfold IH] using map_first_key_ind; intros pid.
  { by rewrite map_fold_empty, lookup_empty. }
  rewrite (map_fold_insert_first_key _ _ _ _ _ H0 Hfold), register_owned_coord.
  split; [|apply (IH pid)]. rewrite register_owned_fsm, (proj2 (IH pid)).
  assert (Hget : GetOwnershipFSM pid0 (map_fold (register_owned now dc w) pm m) = GetOwnershipFSM pid0 pm).
  { unfold GetOwnershipFSM. by rewrite (proj1 (IH pid0)), H0. }
  rewrite Hget. destruct (decide (pid = pid0)) as [->|Hne].
  - rewrite lookup_insert_eq. case_bool_decide as Hw.
    + destruct (GetOwnershipFSM pid0 pm) as [fsm|] eqn:Hf; [|by rewrite decide_True].
      rewrite decide_False by naive_solver. rewrite (proj1 (IH pid0)), H0.
      unfold GetOwnershipFSM in Hf. destruct (pm_ownershipFSMs pm !! pid0); naive_solver.
    + rewrite decide_False by naive_solver. by rewrite (proj1 (IH pid0)), H0.
  - rewrite decide_False by naive_solver. rewrite lookup_insert_ne by done. apply IH.
Qed.

Lemma unregister_lost_fsm owned pm pid :
  pm_ownershipFSMs (unregister_lost owned pm) !! pid =
  if decide (pid ∈ owned) then pm_ownershipFSMs pm !! pid else None.
Proof.
  unfold unregister_lost, ListRegisteredFSMs.
  assert (Hgen : forall (m : gmap string (option OwnershipStateMachine)) (pid : string),
    pm_ownershipFSMs (map_fold (fun pid _ pm => if bool_decide (pid ∈ owned) then pm
                                               else UnregisterOwnershipFSM pid pm) pm m) !! pid =
    if decide (pid ∈ owned \/ m !! pid = None) then pm_ownershipFSMs pm !! pid else None).
  { intros m. induction m as [|k v m Hk Hfold IH] using map_first_key_ind; intros pid'.
    { rewrite map_fold_empty, decide_True; [done|]. right. apply lookup_empty. }
    rewrite (map_fold_insert_first_key _ _ _ _ _ Hk Hfold). destruct (decide (pid' = k)) as [->|Hne].
    - rewrite lookup_insert_eq. case_bool_decide as Hin.
      + rewrite IH, !decide_True by auto. done.
      + cbn. rewrite lookup_delete_eq, decide_False; [done|naive_solver].
    - rewrite lookup_insert_ne by done. case_bool_decide; cbn; [|rewrite lookup_delete_ne by done]; apply IH. }
  rewrite Hgen. destruct (decide (pid ∈ owned)) as [Hin|Hin]; [by rewrite decide_True by auto|].
  destruct (decide (pid ∈ owned \/ pm_ownershipFSMs pm !! pid = None)) as [[?|?]|?]; done.
Qed.

Section Aware.
Context {sl : Type -> Type} {Hsl : SkipList sl}.
Context {L D W : Type} {HL : EventStore L} {HD : Table D EventOffsetCheckpoint}.
Implicit Types (pa : PartitionAwareMatchEngine (sl := sl) (L := L) (D := D) (W := W)).

(** The table assigns the symbol to this node. *)
Definition assigned (pt : PartitionTable) (w symbol : string) : Prop :=
  exists pid p, Partitions pt !! pid = Some p /\ w ∈ Workers p /\ symbol ∈ Symbols p.

(** A pass of the loop leaves an ownership machine for exactly the partitions
    of the table this node works for: the machine a partition had is kept as it is,
    and a partition without one gets a machine in state Owned with this node as
    owner, with the coordinator if one is set. *)
Theorem registered_machines now dc pa pa' pt :
  pa_cancelled pa = false -> GetPartitionTable (pa_pm pa) = Some pt ->
  watchPartitionChange_round now dc pa = Ok pa' ->
  forall pid, pm_ownershipFSMs (pa_pm pa') !! pid = owned_fsm now dc (pa_localAddr pa) pt (pa_pm pa) pid.
Proof.
  unfold watchPartitionChange_round. intros -> -> [= <-] pid. cbn.
  rewrite unregister_lost_fsm, (proj1 (register_all_fsm _ _ _ _ _ _)). unfold owned_fsm, currOwned.
  destruct (decide (pid ∈ _)) as [Hin|Hin].
  - apply elem_of_dom in Hin as [p Hp]. apply map_lookup_filter_Some in Hp as [Hp Hw].
    rewrite Hp, bool_decide_true by done. by destruct (GetOwnershipFSM pid (pa_pm pa)).
  - destruct (Partitions pt !! pid) as [p|] eqn:Hp; [|done]. case_bool_decide as Hw; [|done].
    destruct Hin. apply elem_of_dom. exists p. by apply map_lookup_filter_Some.
Qed.

(** The watched symbols are those of the last pass. *)
Definition watched_ok pa : Prop := pa_watchedSymbols pa = default ∅ (pa_lastSymbols pa).

Lemma watch_symbols_mine last my watched :
  watched = default ∅ last -> watch_symbols last my watched = my.
Proof.
  intros ->. unfold watch_symbols. destruct last as [l|]; cbn; [|by rewrite union_empty_l_L].
  apply set_eq. intros s. rewrite !elem_of_difference, elem_of_union, elem_of_difference.
  destruct (decide (s ∈ my)), (decide (s ∈ l)); naive_solver.
Qed.

Lemma aware_step_watched pa pa' : aware_step pa pa' -> watched_ok pa -> watched_ok pa'.
Proof.
  unfold watched_ok. destruct 1 as [now dc pa pa' Hr|pt pa|m pa|now sch enum t pick order pa pa' err Hs|me pa|pa];
    cbn; auto.
  - unfold watchPartitionChange_round in Hr. destruct (pa_cancelled pa); [by simplify_eq|].
    destruct (GetPartitionTable _); [|done]. simplify_eq. cbn. intros. by apply watch_symbols_mine.
  - unfold pa_SubmitOrder in Hs. case_bool_decide; simplify_eq/=; [|done].
    destruct (SubmitOrder _ _ _ _ _ _ _) as [[[me e]|]| |]; by simplify_eq/=.
Qed.

Lemma reachable_watched me pm w pa :
  rtc aware_step (start_aware me pm w) pa -> watched_ok pa /\ pa_localAddr pa = w.
Proof.
  intros Hr. remember (start_aware me pm w) as pa0 eqn:H0.
  assert (Hok0 : watched_ok pa0 /\ pa_localAddr pa0 = w) by by subst.
  clear H0. induction Hr as [|pa0 pa1 pa2 Hs _ IH]; [done|]. apply IH. split.
  - by eapply aware_step_watched; [|apply Hok0].
  - destruct Hok0 as [_ <-]. destruct Hs as [now dc pa pa' Hr| | |now sch enum t pick order pa pa' err Hs| | ]; cbn; auto.
    + unfold watchPartitionChange_round in Hr. destruct (pa_cancelled pa); [by simplify_eq|].
      destruct (GetPartitionTable _); [|done]. by simplify_eq.
    + unfold pa_SubmitOrder in Hs. case_bool_decide; simplify_eq/=; [|done].
      destruct (SubmitOrder _ _ _ _ _ _ _) as [[[me' e]|]| |]; by simplify_eq/=.
Qed.

End Aware.

(** ** A node with one partition *)

#[local] Instance aware_table_instance : Table (ListTable EventOffsetCheckpoint) EventOffsetCheckpoint :=
  ListTable_ops (fun a b => cp_same a b).

Definition node_table : PartitionTable :=
  mkPartitionTable (<["BTC" := ["p1"]]> ∅) (<["p1" := mkPartition "p1" ["BTC"] ["nodeA"]]> ∅) ∅.

Abbreviation demo_aware :=
  (PartitionAwareMatchEngine (sl := cmp_list) (L := Memory.InMemoryEventLog)
     (D := ListTable EventOffsetCheckpoint) (W := (Z * list (string * string * Z))%type)).

Definition aware0 : demo_aware :=
  start_aware engine0 (set_cache (Some node_table) connected_manager) "nodeA".
Definition aware_pass (pa : demo_aware) : demo_aware :=
  match watchPartitionChange_round 0 false pa with Ok pa' => pa' | _ => pa end.
Definition aware1 : demo_aware := aware_pass aware0.

(** The machine of the partition after a migration was started and frozen. *)
Definition freeze_machine (fsm : OwnershipStateMachine) : OwnershipStateMachine :=
  let tc := Build_TransferCoordinator unit (fun _ _ _ _ c => (c, Err "none")) (fun _ _ => Err "none") in
  let '(fsm1, _, _) := StartMigration (TransferCoordinator0 := tc) 0 "nodeB" "ops" fsm tt in
  let '(fsm2, _, _) := Freeze (TransferCoordinator0 := tc) 0 "ops" fsm1 tt in fsm2.

Definition frozen_aware : demo_aware :=
  aware_pass (set_manager (set_fsms (option_map freeze_machine <$> pm_ownershipFSMs (pa_pm aware1))
                             (pa_pm aware1)) aware1).

Lemma aware_pass_step (pa : demo_aware) :
  is_Some (pm_cache (pa_pm pa)) -> aware_step pa (aware_pass pa).
Proof.
  intros [pt Hpt]. unfold aware_pass. destruct (watchPartitionChange_round 0 false pa) as [pa'| |] eqn:Hr.
  - by eapply aware_round.
  - unfold watchPartitionChange_round, GetPartitionTable in Hr. rewrite Hpt in Hr. by destruct (pa_cancelled pa).
  - unfold watchPartitionChange_round, GetPartitionTable in Hr. rewrite Hpt in Hr. by destruct (pa_cancelled pa).
Qed.

Lemma frozen_reachable : rtc aware_step aware0 frozen_aware.
Proof.
  eapply rtc_l; [apply aware_pass_step; by eexists|].
  eapply rtc_l; [apply (aware_fsms (option_map freeze_machine <$> pm_ownershipFSMs (pa_pm aware1)))|].
  eapply rtc_l; [apply aware_pass_step; by eexists|]. apply rtc_refl.
Qed.

Definition accepted (r : outcome (option (demo_aware * option error))) : bool :=
  match r with Ok (Some (_, None)) => true | _ => false end.

(** The gate does not ask the ownership machine.  A node whose only partition
    is frozen for a migration, pass of the loop included, still accepts an order
    for a symbol of it. *)
Theorem frozen_takes_orders :
  rtc aware_step aware0 frozen_aware /\
  (GetState <$> GetOwnershipFSM "p1" (pa_pm frozen_aware)) = Some Frozen /\
  accepted (pa_SubmitOrder 0 id (fun _ => []) 0 true sell_order frozen_aware) = true.
Proof. split_and!; [apply frozen_reachable|vm_compute; reflexivity..]. Qed.


Lemma registered_machines_witness :
  pm_ownershipFSMs (pa_pm (aware_pass aware0)) !! "p1" =
    Some (Some (NewOwnershipStateMachine 0 false "p1" "nodeA" ["BTC"])).
Proof.
  refine (registered_machines 0 false aware0 (aware_pass aware0) node_table _ _ _ "p1");
    vm_compute; reflexivity.
Defined.
