(* ===== verification/Snapshot.v ===== *)
(** * State snapshots

    Models src/biz/service/state_snapshot.go: the snapshots of the state before a
    crash and after recovery, their checksum, the comparison of two snapshots and
    its report.  The text a checksum is taken of is a sequence of records, each a
    list of fields joined by colons and closed by a bar.

    [enum] and [enumZ] are the orders in which the runtime ranges over maps; the
    entries of the maps are not nil.  Snapshots are shared pointers: comparing them
    stores their checksums in them, so [CompareSnapshots] returns the snapshots.  A
    time is a number, [format_time] prints it. *)

From stdpp Require Import base gmap strings list sorting pretty.
From Stdlib Require Import ZArith Lia.
From S2P Require Import Prelude Hash.

Local Open Scope go_scope.
Local Open Scope Z_scope.

(** ** The snapshots *)

Record OrderSnapshot := mkOrderSnapshot {
  os_OrderID : string;
  os_UserID : string;
  os_Symbol : string;
  os_Side : string;
  os_Price : Z;
  os_Quantity : Z;
  os_FilledQty : Z;
  os_Status : string;
  os_CreatedAt : Z;
  os_UpdatedAt : Z }.

Record TradeSnapshot := mkTradeSnapshot {
  ts_TradeID : string;
  ts_BuyerID : string;
  ts_SellerID : string;
  ts_Symbol : string;
  ts_Price : Z;
  ts_Quantity : Z;
  ts_CreatedAt : Z }.

Record PositionSnapshot := mkPositionSnapshot {
  ps_UserID : string;
  ps_Symbol : string;
  ps_QuantityHeld : Z;
  ps_CostBase : Z;
  ps_RealizedPnl : Z;
  ps_UnrealizedPnl : Z;
  ps_UpdatedAt : Z }.

Record OrderBookSnapshot := mkOrderBookSnapshot {
  bs_Symbol : string;
  bs_LastTradePrice : Z;
  bs_BidBook : gmap Z Z;
  bs_AskBook : gmap Z Z;
  bs_BestBid : Z;
  bs_BestAsk : Z;
  bs_BidDepth : Z;
  bs_AskDepth : Z;
  bs_Spread : Z }.

Record StateSnapshot := mkStateSnapshot {
  ss_Timestamp : Z;
  ss_Orders : gmap string OrderSnapshot;
  ss_Trades : gmap string TradeSnapshot;
  ss_Positions : gmap string PositionSnapshot;
  ss_OrderBook : option OrderBookSnapshot;
  ss_Checksum : string;
  ss_EventCount : Z;
  ss_OrderCount : Z;
  ss_TradeCount : Z;
  ss_PositionCount : Z }.

Definition set_checksum (c : string) (s : StateSnapshot) : StateSnapshot :=
  mkStateSnapshot (ss_Timestamp s) (ss_Orders s) (ss_Trades s) (ss_Positions s) (ss_OrderBook s) c
    (ss_EventCount s) (ss_OrderCount s) (ss_TradeCount s) (ss_PositionCount s).

(** ** The text of a snapshot *)

Fixpoint join (sep : string) (l : list string) : string :=
  match l with
  | [] => ""
  | [x] => x
  | x :: l' => x +:+ sep +:+ join sep l'
  end.

(** [fmt.Fprintf(&b, "...:...|", fields...)] *)
Definition record_text (fields : list string) : string := join ":" fields +:+ "|".

Definition text_of (records : list (list string)) : string := String.concat "" (record_text <$> records).

Definition order_fields (e : OrderSnapshot) : list string :=
  ["O"; os_OrderID e; os_UserID e; os_Symbol e; os_Side e; pretty (os_Price e); pretty (os_Quantity e);
   pretty (os_FilledQty e); os_Status e].

Definition trade_fields (e : TradeSnapshot) : list string :=
  ["T"; ts_TradeID e; ts_BuyerID e; ts_SellerID e; ts_Symbol e; pretty (ts_Price e);
   pretty (ts_Quantity e)].

Definition position_fields (e : PositionSnapshot) : list string :=
  ["P"; ps_UserID e; ps_Symbol e; pretty (ps_QuantityHeld e); pretty (ps_CostBase e);
   pretty (ps_RealizedPnl e); pretty (ps_UnrealizedPnl e)].

Definition book_fields (b : OrderBookSnapshot) : list string :=
  ["B"; bs_Symbol b; pretty (bs_LastTradePrice b); pretty (bs_BestBid b); pretty (bs_BestAsk b)].

Definition level_fields (tag : string) (book : gmap Z Z) (price : Z) : list string :=
  [tag; pretty price; pretty (default 0 (book !! price))].

Definition count_fields (s : StateSnapshot) : list string :=
  ["C"; pretty (ss_EventCount s); pretty (ss_OrderCount s); pretty (ss_TradeCount s);
   pretty (ss_PositionCount s)].

Section Snapshots.
Context (enum : gset string -> list string) (enumZ : gset Z -> list Z).

(** The entries of a map in the order of their sorted keys. *)
Definition sorted_entries {V} (m : gmap string V) : list V :=
  omap (fun k => m !! k) (sort_strings (enum (dom m))).

Definition sorted_prices (book : gmap Z Z) : list Z := merge_sort Z.le (enumZ (dom book)).

Definition book_records (b : OrderBookSnapshot) : list (list string) :=
  [book_fields b]
  ++ (level_fields "BB" (bs_BidBook b) <$> sorted_prices (bs_BidBook b))
  ++ (level_fields "AB" (bs_AskBook b) <$> sorted_prices (bs_AskBook b)).

Definition snapshot_records (s : StateSnapshot) : list (list string) :=
  (order_fields <$> sorted_entries (ss_Orders s))
  ++ (trade_fields <$> sorted_entries (ss_Trades s))
  ++ (position_fields <$> sorted_entries (ss_Positions s))
  ++ match ss_OrderBook s with Some b => book_records b | None => [] end
  ++ [count_fields s].

(** The checksum is returned and stored. *)
Definition CalculateChecksum (s : StateSnapshot) : StateSnapshot * string :=
  let sum := sha256_hex (text_of (snapshot_records s)) in
  (set_checksum sum s, sum).

(** ** Differences *)

Record CountMismatch := mkCountMismatch { cm_Field : string; cm_Expected : Z; cm_Actual : Z }.

(** The [interface{}] of a change holds an integer or a string. *)
Inductive any : Type :=
| AnyInt (z : Z)
| AnyStr (s : string).

Record OrderChange := mkOrderChange {
  oc_OrderID : string; oc_Field : string; oc_Expected : any; oc_Actual : any }.
Record PositionChange := mkPositionChange {
  pc_UserID : string; pc_Field : string; pc_Expected : Z; pc_Actual : Z }.

Record OrderBookDiff := mkOrderBookDiff {
  bd_BestBidMismatch : bool;
  bd_BestAskMismatch : bool;
  bd_BidDepthMismatch : bool;
  bd_AskDepthMismatch : bool;
  bd_SpreadMismatch : bool;
  bd_PreBestBid : Z;
  bd_PostBestBid : Z;
  bd_PreBestAsk : Z;
  bd_PostBestAsk : Z;
  bd_PreBidDepth : Z;
  bd_PostBidDepth : Z;
  bd_PreAskDepth : Z;
  bd_PostAskDepth : Z;
  bd_PreSpread : Z;
  bd_PostSpread : Z }.

Record SnapshotDiff := mkSnapshotDiff {
  d_PreChecksum : string;
  d_PostChecksum : string;
  d_IsIdentical : bool;
  d_Timestamp : Z;
  d_EventCountMismatch : option CountMismatch;
  d_OrderCountMismatch : option CountMismatch;
  d_TradeCountMismatch : option CountMismatch;
  d_PositionCountMismatch : option CountMismatch;
  d_MissingOrders : list string;
  d_ExtraOrders : list string;
  d_ChangedOrders : list OrderChange;
  d_MissingTrades : list string;
  d_ExtraTrades : list string;
  d_MissingPositions : list string;
  d_ExtraPositions : list string;
  d_ChangedPositions : list PositionChange;
  d_OrderBookDiff : option OrderBookDiff }.

(** The keys of [pre] that [post] does not have, sorted. *)
Definition find_missing {V} (pre post : gmap string V) : list string :=
  sort_strings (List.filter (fun id => negb (bool_decide (is_Some (post !! id)))) (enum (dom pre))).

Definition findMissingOrders (pre post : gmap string OrderSnapshot) := find_missing pre post.
Definition findExtraOrders (pre post : gmap string OrderSnapshot) := find_missing post pre.
Definition findMissingTrades (pre post : gmap string TradeSnapshot) := find_missing pre post.
Definition findExtraTrades (pre post : gmap string TradeSnapshot) := find_missing post pre.
Definition findMissingPositions (pre post : gmap string PositionSnapshot) := find_missing pre post.
Definition findExtraPositions (pre post : gmap string PositionSnapshot) := find_missing post pre.

Definition order_changes (id : string) (preOrder postOrder : OrderSnapshot) : list OrderChange :=
  (if os_Price preOrder =? os_Price postOrder then []
   else [mkOrderChange id "Price" (AnyInt (os_Price preOrder)) (AnyInt (os_Price postOrder))])
  ++ (if os_Quantity preOrder =? os_Quantity postOrder then []
      else [mkOrderChange id "Quantity" (AnyInt (os_Quantity preOrder)) (AnyInt (os_Quantity postOrder))])
  ++ (if os_FilledQty preOrder =? os_FilledQty postOrder then []
      else [mkOrderChange id "FilledQty" (AnyInt (os_FilledQty preOrder)) (AnyInt (os_FilledQty postOrder))])
  ++ (if os_Status preOrder =s os_Status postOrder then []
      else [mkOrderChange id "Status" (AnyStr (os_Status preOrder)) (AnyStr (os_Status postOrder))]).

Definition position_changes (id : string) (prePos postPos : PositionSnapshot) : list PositionChange :=
  (if ps_QuantityHeld prePos =? ps_QuantityHeld postPos then []
   else [mkPositionChange id "QuantityHeld" (ps_QuantityHeld prePos) (ps_QuantityHeld postPos)])
  ++ (if ps_CostBase prePos =? ps_CostBase postPos then []
      else [mkPositionChange id "CostBase" (ps_CostBase prePos) (ps_CostBase postPos)])
  ++ (if ps_RealizedPnl prePos =? ps_RealizedPnl postPos then []
      else [mkPositionChange id "RealizedPnl" (ps_RealizedPnl prePos) (ps_RealizedPnl postPos)])
  ++ (if ps_UnrealizedPnl prePos =? ps_UnrealizedPnl postPos then []
      else [mkPositionChange id "UnrealizedPnl" (ps_UnrealizedPnl prePos) (ps_UnrealizedPnl postPos)]).

(** The changes of the keys both maps have, in the order of the enumeration. *)
Definition find_changed {V C} (changes : string -> V -> V -> list C) (pre post : gmap string V) : list C :=
  concat ((fun id => match pre !! id, post !! id with
                     | Some a, Some b => changes id a b
                     | _, _ => []
                     end) <$> enum (dom pre)).

Definition findChangedOrders (pre post : gmap string OrderSnapshot) : list OrderChange :=
  find_changed order_changes pre post.
Definition findChangedPositions (pre post : gmap string PositionSnapshot) : list PositionChange :=
  find_changed position_changes pre post.

Definition compareOrderBooks (pre post : OrderBookSnapshot) : option OrderBookDiff :=
  let bid := negb (bs_BestBid pre =? bs_BestBid post) in
  let ask := negb (bs_BestAsk pre =? bs_BestAsk post) in
  let bidDepth := negb (bs_BidDepth pre =? bs_BidDepth post) in
  let askDepth := negb (bs_AskDepth pre =? bs_AskDepth post) in
  let spread := negb (bs_Spread pre =? bs_Spread post) in
  if negb bid && negb ask && negb bidDepth && negb askDepth && negb spread then None
  else Some (mkOrderBookDiff bid ask bidDepth askDepth spread
               (bs_BestBid pre) (bs_BestBid post) (bs_BestAsk pre) (bs_BestAsk post)
               (bs_BidDepth pre) (bs_BidDepth post) (bs_AskDepth pre) (bs_AskDepth post)
               (bs_Spread pre) (bs_Spread post)).

Definition count_mismatch (field : string) (pre post : Z) : option CountMismatch :=
  if pre =? post then None else Some (mkCountMismatch field pre post).

Definition CompareSnapshots (now : Z) (pre post : StateSnapshot)
    : StateSnapshot * StateSnapshot * SnapshotDiff :=
  let '(pre', preSum) := CalculateChecksum pre in
  let '(post', postSum) := CalculateChecksum post in
  (pre', post',
   if preSum =s postSum then
     mkSnapshotDiff preSum postSum true now None None None None [] [] [] [] [] [] [] [] None
   else
     mkSnapshotDiff preSum postSum false now
       (count_mismatch "EventCount" (ss_EventCount pre) (ss_EventCount post))
       (count_mismatch "OrderCount" (ss_OrderCount pre) (ss_OrderCount post))
       (count_mismatch "TradeCount" (ss_TradeCount pre) (ss_TradeCount post))
       (count_mismatch "PositionCount" (ss_PositionCount pre) (ss_PositionCount post))
       (findMissingOrders (ss_Orders pre) (ss_Orders post))
       (findExtraOrders (ss_Orders pre) (ss_Orders post))
       (findChangedOrders (ss_Orders pre) (ss_Orders post))
       (findMissingTrades (ss_Trades pre) (ss_Trades post))
       (findExtraTrades (ss_Trades pre) (ss_Trades post))
       (findMissingPositions (ss_Positions pre) (ss_Positions post))
       (findExtraPositions (ss_Positions pre) (ss_Positions post))
       (findChangedPositions (ss_Positions pre) (ss_Positions post))
       (match ss_OrderBook pre, ss_OrderBook post with
        | Some a, Some b => compareOrderBooks a b
        | _, _ => None
        end)).

Definition nonempty {A} (l : list A) : bool := match l with [] => false | _ => true end.
Definition present {A} (o : option A) : bool := match o with Some _ => true | None => false end.

Definition HasDifferences (d : SnapshotDiff) : bool :=
  negb (d_IsIdentical d)
  || present (d_EventCountMismatch d) || present (d_OrderCountMismatch d)
  || present (d_TradeCountMismatch d) || present (d_PositionCountMismatch d)
  || nonempty (d_MissingOrders d) || nonempty (d_ExtraOrders d) || nonempty (d_ChangedOrders d)
  || nonempty (d_MissingTrades d) || nonempty (d_ExtraTrades d)
  || nonempty (d_MissingPositions d) || nonempty (d_ExtraPositions d) || nonempty (d_ChangedPositions d)
  || present (d_OrderBookDiff d).

(** ** The report *)

Definition newline : string := String (Ascii.ascii_of_nat 10) "".

(** [fmt.Sprintf("%v", slice)] *)
Definition sprint_strings (l : list string) : string := "[" +:+ join " " l +:+ "]".
Definition sprint_any (a : any) : string := match a with AnyInt z => pretty z | AnyStr s => s end.
Definition sprint_bool (b : bool) : string := if b then "true" else "false".

Definition report_count (label : string) (m : option CountMismatch) : string :=
  match m with
  | Some m => "❌ " +:+ label +:+ ": expected=" +:+ pretty (cm_Expected m) +:+ ", actual="
              +:+ pretty (cm_Actual m) +:+ newline
  | None => ""
  end.

Definition report_list (label : string) (l : list string) : string :=
  if nonempty l then "❌ " +:+ label +:+ ": " +:+ sprint_strings l +:+ newline else "".

Definition report_order_change (c : OrderChange) : string :=
  "   OrderID=" +:+ oc_OrderID c +:+ ": " +:+ oc_Field c +:+ " expected=" +:+ sprint_any (oc_Expected c)
  +:+ ", actual=" +:+ sprint_any (oc_Actual c) +:+ newline.

Definition report_position_change (c : PositionChange) : string :=
  "   UserID=" +:+ pc_UserID c +:+ ": " +:+ pc_Field c +:+ " expected=" +:+ pretty (pc_Expected c)
  +:+ ", actual=" +:+ pretty (pc_Actual c) +:+ newline.

Definition report_changes {C} (label : string) (report : C -> string) (l : list C) : string :=
  if nonempty l then "❌ " +:+ label +:+ ":" +:+ newline +:+ String.concat "" (report <$> l) else "".

Definition report_move (flag : bool) (label : string) (pre post : Z) : string :=
  if flag then "   " +:+ label +:+ ": " +:+ pretty pre +:+ " -> " +:+ pretty post +:+ newline else "".

Definition report_book (o : option OrderBookDiff) : string :=
  match o with
  | None => ""
  | Some b =>
      "❌ OrderBook Differences:" +:+ newline
      +:+ report_move (bd_BestBidMismatch b) "BestBid" (bd_PreBestBid b) (bd_PostBestBid b)
      +:+ report_move (bd_BestAskMismatch b) "BestAsk" (bd_PreBestAsk b) (bd_PostBestAsk b)
      +:+ report_move (bd_SpreadMismatch b) "Spread" (bd_PreSpread b) (bd_PostSpread b)
  end.

Definition GenerateReport (format_time : Z -> string) (d : SnapshotDiff) : string :=
  "=== State Snapshot Comparison Report ===" +:+ newline
  +:+ "Timestamp: " +:+ format_time (d_Timestamp d) +:+ newline
  +:+ "Pre-Crash Checksum:  " +:+ d_PreChecksum d +:+ newline
  +:+ "Post-Recovery Checksum: " +:+ d_PostChecksum d +:+ newline
  +:+ "Identical: " +:+ sprint_bool (d_IsIdentical d) +:+ newline +:+ newline
  +:+ report_count "EventCount" (d_EventCountMismatch d)
  +:+ report_count "OrderCount" (d_OrderCountMismatch d)
  +:+ report_count "TradeCount" (d_TradeCountMismatch d)
  +:+ report_count "PositionCount" (d_PositionCountMismatch d)
  +:+ report_list "Missing Orders" (d_MissingOrders d)
  +:+ report_list "Extra Orders" (d_ExtraOrders d)
  +:+ report_changes "Changed Orders" report_order_change (d_ChangedOrders d)
  +:+ report_list "Missing Trades" (d_MissingTrades d)
  +:+ report_list "Extra Trades" (d_ExtraTrades d)
  +:+ report_list "Missing Positions" (d_MissingPositions d)
  +:+ report_list "Extra Positions" (d_ExtraPositions d)
  +:+ report_changes "Changed Positions" report_position_change (d_ChangedPositions d)
  +:+ report_book (d_OrderBookDiff d)
  +:+ (if HasDifferences d then "" else newline +:+ "✅ No differences detected!" +:+ newline).
End Snapshots.
