(* ===== verification/SnapshotProps.v ===== *)
(** * Properties of snapshots

    Two snapshots are called identical exactly if they have the same content,
    times and depths aside, provided names hold no separators; the lists of a
    comparison are exact.  Separators in names, the fields outside the checksum and
    the fields outside the lists are where the comparison is weaker than it looks. *)

From stdpp Require Import base gmap strings list sorting pretty.
From Stdlib Require Import ZArith Lia Ascii.
From S2P Require Import Prelude Hash Snapshot.

Local Open Scope go_scope.
Local Open Scope Z_scope.

(** ** Joining and cutting text *)

(** The character does not occur in the string. *)
Fixpoint free (c : ascii) (s : string) : Prop :=
  match s with
  | EmptyString => True
  | String x s' => x <> c /\ free c s'
  end.

#[global] Instance free_dec c s : Decision (free c s).
Proof. induction s; simpl; apply _. Defined.

Lemma free_app c a b : free c (a +:+ b) <-> free c a /\ free c b.
Proof. induction a as [|x a IH]; simpl; [tauto|]. setoid_rewrite IH. tauto. Qed.

Lemma cut_unique c a a' r r' :
  free c a -> free c a' -> a +:+ String c r = a' +:+ String c r' -> a = a' /\ r = r'.
Proof.
  revert a'. induction a as [|x a IH]; intros [|x' a']; simpl.
  - naive_solver.
  - intros _ [Hne _] [= <- _]. done.
  - intros [Hne _] _ [= <- _]. done.
  - intros [_ Ha] [_ Ha'] [= -> Heq]. destruct (IH a' Ha Ha' Heq). by subst.
Qed.

Definition plain (s : string) : Prop := free ":" s /\ free "|" s.

#[global] Instance plain_dec s : Decision (plain s).
Proof. unfold plain. apply _. Defined.

Lemma join_cons x y l : join ":" (x :: y :: l) = x +:+ String ":" (join ":" (y :: l)).
Proof. done. Qed.

Lemma join_free_bar l : Forall plain l -> free "|" (join ":" l).
Proof.
  induction 1 as [|x l [_ Hx] Hl IH]; [done|]. destruct l as [|y l]; [done|].
  rewrite join_cons. apply free_app. split; [done|]. split; [done|exact IH].
Qed.

Lemma join_inj l1 l2 :
  l1 <> [] -> l2 <> [] -> Forall plain l1 -> Forall plain l2 -> join ":" l1 = join ":" l2 -> l1 = l2.
Proof.
  revert l2. induction l1 as [|x l1 IH]; intros [|y l2] H1 H2 HF1 HF2 Heq; try done.
  inversion HF1 as [|? ? [Hx _] HF1']; subst. inversion HF2 as [|? ? [Hy _] HF2']; subst.
  assert (Hbad : forall a b l, free ":" a -> a = b +:+ String ":" l -> False).
  { intros a b l Ha ->. apply free_app in Ha as [_ [Hc _]]. done. }
  destruct l1 as [|x' l1], l2 as [|y' l2].
  - simpl in Heq. by subst.
  - rewrite join_cons in Heq. simpl in Heq. by destruct (Hbad _ _ _ Hx Heq).
  - rewrite join_cons in Heq. simpl in Heq. by destruct (Hbad _ _ _ Hy (eq_sym Heq)).
  - rewrite !join_cons in Heq. destruct (cut_unique _ _ _ _ _ Hx Hy Heq) as [-> Hr].
    f_equal. apply IH; done.
Qed.

Lemma concat_cons x l : String.concat "" (x :: l) = x +:+ String.concat "" l.
Proof.
  destruct l as [|y l]; simpl; [|done]. induction x as [|c x IH]; [done|]. exact (f_equal (String c) IH).
Qed.

(** A text determines its records. *)
Lemma text_inj r1 r2 :
  Forall (fun r => r <> [] /\ Forall plain r) r1 -> Forall (fun r => r <> [] /\ Forall plain r) r2 ->
  text_of r1 = text_of r2 -> r1 = r2.
Proof.
  assert (Hcons : forall r rs, text_of (r :: rs) = join ":" r +:+ String "|" (text_of rs)).
  { intros r rs. unfold text_of. rewrite fmap_cons, concat_cons. unfold record_text.
    by rewrite string_app_assoc. }
  assert (Hnil : forall r rs, text_of [] = text_of (r :: rs) -> False).
  { intros r rs Heq%(f_equal String.length). rewrite Hcons, string_length_app in Heq.
    simpl in Heq. lia. }
  intros H1. revert r2. induction H1 as [|r rs [Hr Hp] H1 IH]; intros r2 H2 Heq.
  { destruct r2 as [|r' rs']; [done|]. by destruct (Hnil _ _ Heq). }
  destruct H2 as [|r' rs' [Hr' Hp'] H2]; [by destruct (Hnil _ _ (eq_sym Heq))|].
  rewrite !Hcons in Heq.
  destruct (cut_unique _ _ _ _ _ (join_free_bar _ Hp) (join_free_bar _ Hp') Heq) as [Hj Hrest].
  f_equal; [by apply join_inj|by apply IH].
Qed.

(** Numbers print without separators. *)
Lemma pretty_go_free c (x : N) s :
  (forall d, c <> pretty_N_char d) -> free c s -> free c (pretty_N_go x s).
Proof.
  intros Hc. revert s. induction (N.lt_wf_0 x) as [x _ IH]. intros s Hs.
  destruct (decide (x = 0)%N) as [->|Hx]; [by rewrite pretty_N_go_0|].
  rewrite pretty_N_go_step by lia. apply IH; [apply N.div_lt; lia|].
  split; [|done]. intros Heq. by apply (Hc (x `mod` 10)%N).
Qed.

Lemma pretty_free c (z : Z) : (forall d, c <> pretty_N_char d) -> c <> "-"%char -> free c (pretty z).
Proof.
  intros Hc Hm.
  assert (Hp : forall p : positive, free c (pretty (Npos p))).
  { intros p. unfold pretty, pretty_N. rewrite decide_False by done. by apply pretty_go_free. }
  destruct z as [|p|p]; [|exact (Hp p)|].
  - change (free c "0"). split; [|done]. intros <-. by apply (Hc 0%N).
  - change (free c (String "-" (pretty (Npos p)))). split; [congruence|apply Hp].
Qed.

Lemma pretty_plain (z : Z) : plain (pretty z).
Proof.
  split; apply pretty_free; try done; intros d; unfold pretty_N_char; repeat case_match; done.
Qed.

(** ** Content

    What a snapshot says, without times, depths and spread. *)

Definition order_content (e : OrderSnapshot) :=
  (os_OrderID e, os_UserID e, os_Symbol e, os_Side e, (os_Price e, os_Quantity e, os_FilledQty e),
   os_Status e).
Definition trade_content (e : TradeSnapshot) :=
  (ts_TradeID e, ts_BuyerID e, ts_SellerID e, ts_Symbol e, (ts_Price e, ts_Quantity e)).
Definition position_content (e : PositionSnapshot) :=
  (ps_UserID e, ps_Symbol e, (ps_QuantityHeld e, ps_CostBase e, ps_RealizedPnl e, ps_UnrealizedPnl e)).
Definition book_content (b : OrderBookSnapshot) :=
  (bs_Symbol b, (bs_LastTradePrice b, bs_BestBid b, bs_BestAsk b), bs_BidBook b, bs_AskBook b).
Definition counts (s : StateSnapshot) :=
  (ss_EventCount s, ss_OrderCount s, ss_TradeCount s, ss_PositionCount s).

Definition same_content (s1 s2 : StateSnapshot) : Prop :=
  (order_content <$> ss_Orders s1) = (order_content <$> ss_Orders s2) /\
  (trade_content <$> ss_Trades s1) = (trade_content <$> ss_Trades s2) /\
  (position_content <$> ss_Positions s1) = (position_content <$> ss_Positions s2) /\
  (book_content <$> ss_OrderBook s1) = (book_content <$> ss_OrderBook s2) /\
  counts s1 = counts s2.

(** Entries are filed under their own ID, and names hold no separators. *)
Record well_named (s : StateSnapshot) : Prop := {
  named_orders : map_Forall (fun id e => os_OrderID e = id /\ plain id /\ plain (os_UserID e) /\
    plain (os_Symbol e) /\ plain (os_Side e) /\ plain (os_Status e)) (ss_Orders s);
  named_trades : map_Forall (fun id e => ts_TradeID e = id /\ plain id /\ plain (ts_BuyerID e) /\
    plain (ts_SellerID e) /\ plain (ts_Symbol e)) (ss_Trades s);
  named_positions : map_Forall (fun id e => ps_UserID e = id /\ plain id /\ plain (ps_Symbol e))
    (ss_Positions s);
  named_book : forall b, ss_OrderBook s = Some b -> plain (bs_Symbol b) }.

Section Text.
Context (enum : gset string -> list string) (enumZ : gset Z -> list Z).
Hypothesis Henum : enumerates enum.
Hypothesis HenumZ : enumerates enumZ.

Lemma enum_elem (X : gset string) k : k ∈ enum X <-> k ∈ X.
Proof. by rewrite (Henum X), elem_of_elements. Qed.

Lemma sorted_entries_elem {V} (m : gmap string V) v :
  v ∈ sorted_entries enum m <-> exists k, m !! k = Some v.
Proof.
  unfold sorted_entries. rewrite list_elem_of_omap. split.
  - intros (k & _ & ?). by exists k.
  - intros (k & Hk). exists k. split; [|done].
    rewrite sort_strings_perm, enum_elem. by eapply elem_of_dom_2.
Qed.

(** Sorted by key, the entries are the same whatever the order of the enumeration
    and whatever else the map knows of them. *)
Lemma sorted_entries_fmap {V C} (f : V -> C) (m1 m2 : gmap string V) :
  f <$> m1 = f <$> m2 -> f <$> sorted_entries enum m1 = f <$> sorted_entries enum m2.
Proof.
  intros Heq.
  assert (Hdom : dom m1 = dom m2) by (rewrite <- (dom_fmap_L f m1), <- (dom_fmap_L f m2); by rewrite Heq).
  unfold sorted_entries. rewrite Hdom. induction (sort_strings _) as [|k l IH]; csimpl; [done|].
  assert (Hk : f <$> m1 !! k = f <$> m2 !! k) by (rewrite <- !lookup_fmap; by rewrite Heq).
  destruct (m1 !! k), (m2 !! k); csimpl in *; simplify_eq; [|done]. congruence.
Qed.

(** Entries filed under their ID are determined by the list. *)
Lemma sorted_entries_inj {V C} (f : V -> C) (key : C -> string) (m1 m2 : gmap string V) :
  map_Forall (fun k v => key (f v) = k) m1 -> map_Forall (fun k v => key (f v) = k) m2 ->
  f <$> sorted_entries enum m1 = f <$> sorted_entries enum m2 -> f <$> m1 = f <$> m2.
Proof.
  intros H1 H2 Heq. apply map_eq. intros k. rewrite !lookup_fmap.
  assert (Hsub : forall ma mb : gmap string V,
    map_Forall (fun k v => key (f v) = k) ma -> map_Forall (fun k v => key (f v) = k) mb ->
    f <$> sorted_entries enum ma = f <$> sorted_entries enum mb ->
    forall v, ma !! k = Some v -> f <$> mb !! k = Some (f v)).
  { intros ma mb Ha Hb Hab v Hv.
    assert (Hin : f v ∈ f <$> sorted_entries enum mb).
    { rewrite <- Hab. apply list_elem_of_fmap_2, sorted_entries_elem. by exists k. }
    apply list_elem_of_fmap in Hin as (v' & Hf & (k' & Hk')%sorted_entries_elem).
    pose proof (Ha _ _ Hv) as Hka. pose proof (Hb _ _ Hk') as Hkb. cbn in Hka, Hkb.
    rewrite Hf in Hka. assert (k' = k) as -> by congruence. rewrite Hk'. cbn. congruence. }
  destruct (m1 !! k) as [v|] eqn:Hv.
  - cbn. by rewrite (Hsub m1 m2 H1 H2 Heq v Hv).
  - destruct (m2 !! k) as [v|] eqn:Hv2; [|done].
    pose proof (Hsub m2 m1 H2 H1 (eq_sym Heq) v Hv2) as Hk. by rewrite Hv in Hk.
Qed.

Lemma sorted_prices_elem (book : gmap Z Z) p : p ∈ sorted_prices enumZ book <-> is_Some (book !! p).
Proof.
  unfold sorted_prices. rewrite merge_sort_Permutation, (HenumZ _), elem_of_elements. apply elem_of_dom.
Qed.

Lemma levels_inj tag (b1 b2 : gmap Z Z) :
  level_fields tag b1 <$> sorted_prices enumZ b1 = level_fields tag b2 <$> sorted_prices enumZ b2 ->
  b1 = b2.
Proof.
  assert (Hsub : forall ba bb : gmap Z Z,
    level_fields tag ba <$> sorted_prices enumZ ba = level_fields tag bb <$> sorted_prices enumZ bb ->
    forall p v, ba !! p = Some v -> bb !! p = Some v).
  { intros ba bb Heq p v Hv.
    assert (Hin : level_fields tag ba p ∈ level_fields tag bb <$> sorted_prices enumZ bb).
    { rewrite <- Heq. apply list_elem_of_fmap_2, sorted_prices_elem. by rewrite Hv. }
    apply list_elem_of_fmap in Hin as (p' & Hf & [v' Hp']%sorted_prices_elem).
    unfold level_fields in Hf. rewrite Hv, Hp' in Hf. cbn in Hf.
    injection Hf as H1%(inj pretty) H2%(inj pretty). congruence. }
  intros Heq. apply map_eq. intros p. apply option_eq. intros v.
  split; [by apply Hsub|by apply (Hsub b2 b1 (eq_sym Heq))].
Qed.

(** ** Records by kind *)

Definition tagged (tag : string) (r : list string) : bool := bool_decide (head r = Some tag).

Lemma filter_tagged_same {A} (f : A -> list string) tag (l : list A) :
  (forall x, head (f x) = Some tag) -> List.filter (tagged tag) (f <$> l) = f <$> l.
Proof.
  intros Hf. induction l as [|x l IH]; csimpl; [done|].
  unfold tagged at 1. by rewrite Hf, bool_decide_true, IH.
Qed.

Lemma filter_tagged_other {A} (f : A -> list string) tag tag' (l : list A) :
  (forall x, head (f x) = Some tag') -> tag' <> tag -> List.filter (tagged tag) (f <$> l) = [].
Proof.
  intros Hf Hne. induction l as [|x l IH]; csimpl; [done|].
  unfold tagged at 1. rewrite Hf, bool_decide_false; [done|congruence].
Qed.

Abbreviation records := (snapshot_records enum enumZ).
Abbreviation entries := (sorted_entries enum).
Abbreviation book_part s := (match ss_OrderBook s with Some b => book_records enumZ b | None => [] end).

(** [by_kind] picks the records of one kind out of all of them. *)
Ltac by_kind :=
  unfold snapshot_records; rewrite !List.filter_app;
  repeat first
    [ rewrite filter_tagged_same by done
    | rewrite (filter_tagged_other _ _ "O") by done
    | rewrite (filter_tagged_other _ _ "T") by done
    | rewrite (filter_tagged_other _ _ "P") by done ].

Lemma book_other tag s :
  tag <> "B" -> tag <> "BB" -> tag <> "AB" -> List.filter (tagged tag) (book_part s) = [].
Proof.
  intros HB HBB HAB. destruct (ss_OrderBook s) as [b|]; [|done]. unfold book_records.
  rewrite !List.filter_app, (filter_tagged_other _ _ "BB"), (filter_tagged_other _ _ "AB") by done.
  cbn. unfold tagged. by rewrite bool_decide_false by (cbn; congruence).
Qed.

Lemma order_records s : List.filter (tagged "O") (records s) = order_fields <$> entries (ss_Orders s).
Proof. by_kind. rewrite book_other by done. cbn. by rewrite !app_nil_r. Qed.

Lemma trade_records s : List.filter (tagged "T") (records s) = trade_fields <$> entries (ss_Trades s).
Proof. by_kind. rewrite book_other by done. cbn. by rewrite app_nil_r. Qed.

Lemma position_records s :
  List.filter (tagged "P") (records s) = position_fields <$> entries (ss_Positions s).
Proof. by_kind. rewrite book_other by done. cbn. by rewrite app_nil_r. Qed.

Lemma count_records s : List.filter (tagged "C") (records s) = [count_fields s].
Proof. by_kind. by rewrite book_other. Qed.

Lemma head_book_records s tag :
  tag ∈ ["B"; "BB"; "AB"] ->
  List.filter (tagged tag) (records s) = List.filter (tagged tag) (book_part s).
Proof.
  intros Htag. assert (Hne : "O" <> tag /\ "T" <> tag /\ "P" <> tag /\ "C" <> tag)
    by (rewrite !elem_of_cons, elem_of_nil in Htag; naive_solver).
  destruct Hne as (HO & HT & HP & HC). by_kind. cbn. unfold tagged at 2.
  rewrite bool_decide_false by (cbn; congruence). by rewrite app_nil_r.
Qed.

(** ** Fields and content *)

(** [unprint] reads equal fields back. *)
Ltac unprint :=
  repeat match goal with
  | H : pretty ?a = pretty ?b |- _ => apply (inj pretty) in H
  end; simplify_eq/=.

Lemma order_fields_content e1 e2 : order_fields e1 = order_fields e2 <-> order_content e1 = order_content e2.
Proof.
  destruct e1, e2. unfold order_fields, order_content. cbn.
  split; intros Heq; injection Heq; intros; unprint; done.
Qed.

Lemma trade_fields_content e1 e2 : trade_fields e1 = trade_fields e2 <-> trade_content e1 = trade_content e2.
Proof.
  destruct e1, e2. unfold trade_fields, trade_content. cbn.
  split; intros Heq; injection Heq; intros; unprint; done.
Qed.

Lemma position_fields_content e1 e2 :
  position_fields e1 = position_fields e2 <-> position_content e1 = position_content e2.
Proof.
  destruct e1, e2. unfold position_fields, position_content. cbn.
  split; intros Heq; injection Heq; intros; unprint; done.
Qed.

Lemma fmap_transfer {A B C} (f : A -> B) (g : A -> C) (l1 l2 : list A) :
  (forall x y, f x = f y -> g x = g y) -> f <$> l1 = f <$> l2 -> g <$> l1 = g <$> l2.
Proof.
  intros Hfg. revert l2. induction l1 as [|x l1 IH]; intros [|y l2]; csimpl; try done.
  intros Heq. injection Heq as Hx Hl. f_equal; [by apply Hfg|by apply IH].
Qed.

Lemma entries_content {V C} (fields : V -> list string) (content : V -> C) (key : C -> string)
    (m1 m2 : gmap string V) :
  (forall x y, fields x = fields y <-> content x = content y) ->
  map_Forall (fun k v => key (content v) = k) m1 -> map_Forall (fun k v => key (content v) = k) m2 ->
  (fields <$> entries m1 = fields <$> entries m2 <-> content <$> m1 = content <$> m2).
Proof.
  intros Hfc H1 H2. split.
  - intros Heq. apply (sorted_entries_inj content key); [done..|].
    eapply fmap_transfer; [|done]. intros x y. apply Hfc.
  - intros Heq. apply sorted_entries_fmap in Heq.
    eapply fmap_transfer; [|exact Heq]. intros x y. apply Hfc.
Qed.

Lemma book_records_content (b1 b2 : OrderBookSnapshot) :
  book_content b1 = book_content b2 -> book_records enumZ b1 = book_records enumZ b2.
Proof.
  destruct b1, b2. unfold book_content, book_records, book_fields. cbn. intros Heq. by simplify_eq.
Qed.

Lemma book_part_inj s1 s2 :
  records s1 = records s2 -> book_content <$> ss_OrderBook s1 = book_content <$> ss_OrderBook s2.
Proof.
  intros Heq.
  assert (Hb : forall tag, tag ∈ ["B"; "BB"; "AB"] ->
    List.filter (tagged tag) (book_part s1) = List.filter (tagged tag) (book_part s2)).
  { intros tag Ht. rewrite <- !head_book_records by done. by rewrite Heq. }
  assert (HB := Hb "B" ltac:(set_solver)). assert (HBB := Hb "BB" ltac:(set_solver)).
  assert (HAB := Hb "AB" ltac:(set_solver)). clear Hb Heq.
  destruct (ss_OrderBook s1) as [b1|], (ss_OrderBook s2) as [b2|]; try done.
  unfold book_records in *. rewrite !List.filter_app in HB, HBB, HAB.
  rewrite !(filter_tagged_other _ _ "BB"), !(filter_tagged_other _ _ "AB") in HB by done.
  rewrite !(filter_tagged_same (level_fields "BB" _)), !(filter_tagged_other _ _ "AB") in HBB by done.
  rewrite !(filter_tagged_same (level_fields "AB" _)), !(filter_tagged_other _ _ "BB") in HAB by done.
  cbn in HBB, HAB. rewrite !app_nil_r in HBB.
  apply levels_inj in HBB, HAB. cbn in HB. unfold book_fields in HB. injection HB; intros.
  destruct b1, b2. cbn in *. unfold book_content. cbn. unprint. done.
Qed.

(** Snapshots filed under their IDs have the same records exactly if they have the
    same content. *)
Lemma records_content s1 s2 :
  well_named s1 -> well_named s2 -> (records s1 = records s2 <-> same_content s1 s2).
Proof.
  intros W1 W2.
  assert (HO := entries_content order_fields order_content (fun c => c.1.1.1.1.1) (ss_Orders s1) (ss_Orders s2)
    order_fields_content ltac:(intros k v Hk; by destruct (named_orders _ W1 k v Hk))
    ltac:(intros k v Hk; by destruct (named_orders _ W2 k v Hk))).
  assert (HT := entries_content trade_fields trade_content (fun c => c.1.1.1.1) (ss_Trades s1) (ss_Trades s2)
    trade_fields_content ltac:(intros k v Hk; by destruct (named_trades _ W1 k v Hk))
    ltac:(intros k v Hk; by destruct (named_trades _ W2 k v Hk))).
  assert (HP := entries_content position_fields position_content (fun c => c.1.1) (ss_Positions s1)
    (ss_Positions s2) position_fields_content
    ltac:(intros k v Hk; by destruct (named_positions _ W1 k v Hk))
    ltac:(intros k v Hk; by destruct (named_positions _ W2 k v Hk))).
  unfold same_content. rewrite <- HO, <- HT, <- HP. split.
  - intros Heq. split_and!.
    + rewrite <- !order_records. by rewrite Heq.
    + rewrite <- !trade_records. by rewrite Heq.
    + rewrite <- !position_records. by rewrite Heq.
    + by apply book_part_inj.
    + assert (Hc : [count_fields s1] = [count_fields s2]) by (rewrite <- !count_records; by rewrite Heq).
      unfold count_fields in Hc. injection Hc; intros. unfold counts. unprint. congruence.
  - intros (H1 & H2 & H3 & Hb & Hc). unfold snapshot_records. rewrite H1, H2, H3.
    assert (book_part s1 = book_part s2) as ->.
    { destruct (ss_OrderBook s1) as [b1|], (ss_OrderBook s2) as [b2|]; try done.
      cbn in Hb. apply book_records_content. congruence. }
    assert (count_fields s1 = count_fields s2) as ->; [|done].
    unfold counts in Hc. injection Hc; intros. unfold count_fields. congruence.
Qed.

Ltac plain_fields :=
  repeat (apply Forall_cons_2; [auto using pretty_plain|]); try apply Forall_nil_2.

Lemma records_plain s : well_named s -> Forall (fun r => r <> [] /\ Forall plain r) (records s).
Proof.
  intros W. assert (Htag : forall t, t ∈ ["O"; "T"; "P"; "B"; "BB"; "AB"; "C"] -> plain t).
  { apply Forall_forall. by repeat constructor. }
  assert (Hall : forall {A} (f : A -> list string) (l : list A),
    (forall x, x ∈ l -> f x <> [] /\ Forall plain (f x)) ->
    Forall (fun r => r <> [] /\ Forall plain r) (f <$> l)).
  { intros A f l Hf. rewrite Forall_fmap, Forall_forall. exact Hf. }
  assert (Hlevel : forall tag book, plain tag -> Forall (fun r => r <> [] /\ Forall plain r)
    (level_fields tag book <$> sorted_prices enumZ book)).
  { intros tag book Ht. apply Hall. intros p _. split; [done|].
    plain_fields. }
  unfold snapshot_records. rewrite !Forall_app. split_and!.
  - apply Hall. intros e (k & Hk)%sorted_entries_elem.
    destruct (named_orders _ W k e Hk) as (<- & ? & ? & ? & ? & ?). split; [done|].
    plain_fields; apply Htag; set_solver.
  - apply Hall. intros e (k & Hk)%sorted_entries_elem.
    destruct (named_trades _ W k e Hk) as (<- & ? & ? & ? & ?). split; [done|].
    plain_fields; apply Htag; set_solver.
  - apply Hall. intros e (k & Hk)%sorted_entries_elem.
    destruct (named_positions _ W k e Hk) as (<- & ? & ?). split; [done|].
    plain_fields; apply Htag; set_solver.
  - destruct (ss_OrderBook s) as [b|] eqn:Hb; [|done]. unfold book_records. rewrite !Forall_app.
    split_and!; [|apply Hlevel, Htag; set_solver..]. constructor; [|done]. split; [done|].
    pose proof (named_book _ W b Hb).
    plain_fields; apply Htag; set_solver.
  - constructor; [|done]. split; [done|].
    plain_fields; apply Htag; set_solver.
Qed.

Lemma text_content s1 s2 :
  well_named s1 -> well_named s2 -> (text_of (records s1) = text_of (records s2) <-> same_content s1 s2).
Proof.
  intros W1 W2. rewrite <- records_content by done. split; [|by intros ->].
  apply text_inj; by apply records_plain.
Qed.
End Text.


(** ** Lists of differences *)

Section Diff.
Context (enum : gset string -> list string).
Hypothesis Henum : enumerates enum.

Lemma find_missing_elem {V} (pre post : gmap string V) id :
  id ∈ find_missing enum pre post <-> id ∈ dom pre /\ id ∉ dom post.
Proof.
  unfold find_missing. rewrite sort_strings_perm, list_elem_of_In, List.filter_In, <- list_elem_of_In.
  rewrite enum_elem, negb_true_iff, bool_decide_eq_false by done. by rewrite (elem_of_dom post).
Qed.

Lemma find_missing_sorted {V} (pre post : gmap string V) :
  StronglySorted String.le (find_missing enum pre post) /\ NoDup (find_missing enum pre post).
Proof.
  split; [apply sort_strings_sorted|]. unfold find_missing. rewrite sort_strings_perm.
  apply NoDup_ListNoDup, List.NoDup_filter, NoDup_ListNoDup. rewrite (Henum _). apply NoDup_elements.
Qed.

Lemma find_changed_elem {V C} (changes : string -> V -> V -> list C) (pre post : gmap string V) c :
  c ∈ find_changed enum changes pre post <->
  exists id a b, pre !! id = Some a /\ post !! id = Some b /\ c ∈ changes id a b.
Proof.
  unfold find_changed. rewrite list_elem_of_In, in_concat. split.
  - intros (l & Hl & Hc). apply list_elem_of_In, list_elem_of_fmap in Hl as (id & -> & _).
    apply list_elem_of_In in Hc. exists id. destruct (pre !! id) as [a|]; [|by apply not_elem_of_nil in Hc].
    destruct (post !! id) as [b|]; [|by apply not_elem_of_nil in Hc]. eauto.
  - intros (id & a & b & Ha & Hb & Hc). exists (changes id a b). rewrite <- !list_elem_of_In.
    split; [|done]. apply list_elem_of_fmap. exists id. rewrite Ha, Hb. split; [done|].
    apply enum_elem; [done|]. by eapply elem_of_dom_2.
Qed.
End Diff.

(** What the comparison reports of one map. *)
Definition lists_exact {V} (pre post : gmap string V) (missing extra : list string) : Prop :=
  (forall id, id ∈ missing <-> id ∈ dom pre /\ id ∉ dom post) /\
  (forall id, id ∈ extra <-> id ∈ dom post /\ id ∉ dom pre) /\
  StronglySorted String.le missing /\ NoDup missing /\ StronglySorted String.le extra /\ NoDup extra.

Lemma find_missing_exact {V} enum (pre post : gmap string V) :
  enumerates enum -> lists_exact pre post (find_missing enum pre post) (find_missing enum post pre).
Proof.
  intros He. unfold lists_exact. pose proof (find_missing_sorted enum He pre post) as [? ?].
  pose proof (find_missing_sorted enum He post pre) as [? ?].
  split_and!; auto; intros id; by apply find_missing_elem.
Qed.

(** Unless it calls the snapshots identical, a comparison lists, sorted and
    once each, exactly the orders, trades and positions that are in one snapshot
    only, and of the orders and positions in both exactly the fields that differ. *)
Theorem diff_lists_exact enum enumZ now pre post pre' post' d :
  enumerates enum -> CompareSnapshots enum enumZ now pre post = (pre', post', d) ->
  d_IsIdentical d = false ->
  lists_exact (ss_Orders pre) (ss_Orders post) (d_MissingOrders d) (d_ExtraOrders d) /\
  lists_exact (ss_Trades pre) (ss_Trades post) (d_MissingTrades d) (d_ExtraTrades d) /\
  lists_exact (ss_Positions pre) (ss_Positions post) (d_MissingPositions d) (d_ExtraPositions d) /\
  (forall c, c ∈ d_ChangedOrders d <-> exists id a b,
     ss_Orders pre !! id = Some a /\ ss_Orders post !! id = Some b /\ c ∈ order_changes id a b) /\
  (forall c, c ∈ d_ChangedPositions d <-> exists id a b,
     ss_Positions pre !! id = Some a /\ ss_Positions post !! id = Some b /\ c ∈ position_changes id a b).
Proof.
  intros He Hc Hi. unfold CompareSnapshots, CalculateChecksum in Hc. case_bool_decide; simplify_eq/=.
  split_and!; try by apply find_missing_exact.
  - intros c. by apply find_changed_elem.
  - intros c. by apply find_changed_elem.
Qed.

(** A comparison has differences exactly if it does not call the snapshots identical. *)
Lemma HasDifferences_identical enum enumZ now pre post :
  let d := (CompareSnapshots enum enumZ now pre post).2 in HasDifferences d = negb (d_IsIdentical d).
Proof. cbn. unfold CompareSnapshots, CalculateChecksum. by case_bool_decide. Qed.

(** ** Blind spots *)

Definition demo_order_entry (user symbol side : string) (price : Z) : OrderSnapshot :=
  mkOrderSnapshot "o1" user symbol side price 10 0 "pending" 1 2.

Definition snapshot_of (orders : list OrderSnapshot) (depth : Z) : StateSnapshot :=
  mkStateSnapshot 0 (list_to_map ((fun e => (os_OrderID e, e)) <$> orders)) ∅ ∅
    (Some (mkOrderBookSnapshot "BTC" 100 (<[100 := 10]> ∅) ∅ 100 0 depth 0 0)) "" 1
    (Z.of_nat (length orders)) 0 0.

Abbreviation compare := (fun pre post => (CompareSnapshots elements elements 7 pre post).2).

(** Separators in names are not escaped: two orders of different users and
    symbols have the same text, and the snapshots are called identical. *)
Theorem separators_collide :
  let pre := snapshot_of [demo_order_entry "alice:BTC" "USDT" "buy" 5] 10 in
  let post := snapshot_of [demo_order_entry "alice" "BTC:USDT" "buy" 5] 10 in
  ~ same_content pre post /\ d_IsIdentical (compare pre post) = true.
Proof.
  split; [|vm_compute; reflexivity]. intros (Ho & _).
  apply (f_equal (lookup "o1")) in Ho. vm_compute in Ho. discriminate Ho.
Qed.

(** Some differences are not listed and some are not seen: an order whose side
    changed makes the snapshots differ and no list shows it, and a book of another
    depth does not make them differ, although the comparison of books has a flag
    for it. *)
Theorem unlisted_differences :
  let d := compare (snapshot_of [demo_order_entry "alice" "BTC" "buy" 5] 10)
                   (snapshot_of [demo_order_entry "alice" "BTC" "sell" 5] 10) in
  let e := compare (snapshot_of [] 10) (snapshot_of [] 99) in
  HasDifferences d = true /\ d_MissingOrders d = [] /\ d_ExtraOrders d = [] /\ d_ChangedOrders d = [] /\
  d_OrderBookDiff d = None /\ HasDifferences e = false /\
  is_Some (ss_OrderBook (snapshot_of [] 10) ≫= fun a =>
           ss_OrderBook (snapshot_of [] 99) ≫= fun b => compareOrderBooks a b).
Proof. vm_compute. split_and!; try reflexivity. by eexists. Qed.

Lemma elements_enumerates {A} `{Countable A} : enumerates (A := A) elements.
Proof. by intros X. Qed.

Lemma demo_well_named user symbol side price depth :
  plain user -> plain symbol -> plain side ->
  well_named (snapshot_of [demo_order_entry user symbol side price] depth).
Proof.
  intros ? ? ?. split; cbn.
  - intros id e. rewrite lookup_insert_Some. intros [[<- <-]|[_ []%lookup_empty_Some]].
    cbn. split_and!; auto; by vm_compute.
  - apply map_Forall_empty.
  - apply map_Forall_empty.
  - intros b [= <-]. by vm_compute.
Qed.


Lemma triple_eta {A B C} (x : A * B * C) : x = (x.1.1, x.1.2, x.2).
Proof. by destruct x as [[]]. Qed.

Definition demo_pre : StateSnapshot := snapshot_of [demo_order_entry "alice" "BTC" "buy" 5] 10.
Definition demo_post : StateSnapshot := snapshot_of [] 10.

Lemma diff_lists_exact_witness :
  "o1" ∈ d_MissingOrders (compare demo_pre demo_post) <->
  "o1" ∈ dom (ss_Orders demo_pre) /\ "o1" ∉ dom (ss_Orders demo_post).
Proof.
  refine (proj1 (proj1 (diff_lists_exact elements elements 7 demo_pre demo_post _ _
    (compare demo_pre demo_post) elements_enumerates _ _)) "o1").
  - exact (triple_eta (CompareSnapshots elements elements 7 demo_pre demo_post)).
  - vm_compute. reflexivity.
Defined.
