(* ===== verification/Validator.v ===== *)
(** * The state validator

    Models src/biz/service/state_validator.go.  The validator compares states
    through the text [fmt.Sprintf("%v", x)] gives for them.  The text of an order
    book contains addresses of its lists, so it is a parameter: [fmt_book] for a
    book and [fmt_checkpoint] for a whole checkpoint; the positions of an engine
    are always the empty map, whose text is "map[]".  DebugPrintCheckpoint only
    logs. *)

From stdpp Require Import base gmap strings list pretty.
From Stdlib Require Import ZArith Lia.
From S2P Require Import Prelude Hash.

Local Open Scope go_scope.
Local Open Scope Z_scope.

Section Validator.
Context {Book Pos : Type}.

Record RecoveryCheckpoint := mkRecoveryCheckpoint {
  rcp_Timestamp : Z;
  rcp_LastEventSeq : Z;
  rcp_OrderCount : Z;
  rcp_TradeCount : Z;
  rcp_OrderBook : option Book;
  rcp_Positions : option Pos;
  rcp_StateChecksum : string;
  rcp_BidLevels : Z;
  rcp_AskLevels : Z;
  rcp_TotalBidQty : Z;
  rcp_TotalAskQty : Z }.

Record ValidationResult := mkValidationResult {
  vr_IsValid : bool;
  vr_ChecksumMatch : bool;
  vr_OrderCountOK : bool;
  vr_TradeCountOK : bool;
  vr_PositionsOK : bool;
  vr_ChecksumMismatch : string;
  vr_OrderCountDifference : Z;
  vr_TradeCountDifference : Z;
  vr_PositionDiffs : gmap string string;
  vr_PreState : string;
  vr_PostState : string }.

Record StateValidator := mkStateValidator {
  sv_lastPreCheckpoint : option RecoveryCheckpoint;
  sv_lastPostCheckpoint : option RecoveryCheckpoint }.

Definition NewStateValidator : StateValidator := mkStateValidator None None.

Context (fmt_book : Book -> string) (fmt_pos : Pos -> string)
        (fmt_checkpoint : RecoveryCheckpoint -> string).
Implicit Types (sv : StateValidator).

(** [fmt.Sprintf("%v", x)] of a pointer or interface. *)
Definition sprint_v {A} (fmt : A -> string) (x : option A) : string := from_option fmt "<nil>" x.

Definition sv_CalculateChecksum (ob : option Book) (positions : option Pos) : string :=
  md5_hex ("orderbook:" +:+ sprint_v fmt_book ob +:+ "|positions:" +:+ sprint_v fmt_pos positions).

(** The engine is given by the book it has for the symbol, if any, and by its
    positions. *)
Definition CaptureCurrentState (matchEngine : option (option Book * Pos)) : option RecoveryCheckpoint :=
  match matchEngine with
  | None => None
  | Some (orderBook, positions) =>
      Some (mkRecoveryCheckpoint 0 0 0 0 orderBook (Some positions)
              (sv_CalculateChecksum orderBook (Some positions)) 0 0 0 0)
  end.

(** The result and the differences it adds. *)
Definition validatePositions (prePositions postPositions : Pos) (diffs : gmap string string)
    : bool * gmap string string :=
  let preStr := fmt_pos prePositions in
  let postStr := fmt_pos postPositions in
  if preStr =s postStr then (true, diffs)
  else (false, <["positions" := "pre=" +:+ preStr +:+ ", post=" +:+ postStr]> diffs).

Definition state_line (cp : RecoveryCheckpoint) : string :=
  "seq=" +:+ pretty (rcp_LastEventSeq cp) +:+ ", orders=" +:+ pretty (rcp_OrderCount cp)
  +:+ ", trades=" +:+ pretty (rcp_TradeCount cp) +:+ ", checksum=" +:+ rcp_StateChecksum cp.

Definition ValidateRecoveryState (preState postState : option RecoveryCheckpoint) sv
    : StateValidator * ValidationResult :=
  match preState, postState with
  | Some pre, Some post =>
      let checksumMatch := rcp_StateChecksum pre =s rcp_StateChecksum post in
      let mismatch := if checksumMatch then ""
                      else "pre=" +:+ rcp_StateChecksum pre +:+ ", post=" +:+ rcp_StateChecksum post in
      let orderOK := rcp_OrderCount pre =? rcp_OrderCount post in
      let orderDiff := if orderOK then 0 else i64 (rcp_OrderCount post - rcp_OrderCount pre) in
      let tradeOK := rcp_TradeCount pre =? rcp_TradeCount post in
      let tradeDiff := if tradeOK then 0 else i64 (rcp_TradeCount post - rcp_TradeCount pre) in
      let '(positionsOK, diffs) :=
        match rcp_Positions pre, rcp_Positions post with
        | Some a, Some b => validatePositions a b ∅
        | _, _ => (true, ∅)
        end in
      (mkStateValidator preState postState,
       mkValidationResult (checksumMatch && orderOK && tradeOK && positionsOK) checksumMatch orderOK
         tradeOK positionsOK mismatch orderDiff tradeDiff diffs (state_line pre) (state_line post))
  | _, _ =>
      (sv, mkValidationResult false false false false false "" 0 0 ∅
             (sprint_v fmt_checkpoint preState) (sprint_v fmt_checkpoint postState))
  end.

Definition CompareOrderBooks (orderbook1 orderbook2 : option Book) : bool * string :=
  let str1 := sprint_v fmt_book orderbook1 in
  let str2 := sprint_v fmt_book orderbook2 in
  if str1 =s str2 then (true, "")
  else (false, "OrderBook differs: pre=" +:+ str1 +:+ ", post=" +:+ str2).

Definition GetLastValidationResult sv : option RecoveryCheckpoint * option RecoveryCheckpoint :=
  (sv_lastPreCheckpoint sv, sv_lastPostCheckpoint sv).

Definition ResetValidationState (sv : StateValidator) : StateValidator := mkStateValidator None None.

(** ** Theorems *)

Lemma validate_some pre post sv :
  let r := (ValidateRecoveryState (Some pre) (Some post) sv).2 in
  vr_IsValid r = true <->
  rcp_StateChecksum pre = rcp_StateChecksum post /\ rcp_OrderCount pre = rcp_OrderCount post /\
  rcp_TradeCount pre = rcp_TradeCount post /\
  (forall a b, rcp_Positions pre = Some a -> rcp_Positions post = Some b -> fmt_pos a = fmt_pos b).
Proof.
  unfold ValidateRecoveryState, validatePositions.
  destruct (rcp_Positions pre) as [a|], (rcp_Positions post) as [b|]; cbn;
    repeat case_bool_decide; cbn; rewrite ?andb_true_iff, ?Z.eqb_eq; naive_solver.
Qed.

(** A validation passes exactly if both states are given, their checksums and
    counts agree and their positions, where both have some, print alike; the
    reported count differences lead from the first state to the second; and the
    validator remembers the states it was given. *)
Theorem validation_exact preState postState sv sv' r :
  ValidateRecoveryState preState postState sv = (sv', r) ->
  (vr_IsValid r = true <->
   exists pre post, preState = Some pre /\ postState = Some post /\
     rcp_StateChecksum pre = rcp_StateChecksum post /\ rcp_OrderCount pre = rcp_OrderCount post /\
     rcp_TradeCount pre = rcp_TradeCount post /\
     (forall a b, rcp_Positions pre = Some a -> rcp_Positions post = Some b -> fmt_pos a = fmt_pos b)) /\
  (forall pre post, preState = Some pre -> postState = Some post ->
     (is_i64 (rcp_OrderCount post) ->
      i64 (rcp_OrderCount pre + vr_OrderCountDifference r) = rcp_OrderCount post) /\
     GetLastValidationResult sv' = (preState, postState)).
Proof.
  intros Hv. split.
  - destruct preState as [pre|], postState as [post|];
      [|cbn in Hv; simplify_eq/=; naive_solver..].
    pose proof (validate_some pre post sv) as Hs. rewrite Hv in Hs. cbn in Hs. rewrite Hs. naive_solver.
  - intros pre post -> ->. unfold ValidateRecoveryState in Hv.
    destruct (match rcp_Positions pre, rcp_Positions post with
              | Some a, Some b => validatePositions a b ∅ | _, _ => (true, ∅) end) as [ok diffs].
    simplify_eq/=. split; [|done]. intros Hr. destruct (Z.eqb_spec (rcp_OrderCount pre) (rcp_OrderCount post)) as [->|].
    + rewrite Z.add_0_r. by apply i64_id.
    + by apply i64_add_sub.
Qed.

(** Captured states carry no counts, so comparing them only compares the text
    of the books and positions, through MD5: with the positions an engine reports,
    which are always empty, the book decides alone. *)
Theorem captured_states_valid b1 b2 p sv :
  let cp1 := CaptureCurrentState (Some (b1, p)) in
  let cp2 := CaptureCurrentState (Some (b2, p)) in
  vr_IsValid (ValidateRecoveryState cp1 cp2 sv).2 = true <->
  sv_CalculateChecksum b1 (Some p) = sv_CalculateChecksum b2 (Some p).
Proof. cbn [CaptureCurrentState]. rewrite validate_some. cbn. naive_solver. Qed.
End Validator.

(** Checkpoints whose books and positions are their own text. *)
Lemma validation_exact_witness :
  let cp n := mkRecoveryCheckpoint (Book := string) (Pos := string) 0 0 n 0 None None "c" 0 0 0 0 in
  i64 (3 + vr_OrderCountDifference
             (ValidateRecoveryState id (fun _ => "&{}") (Some (cp 3)) (Some (cp 5)) NewStateValidator).2) = 5.
Proof.
  intros cp.
  refine (proj1 (proj2 (validation_exact (Book := string) (Pos := string) id (fun _ => "&{}")
    (Some (cp 3)) (Some (cp 5)) NewStateValidator _ _ (surjective_pairing _))
    (cp 3) (cp 5) eq_refl eq_refl) _).
  vm_compute. split; discriminate.
Defined.
