(* ===== verification/Orders.v ===== *)
(** * Stored orders and trades

    Models the rows of src/biz/model/order.go and trade.go, the repositories
    src/biz/dal/pg/order_repo.go and trade_repo.go, the services
    src/biz/service/order_service.go and trade_service.go, and the processor that
    writes events to the database (src/biz/service/event_processor_db.go).

    Rows are soft-deleted by nobody, so the column for it is left out.  gorm fills
    the time columns: a creation that leaves them zero and every update gets the
    clock in seconds, [now].  The two tables are parameters. *)

From stdpp Require Import base gmap strings list pretty.
From Stdlib Require Import ZArith Lia.
From S2P Require Import Prelude Money Events Database.

Local Open Scope go_scope.
Local Open Scope Z_scope.

Record Order := mkOrder {
  o_OrderID : string;
  o_UserID : string;
  o_Symbol : string;
  o_Side : string;
  o_Price : Z;
  o_Quantity : Z;
  o_Status : string;
  o_CreatedAt : Z;
  o_UpdatedAt : Z }.

Record Trade := mkTrade {
  t_TradeID : string;
  t_Symbol : string;
  t_Price : string;
  t_Quantity : string;
  t_Timestamp : Z;
  t_TakerOrderID : string;
  t_MakerOrderID : string;
  t_Side : string;
  t_EngineID : string;
  t_TakerUser : string;
  t_MakerUser : string }.

Definition same_order (a b : Order) : bool := o_OrderID a =s o_OrderID b.
Definition same_trade (a b : Trade) : bool := t_TradeID a =s t_TradeID b.

(** gorm's time columns on creation and on update. *)
Definition stamped (now : Z) (o : Order) : Order :=
  mkOrder (o_OrderID o) (o_UserID o) (o_Symbol o) (o_Side o) (o_Price o) (o_Quantity o) (o_Status o)
    (if o_CreatedAt o =? 0 then now else o_CreatedAt o)
    (if o_UpdatedAt o =? 0 then now else o_UpdatedAt o).

Definition set_status (now : Z) (status : string) (o : Order) : Order :=
  mkOrder (o_OrderID o) (o_UserID o) (o_Symbol o) (o_Side o) (o_Price o) (o_Quantity o) status
    (o_CreatedAt o) now.

Section Repos.
Context {Do Dt : Type} `{!Table Do Order} `{!Table Dt Trade}.
Implicit Types (db : Do) (dt : Dt).

(** A negative limit is none. *)
Definition sql_limit (limit : Z) : option nat := if limit <? 0 then None else Some (Z.to_nat limit).

(** *** order_repo.go *)

Definition pg_InsertOrder (now : Z) (order : Order) db : Do * option error :=
  db_create (stamped now order) db.

Definition pg_GetOrderByID (orderID : string) db : outcome Order :=
  let? rows := db_find (fun o => o_OrderID o =s orderID) None (Some 1%nat) db in
  match rows with
  | o :: _ => Ok o
  | [] => Err "record not found"
  end.

Definition pg_ListOrders (userID status : string) db : outcome (list Order) :=
  db_find (fun o => ((userID =s "") || (o_UserID o =s userID))
                    && ((status =s "") || (o_Status o =s status))) None None db.

Definition pg_CreateOrder (now : Z) (order : Order) db : Do * option error :=
  db_create (stamped now order) db.

Definition update_error {A D} (r : D * outcome A) : D * option error :=
  match r with
  | (d, Ok _) => (d, None)
  | (d, Err e) => (d, Some e)
  | (d, Panic) => (d, Some "panic")
  end.

Definition pg_UpdateOrderStatus (now : Z) (orderID status : string) db : Do * option error :=
  update_error (db_update (fun o => o_OrderID o =s orderID) (set_status now status) db).

(** The newest trades. *)
Definition pg_ListTrades (symbol : string) (limit : Z) dt : outcome (list Trade) :=
  db_find (fun t => (symbol =s "") || (t_Symbol t =s symbol)) (Some (fun t => - t_Timestamp t))
    (sql_limit limit) dt.

(** *** trade_repo.go; the times are milliseconds *)

Definition QueryTradesBysymbolAndTime (symbol : string) (start end_ : Z) dt : outcome (list Trade) :=
  db_find (fun t => (t_Symbol t =s symbol) && (start <=? t_Timestamp t) && (t_Timestamp t <? end_))
    None None dt.

Definition GetActiveTradesymbols (start end_ : Z) dt : outcome (list string) :=
  let? rows := db_find (fun t => (start <=? t_Timestamp t) && (t_Timestamp t <? end_)) None None dt in
  Ok (remove_dups (t_Symbol <$> rows)).

(** *** The services *)

Definition InsertOrder (now : Z) (orderID userID symbol side price quantity status : string)
    (createdAt updatedAt : Z) db : Do * option error :=
  match ParsePrice price with
  | Err e => (db, Some e)
  | Panic => (db, Some "panic")
  | Ok priceInNano =>
      match ParseQuantity quantity with
      | Err e => (db, Some e)
      | Panic => (db, Some "panic")
      | Ok quantityInNano =>
          pg_InsertOrder now (mkOrder orderID userID symbol side priceInNano quantityInNano status
                                createdAt updatedAt) db
      end
  end.

Definition ListOrders (userID status : string) db : outcome (list Order) := pg_ListOrders userID status db.
Definition GetOrderByID (orderID : string) db : outcome Order := pg_GetOrderByID orderID db.
Definition CreateOrder (now : Z) (order : Order) db : Do * option error := pg_CreateOrder now order db.
Definition UpdateOrderStatus (now : Z) (orderID status : string) db : Do * option error :=
  pg_UpdateOrderStatus now orderID status db.

Definition GetTradesBysymbolAndTime (symbol : string) (start end_ : Z) dt : outcome (list Trade) :=
  QueryTradesBysymbolAndTime symbol start end_ dt.
Definition GetActivesymbols (start end_ : Z) dt : outcome (list string) := GetActiveTradesymbols start end_ dt.

(** ** The processor *)

(** [dp_db] is the handle, which may be nil. *)
Record DatabaseProcessor := mkDatabaseProcessor {
  dp_db : option (Do * Dt);
  dp_pendingTrades : list Trade;
  dp_pendingOrders : list Order;
  dp_batchSize : Z }.
Implicit Types (dp : DatabaseProcessor).

Definition NewDatabaseProcessor (db : option (Do * Dt)) (batchSize : Z) : DatabaseProcessor :=
  mkDatabaseProcessor db [] [] batchSize.

Definition set_db (d : Do * Dt) dp : DatabaseProcessor :=
  mkDatabaseProcessor (Some d) (dp_pendingTrades dp) (dp_pendingOrders dp) (dp_batchSize dp).

Definition trade_row (e : TradeExecutedEvent) : Trade :=
  mkTrade (te_TradeID e) (te_SymbolStr e) (PriceInNano_String (te_Price e))
    (QuantityInNano_String (te_Quantity e)) (te_Timestamp e) (te_TakerOrderID e) (te_MakerOrderID e)
    (te_TakerSide e) "" (te_TakerUser e) (te_MakerUser e).

Definition order_row (e : OrderSubmittedEvent) : Order :=
  mkOrder (os_OrderID e) (os_UserID e) (os_SymbolStr e) (os_Side e) (os_Price e) (os_Quantity e)
    (os_Status e) (os_Timestamp e) (os_Timestamp e).

(** INSERT ... ON CONFLICT DO NOTHING *)
Definition db_handleTradeExecuted (e : TradeExecutedEvent) (d : Do * Dt) : (Do * Dt) * option error :=
  let '(dt', r) := db_insert_ignore same_trade (trade_row e) d.2 in
  match r with
  | Ok _ => ((d.1, dt'), None)
  | Err err => ((d.1, dt'), Some err)
  | Panic => ((d.1, dt'), Some "panic")
  end.

Definition db_handleOrderSubmitted (now : Z) (e : OrderSubmittedEvent) (d : Do * Dt)
    : (Do * Dt) * option error :=
  let '(db', r) := db_insert_ignore same_order (stamped now (order_row e)) d.1 in
  match r with
  | Ok _ => ((db', d.2), None)
  | Err err => ((db', d.2), Some err)
  | Panic => ((db', d.2), Some "panic")
  end.

Definition db_handleOrderCancelled (now : Z) (e : OrderCancelledEvent) (d : Do * Dt)
    : (Do * Dt) * option error :=
  let '(db', err) := update_error
    (db_update (fun o => (o_OrderID o =s oc_OrderID e) && (o_Status o =s "active"))
       (set_status now "cancelled") d.1) in
  ((db', d.2), err).

Definition db_handle (now : Z) (event : MatchingEngineEvent) (d : Do * Dt) : (Do * Dt) * option error :=
  match event with
  | TradeExecuted e => db_handleTradeExecuted e d
  | OrderSubmitted e => db_handleOrderSubmitted now e d
  | OrderCancelled e => db_handleOrderCancelled now e d
  end.

(** Using a nil handle panics. *)
Definition DatabaseProcessor_ProcessEvent (now : Z) (event : MatchingEngineEvent) dp
    : outcome (DatabaseProcessor * option error) :=
  match dp_db dp with
  | None => Panic
  | Some d => let '(d', err) := db_handle now event d in Ok (set_db d' dp, err)
  end.

(** CreateInBatches: a transaction of INSERTs. *)
Fixpoint create_batch {D R} `{Table D R} (rows : list R) (d : D) : D * option error :=
  match rows with
  | [] => (d, None)
  | r :: rows' => match db_create r d with
                  | (d', None) => create_batch rows' d'
                  | (d', Some e) => (d', Some e)
                  end
  end.

(** Errors are only logged; the buffers are emptied either way. *)
Definition flush (now : Z) dp : outcome DatabaseProcessor :=
  match dp_pendingTrades dp, dp_pendingOrders dp, dp_db dp with
  | [], [], _ => Ok dp
  | _, _, None => Panic
  | trades, orders, Some d =>
      let '(dt', _) := db_transaction (create_batch trades) d.2 in
      let '(db', _) := db_transaction (create_batch (stamped now <$> orders)) d.1 in
      Ok (mkDatabaseProcessor (Some (db', dt')) [] [] (dp_batchSize dp))
  end.

(** The ticker is stopped; the rest is flushed. *)
Definition dp_Shutdown (now : Z) dp : outcome DatabaseProcessor := flush now dp.
End Repos.

(** isUniqueConstraintError, which nothing calls. *)
Fixpoint contains (sub s : string) : bool :=
  String.prefix sub s || match s with EmptyString => false | String _ s' => contains sub s' end.

Definition isUniqueConstraintError (err : option error) : bool :=
  match err with
  | None => false
  | Some e => let msg := fold_name e in
              contains "unique constraint" msg || contains "unique" msg || contains "duplicate key" msg
              || contains "constraint failed" msg || contains "duplicate" msg
  end.
