(* ===== verification/OrdersProps.v ===== *)
(** * Properties of the database processor

    Trades and orders are stored once per ID, however often and in whatever order
    their events are delivered; a cancellation event changes no order the engine
    has submitted, because it looks for another status than the one stored. *)

From stdpp Require Import base gmap strings list pretty.
From Stdlib Require Import ZArith Lia.
From S2P Require Import Prelude Money Events Database Sequencer SkipList OrderBook EventLog Checkpoint Pipeline MatchEngine Orders.

Local Open Scope go_scope.
Local Open Scope Z_scope.

Section Props.
Context {Do Dt : Type} {To : Table Do Order} {Tt : Table Dt Trade}.
Context {Lo : TableLaws Do Order} {Lt : TableLaws Dt Trade}.
Implicit Types (d : Do * Dt).

Definition orders d : list Order := db_rows d.1.
Definition trades d : list Trade := db_rows d.2.

(** Successive events, each with the time of its processing; [None] if one failed. *)
Fixpoint db_run (l : list (Z * MatchingEngineEvent)) d : option (Do * Dt) :=
  match l with
  | [] => Some d
  | (now, ev) :: l' => match db_handle now ev d with
                       | (d', None) => db_run l' d'
                       | (_, Some _) => None
                       end
  end.

Definition same_rows d d' : Prop := orders d ≡ₚ orders d' /\ trades d ≡ₚ trades d'.

#[local] Instance same_rows_equiv : Equivalence same_rows.
Proof.
  split; unfold same_rows.
  - by intros d.
  - by intros d1 d2 [-> ->].
  - by intros d1 d2 d3 [-> ->] [-> ->].
Qed.

(** The event is on record: a row has its ID. *)
Definition recorded (ev : MatchingEngineEvent) d : Prop :=
  match ev with
  | TradeExecuted e => te_TradeID e ∈ t_TradeID <$> trades d
  | OrderSubmitted e => os_OrderID e ∈ o_OrderID <$> orders d
  | OrderCancelled _ => True
  end.

(** Inserting a row unless one with its key is there. *)
Lemma insert_ignore_keys {D R} `{TableLaws D R} (same : R -> R -> bool) (key : R -> string) r (tb tb' : D) b :
  (forall x y, same x y = true <-> key x = key y) ->
  db_insert_ignore same r tb = (tb', Ok b) ->
  (b = true /\ key r ∉ key <$> db_rows tb /\ db_rows tb' ≡ₚ r :: db_rows tb) \/
  (b = false /\ key r ∈ key <$> db_rows tb /\ db_rows tb' ≡ₚ db_rows tb).
Proof.
  intros Hsame Hi. apply db_insert_ignore_spec in Hi. destruct b; [left|right]; destruct Hi as [He Hr].
  - split_and!; auto. intros (x & Hk & Hin)%list_elem_of_fmap.
    assert (existsb (fun old => same old r) (db_rows tb) = true); [|congruence].
    apply existsb_exists. exists x. rewrite <- list_elem_of_In. split; [done|]. by apply Hsame.
  - split_and!; auto. apply existsb_exists in He as (x & Hin%list_elem_of_In & Hs).
    apply list_elem_of_fmap. exists x. split; [|done]. symmetry. by apply Hsame.
Qed.

Lemma same_trade_key x y : same_trade x y = true <-> t_TradeID x = t_TradeID y.
Proof. apply bool_decide_eq_true. Qed.
Lemma same_order_key x y : same_order x y = true <-> o_OrderID x = o_OrderID y.
Proof. apply bool_decide_eq_true. Qed.

(** What one successful event does to the rows. *)
Inductive effect (now : Z) (ev : MatchingEngineEvent) d d' : Prop :=
| effect_trade e : ev = TradeExecuted e -> te_TradeID e ∉ t_TradeID <$> trades d ->
    orders d' = orders d -> trades d' ≡ₚ trade_row e :: trades d -> effect now ev d d'
| effect_order e : ev = OrderSubmitted e -> os_OrderID e ∉ o_OrderID <$> orders d ->
    orders d' ≡ₚ stamped now (order_row e) :: orders d -> trades d' = trades d -> effect now ev d d'
| effect_known : (forall e, ev <> OrderCancelled e) -> recorded ev d -> same_rows d' d -> effect now ev d d'
| effect_cancel e : ev = OrderCancelled e ->
    orders d' ≡ₚ (fun o => if (o_OrderID o =s oc_OrderID e) && (o_Status o =s "active")
                          then set_status now "cancelled" o else o) <$> orders d ->
    trades d' = trades d -> effect now ev d d'.

Lemma handle_effect now ev d d' : db_handle now ev d = (d', None) -> effect now ev d d'.
Proof.
  destruct d as [db dt], ev as [e|e|e]; cbn; unfold db_handleOrderSubmitted, db_handleTradeExecuted,
    db_handleOrderCancelled; cbn.
  - destruct (db_insert_ignore _ _ _) as [db' [b| |]] eqn:Hi; intros Heq; simplify_eq.
    eapply (insert_ignore_keys _ o_OrderID) in Hi as [(_ & Hn & Hr)|(_ & Hk & Hr)]; [| |apply same_order_key].
    + by eapply effect_order.
    + apply effect_known; [done|done|]. by split.
  - destruct (db_insert_ignore _ _ _) as [dt' [b| |]] eqn:Hi; intros Heq; simplify_eq.
    eapply (insert_ignore_keys _ t_TradeID) in Hi as [(_ & Hn & Hr)|(_ & Hk & Hr)]; [| |apply same_trade_key].
    + by eapply effect_trade.
    + apply effect_known; [done|done|]. by split.
  - destruct (db_update _ _ db) as [db' [n| |]] eqn:Hu; cbn; intros Heq; simplify_eq.
    apply db_update_ok in Hu as [Hu _]. by eapply effect_cancel.
Qed.

Lemma cancel_keys now id (l : list Order) :
  o_OrderID <$> ((fun o => if (o_OrderID o =s id) && (o_Status o =s "active")
                          then set_status now "cancelled" o else o) <$> l) = o_OrderID <$> l.
Proof. rewrite <- list_fmap_compose. apply list_fmap_ext. intros _ o _. cbn. by destruct (_ && _). Qed.

(** IDs are never removed. *)
Lemma effect_recorded now ev d d' ev' : effect now ev d d' -> recorded ev' d -> recorded ev' d'.
Proof.
  intros [e -> Hn Ho Ht|e -> Hn Ho Ht|_ _ [Ho Ht]|e -> Ho Ht]; destruct ev' as [e'|e'|e']; cbn; auto;
    rewrite ?Ho, ?Ht, ?cancel_keys; auto; csimpl; rewrite elem_of_cons; auto.
Qed.

Lemma effect_records now ev d d' : effect now ev d d' -> recorded ev d'.
Proof.
  intros [e -> Hn Ho Ht|e -> Hn Ho Ht|_ Hr [Ho Ht]|e -> Ho Ht].
  - cbn. rewrite Ht. csimpl. rewrite elem_of_cons. by left.
  - cbn. rewrite Ho. csimpl. rewrite elem_of_cons. by left.
  - destruct ev; cbn in *; by rewrite ?Ho, ?Ht.
  - done.
Qed.

Lemma effect_again now ev d d' :
  (forall e, ev <> OrderCancelled e) -> recorded ev d -> effect now ev d d' -> same_rows d' d.
Proof. intros Hc Hr [e -> Hn _ _|e -> Hn _ _|_ _ ?|e -> _ _]; cbn in *; naive_solver. Qed.

Definition keys_unique d : Prop := NoDup (o_OrderID <$> orders d) /\ NoDup (t_TradeID <$> trades d).

Lemma effect_keys now ev d d' : effect now ev d d' -> keys_unique d -> keys_unique d'.
Proof.
  intros [e -> Hn Ho Ht|e -> Hn Ho Ht|_ _ [Ho Ht]|e -> Ho Ht] [Hu1 Hu2]; split;
    rewrite ?Ho, ?Ht, ?cancel_keys; auto; csimpl; rewrite NoDup_cons; auto.
Qed.

Lemma run_recorded l d d' ev : db_run l d = Some d' -> recorded ev d -> recorded ev d'.
Proof.
  revert d. induction l as [|[now e] l IH]; intros d; cbn; [naive_solver|].
  destruct (db_handle now e d) as [d1 [err|]] eqn:Hh; [done|].
  intros Hr Hd. eapply IH; [done|]. eapply effect_recorded; [|done]. by apply handle_effect.
Qed.

Lemma run_records l d d' ev : db_run l d = Some d' -> ev ∈ l.*2 -> recorded ev d'.
Proof.
  revert d. induction l as [|[now e] l IH]; intros d; csimpl; [by intros _ ?%not_elem_of_nil|].
  destruct (db_handle now e d) as [d1 [err|]] eqn:Hh; [done|].
  intros Hr [->|Hin]%elem_of_cons; [|by eapply IH].
  eapply run_recorded; [done|]. eapply effect_records. by apply handle_effect.
Qed.

(** C18: whatever events the processor has handled, handling any of the submissions
    and trades among them again, in any order and number, changes no row: each is
    stored once. *)
Theorem db_replay_stable l l' d d1 d2 :
  db_run l d = Some d1 -> db_run l' d1 = Some d2 ->
  (forall ev, ev ∈ l'.*2 -> ev ∈ l.*2 /\ forall e, ev <> OrderCancelled e) ->
  keys_unique d -> same_rows d2 d1 /\ keys_unique d2.
Proof.
  intros H1 H2 Hsub Hk.
  assert (Hk1 : keys_unique d1).
  { clear -H1 Hk Lo Lt. revert d H1 Hk. induction l as [|[now e] l IH]; intros d; cbn; [naive_solver|].
    destruct (db_handle now e d) as [dx [err|]] eqn:Hh; [done|]. intros Hr Hk.
    eapply IH; [done|]. eapply effect_keys; [|done]. by apply handle_effect. }
  assert (Hrec : forall ev, ev ∈ l'.*2 -> recorded ev d1 /\ forall e, ev <> OrderCancelled e).
  { intros ev Hin. apply Hsub in Hin as [Hin Hc]. split; [by eapply run_records|done]. }
  clear H1 Hsub Hk. revert d1 H2 Hk1 Hrec. induction l' as [|[now e] l' IH]; intros d1; csimpl.
  { intros [= <-] Hk _. done. }
  destruct (db_handle now e d1) as [dx [err|]] eqn:Hh; [done|]. intros Hr Hk Hrec.
  apply handle_effect in Hh as He. destruct (Hrec e ltac:(left)) as [Hre Hce].
  destruct (IH dx Hr (effect_keys _ _ _ _ He Hk)) as [Hs Hk2].
  - intros ev Hin. destruct (Hrec ev ltac:(by right)) as [Hev Hcev].
    split; [by eapply effect_recorded|done].
  - split; [|done]. etrans; [exact Hs|]. by eapply effect_again.
Qed.

(** The submissions come from the engine. *)
Definition from_engine (ev : MatchingEngineEvent) : Prop :=
  forall e, ev = OrderSubmitted e -> exists now seq order, e = submitted_event now seq order.

Lemma run_submitted l d d' :
  db_run l d = Some d' -> (forall ev, ev ∈ l.*2 -> from_engine ev) -> orders d = [] ->
  Forall (fun o => o_Status o = "submitted") (orders d').
Proof.
  intros Hr Hl H0. assert (Hs : Forall (fun o => o_Status o = "submitted") (orders d)) by by rewrite H0.
  clear H0. revert d Hr Hs. induction l as [|[now e] l IH]; intros d; csimpl; [naive_solver|].
  destruct (db_handle now e d) as [dx [err|]] eqn:Hh; [done|]. intros Hr Hs.
  eapply IH; [intros ev Hin; apply Hl; by right|done|].
  apply handle_effect in Hh as [ex -> Hn Ho Ht|ex -> Hn Ho Ht|_ _ [Ho Ht]|ex -> Ho Ht].
  - by rewrite Ho.
  - rewrite Ho. constructor; [|done]. destruct (Hl _ ltac:(left) ex eq_refl) as (n & q & o & ->). done.
  - by rewrite Ho.
  - rewrite Ho, Forall_fmap. eapply Forall_impl; [exact Hs|]. intros o Hst. cbn.
    rewrite Hst. rewrite (bool_decide_false ("submitted" = "active")) by done. by rewrite andb_false_r.
Qed.
(** The processor cancels orders of status "active", and the engine submits
    them with status "submitted": whatever events of the engine are processed, no
    stored order is ever cancelled. *)
Theorem cancel_event_ignored l d d' :
  db_run l d = Some d' -> (forall ev, ev ∈ l.*2 -> from_engine ev) -> orders d = [] ->
  Forall (fun o => o_Status o = "submitted") (orders d').
Proof. apply run_submitted. Qed.
End Props.

(** ** Witnesses *)

#[local] Instance order_table : Table (ListTable Order) Order := ListTable_ops same_order.
#[local] Instance order_table_laws : TableLaws (ListTable Order) Order := ListTable_laws _.
#[local] Instance trade_table : Table (ListTable Trade) Trade := ListTable_ops same_trade.
#[local] Instance trade_table_laws : TableLaws (ListTable Trade) Trade := ListTable_laws _.

Definition empty_db : ListTable Order * ListTable Trade := (mkListTable [], mkListTable []).
Definition demo_submission : MatchingEngineEvent :=
  OrderSubmitted (submitted_event 5 1 (mkSubmitOrderMsg "o1" "BTC" "buy" "1.0" "2.0" "alice")).
Definition demo_trade : MatchingEngineEvent :=
  TradeExecuted (mkTradeExecutedEvent 2 6 "t1" "BTC" "o2" "o1" "bob" "alice" 100 50 "sell").
Definition demo_cancel : MatchingEngineEvent := OrderCancelled (mkOrderCancelledEvent 3 7 "o1" "BTC" "user").

Definition run_demo (l : list (Z * MatchingEngineEvent)) (d : ListTable Order * ListTable Trade)
    : ListTable Order * ListTable Trade := default d (db_run l d).

Lemma db_replay_stable_witness :
  let d1 := run_demo [(1, demo_submission); (2, demo_trade); (3, demo_cancel)] empty_db in
  let d2 := run_demo [(4, demo_trade); (5, demo_submission); (6, demo_trade)] d1 in
  same_rows d2 d1 /\ keys_unique d2.
Proof.
  intros d1 d2.
  refine (db_replay_stable [(1, demo_submission); (2, demo_trade); (3, demo_cancel)]
    [(4, demo_trade); (5, demo_submission); (6, demo_trade)] empty_db d1 d2 _ _ _ _).
  - vm_compute. reflexivity.
  - vm_compute. reflexivity.
  - intros ev Hin. cbn in Hin. rewrite !elem_of_cons, elem_of_nil in Hin.
    destruct Hin as [->|[->|[->|[]]]]; (split; [cbn; rewrite !elem_of_cons; auto|done]).
  - split; vm_compute; constructor.
Defined.

Lemma cancel_event_ignored_witness :
  Forall (fun o => o_Status o = "submitted")
    (orders (run_demo [(1, demo_submission); (2, demo_trade); (3, demo_cancel)] empty_db)).
Proof.
  refine (cancel_event_ignored [(1, demo_submission); (2, demo_trade); (3, demo_cancel)] empty_db _ _ _ _).
  - vm_compute. reflexivity.
  - intros ev Hin. cbn in Hin. rewrite !elem_of_cons, elem_of_nil in Hin.
    destruct Hin as [->|[->|[->|[]]]]; intros e He; [|done..]. injection He as <-. eauto.
  - reflexivity.
Defined.
