(* ===== verification/WsProcessor.v ===== *)
(** * The WebSocket processor

    Models src/biz/service/event_processor_websocket.go: the processor that turns
    events into messages for subscribers and users, once per event.  A message is
    the tree of its JSON, whose keys encoding/json sorts; [wp_sent] is what the
    callbacks, which may be nil, were called with.  The test and the marking of an
    event are one critical section. *)

From stdpp Require Import base gmap strings list pretty.
From Stdlib Require Import ZArith Lia.
From S2P Require Import Prelude Money Events Database Sequencer SkipList OrderBook Matching BookSpec BookProps EventLog Checkpoint Pipeline PipelineProps MatchEngine MatchEngineProps.

Local Open Scope go_scope.
Local Open Scope Z_scope.

Record WebSocketProcessor := mkWebSocketProcessor {
  wp_broadcaster : bool;
  wp_unicaster : bool;
  wp_processedEvents : gset string;
  wp_sent : list message }.
Implicit Types (wp : WebSocketProcessor).

Definition NewWebSocketProcessor (broadcaster unicaster : bool) : WebSocketProcessor :=
  mkWebSocketProcessor broadcaster unicaster ∅ [].

Definition formatPrice (price : Z) : string := sprintf_8f (f64_div (f64_of_int price) f64_1e8).
Definition formatQuantity (qty : Z) : string := sprintf_8f (f64_div (f64_of_int qty) f64_1e8).

Definition mark (eventKey : string) wp : WebSocketProcessor :=
  mkWebSocketProcessor (wp_broadcaster wp) (wp_unicaster wp) ({[eventKey]} ∪ wp_processedEvents wp)
    (wp_sent wp).
Definition emit (ms : list message) wp : WebSocketProcessor :=
  mkWebSocketProcessor (wp_broadcaster wp) (wp_unicaster wp) (wp_processedEvents wp) (wp_sent wp ++ ms).

(** Calls of the callbacks, if they are set. *)
Definition broadcaster (symbol : string) (data : json) wp : list message :=
  if wp_broadcaster wp then [Broadcast symbol data] else [].
Definition unicaster (userID : string) (data : json) wp : list message :=
  if wp_unicaster wp then [Unicast userID data] else [].

Definition ws_trade_message (e : TradeExecutedEvent) : json :=
  JObj [("maker", JStr (te_MakerUser e));
        ("price", JStr (formatPrice (te_Price e)));
        ("quantity", JStr (formatQuantity (te_Quantity e)));
        ("side", JStr (te_TakerSide e));
        ("symbol", JStr (te_SymbolStr e));
        ("taker", JStr (te_TakerUser e));
        ("timestamp", JNum (te_Timestamp e));
        ("trade_id", JStr (te_TradeID e));
        ("type", JStr "trade")].

(** The message to one of the two parties. *)
Definition party_message (e : TradeExecutedEvent) (counterparty orderID side : string) (maker : bool) : json :=
  JObj [("counterparty", JStr counterparty);
        ("is_maker", JBool maker);
        ("my_order_id", JStr orderID);
        ("my_side", JStr side);
        ("price", JStr (formatPrice (te_Price e)));
        ("quantity", JStr (formatQuantity (te_Quantity e)));
        ("symbol", JStr (te_SymbolStr e));
        ("timestamp", JNum (te_Timestamp e));
        ("trade_id", JStr (te_TradeID e));
        ("type", JStr "trade")].

Definition takerMsg (e : TradeExecutedEvent) : json :=
  party_message e (te_MakerUser e) (te_TakerOrderID e) (te_TakerSide e) false.

Definition makerMsg (e : TradeExecutedEvent) : json :=
  let makerSide := if te_TakerSide e =s "sell" then "buy" else "sell" in
  party_message e (te_TakerUser e) (te_MakerOrderID e) makerSide true.

Definition ws_handleTradeExecuted (e : TradeExecutedEvent) wp : WebSocketProcessor * option error :=
  let eventKey := "trade-" +:+ te_TradeID e in
  if bool_decide (eventKey ∈ wp_processedEvents wp) then (wp, None)
  else
    let wp1 := mark eventKey wp in
    let wp2 := emit (broadcaster (te_SymbolStr e) (ws_trade_message e) wp1) wp1 in
    let wp3 := if te_TakerUser e =s "" then wp2
               else emit (unicaster (te_TakerUser e) (takerMsg e) wp2) wp2 in
    let wp4 := if (te_MakerUser e =s "") || (te_MakerUser e =s te_TakerUser e) then wp3
               else emit (unicaster (te_MakerUser e) (makerMsg e) wp3) wp3 in
    (wp4, None).

Definition submitted_message (e : OrderSubmittedEvent) : json :=
  JObj [("order_id", JStr (os_OrderID e));
        ("price", JStr (formatPrice (os_Price e)));
        ("quantity", JStr (formatQuantity (os_Quantity e)));
        ("side", JStr (os_Side e));
        ("status", JStr "submitted");
        ("symbol", JStr (os_SymbolStr e));
        ("timestamp", JNum (os_Timestamp e));
        ("type", JStr "order_status")].

Definition ws_handleOrderSubmitted (e : OrderSubmittedEvent) wp : WebSocketProcessor * option error :=
  let eventKey := "order-submitted-" +:+ os_OrderID e in
  if bool_decide (eventKey ∈ wp_processedEvents wp) then (wp, None)
  else
    let wp1 := mark eventKey wp in
    (emit (unicaster (os_UserID e) (submitted_message e) wp1) wp1, None).

(** A cancellation is only marked. *)
Definition ws_handleOrderCancelled (e : OrderCancelledEvent) wp : WebSocketProcessor * option error :=
  let eventKey := "order-cancelled-" +:+ oc_OrderID e in
  if bool_decide (eventKey ∈ wp_processedEvents wp) then (wp, None)
  else (mark eventKey wp, None).

Definition WebSocketProcessor_ProcessEvent (event : MatchingEngineEvent) wp
    : WebSocketProcessor * option error :=
  match event with
  | TradeExecuted e => ws_handleTradeExecuted e wp
  | OrderSubmitted e => ws_handleOrderSubmitted e wp
  | OrderCancelled e => ws_handleOrderCancelled e wp
  end.

(** As a processor of the pipeline. *)
Definition ws_processor : EventProcessor WebSocketProcessor :=
  mkEventProcessor "WebSocketProcessor" (fun ev wp => Ok (WebSocketProcessor_ProcessEvent ev wp)).

(** ** Once per event *)

(** What identifies an event for the processor: its kind and the ID of its trade or
    order. *)
Definition event_id (ev : MatchingEngineEvent) : nat * string :=
  match ev with
  | TradeExecuted e => (0%nat, te_TradeID e)
  | OrderSubmitted e => (1%nat, os_OrderID e)
  | OrderCancelled e => (2%nat, oc_OrderID e)
  end.

Definition event_key (ev : MatchingEngineEvent) : string :=
  match ev with
  | TradeExecuted e => "trade-" +:+ te_TradeID e
  | OrderSubmitted e => "order-submitted-" +:+ os_OrderID e
  | OrderCancelled e => "order-cancelled-" +:+ oc_OrderID e
  end.

Lemma event_key_id ev1 ev2 : event_key ev1 = event_key ev2 <-> event_id ev1 = event_id ev2.
Proof.
  destruct ev1, ev2; cbn; split; intros Heq; try done; injection Heq; intros Hid; try congruence;
    exact (f_equal (pair _) Hid).
Qed.

(** The recipients of an event and what they are told: everybody learns of a trade,
    the taker and a different maker learn of their side of it, a user of a
    submission. *)
Definition notifications (ev : MatchingEngineEvent) : list message :=
  match ev with
  | TradeExecuted e =>
      [Broadcast (te_SymbolStr e) (ws_trade_message e)]
      ++ (if te_TakerUser e =s "" then [] else [Unicast (te_TakerUser e) (takerMsg e)])
      ++ (if (te_MakerUser e =s "") || (te_MakerUser e =s te_TakerUser e) then []
          else [Unicast (te_MakerUser e) (makerMsg e)])
  | OrderSubmitted e => [Unicast (os_UserID e) (submitted_message e)]
  | OrderCancelled _ => []
  end.

(** The messages a processor with these callbacks can send. *)
Definition deliverable wp (m : message) : bool :=
  match m with Broadcast _ _ => wp_broadcaster wp | Unicast _ _ => wp_unicaster wp end.

(** The first event of each ID. *)
Fixpoint first_events (seen : list (nat * string)) (l : list MatchingEngineEvent) : list MatchingEngineEvent :=
  match l with
  | [] => []
  | ev :: l' => if decide (event_id ev ∈ seen) then first_events seen l'
                else ev :: first_events (event_id ev :: seen) l'
  end.

Definition ws_run (l : list MatchingEngineEvent) wp : WebSocketProcessor :=
  foldl (fun wp ev => (WebSocketProcessor_ProcessEvent ev wp).1) wp l.

Lemma ws_new ev wp :
  event_key ev ∉ wp_processedEvents wp ->
  let wp' := (WebSocketProcessor_ProcessEvent ev wp).1 in
  wp_processedEvents wp' = {[event_key ev]} ∪ wp_processedEvents wp /\
  wp_sent wp' = wp_sent wp ++ List.filter (deliverable wp) (notifications ev) /\
  wp_broadcaster wp' = wp_broadcaster wp /\ wp_unicaster wp' = wp_unicaster wp.
Proof.
  destruct wp as [b u seen sent]. intros Hn. cbn in Hn.
  destruct ev as [e|e|e]; cbn in Hn |- *; unfold ws_handleTradeExecuted, ws_handleOrderSubmitted,
    ws_handleOrderCancelled; cbn; rewrite (bool_decide_false (_ ∈ seen)) by done.
  - cbn. unfold unicaster, deliverable. cbn. by destruct u.
  - unfold broadcaster, unicaster, deliverable. cbn.
    destruct (te_TakerUser e =s ""), ((te_MakerUser e =s "") || (te_MakerUser e =s te_TakerUser e)),
      b, u; cbn; rewrite <- ?app_assoc, ?app_nil_r; done.
  - cbn. by rewrite app_nil_r.
Qed.

Lemma ws_known ev wp :
  event_key ev ∈ wp_processedEvents wp -> (WebSocketProcessor_ProcessEvent ev wp).1 = wp.
Proof.
  intros Hin. destruct ev as [e|e|e]; cbn in Hin |- *;
    unfold ws_handleTradeExecuted, ws_handleOrderSubmitted, ws_handleOrderCancelled;
    by rewrite bool_decide_true.
Qed.

Lemma ws_run_seen l wp seen :
  (forall ev, event_key ev ∈ wp_processedEvents wp <-> event_id ev ∈ seen) ->
  wp_sent (ws_run l wp) =
    wp_sent wp ++ List.filter (deliverable wp) (concat (notifications <$> first_events seen l)).
Proof.
  revert wp seen. induction l as [|ev l IH]; intros wp seen Hseen.
  { cbn. by rewrite app_nil_r. }
  change (ws_run (ev :: l) wp) with (ws_run l (WebSocketProcessor_ProcessEvent ev wp).1).
  cbn [first_events].
  destruct (decide (event_id ev ∈ seen)) as [Hin|Hin].
  - rewrite ws_known by (by apply Hseen). by apply IH.
  - destruct (ws_new ev wp) as (Hp & Hs & Hb & Hu); [by rewrite Hseen|].
    rewrite (IH _ (event_id ev :: seen)).
    + csimpl. rewrite List.filter_app, app_assoc, Hs. f_equal. apply List.filter_ext. intros [? ?|? ?]; cbn; congruence.
    + intros ev'. rewrite Hp, elem_of_union, elem_of_singleton, elem_of_cons, Hseen, event_key_id. done.
Qed.

(** C19: whatever events a new processor is handed, with repetitions, it sends the
    notifications of the first event of each ID, in the order of these events, and
    nothing else. *)
Theorem ws_sends_once l b u :
  let wp := NewWebSocketProcessor b u in
  wp_sent (ws_run l wp) =
    List.filter (deliverable wp) (concat (notifications <$> first_events [] l)).
Proof. cbn zeta. rewrite (ws_run_seen l _ []); [done|]. intros ev. cbn. set_solver. Qed.

(** ** With the engine

    The engine and the processor are given the same callbacks, and both announce
    trades. *)

#[local] Instance ws_table : Table (ListTable EventOffsetCheckpoint) EventOffsetCheckpoint :=
  ListTable_ops (fun a b => cp_same a b).

Abbreviation ws_engine :=
  (MatchEngine cmp_list Memory.InMemoryEventLog (ListTable EventOffsetCheckpoint) WebSocketProcessor).

Definition ws_engine0 : ws_engine :=
  NewMatchEngine (RegisterProcessor (Some ws_processor)
    (NewEventPipeline Memory.NewInMemoryEventLog (NewWebSocketProcessor true true))).1 NewSequencer true true.

Definition ws_submit (order : SubmitOrderMsg) (me : ws_engine) : ws_engine :=
  match SubmitOrder 0 id (fun _ => []) 0 true order me with
  | Ok (Some (me', None)) => match matchWorker_round 0 id (fun _ => []) id "BTC" me' with
                             | Ok me'' => me''
                             | _ => me'
                             end
  | _ => me
  end.

Definition ws_traded : ws_engine := ws_submit buy_order (ws_submit sell_order ws_engine0).

Definition is_trade (m : message) : bool :=
  match m with
  | Broadcast _ (JObj fields) => existsb (fun '(k, v) => (k =s "type") && match v with JStr s => s =s "trade" | _ => false end) fields
  | _ => false
  end.

(** With the processor registered, as the partition-aware engine registers it,
    subscribers are told of a trade twice: once by the processor, once by the engine
    itself. *)
Theorem trade_announced_twice :
  length (List.filter is_trade (me_sent ws_traded)) = 1%nat /\
  length (List.filter is_trade (wp_sent (ep_world (me_pipeline ws_traded)))) = 1%nat.
Proof. split; vm_compute; reflexivity. Qed.
