(* ===== verification/WsServer.v ===== *)
(** * The WebSocket server

    Models src/server/websocket_server.go: subscriptions in 32 shards chosen by the
    FNV hash of the symbol, a bounded queue of messages per symbol with a dispatcher
    goroutine, the actions of a connection, and the texts pushed to clients; and the
    redirects of src/biz/handler/migrate_redirect_handler.go and
    ws_redirect_handler.go.

    Messages are byte slices that share arrays through a pool: a queue holds slices
    ([slice]: an array and a length), the arrays are in [sv_arrays], and a message
    is read when it is written to a connection.  The goroutine pool is a package
    variable, [sv_pool] says whether it is set; submitting to a nil pool panics.
    A connection is a number; whether the [i]-th attempt to write to it succeeds is
    [write_ok conn i].  Each locked section, and each dispatch, is one step.  Hertz
    and its upgrader, reading from connections and Kafka are left out. *)

From stdpp Require Import base gmap strings list pretty.
From Stdlib Require Import ZArith Lia Ascii.
From S2P Require Import Prelude Money Events Hash Partitions.

Local Open Scope go_scope.
Local Open Scope Z_scope.

Definition shardNum : Z := 32.

Definition fnv32 (key : string) : Z :=
  foldl (fun h b => w32 (Z.lxor h b * 16777619)) 2166136261 (bytes_of key).

Abbreviation conn := nat.

Record slice := mkSlice { sl_array : nat; sl_len : nat }.

Record SymbolShard := mkSymbolShard {
  Subs : gmap string (gset conn);
  MsgBuf : gmap string (list slice) }.

Record server := mkServer {
  sv_shards : list SymbolShard;
  sv_pool : bool;
  sv_arrays : gmap nat string;
  sv_next : nat;
  sv_free : list slice;
  sv_users : gmap string conn;
  sv_written : list (conn * string);
  sv_dropped : list (string * slice) }.
Implicit Types (sv : server).

(** [init]: 32 empty shards; it sets the pool of another package, not this one. *)
Definition init_server : server :=
  mkServer (replicate 32 (mkSymbolShard ∅ ∅)) false ∅ 0 [] ∅ [] [].

Definition set_shards (l : list SymbolShard) sv : server :=
  mkServer l (sv_pool sv) (sv_arrays sv) (sv_next sv) (sv_free sv) (sv_users sv) (sv_written sv)
    (sv_dropped sv).
Definition set_memory (arrays : gmap nat string) (next : nat) (free : list slice) sv : server :=
  mkServer (sv_shards sv) (sv_pool sv) arrays next free (sv_users sv) (sv_written sv) (sv_dropped sv).
Definition set_users (users : gmap string conn) sv : server :=
  mkServer (sv_shards sv) (sv_pool sv) (sv_arrays sv) (sv_next sv) (sv_free sv) users (sv_written sv)
    (sv_dropped sv).
Definition log_written (w : list (conn * string)) sv : server :=
  mkServer (sv_shards sv) (sv_pool sv) (sv_arrays sv) (sv_next sv) (sv_free sv) (sv_users sv)
    (sv_written sv ++ w) (sv_dropped sv).
Definition log_dropped (d : list (string * slice)) sv : server :=
  mkServer (sv_shards sv) (sv_pool sv) (sv_arrays sv) (sv_next sv) (sv_free sv) (sv_users sv)
    (sv_written sv) (sv_dropped sv ++ d).

(** ** Shards *)

Definition shard_index (symbol : string) : nat := Z.to_nat (fnv32 symbol mod shardNum).

Definition GetSymbolShard (symbol : string) sv : SymbolShard :=
  default (mkSymbolShard ∅ ∅) (sv_shards sv !! shard_index symbol).

Definition update_shard (symbol : string) (f : SymbolShard -> SymbolShard) sv : server :=
  set_shards (alter f (shard_index symbol) (sv_shards sv)) sv.

(** Creates the queue of a symbol; its dispatcher is [dispatch]. *)
Definition ensureSymbolDispatcher (symbol : string) (shard : SymbolShard) : SymbolShard :=
  match MsgBuf shard !! symbol with
  | Some _ => shard
  | None => mkSymbolShard (Subs shard) (<[symbol := []]> (MsgBuf shard))
  end.

Definition add_sub (symbol : string) (c : conn) (shard : SymbolShard) : SymbolShard :=
  mkSymbolShard (<[symbol := {[c]} ∪ default ∅ (Subs shard !! symbol)]> (Subs shard)) (MsgBuf shard).

(** [delete(conns, c)]; a symbol without connections is deleted. *)
Definition drop_conn (c : conn) (conns : gset conn) : option (gset conn) :=
  let rest := conns ∖ {[c]} in
  if bool_decide (rest = ∅) then None else Some rest.

Definition remove_sub (symbol : string) (c : conn) (shard : SymbolShard) : SymbolShard :=
  match Subs shard !! symbol with
  | None => shard
  | Some conns => mkSymbolShard (partial_alter (fun _ => drop_conn c conns) symbol (Subs shard)) (MsgBuf shard)
  end.

(** The entries that hold the connection lose it. *)
Definition clean_shard (c : conn) (shard : SymbolShard) : SymbolShard :=
  mkSymbolShard (omap (fun conns => if bool_decide (c ∈ conns) then drop_conn c conns else Some conns)
                   (Subs shard)) (MsgBuf shard).

Definition cleanConnFromAllSymbols (c : conn) sv : server :=
  set_shards (clean_shard c <$> sv_shards sv) sv.

Definition subscribe (c : conn) (symbol : string) sv : server :=
  update_shard symbol (fun shard => ensureSymbolDispatcher symbol (add_sub symbol c shard)) sv.

Definition unsubscribe (c : conn) (symbol : string) sv : server :=
  update_shard symbol (remove_sub symbol c) sv.

(** ** Queues *)

Definition queue_of (symbol : string) sv : list slice :=
  default [] (MsgBuf (GetSymbolShard symbol sv) !! symbol).

Definition set_queue_of (symbol : string) (q : list slice) sv : server :=
  update_shard symbol (fun shard => mkSymbolShard (Subs shard) (<[symbol := q]> (MsgBuf shard))) sv.

(** A full queue drops the message, which is saved to the topic of the symbol. *)
Definition Broadcast (symbol : string) (msg : slice) sv : server :=
  let sv1 := update_shard symbol (ensureSymbolDispatcher symbol) sv in
  let q := queue_of symbol sv1 in
  if (Z.of_nat (length q) <? 4096) then set_queue_of symbol (q ++ [msg]) sv1
  else log_dropped [("dropped_" +:+ symbol, msg)] sv1.

(** The bytes of a slice, now. *)
Definition contents (s : slice) sv : string :=
  String.substring 0 (sl_len s) (default "" (sv_arrays sv !! sl_array s)).

(** Up to three attempts. *)
Definition write_retry (write_ok : conn -> nat -> bool) (c : conn) : bool :=
  existsb (write_ok c) (seq 0 3).

Definition deliver (write_ok : conn -> nat -> bool) (symbol : string) (msg : slice) (c : conn) sv : server :=
  if write_retry write_ok c then log_written [(c, contents msg sv)] sv
  else cleanConnFromAllSymbols c (update_shard symbol (remove_sub symbol c) sv).

(** One turn of the dispatcher of a symbol: [enum] is the order of the range over
    the connections. *)
Definition dispatch (write_ok : conn -> nat -> bool) (enum : gset conn -> list conn) (symbol : string) sv
    : outcome server :=
  match queue_of symbol sv with
  | [] => Ok sv
  | msg :: rest =>
      let sv1 := set_queue_of symbol rest sv in
      let conns := enum (default ∅ (Subs (GetSymbolShard symbol sv1) !! symbol)) in
      match conns with
      | [] => Ok sv1
      | _ => if sv_pool sv1
             then Ok (foldl (fun sv c => deliver write_ok symbol msg c sv) sv1 conns)
             else Panic
      end
  end.

(** ** Pushed texts *)

(** A new array, filled with the text. *)
Definition fresh_slice (text : string) sv : slice * server :=
  let n := String.length text in
  (mkSlice (sv_next sv) n,
   set_memory (<[sv_next sv := text]> (sv_arrays sv)) (S (sv_next sv)) (sv_free sv) sv).

Fixpoint zeros (n : nat) : string :=
  match n with O => EmptyString | S n' => String Ascii.zero (zeros n') end.

(** [msgBytePool.Get()], sliced and filled with [text]: an array of the pool
    ([pick]) or a new one of 4096 bytes, unless it is too small. *)
Definition pooled_slice (pick : option nat) (text : string) sv : slice * server :=
  let n := String.length text in
  match pick ≫= fun i => sv_free sv !! i with
  | Some s =>
      let old := default "" (sv_arrays sv !! sl_array s) in
      let free := List.filter (fun s' => negb (bool_decide (sl_array s' = sl_array s))) (sv_free sv) in
      if (String.length old <? n)%nat
      then fresh_slice text (set_memory (sv_arrays sv) (sv_next sv) free sv)
      else (mkSlice (sl_array s) n,
            set_memory (<[sl_array s := text +:+ String.substring n (String.length old - n) old]>
                          (sv_arrays sv)) (sv_next sv) free sv)
  | None =>
      if (4096 <? n)%nat then fresh_slice text sv
      else let '(s, sv1) := fresh_slice (text +:+ zeros (4096 - n)) sv in (mkSlice (sl_array s) n, sv1)
  end.

Definition put_slice (s : slice) sv : server :=
  set_memory (sv_arrays sv) (sv_next sv) (s :: sv_free sv) sv.

Definition safeBroadcast (pick : option nat) (symbol text : string) sv : server :=
  let '(msg, sv1) := pooled_slice pick text sv in
  put_slice msg (Broadcast symbol msg sv1).

Definition dquote : string := String (Ascii.ascii_of_nat 34) "".
Definition quoted (s : string) : string := dquote +:+ s +:+ dquote.

(** The texts are assembled by hand, without escaping. *)
Definition match_result_text (msgType symbol orderID price quantity status : string) (ts : Z) : string :=
  "{" +:+ quoted "symbol" +:+ ":" +:+ quoted symbol +:+ "," +:+ quoted "type" +:+ ":" +:+ quoted msgType
  +:+ "," +:+ quoted "data" +:+ ":{" +:+ quoted "order_id" +:+ ":" +:+ quoted orderID +:+ ","
  +:+ quoted "price" +:+ ":" +:+ quoted price +:+ "," +:+ quoted "quantity" +:+ ":" +:+ quoted quantity
  +:+ "," +:+ quoted "status" +:+ ":" +:+ quoted status +:+ "," +:+ quoted "ts" +:+ ":" +:+ pretty ts
  +:+ "}}".

Fixpoint quoted_list (l : list string) : string :=
  match l with
  | [] => ""
  | [x] => quoted x
  | x :: l' => quoted x +:+ "," +:+ quoted_list l'
  end.

Definition depth_text (symbol : string) (bids asks : list string) (ts : Z) : string :=
  "{" +:+ quoted "symbol" +:+ ":" +:+ quoted symbol +:+ "," +:+ quoted "type" +:+ ":"
  +:+ quoted "depth_update" +:+ "," +:+ quoted "data" +:+ ":{" +:+ quoted "bids" +:+ ":["
  +:+ quoted_list bids +:+ "]," +:+ quoted "asks" +:+ ":[" +:+ quoted_list asks +:+ "]," +:+ quoted "ts"
  +:+ ":" +:+ pretty ts +:+ "}}".

Definition PushMatchResult (pick : option nat) (msgType symbol orderID price quantity status : string)
    (ts : Z) sv : server :=
  safeBroadcast pick symbol (match_result_text msgType symbol orderID price quantity status ts) sv.

Definition PushOrderBookSnapshot (pick : option nat) (symbol : string) (bids asks : list string) (ts : Z) sv
    : server :=
  safeBroadcast pick symbol (depth_text symbol bids asks ts) sv.

(** ** Users *)

Definition RegisterUserConn (userID : string) (c : conn) sv : server :=
  set_users (<[userID := c]> (sv_users sv)) sv.
Definition UnregisterUserConn (userID : string) sv : server := set_users (delete userID (sv_users sv)) sv.

(** One attempt; the error is dropped. *)
Definition Unicast (write_ok : conn -> nat -> bool) (userID : string) (msg : slice) sv : server :=
  match sv_users sv !! userID with
  | Some c => if write_ok c 0%nat then log_written [(c, contents msg sv)] sv else sv
  | None => sv
  end.

(** [data] is the text [json.Marshal] gives for the map, if it gives one. *)
Definition PushUnicastMsg (write_ok : conn -> nat -> bool) (pick : option nat) (userID msgType : string)
    (data : option string) sv : server :=
  let text := "{" +:+ quoted "type" +:+ ":" +:+ quoted msgType +:+ "," +:+ quoted "data" +:+ ":"
              +:+ default "{}" data +:+ "}" in
  let '(msg, sv1) := pooled_slice pick text sv in
  put_slice msg (Unicast write_ok userID msg sv1).

(** ** The redirects *)

(** The table of the handlers is their own, built once with two symbols and no
    migration. *)
Definition handler_table : PartitionTable :=
  mkPartitionTable
    (<["BTCUSDT" := ["partition-1"; "partition-2"]]> (<["ETHUSDT" := ["partition-1"]]> ∅)) ∅ ∅.

Definition SymbolMigrationChecker (table : PartitionTable) (currentID symbol : string) : bool * string :=
  match MigrationInfo table !! symbol with
  | Some info =>
      if mi_Migrating info && negb (mi_NewPartitionID info =s "") && negb (currentID =s mi_NewPartitionID info)
      then (true, mi_NewPartitionID info)
      else (false, "")
  | None => (false, "")
  end.

(** The status and the JSON of the response. *)
Definition MigrateRedirectHandler (table : PartitionTable) (currentID symbol : string) : Z * json :=
  match SymbolMigrationChecker table currentID symbol with
  | (true, newPartitionID) =>
      (409, JObj [("code", JNum 40901); ("msg", JStr "symbol已迁移，请重试到新分区");
                  ("new_partition_id", JStr newPartitionID)])
  | (false, _) => (200, JObj [("code", JNum 0); ("msg", JStr "写入成功")])
  end.

Definition redirect_text (symbol newPartitionID : string) : string :=
  "{" +:+ quoted "type" +:+ ":" +:+ quoted "migrate_redirect" +:+ "," +:+ quoted "symbol" +:+ ":"
  +:+ quoted symbol +:+ "," +:+ quoted "new_partition_id" +:+ ":" +:+ quoted newPartitionID +:+ "}".

(** ** Actions of a connection *)

Class Engine (E : Type) := {
  engine_SubmitOrder : SubmitOrderMsg -> E -> outcome (option (E * option error)) }.

Record Message := mkMessage { m_Action : string; m_Symbol : string }.

Definition message_fields : field_table Message :=
  [("action", fun j '(mkMessage a b) => (fun v => mkMessage v b) <$> dec_string a j);
   ("symbol", fun j '(mkMessage a b) => (fun v => mkMessage a v) <$> dec_string b j)].

(** [msg] is the tree of the text, [None] if it is no JSON. *)
Definition parseAction (msg : option json) : string * string :=
  match msg with
  | None => ("", "")
  | Some j => match json_Unmarshal message_fields (mkMessage "" "") j with
              | Ok m => (m_Action m, m_Symbol m)
              | _ => ("", "")
              end
  end.

(** The struct has no JSON tags: its keys are the names of its fields. *)
Definition order_msg_fields : field_table SubmitOrderMsg :=
  [("OrderID", fun j '(mkSubmitOrderMsg a b c d e f) =>
      (fun v => mkSubmitOrderMsg v b c d e f) <$> dec_string a j);
   ("Symbol", fun j '(mkSubmitOrderMsg a b c d e f) =>
      (fun v => mkSubmitOrderMsg a v c d e f) <$> dec_string b j);
   ("Side", fun j '(mkSubmitOrderMsg a b c d e f) =>
      (fun v => mkSubmitOrderMsg a b v d e f) <$> dec_string c j);
   ("Price", fun j '(mkSubmitOrderMsg a b c d e f) =>
      (fun v => mkSubmitOrderMsg a b c v e f) <$> dec_string d j);
   ("Quantity", fun j '(mkSubmitOrderMsg a b c d e f) =>
      (fun v => mkSubmitOrderMsg a b c d v f) <$> dec_string e j);
   ("UserID", fun j '(mkSubmitOrderMsg a b c d e f) =>
      (fun v => mkSubmitOrderMsg a b c d e v) <$> dec_string f j)].

Definition ack_text (kind symbol : string) : string :=
  "{" +:+ quoted "type" +:+ ":" +:+ quoted kind +:+ "," +:+ quoted "symbol" +:+ ":" +:+ quoted symbol +:+ "}".

Section Connection.
Context {E : Type} `{!Engine E}.
Context (write_ok : conn -> nat -> bool) (table : PartitionTable) (currentID : string).

(** One attempt; an error is only logged. *)
Definition reply (c : conn) (text : string) sv : server :=
  if write_ok c 0%nat then log_written [(c, text)] sv else sv.

(** One turn of the loop of a connection; [None] is a submission that blocks. *)
Definition ws_action (c : conn) (msg : option json) (st : server * option E)
    : outcome (option (server * option E)) :=
  let '(sv, matchEngine) := st in
  let '(action, symbol) := parseAction msg in
  if (action =s "subscribe") && negb (symbol =s "") then
    Ok (Some (update_shard symbol (ensureSymbolDispatcher symbol)
                (reply c (ack_text "subscription_ack" symbol)
                   (update_shard symbol (add_sub symbol c) sv)), matchEngine))
  else if (action =s "unsubscribe") && negb (symbol =s "") then
    Ok (Some (reply c (ack_text "unsubscription_ack" symbol) (unsubscribe c symbol sv), matchEngine))
  else if action =s "SubmitOrder" then
    match json_Unmarshal order_msg_fields (mkSubmitOrderMsg "" "" "" "" "" "") (default JNull msg) with
    | Ok order =>
        match SymbolMigrationChecker table currentID symbol with
        | (true, newPartitionID) => Ok (Some (reply c (redirect_text symbol newPartitionID) sv, matchEngine))
        | (false, _) =>
            let ack := reply c (ack_text "order_ack" symbol) sv in
            match matchEngine with
            | None => Ok (Some (ack, None))
            | Some e =>
                let? r := engine_SubmitOrder order e in
                (** the error is only logged *)
                Ok ((fun '(e', _) => (ack, Some e')) <$> r)
            end
        end
    | _ => Ok (Some st)
    end
  else Ok (Some st).

(** The connection is closed. *)
Definition ws_close (c : conn) sv : server := cleanConnFromAllSymbols c sv.
End Connection.

(** ** The route middleware

    src/middleware/distributed.go: the status it aborts with, or [None] to pass
    through.  Whether the node serves the symbol is computed and not used; a listed
    partition that is missing is a nil pointer. *)
Fixpoint route_local (localAddr : string) (pt : PartitionTable) (partitionIDs : list string) : outcome bool :=
  match partitionIDs with
  | [] => Ok false
  | partitionID :: ids =>
      match Partitions pt !! partitionID with
      | None => Panic
      | Some p => if bool_decide (localAddr ∈ Workers p) then Ok true else route_local localAddr pt ids
      end
  end.

Definition DistributedRouteMiddleware (localAddr path method : string) (symbol : outcome string)
    (pt : PartitionTable) : outcome (option (Z * string)) :=
  if (path =s "/api/order") && (method =s "POST") then
    match symbol with
    | Ok symbol =>
        if symbol =s "" then Ok (Some (400, "symbol required"))
        else match SymbolToPartition pt !! symbol with
             | None | Some [] => Ok (Some (404, "symbol not found"))
             | Some partitionIDs =>
                 let? isLocal := route_local localAddr pt partitionIDs in
                 Ok None
             end
    | _ => Ok (Some (400, "invalid request"))
    end
  else Ok None.
