(* ===== verification/WsServerProps.v ===== *)
(** * Properties of the WebSocket server

    The sharded subscriptions behave like one map from symbols to connections; a
    message goes to exactly the subscribers of its symbol, in the order of
    acceptance; and the server as it starts panics on the first message that has a
    subscriber, overwrites queued messages through its buffer pool, and acknowledges
    orders the engine refused. *)

From stdpp Require Import base gmap strings list pretty.
From Stdlib Require Import ZArith Lia Ascii.
From S2P Require Import Prelude Money Events Hash Partitions WsServer.

Local Open Scope go_scope.
Local Open Scope Z_scope.

(** ** Shards *)

Lemma shard_index_bound symbol : (shard_index symbol < 32)%nat.
Proof. unfold shard_index, shardNum. pose proof (Z.mod_pos_bound (fnv32 symbol) 32). lia. Qed.

(** The connections subscribed to a symbol. *)
Definition subs (symbol : string) (sv : server) : gset conn :=
  default ∅ (Subs (GetSymbolShard symbol sv) !! symbol).

(** There are 32 shards and a symbol is only in its own, with a connection. *)
Definition shards_ok (sv : server) : Prop :=
  length (sv_shards sv) = 32%nat /\
  forall i shard symbol conns, sv_shards sv !! i = Some shard -> Subs shard !! symbol = Some conns ->
    i = shard_index symbol /\ conns <> ∅.

Lemma shard_update symbol f sv s :
  length (sv_shards sv) = 32%nat ->
  GetSymbolShard s (update_shard symbol f sv) =
    if decide (shard_index s = shard_index symbol) then f (GetSymbolShard s sv) else GetSymbolShard s sv.
Proof.
  intros Hlen. unfold GetSymbolShard, update_shard. cbn. case_decide as Hd.
  - rewrite Hd, list_lookup_alter_eq. destruct (sv_shards sv !! shard_index symbol) as [sh|] eqn:Hs; [done|].
    apply lookup_ge_None in Hs. pose proof (shard_index_bound symbol). lia.
  - by rewrite list_lookup_alter_ne.
Qed.

Lemma update_length symbol f sv : length (sv_shards (update_shard symbol f sv)) = length (sv_shards sv).
Proof. cbn. by rewrite length_alter. Qed.

(** An update that touches the entry of its symbol only. *)
Definition local_to (symbol : string) (f : SymbolShard -> SymbolShard) : Prop :=
  forall shard s, s <> symbol -> Subs (f shard) !! s = Subs shard !! s.

Definition own_entry (symbol : string) (f : SymbolShard -> SymbolShard) : Prop :=
  forall shard, (forall conns, Subs shard !! symbol = Some conns -> conns <> ∅) ->
    forall conns, Subs (f shard) !! symbol = Some conns -> conns <> ∅.

Lemma update_ok symbol f sv :
  local_to symbol f -> own_entry symbol f -> shards_ok sv -> shards_ok (update_shard symbol f sv).
Proof.
  intros Hl Ho [Hlen Hok]. split; [by rewrite update_length|]. intros i shard s conns. cbn.
  destruct (decide (i = shard_index symbol)) as [->|Hne].
  2:{ rewrite list_lookup_alter_ne by done. apply Hok. }
  rewrite list_lookup_alter_eq. destruct (sv_shards sv !! shard_index symbol) as [sh|] eqn:Hs; [|done].
  cbn. intros [= <-] Hc. destruct (decide (s = symbol)) as [->|Hns].
  - split; [done|]. eapply Ho; [|done]. intros c' Hc'. by eapply Hok.
  - rewrite Hl in Hc by done. by eapply Hok.
Qed.

Lemma subs_update symbol f sv s :
  shards_ok sv -> local_to symbol f ->
  subs s (update_shard symbol f sv) =
    if decide (s = symbol) then default ∅ (Subs (f (GetSymbolShard symbol sv)) !! symbol) else subs s sv.
Proof.
  intros [Hlen _] Hl. unfold subs. rewrite shard_update by done. case_decide as Hd.
  - destruct (decide (s = symbol)) as [->|Hne]; [done|]. by rewrite Hl.
  - rewrite decide_False; [done|]. by intros ->.
Qed.

Lemma drop_conn_spec c conns : default ∅ (drop_conn c conns) = conns ∖ {[c]}.
Proof. unfold drop_conn. case_bool_decide as Hd; [by rewrite Hd|done]. Qed.

Lemma drop_conn_some c conns conns' : drop_conn c conns = Some conns' -> conns' <> ∅.
Proof. unfold drop_conn. case_bool_decide; [done|]. by intros [= <-]. Qed.

Lemma add_sub_local c symbol : local_to symbol (add_sub symbol c).
Proof. intros shard s Hne. cbn. by rewrite lookup_insert_ne. Qed.
Lemma add_sub_own c symbol : own_entry symbol (add_sub symbol c).
Proof. intros shard _ conns. cbn. rewrite lookup_insert_eq. intros [= <-]. set_solver. Qed.

Lemma remove_sub_local c symbol : local_to symbol (remove_sub symbol c).
Proof.
  intros shard s Hne. unfold remove_sub. destruct (Subs shard !! symbol); [|done]. cbn.
  by rewrite lookup_partial_alter_ne.
Qed.
Lemma remove_sub_own c symbol : own_entry symbol (remove_sub symbol c).
Proof.
  intros shard Hc conns. unfold remove_sub. destruct (Subs shard !! symbol) as [old|] eqn:Hs.
  - cbn. rewrite lookup_partial_alter_eq. apply drop_conn_some.
  - by rewrite Hs.
Qed.

Lemma ensure_subs symbol shard : Subs (ensureSymbolDispatcher symbol shard) = Subs shard.
Proof. unfold ensureSymbolDispatcher. by destruct (MsgBuf shard !! symbol). Qed.

(** Functions that leave the subscriptions alone. *)
Definition keeps_subs (f : SymbolShard -> SymbolShard) : Prop := forall shard, Subs (f shard) = Subs shard.

Lemma keeps_local symbol f : keeps_subs f -> local_to symbol f.
Proof. intros Hk shard s _. by rewrite Hk. Qed.
Lemma keeps_own symbol f : keeps_subs f -> own_entry symbol f.
Proof. intros Hk shard Hc conns. rewrite Hk. apply Hc. Qed.

Lemma subs_kept symbol f sv s : shards_ok sv -> keeps_subs f -> subs s (update_shard symbol f sv) = subs s sv.
Proof.
  intros Hok Hk. rewrite subs_update by auto using keeps_local. case_decide; [subst|done].
  unfold subs. by rewrite Hk.
Qed.

#[local] Hint Resolve add_sub_local add_sub_own remove_sub_local remove_sub_own keeps_local keeps_own
  update_ok ensure_subs : cex.

Lemma clean_ok c sv : shards_ok sv -> shards_ok (cleanConnFromAllSymbols c sv).
Proof.
  intros [Hlen Hok]. split; [cbn; by rewrite length_fmap|]. intros i shard symbol conns. cbn.
  rewrite list_lookup_fmap. destruct (sv_shards sv !! i) as [sh|] eqn:Hs; [|done].
  cbn. intros [= <-]. cbn. rewrite lookup_omap. destruct (Subs sh !! symbol) as [old|] eqn:Hold; [|done].
  destruct (Hok _ _ _ _ Hs Hold) as [-> Hne]. cbn. intros Hc. split; [done|].
  case_bool_decide; [by eapply drop_conn_some|congruence].
Qed.

Lemma subs_clean c sv symbol : subs symbol (cleanConnFromAllSymbols c sv) = subs symbol sv ∖ {[c]}.
Proof.
  unfold subs, GetSymbolShard. cbn. rewrite list_lookup_fmap.
  destruct (sv_shards sv !! shard_index symbol) as [sh|]; cbn.
  2:{ apply set_eq. intros x. rewrite lookup_empty. cbn. set_solver. }
  rewrite lookup_omap. destruct (Subs sh !! symbol) as [conns|]; cbn.
  - case_bool_decide as Hin; [apply drop_conn_spec|]. cbn.
    apply set_eq. intros x. rewrite elem_of_difference, elem_of_singleton. naive_solver.
  - apply set_eq. intros x. set_solver.
Qed.

(** ** One map

    What clients do to the subscriptions, on the server and on one map from symbols
    to connections. *)

Inductive ws_op : Type :=
| OpSubscribe (c : conn) (symbol : string)
| OpUnsubscribe (c : conn) (symbol : string)
| OpClose (c : conn)
| OpBroadcast (symbol : string) (msg : slice).

Definition run_op (sv : server) (op : ws_op) : server :=
  match op with
  | OpSubscribe c symbol => subscribe c symbol sv
  | OpUnsubscribe c symbol => unsubscribe c symbol sv
  | OpClose c => ws_close c sv
  | OpBroadcast symbol msg => Broadcast symbol msg sv
  end.

Definition spec_op (m : gmap string (gset conn)) (op : ws_op) : gmap string (gset conn) :=
  match op with
  | OpSubscribe c symbol => <[symbol := {[c]} ∪ default ∅ (m !! symbol)]> m
  | OpUnsubscribe c symbol => <[symbol := default ∅ (m !! symbol) ∖ {[c]}]> m
  | OpClose c => (fun conns => conns ∖ {[c]}) <$> m
  | OpBroadcast _ _ => m
  end.

Definition refines (sv : server) (m : gmap string (gset conn)) : Prop :=
  shards_ok sv /\ forall symbol, subs symbol sv = default ∅ (m !! symbol).

Lemma subscribe_local c symbol :
  local_to symbol (fun shard => ensureSymbolDispatcher symbol (add_sub symbol c shard)).
Proof. intros shard s Hne. rewrite ensure_subs. by apply add_sub_local. Qed.
Lemma subscribe_own c symbol :
  own_entry symbol (fun shard => ensureSymbolDispatcher symbol (add_sub symbol c shard)).
Proof. intros shard Hc conns. rewrite ensure_subs. by apply add_sub_own. Qed.

Lemma ensure_keeps symbol : keeps_subs (ensureSymbolDispatcher symbol).
Proof. intros shard. apply ensure_subs. Qed.
Lemma queue_keeps symbol q : keeps_subs (fun shard => mkSymbolShard (Subs shard) (<[symbol := q]> (MsgBuf shard))).
Proof. done. Qed.
#[local] Hint Resolve subscribe_local subscribe_own ensure_keeps queue_keeps clean_ok : cex.

Lemma broadcast_subs symbol msg sv :
  shards_ok sv -> shards_ok (Broadcast symbol msg sv) /\ forall s, subs s (Broadcast symbol msg sv) = subs s sv.
Proof.
  intros Hok. assert (Hok1 : shards_ok (update_shard symbol (ensureSymbolDispatcher symbol) sv))
    by eauto with cex.
  assert (Hs1 : forall s, subs s (update_shard symbol (ensureSymbolDispatcher symbol) sv) = subs s sv)
    by (intros s; apply subs_kept; auto with cex).
  unfold Broadcast. destruct (_ <? 4096).
  - split; [by unfold set_queue_of; eauto with cex|]. intros s. rewrite <- Hs1.
    unfold set_queue_of. apply subs_kept; auto with cex.
  - by split.
Qed.

Lemma run_op_refines sv m op : refines sv m -> refines (run_op sv op) (spec_op m op).
Proof.
  intros [Hok Hsubs]. destruct op as [c symbol|c symbol|c|symbol msg]; cbn.
  - split; [unfold subscribe; eauto with cex|]. intros s. unfold subscribe.
    rewrite subs_update by auto with cex. destruct (decide (s = symbol)) as [->|Hne].
    + rewrite ensure_subs. cbn. rewrite !lookup_insert_eq. cbn. f_equal. apply Hsubs.
    + by rewrite lookup_insert_ne.
  - split; [unfold unsubscribe; eauto with cex|]. intros s. unfold unsubscribe.
    rewrite subs_update by auto with cex. destruct (decide (s = symbol)) as [->|Hne].
    + rewrite lookup_insert_eq. cbn. rewrite <- Hsubs. unfold subs, remove_sub.
      destruct (Subs (GetSymbolShard symbol sv) !! symbol) as [conns|] eqn:Hc.
      * cbn. by rewrite lookup_partial_alter_eq, drop_conn_spec.
      * rewrite Hc. cbn. apply set_eq. set_solver.
    + by rewrite lookup_insert_ne.
  - split; [by apply clean_ok|]. intros s. unfold ws_close. rewrite subs_clean, Hsubs, lookup_fmap.
    destruct (m !! s); cbn; [done|]. apply set_eq. set_solver.
  - destruct (broadcast_subs symbol msg sv Hok) as [Hok' Hs]. split; [done|]. intros s. by rewrite Hs.
Qed.

Lemma init_shard i shard : sv_shards init_server !! i = Some shard -> shard = mkSymbolShard ∅ ∅.
Proof. unfold init_server, sv_shards. by intros [-> _]%lookup_replicate. Qed.

Lemma init_GetSymbolShard symbol : GetSymbolShard symbol init_server = mkSymbolShard ∅ ∅.
Proof.
  unfold GetSymbolShard. destruct (sv_shards init_server !! shard_index symbol) as [sh|] eqn:Hs; [|done].
  by apply init_shard in Hs as ->.
Qed.

Lemma init_refines : refines init_server ∅.
Proof.
  split.
  - split; [done|]. intros i shard symbol conns ->%init_shard. cbn [Subs]. by rewrite lookup_empty.
  - intros symbol. unfold subs. rewrite init_GetSymbolShard. cbn. by rewrite !lookup_empty.
Qed.

(** C14: whatever clients subscribe, unsubscribe, disconnect and broadcast, the 32
    shards hold exactly the subscriptions one map from symbols to connections would
    hold, every symbol in the shard of its hash, and no symbol without connection. *)
Theorem shards_refine_map ops :
  let sv := foldl run_op init_server ops in
  let m := foldl spec_op ∅ ops in
  shards_ok sv /\ forall symbol, subs symbol sv = default ∅ (m !! symbol).
Proof.
  cbn zeta. assert (Hr : refines init_server ∅) by apply init_refines. revert Hr.
  generalize init_server. generalize (∅ : gmap string (gset conn)).
  induction ops as [|op ops IH]; intros m sv Hr; [exact Hr|]. cbn [foldl].
  apply IH. by apply run_op_refines.
Qed.

(** ** Messages *)

Lemma queue_set symbol q sv s :
  length (sv_shards sv) = 32%nat ->
  queue_of s (set_queue_of symbol q sv) = if decide (s = symbol) then q else queue_of s sv.
Proof.
  intros Hlen. unfold queue_of, set_queue_of. rewrite shard_update by done. case_decide as Hd.
  - cbn. destruct (decide (s = symbol)) as [->|Hne]; [by rewrite lookup_insert_eq|].
    by rewrite lookup_insert_ne.
  - rewrite decide_False; [done|]. by intros ->.
Qed.

Lemma queue_ensure symbol sv s :
  length (sv_shards sv) = 32%nat -> queue_of s (update_shard symbol (ensureSymbolDispatcher symbol) sv) = queue_of s sv.
Proof.
  intros Hlen. unfold queue_of. rewrite shard_update by done. case_decide; [|done].
  unfold ensureSymbolDispatcher. destruct (MsgBuf _ !! symbol) eqn:Hm; [done|]. cbn.
  destruct (decide (s = symbol)) as [->|Hne]; [by rewrite lookup_insert_eq, Hm|by rewrite lookup_insert_ne].
Qed.

(** Deliveries that succeed only write. *)
Lemma deliver_all write_ok symbol msg l sv :
  Forall (fun c => write_retry write_ok c = true) l ->
  foldl (fun sv c => deliver write_ok symbol msg c sv) sv l =
    log_written ((fun c => (c, contents msg sv)) <$> l) sv.
Proof.
  intros Hl. revert sv. induction Hl as [|c l Hc Hl IH]; intros sv.
  { destruct sv. unfold log_written. cbn. by rewrite app_nil_r. }
  cbn [foldl]. unfold deliver at 2. rewrite Hc, IH. unfold log_written. csimpl.
  unfold contents. cbn. by rewrite <- app_assoc.
Qed.

(** A message broadcast to a symbol goes to the end of the queue of that
    symbol, or, if 4096 messages wait, to the topic of dropped messages, and other
    queues stay; a turn of the dispatcher takes the oldest message and, with a pool
    and connections that can be written to, writes its bytes to each subscriber of
    the symbol once and to nobody else. *)
Theorem message_delivery sv symbol :
  shards_ok sv ->
  (forall msg s, let sv' := Broadcast symbol msg sv in
     if Z.of_nat (length (queue_of symbol sv)) <? 4096
     then queue_of s sv' = (if decide (s = symbol) then queue_of s sv ++ [msg] else queue_of s sv) /\
          sv_dropped sv' = sv_dropped sv
     else queue_of s sv' = queue_of s sv /\ sv_dropped sv' = sv_dropped sv ++ [("dropped_" +:+ symbol, msg)]) /\
  (forall write_ok enum msg rest,
     enumerates enum -> sv_pool sv = true -> queue_of symbol sv = msg :: rest ->
     (forall c, c ∈ subs symbol sv -> write_retry write_ok c = true) ->
     exists sv', dispatch write_ok enum symbol sv = Ok sv' /\ queue_of symbol sv' = rest /\
       sv_written sv' = sv_written sv ++ ((fun c => (c, contents msg sv)) <$> enum (subs symbol sv)) /\
       NoDup (enum (subs symbol sv))).
Proof.
  intros [Hlen Hok]. split.
  - intros msg s. cbn zeta. unfold Broadcast. rewrite queue_ensure by done.
    destruct (_ <? 4096).
    + rewrite queue_set by (by rewrite update_length). rewrite queue_ensure by done.
      split; [|done]. by case_decide; subst.
    + split; [|done]. change (queue_of s (update_shard symbol (ensureSymbolDispatcher symbol) sv) = queue_of s sv).
      by apply queue_ensure.
  - intros write_ok enum msg rest He Hp Hq Hw. unfold dispatch. rewrite Hq.
    assert (Hs : subs symbol (set_queue_of symbol rest sv) = subs symbol sv) by by apply subs_kept.
    unfold subs in Hs at 1. rewrite Hs.
    assert (Hall : Forall (fun c => write_retry write_ok c = true) (enum (subs symbol sv))).
    { apply Forall_forall. intros c. rewrite (He _), elem_of_elements. apply Hw. }
    assert (Hnd : NoDup (enum (subs symbol sv))) by (rewrite (He _); apply NoDup_elements).
    destruct (enum (subs symbol sv)) as [|c l] eqn:Hl.
    + eexists. split; [done|]. rewrite queue_set, decide_True by done. csimpl. by rewrite app_nil_r.
    + assert (Hp' : sv_pool (set_queue_of symbol rest sv) = true) by done. rewrite Hp', deliver_all by done.
      eexists. split; [done|].
      change (queue_of symbol (set_queue_of symbol rest sv) = rest /\
        sv_written sv ++ ((fun c => (c, contents msg (set_queue_of symbol rest sv))) <$> c :: l) =
        sv_written sv ++ ((fun c => (c, contents msg sv)) <$> c :: l) /\ NoDup (c :: l)).
      by rewrite queue_set, decide_True.
Qed.

(** The server as it starts never sets its goroutine pool: the first message
    for a symbol somebody is subscribed to panics in the dispatcher. *)
Theorem first_delivery_panics write_ok enum c symbol msg :
  enumerates enum ->
  dispatch write_ok enum symbol (Broadcast symbol msg (subscribe c symbol init_server)) = Panic.
Proof.
  intros He. pose proof (run_op_refines _ _ (OpSubscribe c symbol) init_refines) as Hr1. cbn in Hr1.
  pose proof (run_op_refines _ _ (OpBroadcast symbol msg) Hr1) as [Hok2 Hs2].
  cbn [run_op spec_op] in Hok2, Hs2.
  destruct Hr1 as [Hok1 Hs1].
  assert (Hq1 : queue_of symbol (subscribe c symbol init_server) = []).
  { unfold queue_of, subscribe. rewrite shard_update, decide_True, init_GetSymbolShard by done.
    unfold ensureSymbolDispatcher, add_sub. cbn [MsgBuf Subs]. rewrite lookup_empty. cbn [MsgBuf Subs].
    by rewrite lookup_insert_eq. }
  set (sv := Broadcast symbol msg (subscribe c symbol init_server)) in *.
  assert (Hq : queue_of symbol sv = [msg] /\ sv_pool sv = false).
  { destruct Hok1 as [Hlen1 _]. unfold sv, Broadcast. rewrite queue_ensure, Hq1 by done. cbn [length].
    change (Z.of_nat 0 <? 4096) with true. cbn iota. split; [|done].
    rewrite queue_set by (by rewrite update_length). by rewrite decide_True. }
  destruct Hq as [Hq Hp]. unfold dispatch. rewrite Hq.
  assert (Hs : subs symbol (set_queue_of symbol [] sv) = subs symbol sv) by by apply subs_kept.
  unfold subs in Hs at 1. rewrite Hs.
  assert (Hin : c ∈ enum (subs symbol sv)).
  { rewrite (He _), elem_of_elements, Hs2, lookup_insert_eq. cbn. set_solver. }
  destruct (enum (subs symbol sv)) as [|c' l]; [by apply not_elem_of_nil in Hin|].
  assert (Hp' : sv_pool (set_queue_of symbol [] sv) = false) by exact Hp. by rewrite Hp'.
Qed.

(** ** The buffer pool *)

Definition with_pool (sv : server) : server :=
  mkServer (sv_shards sv) true (sv_arrays sv) (sv_next sv) (sv_free sv) (sv_users sv) (sv_written sv)
    (sv_dropped sv).

Definition pushed_twice : server :=
  PushMatchResult (Some 0%nat) "trade" "ETH" "o2" "7.5" "1.0" "filled" 2
    (PushMatchResult None "trade" "BTC" "o1" "9.0" "3.0" "filled" 1
       (subscribe 1%nat "BTC" (with_pool init_server))).

(** A pushed message is put back into the pool while it is still queued: the
    next push writes over it, and the subscribers of one symbol are sent the result
    of another. *)
Theorem queued_message_overwritten :
  (sv_written <$> match dispatch (fun _ _ => true) elements "BTC" pushed_twice with
                  | Ok sv => Some sv | _ => None end) =
  Some [(1%nat, match_result_text "trade" "ETH" "o2" "7.5" "1.0" "filled" 2)].
Proof. vm_compute. reflexivity. Qed.

(** ** Orders over a connection *)

(** The redirect never happens: the table it looks at has no migrations. *)
Lemma no_redirect currentID symbol : SymbolMigrationChecker handler_table currentID symbol = (false, "").
Proof. unfold SymbolMigrationChecker. cbn. by rewrite lookup_empty. Qed.

(** An order sent over a connection is acknowledged whatever the engine says:
    a refused order gets the same answer as an accepted one. *)
Theorem refused_order_acknowledged {E} `{Engine E} write_ok currentID c msg symbol order sv (e e' : E) err :
  parseAction (Some msg) = ("SubmitOrder", symbol) ->
  json_Unmarshal order_msg_fields (mkSubmitOrderMsg "" "" "" "" "" "") msg = Ok order ->
  engine_SubmitOrder order e = Ok (Some (e', err)) ->
  ws_action write_ok handler_table currentID c (Some msg) (sv, Some e) =
    Ok (Some (reply write_ok c (ack_text "order_ack" symbol) sv, Some e')).
Proof.
  intros Hp Hu He. unfold ws_action. rewrite Hp, (bool_decide_false ("SubmitOrder" = "subscribe")),
    (bool_decide_false ("SubmitOrder" = "unsubscribe")), (bool_decide_true ("SubmitOrder" = "SubmitOrder")) by done.
  cbn [andb default]. cbn [from_option id]. by rewrite Hu, no_redirect, He.
Qed.

(** An engine that refuses everything. *)
#[local] Instance refusing : Engine unit := {| engine_SubmitOrder := fun _ e => Ok (Some (e, Some "invalid order")) |}.

Definition order_json : json :=
  JObj [("action", JStr "SubmitOrder"); ("symbol", JStr "BTC"); ("Side", JStr "buy")].

Lemma refused_order_acknowledged_witness :
  ws_action (fun _ _ => true) handler_table "n1" 1%nat (Some order_json) (init_server, Some tt) =
    Ok (Some (reply (fun _ _ => true) 1%nat (ack_text "order_ack" "BTC") init_server, Some tt)).
Proof.
  refine (refused_order_acknowledged (fun _ _ => true) "n1" 1%nat order_json "BTC"
    (mkSubmitOrderMsg "" "BTC" "buy" "" "" "") init_server tt tt (Some "invalid order") _ _ _);
    vm_compute; reflexivity.
Defined.

Lemma first_delivery_panics_witness :
  dispatch (fun _ _ => true) elements "BTC" (Broadcast "BTC" (mkSlice 0 0) (subscribe 1%nat "BTC" init_server)) = Panic.
Proof. exact (first_delivery_panics (fun _ _ => true) elements 1%nat "BTC" (mkSlice 0 0) (fun X => reflexivity _)). Defined.

Lemma message_delivery_witness :
  let sv := Broadcast "BTC" (mkSlice 0 0) (subscribe 1%nat "BTC" (with_pool init_server)) in
  exists sv', dispatch (fun _ _ => true) elements "BTC" sv = Ok sv' /\ sv_written sv' = [(1%nat, "")].
Proof.
  intros sv.
  assert (Hok : shards_ok sv).
  { exact (proj1 (run_op_refines _ _ (OpBroadcast "BTC" (mkSlice 0 0))
      (run_op_refines (with_pool init_server) ∅ (OpSubscribe 1%nat "BTC") init_refines))). }
  destruct (proj2 (message_delivery sv "BTC" Hok) (fun _ _ => true) elements (mkSlice 0 0) []
    (fun X => reflexivity _) eq_refl) as (sv' & Hd & _ & Hw & _).
  - vm_compute. reflexivity.
  - intros c _. reflexivity.
  - exists sv'. split; [exact Hd|]. rewrite Hw. vm_compute. reflexivity.
Defined.
