(* ===== verification/WsSession.v ===== *)
(** * Sessions of the WebSocket server

    Models the handler of /ws that NewWebSocketServer of src/server/websocket_server.go
    registers: the route middleware, the upgrade, the loop over the messages of a
    connection and the clean-up when it ends; and the partition-aware engine as the
    engine that InjectEngine sets.

    The theorems show that a session leaves the subscriptions of everybody else as
    they were and none of its own, and what becomes of an order for a symbol of
    another node. *)

From stdpp Require Import base gmap strings list sorting pretty.
From Stdlib Require Import ZArith Lia.
From S2P Require Import Prelude Money Events Database Sequencer SkipList OrderBook EventLog Checkpoint Pipeline MatchEngine Ownership Partitions PartitionManager WsServer WsServerProps.

Local Open Scope go_scope.
Local Open Scope Z_scope.

Section Session.
Context {E : Type} `{!Engine E}.
Context (write_ok : conn -> nat -> bool) (table : PartitionTable) (currentID : string).
Implicit Types (sv : server).

(** [matchEngine] is replaced. *)
Definition InjectEngine (e : E) (st : server * option E) : server * option E := (st.1, Some e).

(** The messages a connection reads before its first read error. *)
Fixpoint ws_loop (c : conn) (msgs : list (option json)) (st : server * option E)
    : outcome (option (server * option E)) :=
  match msgs with
  | [] => Ok (Some st)
  | msg :: rest =>
      let? r := ws_action write_ok table currentID c msg st in
      match r with
      | None => Ok None
      | Some st' => ws_loop c rest st'
      end
  end.

(** The loop and the deferred clean-up; a submission that blocks keeps it open. *)
Definition ws_session (c : conn) (msgs : list (option json)) (st : server * option E)
    : outcome (option (server * option E)) :=
  let? r := ws_loop c msgs st in Ok ((fun '(sv, e) => (ws_close c sv, e)) <$> r).

(** The handler of /ws; [upgraded] tells whether the upgrade succeeds, and the result
    has the answer of the middleware if it aborts. *)
Definition ws_endpoint (localAddr method : string) (symbol : outcome string) (pt : PartitionTable) (upgraded : bool)
    (c : conn) (msgs : list (option json)) (st : server * option E)
    : outcome (option (server * option E) * option (Z * string)) :=
  let? aborted := DistributedRouteMiddleware localAddr "/ws" method symbol pt in
  match aborted with
  | Some answer => Ok (Some st, Some answer)
  | None => if upgraded then let? r := ws_session c msgs st in Ok (r, None) else Ok (Some st, None)
  end.

(** ** Subscriptions *)

Lemma same_shards sv sv' :
  sv_shards sv' = sv_shards sv -> (shards_ok sv -> shards_ok sv') /\ forall s, subs s sv' = subs s sv.
Proof. intros H. unfold shards_ok, subs, GetSymbolShard. by rewrite H. Qed.

Lemma reply_shards c text sv : sv_shards (reply write_ok c text sv) = sv_shards sv.
Proof. unfold reply. by destruct (write_ok c 0%nat). Qed.

(** [c] may differ, nobody else. *)
Definition others_kept (c : conn) sv sv' : Prop :=
  shards_ok sv' /\ forall s, subs s sv' ∖ {[c]} = subs s sv ∖ {[c]}.

Lemma others_refl c sv : shards_ok sv -> others_kept c sv sv.
Proof. by split. Qed.

Lemma others_reply c text sv sv' : others_kept c sv sv' -> others_kept c sv (reply write_ok c text sv').
Proof.
  intros [Hok Hs]. destruct (same_shards _ _ (reply_shards c text sv')) as [H1 H2].
  split; [auto|]. intros s. by rewrite H2.
Qed.

Lemma others_subscribe c symbol sv : shards_ok sv -> others_kept c sv (update_shard symbol (add_sub symbol c) sv).
Proof.
  intros Hok. split.
  - apply update_ok; [apply add_sub_local|apply add_sub_own|done].
  - intros s. rewrite subs_update by (done || apply add_sub_local).
    destruct (decide (s = symbol)) as [->|]; [|done].
    cbn. rewrite lookup_insert_eq. cbn. unfold subs. set_solver.
Qed.

Lemma others_unsubscribe c symbol sv : shards_ok sv -> others_kept c sv (unsubscribe c symbol sv).
Proof.
  intros Hok. unfold unsubscribe. split.
  - apply update_ok; [apply remove_sub_local|apply remove_sub_own|done].
  - intros s. rewrite subs_update by (done || apply remove_sub_local).
    destruct (decide (s = symbol)) as [->|]; [|done]. unfold subs, remove_sub.
    destruct (Subs (GetSymbolShard symbol sv) !! symbol) as [conns|] eqn:Hc; [|by rewrite Hc].
    cbn. rewrite lookup_partial_alter_eq, drop_conn_spec. cbn. set_solver.
Qed.

Lemma action_keeps_others c msg sv e sv' e' :
  ws_action write_ok table currentID c msg (sv, e) = Ok (Some (sv', e')) ->
  shards_ok sv -> others_kept c sv sv'.
Proof.
  unfold ws_action. destruct (parseAction msg) as [action symbol]. intros H Hok.
  destruct (_ && _) in H.
  { injection H as <- _.
    destruct (others_reply c (ack_text "subscription_ack" symbol) _ _ (others_subscribe c symbol sv Hok)) as [Hok1 Hs].
    split; [apply update_ok; [apply keeps_local, ensure_keeps|apply keeps_own, ensure_keeps|done]|].
    intros s. rewrite subs_kept by (done || apply ensure_keeps). apply Hs. }
  destruct (_ && _) in H.
  { injection H as <- _. by apply others_reply, others_unsubscribe. }
  destruct (action =s _) in H; [|simplify_eq; by apply others_refl].
  destruct (json_Unmarshal _ _ _) as [order| |] in H; [|simplify_eq; by apply others_refl..].
  destruct (SymbolMigrationChecker table currentID symbol) as [[|] np].
  { injection H as <- _. by apply others_reply, others_refl. }
  destruct e as [e|]; [|injection H as <- _; by apply others_reply, others_refl].
  destruct (engine_SubmitOrder order e) as [[[e1 err]|]| |]; cbn in H; simplify_eq.
  by apply others_reply, others_refl.
Qed.

Lemma loop_keeps_others c msgs sv e sv' e' :
  ws_loop c msgs (sv, e) = Ok (Some (sv', e')) -> shards_ok sv -> others_kept c sv sv'.
Proof.
  revert sv e. induction msgs as [|msg msgs IH]; intros sv e; cbn [ws_loop].
  { intros [= <- <-]. apply others_refl. }
  destruct (ws_action _ _ _ _ _ _) as [[[sv1 e1]|]| |] eqn:Ha; cbn [obind]; [|done|done|done].
  intros Hl Hok. apply action_keeps_others in Ha as [Hok1 H1]; [|done].
  apply IH in Hl as [Hok2 H2]; [|done]. split; [done|]. intros s. by rewrite H2.
Qed.

(** C15: whatever a client sends, when its session ends it is subscribed to nothing and
    the subscriptions of all other connections are as they were. *)
Theorem session_leaves_no_trace c msgs sv e sv' e' :
  ws_session c msgs (sv, e) = Ok (Some (sv', e')) -> shards_ok sv ->
  shards_ok sv' /\ forall symbol, subs symbol sv' = subs symbol sv ∖ {[c]}.
Proof.
  unfold ws_session. destruct (ws_loop c msgs (sv, e)) as [[[sv1 e1]|]| |] eqn:Hl; cbn; [|done|done|done].
  intros [= <- <-] Hok. apply loop_keeps_others in Hl as [Hok1 H1]; [|done].
  split; [by apply clean_ok|]. intros symbol. unfold ws_close. by rewrite subs_clean.
Qed.

(** The middleware does not look at /ws: every connection is let through. *)
Lemma endpoint_passes localAddr method symbol pt c msgs st :
  ws_endpoint localAddr method symbol pt true c msgs st =
    (let? r := ws_session c msgs st in Ok (r, None)).
Proof. done. Qed.
End Session.

(** ** The engine of a node *)

Section Aware.
Context {sl : Type -> Type} {Hsl : SkipList sl}.
Context {L D W : Type} {HL : EventStore L} {HD : Table D EventOffsetCheckpoint}.
Context (now : Z) (schedule : list (EventProcessor W) -> list (EventProcessor W))
        (enum : gmap string EventOffsetCheckpoint -> list string) (nowNano : Z) (pick : bool).
Abbreviation aware := (PartitionAwareMatchEngine (sl := sl) (L := L) (D := D) (W := W)).

Definition aware_engine : Engine aware := {| engine_SubmitOrder := pa_SubmitOrder now schedule enum nowNano pick |}.

(** An order sent over a connection to a node that does not own its symbol is
    acknowledged like any other and dropped: the engine is as before. *)
Theorem foreign_order_dropped write_ok currentID c msg symbol order sv (pa : aware) :
  parseAction (Some msg) = ("SubmitOrder", symbol) ->
  json_Unmarshal order_msg_fields (mkSubmitOrderMsg "" "" "" "" "" "") msg = Ok order ->
  so_Symbol order ∉ pa_watchedSymbols pa ->
  @ws_action _ aware_engine write_ok handler_table currentID c (Some msg) (sv, Some pa) =
    Ok (Some (reply write_ok c (ack_text "order_ack" symbol) sv, Some pa)).
Proof.
  intros Hp Hu Hs. eapply (@refused_order_acknowledged _ aware_engine); [done|done|].
  cbn. unfold pa_SubmitOrder. by rewrite bool_decide_eq_false_2.
Qed.
End Aware.

(** ** Witness *)

#[local] Instance accepting : Engine unit := {| engine_SubmitOrder := fun _ e => Ok (Some (e, None)) |}.

Definition subscribe_msg : option json := Some (JObj [("action", JStr "subscribe"); ("symbol", JStr "BTC")]).

Lemma session_leaves_no_trace_witness :
  exists sv', ws_session (fun _ _ => true) handler_table "n1" 2%nat [subscribe_msg; None; subscribe_msg]
      (subscribe 1%nat "BTC" init_server, Some tt) = Ok (Some (sv', Some tt)) /\
    subs "BTC" sv' = subs "BTC" (subscribe 1%nat "BTC" init_server) ∖ {[2%nat]}.
Proof.
  eexists. split; [vm_compute; reflexivity|].
  eapply (session_leaves_no_trace (fun _ _ => true) handler_table "n1" 2%nat [subscribe_msg; None; subscribe_msg] _ (Some tt) _ (Some tt)).
  - vm_compute. reflexivity.
  - apply update_ok; [apply subscribe_local|apply subscribe_own|apply init_refines].
Defined.
