(* ===== verification/Kline.v ===== *)
(** * K-lines

    Models src/biz/model/kline.go, src/biz/dal/pg/kline_repo.go and
    src/biz/service/kline_helper.go and kline_compensate.go: the bars of trades per
    period, built trade by trade (UpdateKlines) or from the trades of the last
    minute (CompensateKline).  Prices and volumes are decimal text computed on
    through float64; [FormatFloat] prints a double with as few digits as read back
    to it.  The table is a parameter, and so are the lists of Redis ([RedisLists]).
    The ticker and the Consul lock around the compensation are in Lifecycle.v. *)

From stdpp Require Import base gmap strings list sorting pretty.
From Stdlib Require Import ZArith Lia SpecFloat.
From S2P Require Import Prelude Money Events Database Orders.

Local Open Scope go_scope.
Local Open Scope Z_scope.

(** ** Floating-point text *)

Definition f64_add : spec_float -> spec_float -> spec_float := SFadd 53 1024.

(** The number [strconv.ParseFloat] returns beside its error: zero for text that is
    no number, an infinity for one that is too large. *)
Definition mustParseFloat (s : string) : spec_float :=
  match scan_decimal s with
  | Some (neg, v, k, EmptyString) => f64_of_decimal neg v k
  | _ => S754_zero false
  end.

Fixpoint zero_digits (n : nat) : string :=
  match n with O => "" | S n' => String (Ascii.ascii_of_nat 48) (zero_digits n') end.

(** The digits [d] with the point after the first [p] of their [k] places. *)
Definition place_point (d : string) (p : Z) : string :=
  let k := Z.of_nat (String.length d) in
  if p <=? 0 then "0." +:+ zero_digits (Z.to_nat (- p)) +:+ d
  else if k <=? p then d +:+ zero_digits (Z.to_nat (p - k))
  else String.substring 0 (Z.to_nat p) d +:+ "." +:+ String.substring (Z.to_nat p) (Z.to_nat (k - p)) d.

(** The power of ten just above [num/den]. *)
Definition decimal_exponent (num den : Z) : Z :=
  let digits z := Z.of_nat (String.length (pretty z)) in
  if den <=? num then digits (num / den)
  else let l := digits (den / num) in
       if num * 10 ^ (l - 1) =? den then 2 - l else 1 - l.

Definition f64_eqb (a b : spec_float) : bool :=
  match SFcompare a b with Some Eq => true | _ => false end.

(** The nearest decimal of [k] digits, for growing [k], until it reads back. *)
Fixpoint shortest (fuel : nat) (k : Z) (neg : bool) (num den p : Z) (f : spec_float) : string :=
  let d := if 0 <=? k - p then div_round_even (num * 10 ^ (k - p)) den
           else div_round_even num (den * 10 ^ (p - k)) in
  match fuel with
  | O => place_point (pretty d) p
  | S fuel' => if f64_eqb (f64_of_decimal neg d (p - k)) f
               then (if d =? 10 ^ k then place_point "1" (p + 1) else place_point (pretty d) p)
               else shortest fuel' (k + 1) neg num den p f
  end.

(** [strconv.FormatFloat(f, 'f', -1, 64)] *)
Definition FormatFloat (f : spec_float) : string :=
  match f with
  | S754_zero s => (if s then "-" else "") +:+ "0"
  | S754_infinity s => if s then "-Inf" else "+Inf"
  | S754_nan => "NaN"
  | S754_finite s m e =>
      let num := if 0 <=? e then Zpos m * 2 ^ e else Zpos m in
      let den := if 0 <=? e then 1 else 2 ^ (- e) in
      let p := decimal_exponent num den in
      (if s then "-" else "") +:+ shortest 17 1 s num den p f
  end.

Example format_examples :
  FormatFloat (mustParseFloat "0.1") = "0.1" /\ FormatFloat (mustParseFloat "1234.5") = "1234.5" /\
  FormatFloat (mustParseFloat "100000") = "100000" /\
  FormatFloat (f64_add (mustParseFloat "0.1") (mustParseFloat "0.2")) = "0.30000000000000004" /\
  FormatFloat (mustParseFloat "0.00000001") = "0.00000001" /\
  FormatFloat (f64_div (f64_of_int 1) (f64_of_int 3)) = "0.3333333333333333".
Proof. vm_compute. split_and!; reflexivity. Qed.

(** ** Bars *)

Record Kline := mkKline {
  k_ID : Z;
  k_Symbol : string;
  k_Period : string;
  k_Timestamp : Z;
  k_Open : string;
  k_Close : string;
  k_High : string;
  k_Low : string;
  k_Volume : string }.

(** The lists of Redis: append, and keep the last entries. *)
Class RedisLists (R : Type) := {
  redis_RPush : string -> Kline -> R -> R;
  redis_LTrim : string -> Z -> R -> R }.

Definition klinePeriods : list string := ["1m"; "5m"; "15m"; "30m"; "1h"; "4h"; "1d"; "1w"; "1M"].

Definition klinePeriodSeconds (period : string) : Z :=
  default 0 (list_to_map (M := gmap string Z)
    [("1m", 60); ("5m", 300); ("15m", 900); ("30m", 1800); ("1h", 3600); ("4h", 14400); ("1d", 86400);
     ("1w", 604800); ("1M", 2592000)] !! period).

(** Go's integer division truncates. *)
Definition kline_bucket (ts : Z) (period : string) : Z :=
  i64 (Z.quot ts (klinePeriodSeconds period) * klinePeriodSeconds period).

Section Klines.
Context {Dk : Type} `{!Table Dk Kline}.
Implicit Types (db : Dk).

Definition same_bar (a b : Kline) : bool :=
  (k_Symbol a =s k_Symbol b) && (k_Period a =s k_Period b) && (k_Timestamp a =? k_Timestamp b).

(** *** kline_repo.go *)

Definition UpsertKline (kline : Kline) db : Dk * option error :=
  db_upsert same_bar (fun old new =>
    mkKline (k_ID old) (k_Symbol old) (k_Period old) (k_Timestamp old) (k_Open new) (k_Close new)
      (k_High new) (k_Low new) (k_Volume new)) kline db.

Definition not_found : error := "record not found".

Definition GetKline (symbol period : string) (timestamp : Z) db : outcome Kline :=
  let? rows := db_find (fun k => (k_Symbol k =s symbol) && (k_Period k =s period)
                                 && (k_Timestamp k =? timestamp)) (Some k_ID) (Some 1%nat) db in
  match rows with
  | k :: _ => Ok k
  | [] => Err not_found
  end.

Definition CreateKline (k : Kline) db : Dk * option error := db_create k db.

(** Save: the row of the ID. *)
Definition UpdateKline (k : Kline) db : Dk * option error :=
  update_error (db_update (fun old => k_ID old =? k_ID k) (fun _ => k) db).

(** *** kline_helper.go *)

(** The ID is the one the database assigns, [id]; errors are dropped. *)
Definition createNewKline (id : Z) (symbol period : string) (bucket : Z) (price qty : string) db
    : Dk * Kline :=
  let k := mkKline id symbol period bucket price price price price qty in
  ((CreateKline k db).1, k).

(** The bar after a trade; prices are compared as text. *)
Definition add_trade (price qty : string) (k : Kline) : Kline :=
  let high := if String.ltb (k_High k) price then price else k_High k in
  let low := if String.ltb price (k_Low k) then price else k_Low k in
  let volume := match ParseFloat (k_Volume k) with
                | Some v => match ParseFloat qty with
                            | Some q => FormatFloat (f64_add v q)
                            | None => k_Volume k
                            end
                | None => k_Volume k
                end in
  mkKline (k_ID k) (k_Symbol k) (k_Period k) (k_Timestamp k) (k_Open k) price high low volume.

Definition updateExistingKline (k : Kline) (price qty : string) db : Dk * Kline :=
  let k' := add_trade price qty k in
  ((UpdateKline k' db).1, k').

(** One period: the bar is created or updated and pushed to its list, of which the
    last thousand are kept.  After another error of the query the pushed value is
    null, which is left out here. *)
Definition update_period {R} `{RedisLists R} (id : Z) (symbol price qty : string) (ts : Z) (period : string)
    (st : Dk * R) : Dk * R :=
  let '(db, redis) := st in
  let bucket := kline_bucket ts period in
  let key := "kline:" +:+ symbol +:+ ":" +:+ period in
  let push k r := redis_LTrim key 1000 (redis_RPush key k r) in
  match GetKline symbol period bucket db with
  | Err e => if e =s not_found
             then let '(db', k) := createNewKline id symbol period bucket price qty db in (db', push k redis)
             else (db, redis)
  | Ok k => let '(db', k') := updateExistingKline k price qty db in (db', push k' redis)
  | Panic => st
  end.

(** [ids] are the IDs the database would assign, one per period. *)
Definition UpdateKlines {R} `{RedisLists R} (ids : string -> Z) (symbol price qty : string) (ts : Z)
    (st : Dk * R) : Dk * R :=
  foldl (fun st period => update_period (ids period) symbol price qty ts period st) st klinePeriods.

(** *** kline_compensate.go *)

(** The loop over the sorted trades: highest and lowest price and the volume. *)
Definition kline_step (acc : string * string * spec_float) (t : Trade) : string * string * spec_float :=
  let '(high, low, volume) := acc in
  let price := mustParseFloat (t_Price t) in
  let qty := mustParseFloat (t_Quantity t) in
  (if SFltb (mustParseFloat high) price then t_Price t else high,
   if SFltb price (mustParseFloat low) then t_Price t else low,
   f64_add volume qty).

(** [sorted] is the slice sort.Slice leaves: by time, equal times in any order.  An
    empty one is out of range. *)
Definition calculateKline (symbol : string) (sorted : list Trade) (start : Z) : outcome Kline :=
  match sorted, last sorted with
  | t0 :: _, Some tn =>
      let '(high, low, volume) :=
        foldl kline_step (t_Price t0, t_Price t0, S754_zero false) sorted in
      Ok (mkKline 0 symbol "1m" start (t_Price t0) (t_Price tn) high low (FormatFloat volume))
  | _, _ => Panic
  end.

Section Compensate.
Context {Dt : Type} `{!Table Dt Trade} (sort : list Trade -> list Trade).

(** One symbol of the loop. *)
Definition compensate_symbol (start end_ : Z) (dt : Dt) (db : Dk) (symbol : string) : outcome Dk :=
  match GetTradesBysymbolAndTime symbol (start * 1000) (end_ * 1000) dt with
  | Ok [] => Ok db
  | Ok trades => let? kline := calculateKline symbol (sort trades) start in
                 Ok (UpsertKline kline db).1
  | Err _ => Ok db
  | Panic => Panic
  end.

Fixpoint compensate_all (start end_ : Z) (dt : Dt) (symbols : list string) (db : Dk) : outcome Dk :=
  match symbols with
  | [] => Ok db
  | symbol :: rest => let? db' := compensate_symbol start end_ dt db symbol in
                      compensate_all start end_ dt rest db'
  end.

(** [now] in seconds; without a database there is nothing to do. *)
Definition CompensateKline (now : Z) (tables : option (Dt * Dk)) : outcome (option (Dt * Dk) * option error) :=
  let end_ := now - now mod 60 in
  let start := end_ - 60 in
  match tables with
  | None => Ok (None, None)
  | Some (dt, db) =>
      match GetActivesymbols (start * 1000) (end_ * 1000) dt with
      | Err e => Ok (Some (dt, db), Some e)
      | Panic => Panic
      | Ok symbols => let? db' := compensate_all start end_ dt symbols db in
                      Ok (Some (dt, db'), None)
      end
  end.
End Compensate.
End Klines.
