(* ===== verification/Handlers.v ===== *)
(** * HTTP handlers

    Models src/biz/handler/order.go, asset.go and the depth, trades,
    ticker and K-line queries of market.go.  Binding a request and writing a
    response is Hertz: a handler gets the bound request, or the error of the binding,
    and gives a status and a body.  The engine behind the handlers is the interface
    [Engine]; the tables are parameters.  The answer of Redis, which GetKline asks
    first, is an argument. *)

From stdpp Require Import base gmap strings list sorting pretty.
From Stdlib Require Import ZArith Lia SpecFloat.
From S2P Require Import Prelude Money Events Database Positions Orders Kline WsServer PartitionManager.

Local Open Scope go_scope.
Local Open Scope Z_scope.

(** model/asset.go *)
Record Balance := mkBalance {
  bal_ID : Z; bal_UserID : string; bal_Asset : string; bal_Amount : string; bal_Frozen : string }.

(** The bodies of responses. *)
Inductive body : Type :=
| BodyError (msg : string)
| BodyStatus (orderID status : string)
| BodyOrder (o : Order)
| BodyOrders (l : list Order)
| BodyTrades (l : list Trade)
| BodyTicker (symbol lastPrice : string)
| BodyKlines (l : list Kline)
| BodyBalances (l : list Balance)
| BodyPositions (l : list Position)
| BodyDepth (symbol : string) (bids asks : list (string * string * Z)) (bidLimit askLimit : Z).

Abbreviation response := (Z * body)%type.

Section Handlers.
Context {E : Type} `{!Engine E}.
Context {Do Dt Dk : Type} `{!Table Do Order} `{!Table Dt Trade} `{!Table Dk Kline}.
Implicit Types (db : Do) (dt : Dt).

(** ** order.go *)

Definition nano_text (z : Z) : string := sprintf_8f (f64_div (f64_of_int z) f64_1e8).

Definition complete_request (req : Order) : bool :=
  negb ((o_Symbol req =s "") || (o_Side req =s "") || (o_Price req =? 0) || (o_Quantity req =? 0)
        || (o_UserID req =s "")).

(** [id] is what the ID generator answers; [None] as the result is a submission
    that blocks.  Without an engine the order goes straight to the database. *)
Definition http_SubmitOrder (now : Z) (bound : outcome Order) (id : outcome Z) (engine : option E) db
    : outcome (option (response * option E * Do)) :=
  match bound with
  | Err e => Ok (Some ((400, BodyError e), engine, db))
  | Panic => Panic
  | Ok req =>
      if negb (complete_request req)
      then Ok (Some ((400, BodyError "missing required fields"), engine, db))
      else
        match id with
        | Err _ | Panic => Ok (Some ((500, BodyError "failed to generate order_id"), engine, db))
        | Ok id =>
            let orderID := pretty id in
            match engine with
            | Some e =>
                let orderMsg := mkSubmitOrderMsg orderID (o_Symbol req) (o_Side req)
                                  (nano_text (o_Price req)) (nano_text (o_Quantity req)) (o_UserID req) in
                let? r := engine_SubmitOrder orderMsg e in
                Ok ((fun '(e', err) =>
                       (match err with
                        | None => (200, BodyStatus orderID "submitted")
                        | Some err => if err =s ErrSymbolNotLocallyOwned
                                      then (409, BodyError "symbol not owned by this node")
                                      else (500, BodyError err)
                        end, Some e', db)) <$> r)
            | None =>
                let order := mkOrder orderID (o_UserID req) (o_Symbol req) (o_Side req) (o_Price req)
                               (o_Quantity req) "active" (o_CreatedAt req) (o_CreatedAt req) in
                match CreateOrder now order db with
                | (db', None) => Ok (Some ((200, BodyStatus orderID "received"), None, db'))
                | (db', Some err) => Ok (Some ((500, BodyError err), None, db'))
                end
            end
        end
  end.

Definition http_GetOrder (orderID : string) db : response :=
  match pg_GetOrderByID orderID db with
  | Ok order => (200, BodyOrder order)
  | _ => (404, BodyError "order not found")
  end.

Definition http_ListOrders (userID status : string) db : outcome response :=
  match ListOrders userID status db with
  | Ok orders => Ok (200, BodyOrders orders)
  | Err e => Ok (500, BodyError e)
  | Panic => Panic
  end.

(** The request names an order and its user.  Only the row changes. *)
Definition http_CancelOrder (now : Z) (bound : outcome (string * string)) db : outcome (response * Do) :=
  match bound with
  | Err _ => Ok ((400, BodyError "invalid request"), db)
  | Panic => Panic
  | Ok (orderID, userID) =>
      let refused := Ok ((404, BodyError "order not found or user mismatch"), db) in
      match pg_GetOrderByID orderID db with
      | Ok order =>
          if negb (o_UserID order =s userID) then refused
          else match UpdateOrderStatus now orderID "cancelled" db with
               | (db', None) => Ok ((200, BodyStatus orderID "cancelled"), db')
               | (db', Some e) => Ok ((500, BodyError e), db')
               end
      | Err _ => refused
      | Panic => Panic
      end
  end.

(** [fmt.Sscanf("%d")] leaves the default if there is no number. *)
Definition http_ListTrades (symbol limitStr : string) dt : outcome response :=
  let limit := if limitStr =s "" then 50 else default 50 (scan_int64 limitStr) in
  match pg_ListTrades symbol limit dt with
  | Ok trades => Ok (200, BodyTrades trades)
  | Err e => Ok (500, BodyError e)
  | Panic => Panic
  end.

(** ** market.go *)

Record depthItem := mkDepthItem {
  di_Price : spec_float;
  di_Amount : spec_float;
  di_Count : Z;
  di_PriceStr : string }.

(** [strconv.Atoi]: an optional sign and digits, nothing else. *)
Definition Atoi (s : string) : option Z :=
  let '(neg, s1) := scan_sign s in
  match scan_digits 0 0 s1 with
  | (v, S _, EmptyString) => let n := if neg then - v else v in
                             if (MinI64 <=? n) && (n <=? MaxI64) then Some n else None
  | _ => None
  end.

Definition parseLimit (limitStr : string) (defaultLimit : Z) : Z :=
  if limitStr =s "" then defaultLimit
  else match Atoi limitStr with
       | Some l => if 0 <? l then l else defaultLimit
       | None => defaultLimit
       end.

Definition order_price (o : Order) : spec_float := f64_div (f64_of_int (o_Price o)) f64_1e8.
Definition order_qty (o : Order) : spec_float := f64_div (f64_of_int (o_Quantity o)) f64_1e8.
Definition order_price_text (o : Order) : string := FormatFloat (order_price o).

Definition add_to_level (o : Order) (agg : gmap string depthItem) : gmap string depthItem :=
  let priceStr := order_price_text o in
  let item := default (mkDepthItem (order_price o) (S754_zero false) 0 priceStr) (agg !! priceStr) in
  <[priceStr := mkDepthItem (di_Price item) (f64_add (di_Amount item) (order_qty o)) (di_Count item + 1)
                  (di_PriceStr item)]> agg.

Definition aggregate_step (symbol : string) (acc : gmap string depthItem * gmap string depthItem) (o : Order)
    : gmap string depthItem * gmap string depthItem :=
  let '(bids, asks) := acc in
  if negb (o_Symbol o =s symbol) then acc
  else if o_Side o =s "buy" then (add_to_level o bids, asks)
  else if o_Side o =s "sell" then (bids, add_to_level o asks)
  else acc.

Definition aggregateOrders (orders : list Order) (symbol : string)
    : gmap string depthItem * gmap string depthItem :=
  foldl (aggregate_step symbol) (∅, ∅) orders.

(** Price, amount and number of orders, in the order [enum] of the map. *)
Definition depthItemsToSlice (enum : gset string -> list string) (items : gmap string depthItem)
    : list (string * string * Z) :=
  omap (fun k => (fun agg => (di_PriceStr agg, FormatFloat (di_Amount agg), di_Count agg)) <$> items !! k)
    (enum (dom items)).

(** The order [sort.Slice] sorts by. *)
Definition depth_le (desc : bool) (a b : string * string * Z) : Prop :=
  let pa := mustParseFloat a.1.1 in
  let pb := mustParseFloat b.1.1 in
  (if desc then SFltb pa pb else SFltb pb pa) = false.

#[global] Instance depth_le_dec desc a b : Decision (depth_le desc a b).
Proof. unfold depth_le. apply _. Defined.

Definition sortDepth (items : list (string * string * Z)) (desc : bool) : list (string * string * Z) :=
  merge_sort (depth_le desc) items.

(** An error of the query reads as no orders. *)
Definition http_GetDepth (enum : gset string -> list string) (symbol bid_limit ask_limit : string) db
    : outcome response :=
  if symbol =s "" then Ok (400, BodyError "symbol参数不能为空")
  else
    let bidLimit := parseLimit bid_limit 20 in
    let askLimit := parseLimit ask_limit 20 in
    let orders := match pg_ListOrders "" "active" db with Ok l => l | _ => [] end in
    let '(bidsAgg, asksAgg) := aggregateOrders orders symbol in
    let bids := sortDepth (depthItemsToSlice enum bidsAgg) true in
    let asks := sortDepth (depthItemsToSlice enum asksAgg) false in
    Ok (200, BodyDepth symbol (take (Z.to_nat bidLimit) bids) (take (Z.to_nat askLimit) asks)
               bidLimit askLimit).

Definition http_GetTrades (symbol limitStr : string) dt : response :=
  let limit := if limitStr =s "" then 50 else default 50 (Atoi limitStr) in
  (200, BodyTrades (match pg_ListTrades symbol limit dt with Ok l => l | _ => [] end)).

Definition http_GetTicker (symbol : string) dt : response :=
  let trades := match pg_ListTrades symbol 1 dt with Ok l => l | _ => [] end in
  (200, BodyTicker symbol (match trades with t :: _ => t_Price t | [] => "" end)).

(** [lrange] is Redis's LRANGE, each entry decoded, [None] when it is not a bar;
    Redis is asked first, the table when Redis fails or has nothing. *)
Definition http_GetKline (lrange : string -> Z -> Z -> outcome (list (option Kline)))
    (symbol period limitStr : string) (dk : Dk) : response :=
  let limit := if limitStr =s "" then 100 else default 100 (Atoi limitStr) in
  if (symbol =s "") || (period =s "") then (400, BodyError "symbol和period参数不能为空")
  else
    match lrange ("kline:" +:+ symbol +:+ ":" +:+ period) (- limit) (-1) with
    | Ok ((_ :: _) as klineData) => (200, BodyKlines (omap id klineData))
    | _ => (200, BodyKlines (rev (match db_find (fun k => (k_Symbol k =s symbol) && (k_Period k =s period))
                                          (Some (fun k => - k_Timestamp k)) (sql_limit limit) dk with
                                  | Ok l => l | _ => [] end)))
    end.

(** ** asset.go *)

Definition GetUserBalance {Db} `{Table Db Balance} (userID : string) (d : Db) : outcome (list Balance) :=
  db_find (fun b => bal_UserID b =s userID) None None d.

Definition http_GetBalance {Db} `{Table Db Balance} (userID : string) (d : Db) : outcome response :=
  if userID =s "" then Ok (400, BodyError "missing user_id")
  else match GetUserBalance userID d with
       | Ok balances => Ok (200, BodyBalances balances)
       | Err e => Ok (500, BodyError e)
       | Panic => Panic
       end.

Definition http_GetPositions {Dp} `{Table Dp Position} (userID : string) (d : Dp) : outcome response :=
  if userID =s "" then Ok (400, BodyError "missing user_id")
  else match GetUserPositions userID d with
       | Ok positions => Ok (200, BodyPositions positions)
       | Err e => Ok (500, BodyError e)
       | Panic => Panic
       end.
End Handlers.
