(* ===== verification/HandlersProps.v ===== *)
(** * Properties of the HTTP handlers

    The depth handler aggregates exactly the orders it is given; but it asks for
    orders of a status the engine does not use, so it shows none of them; and a
    cancellation over HTTP changes a row and not the book, so the order still
    trades. *)

From stdpp Require Import base gmap strings list sorting pretty.
From Stdlib Require Import ZArith Lia SpecFloat.
From S2P Require Import Prelude Money Events Database Sequencer SkipList OrderBook Matching BookSpec BookProps EventLog Checkpoint Pipeline PipelineProps MatchEngine MatchEngineProps Orders OrdersProps Kline WsServer PartitionManager Handlers.

Local Open Scope go_scope.
Local Open Scope Z_scope.

(** ** Depth *)

(** The orders of one level. *)
Definition level_orders (symbol side priceStr : string) (orders : list Order) : list Order :=
  List.filter (fun o => (o_Symbol o =s symbol) && (o_Side o =s side) && (order_price_text o =s priceStr)) orders.

Definition level_exact (agg : gmap string depthItem) (orders : list Order) (symbol side : string) : Prop :=
  forall p, match agg !! p with
            | Some item => di_PriceStr item = p /\
                di_Count item = Z.of_nat (length (level_orders symbol side p orders)) /\
                level_orders symbol side p orders <> [] /\
                di_Amount item = foldl f64_add (S754_zero false) (order_qty <$> level_orders symbol side p orders)
            | None => level_orders symbol side p orders = []
            end.

Lemma level_orders_snoc symbol side p l o :
  level_orders symbol side p (l ++ [o]) =
    level_orders symbol side p l ++
    (if (o_Symbol o =s symbol) && (o_Side o =s side) && (order_price_text o =s p) then [o] else []).
Proof. unfold level_orders. rewrite List.filter_app. cbn. by destruct (_ && _). Qed.

Lemma level_exact_other agg orders symbol side o :
  (o_Symbol o =s symbol) && (o_Side o =s side) = false ->
  level_exact agg orders symbol side -> level_exact agg (orders ++ [o]) symbol side.
Proof.
  intros Hno He p. specialize (He p). rewrite level_orders_snoc, Hno. cbn [andb]. by rewrite app_nil_r.
Qed.

Lemma level_exact_add agg orders symbol side o :
  (o_Symbol o =s symbol) && (o_Side o =s side) = true ->
  level_exact agg orders symbol side -> level_exact (add_to_level o agg) (orders ++ [o]) symbol side.
Proof.
  intros Hyes He p. specialize (He p). rewrite level_orders_snoc, Hyes. cbn [andb]. unfold add_to_level. clear Hyes.
  case_bool_decide as Hp.
  - subst p. rewrite lookup_insert_eq. destruct (agg !! order_price_text o) as [item|] eqn:Ha; cbn [default from_option id].
    + destruct He as (Hs & Hc & _ & Hm). cbn. rewrite length_app, Hc, Hm, fmap_app, foldl_app. cbn [length].
      split_and!; [done|lia|by intros [? [=]]%app_nil|done].
    + rewrite He. cbn. by split_and!.
  - rewrite lookup_insert_ne by done. by rewrite app_nil_r.
Qed.

(** Each side of the depth has a level for every price at which the list holds
    an order of the symbol and side, and for no other; it counts these orders and
    adds up their quantities. *)
Theorem depth_levels_exact orders symbol :
  let '(bids, asks) := aggregateOrders orders symbol in
  level_exact bids orders symbol "buy" /\ level_exact asks orders symbol "sell".
Proof.
  unfold aggregateOrders. induction orders as [|o l IH] using rev_ind; [by split; intros p; rewrite lookup_empty|].
  rewrite foldl_app. cbn [foldl]. destruct (foldl _ _ l) as [bids asks]. destruct IH as [IHb IHa].
  unfold aggregate_step. case_bool_decide as Hsym; cbn [negb].
  2:{ split; apply level_exact_other; auto; by rewrite bool_decide_false. }
  case_bool_decide as Hbuy.
  { split; [apply level_exact_add|apply level_exact_other]; auto.
    - by rewrite !bool_decide_true.
    - rewrite Hbuy, (bool_decide_false ("buy" = "sell")) by done. by rewrite andb_false_r. }
  case_bool_decide as Hsell.
  { split; [apply level_exact_other|apply level_exact_add]; auto.
    - rewrite (bool_decide_false (o_Side o = "buy")) by done. by rewrite andb_false_r.
    - by rewrite !bool_decide_true. }
  split; apply level_exact_other; auto; rewrite (bool_decide_false (o_Side o = _)) by done; by rewrite andb_false_r.
Qed.

(** ** Orders of the engine *)

Section Engine.
Context {Do Dt : Type} {To : Table Do Order} {Tt : Table Dt Trade}.
Context {Lo : TableLaws Do Order} {Lt : TableLaws Dt Trade}.

(** The depth handler looks for active orders, and the orders of the engine are
    stored as submitted: whatever events of the engine the database has recorded,
    the depth it shows is empty. *)
Theorem engine_orders_hidden l (d d' : Do * Dt) enum symbol b a :
  db_run l d = Some d' -> (forall ev, ev ∈ l.*2 -> from_engine ev) -> orders d = [] -> symbol <> "" ->
  enumerates enum ->
  http_GetDepth enum symbol b a d'.1 =
    Ok (200, BodyDepth symbol [] [] (parseLimit b 20) (parseLimit a 20)).
Proof.
  intros Hr Hl H0 Hs He. pose proof (run_submitted _ _ _ Hr Hl H0) as Hst.
  assert (Hnone : forall rows, pg_ListOrders "" "active" d'.1 = Ok rows -> rows = []).
  { intros rows Hq. apply db_find_ok in Hq as (full & Hp & _ & ->). cbn.
    destruct full as [|o full]; [done|]. exfalso.
    assert (Hin : o ∈ List.filter (fun o => (("" =s "") || (o_UserID o =s ""))
      && (("active" =s "") || (o_Status o =s "active"))) (db_rows d'.1)) by (rewrite <- Hp; left).
    apply list_elem_of_In, List.filter_In in Hin as [Hin Hw]. bool_props.
    rewrite Forall_forall in Hst. apply list_elem_of_In, Hst in Hin. destruct H1 as [?|?]; bool_props; congruence. }
  unfold http_GetDepth. rewrite bool_decide_false by done.
  assert (match pg_ListOrders "" "active" d'.1 with Ok l => l | _ => [] end = []) as ->.
  { destruct (pg_ListOrders "" "active" d'.1) as [rows| |] eqn:Hq; [|done..]. by apply Hnone. }
  assert (depthItemsToSlice enum ∅ = []) as Hempty.
  { unfold depthItemsToSlice. rewrite dom_empty_L.
    assert (enum ∅ = []) as ->; [|done]. apply Permutation_nil_r. by rewrite (He ∅), elements_empty. }
  cbn. rewrite Hempty. cbn. by rewrite !take_nil.
Qed.
End Engine.

(** ** A cancelled order

    An engine whose pipeline writes to the database, and the handlers on the same
    database. *)

#[local] Instance h_orders : Table (ListTable Order) Order := ListTable_ops same_order.
#[local] Instance h_orders_laws : TableLaws (ListTable Order) Order := ListTable_laws _.
#[local] Instance h_trades : Table (ListTable Trade) Trade := ListTable_ops same_trade.
#[local] Instance h_trades_laws : TableLaws (ListTable Trade) Trade := ListTable_laws _.
#[local] Instance h_checkpoints : Table (ListTable EventOffsetCheckpoint) EventOffsetCheckpoint :=
  ListTable_ops (fun a b => cp_same a b).

Abbreviation tables := (ListTable Order * ListTable Trade)%type.
Abbreviation db_engine :=
  (MatchEngine cmp_list Memory.InMemoryEventLog (ListTable EventOffsetCheckpoint) tables).

Definition db_processor : EventProcessor tables := mkEventProcessor "DatabaseProcessor" (fun ev d => Ok (db_handle 1 ev d)).

Definition db_engine0 : db_engine :=
  NewMatchEngine (RegisterProcessor (Some db_processor)
    (NewEventPipeline Memory.NewInMemoryEventLog (mkListTable [], mkListTable []))).1 NewSequencer true true.

Definition submit_and_match (order : SubmitOrderMsg) (me : db_engine) : db_engine :=
  match SubmitOrder 0 id (fun _ => []) 0 true order me with
  | Ok (Some (me', None)) => match matchWorker_round 0 id (fun _ => []) id "BTC" me' with
                             | Ok me'' => me''
                             | _ => me'
                             end
  | _ => me
  end.

Definition tables_of (me : db_engine) : tables := ep_world (me_pipeline me).

Definition with_orders (db : ListTable Order) (me : db_engine) : db_engine :=
  let ep := me_pipeline me in
  set_pipeline (mkEventPipeline (ep_eventLog ep) (ep_processors ep) (ep_processorOffsets ep)
    (ep_kafkaOffsets ep) (ep_checkpointMgr ep) (ep_processedEventCount ep) (ep_failedEventCount ep)
    (db, (tables_of me).2)) me.

(** An order submitted to the engine and cancelled over HTTP, with success, by
    its user is still in the book: the next matching order trades with it. *)
Theorem cancelled_order_trades :
  let me1 := submit_and_match sell_order db_engine0 in
  exists db', http_CancelOrder 9 (Ok ("s1", "alice")) (tables_of me1).1 =
                Ok ((200, BodyStatus "s1" "cancelled"), db') /\
    (o_Status <$> db_rows db') = ["cancelled"] /\
    (t_MakerOrderID <$> db_rows (tables_of (submit_and_match buy_order (with_orders db' me1))).2) = ["s1"].
Proof. eexists. split; [vm_compute; reflexivity|]. split; vm_compute; reflexivity. Qed.

Lemma engine_orders_hidden_witness :
  http_GetDepth elements "BTC" "" "5" (run_demo [(1, demo_submission)] empty_db).1 =
    Ok (200, BodyDepth "BTC" [] [] 20 5).
Proof.
  refine (engine_orders_hidden [(1, demo_submission)] empty_db (run_demo [(1, demo_submission)] empty_db)
    elements "BTC" "" "5" _ _ _ _ _).
  - vm_compute. reflexivity.
  - intros ev ->%list_elem_of_singleton e [= <-]. eauto.
  - reflexivity.
  - discriminate.
  - intros X. reflexivity.
Defined.
