(* ===== verification/BackfillProps.v ===== *)
(** * Properties of the position backfill

    A writing run without a limit fills every row above the checkpoint and
    finishes; a dry run, or a run at its limit, with rows left never does. *)

From stdpp Require Import base gmap strings list sorting pretty.
From Stdlib Require Import ZArith Lia.
From S2P Require Import Prelude Money Database Backfill.

Local Open Scope go_scope.
Local Open Scope Z_scope.

Section Runs.
Context {D C : Type} `{!Table D posRow} `{!TableLaws D posRow} `{!Table C checkpointRow}.
Context (op : options).
Implicit Types (j : job D C).

(** The store answers every statement. *)
Definition statements_succeed : Prop :=
  (forall wh key limit (d : D), exists l, db_find wh key limit d = Ok l) /\
  (forall wh f (d : D), exists d' n, db_update wh f d = (d', Ok n)) /\
  (forall d : D, db_commit d = None) /\
  (forall same merge r (cp : C), exists cp', db_upsert same merge r cp = (cp', None)).

(** The rows of the batch carry the texts of the table. *)
Definition texts_agree (l rows : list posRow) : Prop :=
  forall r q, r ∈ l -> q ∈ rows -> pr_ID q = pr_ID r -> fill r q = fill q q.

Lemma texts_agree_filled l rows ids : texts_agree l rows -> texts_agree l (filled_ids ids <$> rows).
Proof.
  intros Ht r q Hr (q0 & -> & Hq)%list_elem_of_fmap Hid. unfold filled_ids in *.
  destruct (bool_decide (pr_ID q0 ∈ ids) && unfilled q0); [|by apply Ht].
  specialize (Ht r q0 Hr Hq Hid). unfold fill in *. cbn. congruence.
Qed.

Lemma filled_ids_cons i ids r : filled_ids ids (filled_ids [i] r) = filled_ids (i :: ids) r.
Proof.
  unfold filled_ids. destruct (unfilled r) eqn:Hu; rewrite ?andb_false_r, ?andb_true_r.
  2: { by rewrite Hu, andb_false_r. }
  destruct (decide (pr_ID r = i)) as [<-|Hne].
  - rewrite (bool_decide_eq_true_2 (pr_ID r ∈ [pr_ID r])) by left.
    rewrite (bool_decide_eq_true_2 (pr_ID r ∈ pr_ID r :: ids)) by left. by rewrite unfilled_fill, andb_false_r.
  - rewrite (bool_decide_eq_false_2 (pr_ID r ∈ [i])) by (by rewrite list_elem_of_singleton). rewrite Hu, andb_true_r.
    by rewrite (bool_decide_ext (pr_ID r ∈ ids) (pr_ID r ∈ i :: ids)) by (rewrite elem_of_cons; naive_solver).
Qed.

Lemma process_rows_spec l d processed maxID :
  (forall wh f (d : D), exists d' n, db_update wh f d = (d', Ok n)) ->
  op_dryRun op = false -> op_maxRows op <= 0 -> texts_agree l (db_rows d) ->
  exists d', process_rows op l d processed maxID =
      (d', processed + Z.of_nat (length l), foldl Z.max maxID (pr_ID <$> l)) /\
    db_rows d' ≡ₚ filled_ids (pr_ID <$> l) <$> db_rows d.
Proof.
  intros Hupd Hdry Hmax. revert d processed maxID. induction l as [|r l IH]; intros d processed maxID Ht.
  { exists d. cbn. rewrite Z.add_0_r. split; [done|]. unfold filled_ids. cbn. by rewrite list_fmap_id. }
  cbn [process_rows]. replace (0 <? op_maxRows op) with false by lia. rewrite Hdry. cbn [andb].
  destruct (Hupd (fun q => (pr_ID q =? pr_ID r) && unfilled q) (fill r) d) as (d1 & n & Hd1).
  rewrite Hd1. apply db_update_ok in Hd1 as [Hd1 _].
  assert (H1 : db_rows d1 ≡ₚ filled_ids [pr_ID r] <$> db_rows d).
  { rewrite Hd1. apply reflexive_eq, list_fmap_ext. intros i q Hq%list_elem_of_lookup_2.
    unfold filled_ids. case_bool_decide as Hin; rewrite list_elem_of_singleton in Hin;
      destruct (Z.eqb_spec (pr_ID q) (pr_ID r)); cbn [andb]; try done. destruct (unfilled q); [|done]. apply Ht; [by left|done|done]. }
  destruct (IH d1 (processed + 1) (if maxID <? pr_ID r then pr_ID r else maxID)) as (d' & -> & Hd').
  { intros r' q Hr'. rewrite H1. intros Hq. eapply texts_agree_filled; [exact Ht|by right|done]. }
  exists d'. split.
  - f_equal; [f_equal; cbn; lia|]. csimpl. f_equal. destruct (Z.ltb_spec maxID (pr_ID r)); lia.
  - rewrite Hd', H1, <- list_fmap_compose. apply reflexive_eq, list_fmap_ext. intros i q _. apply filled_ids_cons.
Qed.

(** ** The selected batch *)

Lemma foldl_max_spec x l :
  x <= foldl Z.max x l /\ Forall (fun z => z <= foldl Z.max x l) l /\
  (foldl Z.max x l = x \/ foldl Z.max x l ∈ l).
Proof.
  revert x. induction l as [|z l IH]; intros x; cbn [foldl]; [by split_and!; [lia| |left]|].
  destruct (IH (Z.max x z)) as (H1 & H2 & H3). split_and!; [lia|constructor; [lia|done]|].
  rewrite elem_of_cons. destruct (Z.max_spec x z) as [[? ->]|[? ->]]; naive_solver.
Qed.

Lemma filter_all (P : posRow -> bool) l : Forall (fun r => P r = true) l -> List.filter P l = l.
Proof. induction 1 as [|r l Hr _ IH]; cbn; [done|]. by rewrite Hr, IH. Qed.

Lemma filter_none (P : posRow -> bool) l : Forall (fun r => P r = false) l -> List.filter P l = [].
Proof. induction 1 as [|r l Hr _ IH]; cbn; [done|]. by rewrite Hr, IH. Qed.

(** The batch is the pending rows up to its highest ID. *)
Lemma batch_prefix x n (full : list posRow) y :
  StronglySorted (key_le pr_ID) full -> NoDup (pr_ID <$> full) ->
  Forall (fun r => x < pr_ID r) full ->
  y = foldl Z.max x (pr_ID <$> take n full) -> take n full <> [] ->
  x < y /\ take n full = List.filter (fun r => pr_ID r <=? y) full.
Proof.
  intros Hs Hnd Hx Hy Hne. destruct (foldl_max_spec x (pr_ID <$> take n full)) as (Hle & Hall & Hin).
  rewrite <- Hy in *.
  assert (Hin' : exists r, r ∈ take n full /\ y = pr_ID r).
  { destruct Hin as [->|Hin]; [|apply list_elem_of_fmap in Hin; naive_solver].
    destruct (take n full) as [|r l] eqn:Ht; [done|]. exfalso.
    assert (Hr : r ∈ full) by (apply (subseteq_take n); rewrite Ht; left).
    rewrite Forall_forall in Hx. apply Hx in Hr. inversion Hall; subst. lia. }
  destruct Hin' as (r & Hr & Hyr). split.
  { rewrite Forall_forall in Hx. rewrite Hyr. apply Hx. by apply (subseteq_take n). }
  rewrite <- (take_drop n full) at 2. rewrite List.filter_app.
  rewrite filter_all, filter_none, app_nil_r; [done| |].
  - rewrite <- (take_drop n full) in Hs, Hnd. rewrite fmap_app, NoDup_app in Hnd.
    apply Forall_forall. intros q Hq.
    assert (Hle' : key_le pr_ID r q) by (eapply StronglySorted_app_1_elem_of; eauto).
    destruct Hnd as (_ & Hdis & _). unfold key_le in Hle'.
    specialize (Hdis (pr_ID r)). rewrite !list_elem_of_fmap in Hdis.
    assert (pr_ID q <> pr_ID r) by naive_solver. lia.
  - rewrite Forall_fmap in Hall. eapply Forall_impl; [exact Hall|]. cbn. lia.
Qed.

Lemma filter_sub (P : posRow -> bool) rows r : r ∈ List.filter P rows -> r ∈ rows /\ P r = true.
Proof. by rewrite list_elem_of_In, List.filter_In, <- list_elem_of_In. Qed.

Lemma NoDup_filter_ids (P : posRow -> bool) rows :
  NoDup (pr_ID <$> rows) -> NoDup (pr_ID <$> List.filter P rows).
Proof.
  induction rows as [|r rows IH]; [done|]. cbn [List.filter]. rewrite fmap_cons, NoDup_cons.
  intros [Hn Hnd]. destruct (P r); [|auto]. rewrite fmap_cons, NoDup_cons. split; [|auto].
  intros (q & Hq & Hin)%list_elem_of_fmap. apply filter_sub in Hin as [Hin _].
  apply Hn, list_elem_of_fmap. eauto.
Qed.

Lemma filter_filter (P Q : posRow -> bool) l :
  List.filter Q (List.filter P l) = List.filter (fun r => P r && Q r) l.
Proof.
  induction l as [|r l IH]; [done|]. cbn. destruct (P r); cbn; [|done]. destruct (Q r); by rewrite IH.
Qed.

Lemma filter_split (P Q : posRow -> bool) l :
  length (List.filter P l) =
  (length (List.filter (fun r => P r && Q r) l) + length (List.filter (fun r => P r && negb (Q r)) l))%nat.
Proof. induction l as [|r l IH]; [done|]. cbn. destruct (P r), (Q r); cbn; lia. Qed.

Lemma filter_fmap (P : posRow -> bool) (f : posRow -> posRow) l :
  length (List.filter P (f <$> l)) = length (List.filter (fun r => P (f r)) l).
Proof. induction l as [|r l IH]; [done|]. csimpl. destruct (P (f r)); cbn; by rewrite IH. Qed.

Lemma same_id_same_row rows r q :
  NoDup (pr_ID <$> rows) -> r ∈ rows -> q ∈ rows -> pr_ID r = pr_ID q -> r = q.
Proof.
  intros Hnd (i & Hi)%list_elem_of_lookup (k & Hk)%list_elem_of_lookup Heq.
  assert (i = k) as <-; [|naive_solver]. eapply NoDup_lookup; [exact Hnd| |].
  - by rewrite list_lookup_fmap, Hi.
  - by rewrite list_lookup_fmap, Hk, Heq.
Qed.

(** Filling the IDs of the batch fills the pending rows up to its highest ID. *)
Lemma filled_ids_between x y rows l :
  NoDup (pr_ID <$> rows) -> l ≡ₚ List.filter (fun r => pending x r && (pr_ID r <=? y)) rows ->
  filled_ids (pr_ID <$> l) <$> rows = filled_between x y <$> rows.
Proof.
  intros Hnd Hl. apply list_fmap_ext. intros i r Hr%list_elem_of_lookup_2.
  unfold filled_ids, filled_between.
  destruct (pending x r && (pr_ID r <=? y)) eqn:Hp.
  - rewrite bool_decide_eq_true_2.
    + unfold pending in Hp. by destruct (unfilled r); [|rewrite andb_false_r in Hp].
    + apply list_elem_of_fmap. exists r. split; [done|]. rewrite Hl, list_elem_of_In, List.filter_In.
      by rewrite <- list_elem_of_In.
  - rewrite bool_decide_eq_false_2; [done|]. intros (q & Hq & Hin)%list_elem_of_fmap.
    rewrite Hl in Hin. apply filter_sub in Hin as [Hin Hpq].
    rewrite (same_id_same_row rows r q) in Hp; congruence.
Qed.

(** One pass with rows to fill. *)
Lemma pass_fills j :
  statements_succeed -> op_dryRun op = false -> op_maxRows op <= 0 -> 0 < op_batch op ->
  NoDup (pr_ID <$> db_rows (j_db j)) ->
  (backfill_pass op j = Ok None /\ List.filter (pending (j_lastID j)) (db_rows (j_db j)) = []) \/
  exists j', backfill_pass op j = Ok (Some j') /\ j_lastID j < j_lastID j' /\
    db_rows (j_db j') ≡ₚ filled_between (j_lastID j) (j_lastID j') <$> db_rows (j_db j) /\
    let count := length (List.filter (fun r => pending (j_lastID j) r && (pr_ID r <=? j_lastID j')) (db_rows (j_db j))) in
    (0 < count)%nat /\ j_processed j' = j_processed j + Z.of_nat count.
Proof.
  intros (Hfind & Hupd & Hcommit & Hups) Hdry Hmax Hb Hnd. unfold backfill_pass, select_batch.
  replace (op_batch op <? 0) with false by lia.
  destruct (Hfind (pending (j_lastID j)) (Some pr_ID) (Some (Z.to_nat (op_batch op))) (j_db j)) as [l Hl].
  rewrite Hl. apply db_find_ok in Hl as (full & Hp & Hs & ->). cbn [limited obind].
  destruct (take (Z.to_nat (op_batch op)) full) as [|r0 l0] eqn:Ht.
  { left. split; [done|]. destruct full; [by apply Permutation_nil in Hp|].
    destruct (Z.to_nat (op_batch op)) eqn:Hz; [lia|done]. }
  right. rewrite <- Ht. set (l := take _ full) in *.
  set (x := j_lastID j) in *. set (rows := db_rows (j_db j)) in *.
  destruct (batch_prefix x (Z.to_nat (op_batch op)) full (foldl Z.max x (pr_ID <$> l))) as [Hlt Hpre].
  { done. } { rewrite Hp. by apply NoDup_filter_ids. }
  { rewrite Hp. apply Forall_forall. intros r [_ Hr]%filter_sub. unfold pending in Hr. lia. }
  { done. } { fold l. by rewrite Ht. }
  fold l in Hpre. set (y := foldl Z.max x (pr_ID <$> l)) in *.
  assert (Hl : l ≡ₚ List.filter (fun r => pending x r && (pr_ID r <=? y)) rows).
  { rewrite Hpre, Hp. by rewrite filter_filter. }
  destruct (process_rows_spec l (j_db j) (j_processed j) x Hupd Hdry Hmax) as (d' & -> & Hd').
  { intros r q Hr Hq Hid. rewrite Hl in Hr. apply filter_sub in Hr as [Hr _].
    by rewrite (same_id_same_row rows q r). }
  rewrite Hcommit, Hdry. fold y. replace (x <? y) with true by lia. cbn [negb andb].
  unfold upsertCheckpoint. destruct (Hups (fun a b => cr_job a =s cr_job b)
    (fun old new => mkCheckpointRow (cr_job old) (cr_last_id new)) (mkCheckpointRow (op_job op) y) (j_cp j)) as [cp' ->].
  rewrite Ht. eexists. split; [done|]. cbn [j_lastID j_db j_processed]. rewrite <- Ht. fold l. split_and!.
  - done.
  - etrans; [exact Hd'|]. by apply reflexive_eq, filled_ids_between.
  - rewrite <- Hl, Ht. cbn. lia.
  - by rewrite <- Hl.
Qed.

Lemma filled_between_id x y r : pr_ID (filled_between x y r) = pr_ID r.
Proof. unfold filled_between. by destruct (_ && _). Qed.

Lemma filled_above_none x rows : List.filter (pending x) rows = [] -> filled_above x <$> rows = rows.
Proof.
  induction rows as [|r rows IH]; [done|]. cbn. unfold filled_above at 1.
  destruct (pending x r); [done|]. intros. f_equal; auto.
Qed.

(** A run of the loop. *)
Lemma backfill_run n j :
  statements_succeed -> op_dryRun op = false -> op_maxRows op <= 0 -> 0 < op_batch op ->
  NoDup (pr_ID <$> db_rows (j_db j)) ->
  (length (List.filter (pending (j_lastID j)) (db_rows (j_db j))) <= n)%nat ->
  exists j', backfill op (S n) j = Some (Ok j') /\
    db_rows (j_db j') ≡ₚ filled_above (j_lastID j) <$> db_rows (j_db j) /\
    j_processed j' = j_processed j + Z.of_nat (length (List.filter (pending (j_lastID j)) (db_rows (j_db j)))).
Proof.
  intros Hok Hdry Hmax Hb. revert j. induction n as [|n IH]; intros j Hnd Hn;
    destruct (pass_fills j Hok Hdry Hmax Hb Hnd) as [[Hnone Hf]|(j1 & Hsome & Hlt & Hrows & Hcount & Hproc)].
  1, 3: exists j; cbn [backfill]; rewrite Hnone, Hf; split_and!; [done|by rewrite filled_above_none|cbn; lia].
  all: pose proof (filter_split (pending (j_lastID j)) (fun r => pr_ID r <=? j_lastID j1) (db_rows (j_db j))) as Hsplit.
  all: cbn beta zeta in *. 1: lia.
  assert (Hrest : length (List.filter (pending (j_lastID j1)) (db_rows (j_db j1))) =
    length (List.filter (fun r => pending (j_lastID j) r && negb (pr_ID r <=? j_lastID j1)) (db_rows (j_db j)))).
  { rewrite Hrows, filter_fmap. f_equal. apply List.filter_ext. intros r. by apply pending_between; lia. }
  destruct (IH j1) as (j' & Hrun & Hrows' & Hproc').
  { rewrite Hrows, <- list_fmap_compose. erewrite list_fmap_ext; [exact Hnd|].
    intros i r _. apply filled_between_id. }
  { rewrite Hrest. lia. }
  exists j'. split_and!.
  - by rewrite <- Hrun; cbn [backfill]; rewrite Hsome.
  - rewrite Hrows', Hrows, <- list_fmap_compose. apply reflexive_eq, list_fmap_ext.
    intros i r _. apply filled_above_between. lia.
  - rewrite Hproc', Hproc, Hrest. lia.
Qed.

(** C37: the job finishes: when it writes, has no limit and the store answers, a run
    from a checkpoint takes at most one pass per row to fill and one more; it ends
    with the integer columns of exactly the rows above the checkpoint that lacked
    them filled from their texts, and counts those rows. *)
Theorem backfill_finishes d cp last :
  statements_succeed -> op_dryRun op = false -> op_maxRows op <= 0 -> 0 < op_batch op ->
  NoDup (pr_ID <$> db_rows d) -> getLastCheckpoint op cp = Ok last ->
  let count := length (List.filter (pending last) (db_rows d)) in
  exists j, backfill_main op (S count) (Ok true) d cp = Some (Ok (Some j)) /\
    db_rows (j_db j) ≡ₚ filled_above last <$> db_rows d /\ j_processed j = Z.of_nat count.
Proof.
  intros Hok Hdry Hmax Hb Hnd Hcp count. unfold backfill_main. rewrite Hcp.
  destruct (backfill_run count (mkJob d cp last 0) Hok Hdry Hmax Hb Hnd) as (j & -> & Hrows & Hproc); [done|].
  exists j. by split_and!.
Qed.

(** ** Runs that do not end *)

Lemma process_rows_idle l d processed maxID :
  op_dryRun op = true \/ 0 < op_maxRows op <= processed ->
  exists processed' maxID', process_rows op l d processed maxID = (d, processed', maxID') /\
    processed <= processed' /\ (op_dryRun op = false -> maxID' = maxID).
Proof.
  revert processed maxID. induction l as [|r l IH]; intros processed maxID Hidle; cbn [process_rows].
  { naive_solver lia. }
  destruct ((0 <? op_maxRows op) && (op_maxRows op <=? processed)) eqn:Hlim; [naive_solver lia|].
  destruct Hidle as [Hdry|?]; [|lia]. rewrite Hdry.
  destruct (IH (processed + 1) (if maxID <? pr_ID r then pr_ID r else maxID)) as (p' & m' & -> & ? & ?); [by left|].
  exists p', m'. split_and!; [done|lia|congruence].
Qed.

(** A dry run with rows to fill does not finish, however long it runs: its
    last ID never advances; nor does a run that has reached its limit with rows
    left, although the code reports that it stops. *)
Theorem backfill_endless fuel j j' :
  op_batch op <> 0 -> List.filter (pending (j_lastID j)) (db_rows (j_db j)) <> [] ->
  op_dryRun op = true \/ 0 < op_maxRows op <= j_processed j ->
  backfill op fuel j <> Some (Ok j').
Proof.
  intros Hb. revert j. induction fuel as [|fuel IH]; intros j Hpend Hidle; [done|]. cbn [backfill].
  unfold backfill_pass, select_batch. destruct (db_find _ _ _ _) as [l|e|] eqn:Hl; cbn [obind]; [|done|done].
  apply db_find_ok in Hl as (full & Hp & _ & Hl).
  assert (l <> []) as Hne.
  { destruct full as [|r full]; [by apply Permutation_nil in Hp|]. rewrite Hl.
    destruct (Z.ltb_spec (op_batch op) 0); [done|]. cbn [limited].
    destruct (Z.to_nat (op_batch op)) eqn:Hz; [lia|done]. }
  destruct l as [|r l]; [done|].
  destruct (process_rows_idle (r :: l) (j_db j) (j_processed j) (j_lastID j) Hidle) as (p' & m' & -> & Hle & Hm).
  destruct (db_commit _); [done|].
  replace (negb (op_dryRun op) && (j_lastID j <? m')) with false.
  - apply IH; [done|]. cbn [j_processed]. destruct Hidle; [by left|right; lia].
  - destruct (op_dryRun op); [done|]. rewrite Hm by done. cbn [negb andb]. lia.
Qed.
End Runs.

(** ** A concrete run *)

#[local] Instance bf_rows : Table (ListTable posRow) posRow := ListTable_ops (fun a b => pr_ID a =? pr_ID b).
#[local] Instance bf_laws : TableLaws (ListTable posRow) posRow := ListTable_laws _.
#[local] Instance bf_checkpoints : Table (ListTable checkpointRow) checkpointRow :=
  ListTable_ops (fun a b => cr_job a =s cr_job b).

Lemma bf_succeeds : statements_succeed (D := ListTable posRow) (C := ListTable checkpointRow).
Proof.
  unfold statements_succeed. cbn. split_and!; eauto. intros same merge r cp. destruct (existsb _ _); eauto.
Qed.

Definition bf_table : ListTable posRow := mkListTable
  [mkPosRow 3 "1.5" "100" None None; mkPosRow 1 "2" "7" (Some 5) (Some 6); mkPosRow 2 "x" "" None (Some 9)].

Lemma backfill_finishes_witness :
  exists j, backfill_main (mkOptions 1 false 0 "positions_backfill") 3 (Ok true) bf_table (mkListTable [])
    = Some (Ok (Some j)) /\
    db_rows (j_db j) ≡ₚ filled_above 0 <$> db_rows bf_table /\ j_processed j = 2.
Proof.
  assert (Hc : length (List.filter (pending 0) (db_rows bf_table)) = 2%nat) by (vm_compute; reflexivity).
  pose proof (backfill_finishes (C := ListTable checkpointRow) (mkOptions 1 false 0 "positions_backfill")
    bf_table (mkListTable []) 0 bf_succeeds) as H.
  rewrite Hc in H. apply H; try done. apply (bool_decide_unpack _). vm_compute. exact I.
Defined.

Lemma backfill_endless_witness :
  backfill (mkOptions 500 true 0 "positions_backfill") 1000
    (mkJob (D := ListTable posRow) (C := ListTable checkpointRow) bf_table (mkListTable []) 0 0)
  <> Some (Ok (mkJob bf_table (mkListTable []) 0 2)).
Proof. apply backfill_endless; [done|done|by left]. Defined.
