(* ===== verification/Startup.v ===== *)
(** * Start-up

    Models what src/main.go and its helpers compute before the servers run:
    the identity and the address of the node (getNodeIdentity, biz/util/util.go),
    the log level (conf/conf.go), and the recovery of the engine (initRecovery).
    The environment and the network interfaces are arguments; main itself is in
    Boot.v.

    The theorem shows what the recovery at start does: nothing when no item is
    pending, and a crash of the process when one is. *)

From stdpp Require Import base gmap strings list sorting pretty.
From Stdlib Require Import ZArith Lia.
From S2P Require Import Prelude Events Database Sequencer SkipList OrderBook BookProps EventLog Checkpoint Pipeline MatchEngine Lock Recovery RecoveryProps PartitionManager.

Local Open Scope go_scope.
Local Open Scope Z_scope.

(** ** biz/util/util.go *)

(** [string(v)] of a byte: the UTF-8 text of the code point. *)
Definition byte_text (v : Ascii.ascii) : string :=
  let n := Ascii.nat_of_ascii v in
  if (n <? 128)%nat then String v ""
  else String (Ascii.ascii_of_nat (192 + n / 64)) (String (Ascii.ascii_of_nat (128 + n mod 64)) "").

Fixpoint append_last (l : list string) (t : string) : list string :=
  match l with
  | [] => [t]
  | [x] => [x +:+ t]
  | x :: l' => x :: append_last l' t
  end.

Definition split_step (sep : string) (res : list string) (v : Ascii.ascii) : list string :=
  if byte_text v =s sep then res ++ [""] else append_last res (byte_text v).

Definition split (s sep : string) : list string :=
  foldl (split_step sep) [] (String.list_ascii_of_string s).

(** A copy. *)
Definition trim (s : string) : string := s.

Definition splitAndTrim (s sep : string) : list string := trim <$> split s sep.

(** An interface address: the text of its IP network, whether it is a loopback
    address and whether it is an IPv4 address; other kinds of address are [None]. *)
Record ip_net := mkIPNet { ip_text : string; ip_loopback : bool; ip_v4 : bool }.

Fixpoint first_address (addrs : list (option ip_net)) : string :=
  match addrs with
  | [] => "127.0.0.1"
  | Some ip :: rest => if negb (ip_loopback ip) && ip_v4 ip then ip_text ip else first_address rest
  | None :: rest => first_address rest
  end.

Definition GetLocalIP (getenv : string -> string) (addrs : outcome (list (option ip_net))) : string :=
  if negb (getenv "POD_IP" =s "") then getenv "POD_IP"
  else if negb (getenv "HOST_IP" =s "") then getenv "HOST_IP"
  else if negb (getenv "SERVICE_HOST" =s "") then getenv "SERVICE_HOST"
  else match addrs with Ok l => first_address l | _ => "127.0.0.1" end.

(** ** main.go *)

Definition getNodeIdentity (getenv : string -> string) (hostname : outcome string)
    (addrs : outcome (list (option ip_net))) : string :=
  if negb (getenv "NODE_IDENTITY" =s "") then getenv "NODE_IDENTITY"
  else if negb (getenv "POD_NAME" =s "") then getenv "POD_NAME"
  else match hostname with
       | Ok h => if negb (h =s "") then h else GetLocalIP getenv addrs
       | _ => GetLocalIP getenv addrs
       end.

(** The address the node is known by, and the one the WebSocket server listens on. *)
Definition local_address (identity : string) (matchPort : Z) : string :=
  identity +:+ ":" +:+ pretty matchPort.

Definition ws_address (wsPort : string) : string :=
  ":" +:+ match wsPort with
          | String c rest => if bool_decide (c = Ascii.ascii_of_nat 58) then rest else wsPort
          | _ => wsPort
          end.

(** ** conf.go *)

Inductive Level : Type :=
  LevelTrace | LevelDebug | LevelInfo | LevelNotice | LevelWarn | LevelError | LevelFatal.

Definition LogLevel (level : string) : Level :=
  if level =s "trace" then LevelTrace
  else if level =s "debug" then LevelDebug
  else if level =s "info" then LevelInfo
  else if level =s "notice" then LevelNotice
  else if level =s "warn" then LevelWarn
  else if level =s "error" then LevelError
  else if level =s "fatal" then LevelFatal
  else LevelInfo.

(** ** The recovery at start *)

Section InitRecovery.
Context {sl : Type -> Type} {Hsl : SkipList sl}.
Context {L D W R : Type} {HL : EventStore L} {HD : Table D EventOffsetCheckpoint} {HR : Redsync R}.
Context (now : Z) (schedule : list (EventProcessor W) -> list (EventProcessor W))
        (enum : gmap string EventOffsetCheckpoint -> list string)
        (md5hex : string -> string) (fmt_book : string -> string).
Abbreviation aware := (PartitionAwareMatchEngine (sl := sl) (L := L) (D := D) (W := W)).

(** The accessors recovery uses: the pipeline of the embedded engine and its parts. *)
Definition GetEventPipeline (pa : aware) : EventPipeline L D W := me_pipeline (pa_engine pa).
Definition GetCheckpointManager (pa : aware) : option (CheckpointManager D) :=
  ep_checkpointMgr (GetEventPipeline pa).
Definition GetEventLog (pa : aware) : L := ep_eventLog (GetEventPipeline pa).
Definition GetProcessor (name : string) (pa : aware) : option (EventProcessor W) :=
  Pipeline.GetProcessor name (GetEventPipeline pa).

Definition GetSequencer (pa : aware) : Sequencer := me_sequencer (pa_engine pa).

Definition start_options (validateAfter : bool) (maxRetries : Z) : RecoveryOptions :=
  mkRecoveryOptions INCREMENTAL [] [] validateAfter 0 maxRetries.

(** The executor is built without a lock manager. *)
Definition initRecovery (expired : nat -> nat -> bool)
    (order : list (nat * recoveryItem) -> list (nat * recoveryItem))
    (validateAfter : bool) (maxRetries : Z) (matchEngine : option aware) : outcome (option aware * (RecoveryResult + error)) :=
  match matchEngine with
  | None => Ok (None, inr "matchEngine is nil")
  | Some pa =>
      match ExecuteRecovery now schedule enum md5hex fmt_book expired order
              (Some (start_options validateAfter maxRetries))
              (NewRecoveryExecutor (R := R) (GetEventPipeline pa) None) with
      | Panic => Panic
      | Ok (re, result) => Ok (Some (set_engine (set_pipeline (re_pipeline re) (pa_engine pa)) pa), result)
      | Err e => Err e
      end
  end.
End InitRecovery.

(** ** The pieces of a text *)

Definition ascii_text (s : string) : Prop :=
  Forall (fun v => (Ascii.nat_of_ascii v < 128)%nat) (String.list_ascii_of_string s).

Lemma byte_text_ascii v : (Ascii.nat_of_ascii v < 128)%nat -> byte_text v = String v "".
Proof. intros Hv. unfold byte_text. by rewrite (proj2 (Nat.ltb_lt _ _) Hv). Qed.

Lemma concat_append_last sep l t : l <> [] -> String.concat sep (append_last l t) = String.concat sep l +:+ t.
Proof.
  induction l as [|x [|y l] IH]; intros Hne; [done|done|].
  change (append_last (x :: y :: l) t) with (x :: append_last (y :: l) t).
  assert (Hcons : forall m, m <> [] -> String.concat sep (x :: m) = x +:+ sep +:+ String.concat sep m)
    by (intros [|z m]; done).
  rewrite !Hcons; [|done|by destruct l]. rewrite IH by done. by rewrite !string_app_assoc.
Qed.

Lemma concat_snoc sep l : l <> [] -> String.concat sep (l ++ [""]) = String.concat sep l +:+ sep.
Proof.
  induction l as [|x [|y l] IH]; intros Hne; [done| |].
  - cbn. by rewrite string_app_nil_r.
  - change (String.concat sep ((x :: y :: l) ++ [""])) with (x +:+ sep +:+ String.concat sep ((y :: l) ++ [""])).
    rewrite IH by done. change (String.concat sep (x :: y :: l)) with (x +:+ sep +:+ String.concat sep (y :: l)).
    by rewrite !string_app_assoc.
Qed.

Lemma split_step_concat sep res v :
  res <> [] -> (Ascii.nat_of_ascii v < 128)%nat ->
  split_step sep res v <> [] /\
  String.concat sep (split_step sep res v) = String.concat sep res +:+ String v "".
Proof.
  intros Hne Hv. unfold split_step. rewrite byte_text_ascii by done.
  case_bool_decide as Hsep; [subst sep|].
  - split; [by destruct res|]. by apply concat_snoc.
  - split; [by destruct res as [|? [|??]]|]. by apply concat_append_last.
Qed.

Lemma split_loop_concat sep bytes res :
  res <> [] -> Forall (fun v => (Ascii.nat_of_ascii v < 128)%nat) bytes ->
  String.concat sep (foldl (split_step sep) res bytes) =
  String.concat sep res +:+ String.string_of_list_ascii bytes.
Proof.
  intros Hne Hall. revert res Hne. induction Hall as [|v bytes Hv _ IH]; intros res Hne; cbn [foldl].
  { cbn. by rewrite string_app_nil_r. }
  destruct (split_step_concat sep res v Hne Hv) as [Hne' Hc]. rewrite IH by done. rewrite Hc.
  by rewrite string_app_assoc.
Qed.

(** The pieces of a plain text that does not start with the separator, joined
    again, are the text; one that starts with it loses its empty first piece. *)
Theorem split_join s sep :
  ascii_text s -> (forall v rest, s = String v rest -> byte_text v <> sep) ->
  String.concat sep (split s sep) = s.
Proof.
  unfold ascii_text, split. intros Hs Hfirst. destruct s as [|v rest]; [done|].
  cbn [String.list_ascii_of_string] in *. inversion Hs as [|? ? Hv Hrest]; subst. cbn [foldl].
  unfold split_step at 2. rewrite bool_decide_eq_false_2 by (by eapply Hfirst). cbn [append_last].
  rewrite split_loop_concat by done. cbn. rewrite byte_text_ascii by done. cbn.
  by rewrite String.string_of_list_ascii_of_string.
Qed.

Example split_leading : split ",a" "," = ["a"].
Proof. reflexivity. Qed.

(** ** What recovery at start does *)

Section InitProps.
Context {sl : Type -> Type} {Hsl : SkipList sl}.
Context {L D W R : Type} {HL : EventStore L} {HD : Table D EventOffsetCheckpoint} {HR : Redsync R}.
Context (now : Z) (schedule : list (EventProcessor W) -> list (EventProcessor W))
        (enum : gmap string EventOffsetCheckpoint -> list string)
        (md5hex : string -> string) (fmt_book : string -> string).

(** The recovery at start leaves the engine as it is and succeeds when no item
    is pending; when one is, the process panics: the executor has no lock manager. *)
Theorem start_recovers_nothing expired order validateAfter maxRetries
    (pa : PartitionAwareMatchEngine (sl := sl) (L := L) (D := D) (W := W)) cm items :
  GetCheckpointManager pa = Some cm -> ListPendingRecoveryItems cm = Ok items -> (forall l, order l ≡ₚ l) ->
  match initRecovery (R := R) now schedule enum md5hex fmt_book expired order validateAfter maxRetries (Some pa) with
  | Ok (pa', inl result) => items = [] /\ pa' = Some pa /\ rr_EventsReplayed result = 0
  | Panic => items <> []
  | _ => False
  end.
Proof.
  unfold GetCheckpointManager. intros Hcm Hitems Hord. unfold initRecovery.
  assert (Hp : getPendingRecoveryList now (start_options validateAfter maxRetries) (GetEventPipeline pa) =
    Ok ((fun it => mkRecoveryItem it.1 it.2) <$> items)).
  { unfold getPendingRecoveryList, re_checkpointMgr. rewrite Hcm. cbn. by rewrite Hitems. }
  destruct items as [|item items].
  - unfold ExecuteRecovery. cbn -[getPendingRecoveryList start_options GetEventPipeline].
    rewrite Hp. cbn.
    split_and!; [done| |done]. by destruct pa as [[]].
  - erewrite recovery_crashes_without_lock; [done|done|done|exact Hp|done|done].
Qed.
End InitProps.

(** ** The engine after a crash *)

#[local] Instance start_table : Table (ListTable EventOffsetCheckpoint) EventOffsetCheckpoint :=
  ListTable_ops cp_same.

Definition crashed_engine
    : PartitionAwareMatchEngine (sl := cmp_list) (L := Memory.InMemoryEventLog)
        (D := ListTable EventOffsetCheckpoint) (W := unit) :=
  start_aware (NewMatchEngine crashed_pipeline (mkSequencer 1 0 ∅) true true) connected_manager "nodeA".

Lemma start_recovers_nothing_witness :
  match initRecovery (R := MemLocks) 200 id (fun _ => []) id id (fun _ _ => false) id true 3 (Some crashed_engine) with
  | Ok (pa', inl result) => [("DatabaseProcessor", "BTC")] = [] /\ pa' = Some crashed_engine /\ rr_EventsReplayed result = 0
  | Panic => [("DatabaseProcessor", "BTC")] <> []
  | _ => False
  end.
Proof.
  apply (start_recovers_nothing 200 id (fun _ => []) id id (fun _ _ => false) id true 3 crashed_engine crashed);
    [reflexivity|vm_compute; reflexivity|done].
Defined.
