(* ===== verification/Parts.v ===== *)
(** * Processors on parts of a world

    The processors registered with one pipeline write to different parts of the
    world: tables, positions, connections.  A [part] of a world is a way to read and
    to write it, and [on_part] runs a processor that knows only its part.

    The theorem of this file projects a history of the pipeline onto one processor:
    its part is what the processor makes of it alone, handed a subsequence of the
    events of the history.  Whatever holds of a processor by itself thereby holds in
    the running system. *)

From stdpp Require Import base gmap strings list sorting.
From Stdlib Require Import ZArith Lia.
From S2P Require Import Prelude Events Database Sequencer EventLog Checkpoint Pipeline.

Local Open Scope go_scope.
Local Open Scope Z_scope.

Record part (W A : Type) := mkPart { part_get : W -> A; part_put : A -> W -> W }.
Arguments mkPart {W A}.
Arguments part_get {W A}.
Arguments part_put {W A}.

(** What is written is read back. *)
Class PartLaws {W A} (p : part W A) : Prop := part_get_put a w : part_get p (part_put p a w) = a.

(** Writing [q] leaves [p] as it is. *)
Class Separate {W A B} (p : part W A) (q : part W B) : Prop :=
  part_get_other b w : part_get p (part_put q b w) = part_get p w.

Section Parts.
Context {W A : Type}.

(** A processor on a part; it reads the clock when it handles an event. *)
Definition handler : Type := Z -> MatchingEngineEvent -> A -> outcome (A * option error).

Definition on_part (p : part W A) (name : string) (clock : MatchingEngineEvent -> W -> Z) (f : handler)
    : EventProcessor W :=
  mkEventProcessor name (fun ev w =>
    let? r := f (clock ev w) ev (part_get p w) in Ok (part_put p r.1 w, r.2)).

(** The handler alone, on events with the times at which it handles them; what it
    reports is not looked at. *)
Fixpoint run_alone (f : handler) (l : list (Z * MatchingEngineEvent)) (a : A) : option A :=
  match l with
  | [] => Some a
  | (t, ev) :: l' => match f t ev a with Ok (a', _) => run_alone f l' a' | _ => None end
  end.

Lemma run_alone_app f l1 l2 a :
  run_alone f (l1 ++ l2) a = run_alone f l1 a ≫= run_alone f l2.
Proof.
  revert a. induction l1 as [|[t ev] l1 IH]; intros a; cbn; [done|].
  destruct (f t ev a) as [[a' e]| |]; [apply IH|done|done].
Qed.

(** An invariant of the handler, over the events of the run. *)
Lemma run_alone_ind f (P : list MatchingEngineEvent -> A -> Prop) l a a' :
  (forall t ev past b b' e, f t ev b = Ok (b', e) -> P past b -> P (past ++ [ev]) b') ->
  P [] a -> run_alone f l a = Some a' -> P l.*2 a'.
Proof.
  intros Hstep. change l.*2 with ([] ++ l.*2). generalize (@nil MatchingEngineEvent). revert a.
  induction l as [|[t ev] l IH]; intros a past Ha; cbn.
  { intros [= <-]. by rewrite app_nil_r. }
  destruct (f t ev a) as [[a1 e]| |] eqn:Hf; [|done|done]. intros Hr.
  apply (IH a1 (past ++ [ev])) in Hr; [|by eapply Hstep]. by rewrite <- app_assoc in Hr.
Qed.

(** A processor that does not write the part. *)
Definition leaves (p : part W A) (r : EventProcessor W) : Prop :=
  forall ev w w' e, proc_ProcessEvent r ev w = Ok (w', e) -> part_get p w' = part_get p w.
End Parts.

Lemma on_part_leaves {W A B} (p : part W A) (q : part W B) `{!Separate p q} name clock f :
  leaves p (on_part q name clock f).
Proof.
  intros ev w w' e. cbn. destruct (f _ _ _) as [r| |]; cbn; [|done|done]. intros [= <- _].
  apply part_get_other.
Qed.

(** A history of the pipeline: events processed one after the other, with any
    scheduling of the processors and any outcome. *)
Inductive pipeline_trace {L D W} `{!EventStore L} `{!Table D EventOffsetCheckpoint}
    : list MatchingEngineEvent -> EventPipeline L D W -> EventPipeline L D W -> Prop :=
| trace_nil ep : pipeline_trace [] ep ep
| trace_event now sch enum ev ep ep1 err l ep2 :
    (forall ps, sch ps ≡ₚ ps) -> ProcessEvent now sch enum (Some ev) ep = Ok (ep1, err) ->
    pipeline_trace l ep1 ep2 -> pipeline_trace (ev :: l) ep ep2.

Section Projection.
Context {L D W A : Type} `{!EventStore L} `{!Table D EventOffsetCheckpoint}.
Context (p : part W A) `{!PartLaws p} (name : string) (clock : MatchingEngineEvent -> W -> Z)
        (f : handler (A := A)).
Implicit Types (ep : EventPipeline L D W).

Abbreviation mine := (on_part p name clock f).
Abbreviation my_part ep := (part_get p (ep_world ep)).

(** What a dispatch may do to the part: nothing, or one run of the handler. *)
Definition at_most_one (ev : MatchingEngineEvent) (a a' : A) : Prop :=
  exists l, (l = [] \/ exists t, l = [(t, ev)]) /\ run_alone f l a = Some a'.

Lemma at_most_one_refl ev a : at_most_one ev a a.
Proof. exists []. by split; [left|]. Qed.

Lemma run_processor_world now ev ctx r ep ep' e :
  run_processor now ev ctx r ep = Ok (ep', e) ->
  ep_processors ep' = ep_processors ep /\
  (ep_world ep' = ep_world ep \/ exists e', proc_ProcessEvent r ev (ep_world ep) = Ok (ep_world ep', e')).
Proof.
  unfold run_processor. destruct (_ <=? _); [intros [= <- _]; by split; [|left]|].
  destruct (proc_ProcessEvent r ev (ep_world ep)) as [[w [err|]]| |]; cbn [obind]; [| |done|done].
  { intros [= <- _]. split; [done|]. right. by exists (Some err). }
  unfold record_progress. destruct (ep_processorOffsets ep !! ProcessorName r); [|done].
  repeat (case_match; cbn); intros; simplify_eq/=; split; eauto.
Qed.

Lemma others_leave now ev ctx ps ep ep' err err' :
  Forall (leaves p) ps -> run_all now ev ctx ps ep err = Ok (ep', err') ->
  ep_processors ep' = ep_processors ep /\ my_part ep' = my_part ep.
Proof.
  intros Hps. revert ep err. induction Hps as [|r ps Hr _ IH]; intros ep err; cbn [run_all].
  { by intros [= <- _]. }
  destruct (run_processor now ev ctx r ep) as [[ep1 e]| |] eqn:H1; cbn [obind]; [|done|done].
  intros [-> ->]%IH. apply run_processor_world in H1 as [-> [->|[e' He]]]; [done|].
  split; [done|]. by eapply Hr.
Qed.

Lemma mine_runs now ev ctx ep ep' e :
  run_processor now ev ctx mine ep = Ok (ep', e) ->
  ep_processors ep' = ep_processors ep /\ at_most_one ev (my_part ep) (my_part ep').
Proof.
  intros [-> Hw]%run_processor_world. split; [done|]. destruct Hw as [->|[e' He]]; [apply at_most_one_refl|].
  cbn in He. destruct (f _ _ _) as [[a e1]| |] eqn:Hf; cbn in He; [|done|done]. injection He as <- _.
  rewrite part_get_put. eexists. split; [right; by eexists|]. cbn. by rewrite Hf.
Qed.

Lemma run_all_app now ev ctx ps1 ps2 ep err :
  run_all now ev ctx (ps1 ++ ps2) ep err =
  let? r := run_all now ev ctx ps1 ep err in run_all now ev ctx ps2 r.1 r.2.
Proof.
  revert ep err. induction ps1 as [|r ps1 IH]; intros ep err; cbn [run_all app]; [done|].
  destruct (run_processor now ev ctx r ep) as [[ep1 e]| |]; cbn [obind]; [apply IH|done|done].
Qed.

(** The processor is registered once and no other writes its part. *)
Definition owns (ps : list (EventProcessor W)) : Prop :=
  exists others, ps ≡ₚ mine :: others /\ Forall (leaves p) others.

Lemma owned_runs now ev ctx ps ep ep' err err' :
  owns ps -> run_all now ev ctx ps ep err = Ok (ep', err') ->
  ep_processors ep' = ep_processors ep /\ at_most_one ev (my_part ep) (my_part ep').
Proof.
  intros (others & Hperm & Hleave).
  assert (Hin : mine ∈ ps) by (rewrite Hperm; left).
  apply list_elem_of_split in Hin as (l1 & l2 & ->).
  assert (Hl : l1 ++ l2 ≡ₚ others).
  { apply (Permutation_cons_inv (a := mine)). by rewrite Permutation_middle. }
  rewrite <- Hl, Forall_app in Hleave. destruct Hleave as [H1 H2].
  rewrite run_all_app. destruct (run_all now ev ctx l1 ep err) as [[ep1 e1]| |] eqn:Hr1; cbn [obind]; [|done|done].
  apply others_leave in Hr1 as [Hp1 Hw1]; [|done]. cbn [run_all fst snd].
  destruct (run_processor now ev ctx mine ep1) as [[ep2 e2]| |] eqn:Hr2; cbn [obind]; [|done|done].
  apply mine_runs in Hr2 as [Hp2 Hw2]. intros [Hp3 Hw3]%others_leave; [|done].
  rewrite Hp3, Hp2, Hp1, Hw3, <- Hw1. done.
Qed.

Lemma process_runs now sch enum ev ep ep' err :
  (forall ps, sch ps ≡ₚ ps) -> owns (ep_processors ep) ->
  ProcessEvent now sch enum (Some ev) ep = Ok (ep', err) ->
  ep_processors ep' = ep_processors ep /\ at_most_one ev (my_part ep) (my_part ep').
Proof.
  intros Hsch Howns. unfold ProcessEvent. destruct (AppendEvent (Some ev) (ep_eventLog ep)) as [log [e|]].
  { intros [= <- _]. split; [done|apply at_most_one_refl]. }
  unfold dispatchToProcessorsInternal. cbn [set_log ep_processors].
  destruct (run_all _ _ _ _ _ _) as [[ep1 e1]| |] eqn:Hr; cbn [obind]; [|done|done].
  apply owned_runs in Hr as [Hp Hw].
  - destruct e1; intros [= <- _]; [by split|]. unfold flush_checkpoints. by destruct (ep_checkpointMgr ep1).
  - destruct Howns as (others & Hperm & Hl). exists others. by rewrite Hsch.
Qed.

(** The projection of a history. *)
Lemma trace_projects l ep ep' :
  owns (ep_processors ep) -> pipeline_trace l ep ep' ->
  ep_processors ep' = ep_processors ep /\
  exists l', sublist l'.*2 l /\ run_alone f l' (my_part ep) = Some (my_part ep').
Proof.
  intros Howns Htrace. induction Htrace as [ep|now sch enum ev ep ep1 err l ep2 Hsch Hpe Htrace IH].
  { split; [done|]. exists []. by split; [constructor|]. }
  apply process_runs in Hpe as [Hp (l1 & Hl1 & Hrun1)]; [|done|done].
  destruct IH as [Hp2 (l2 & Hsub & Hrun2)]; [by rewrite Hp|]. split; [congruence|].
  exists (l1 ++ l2). rewrite run_alone_app, Hrun1. cbn. split; [|done]. rewrite fmap_app.
  destruct Hl1 as [->|[t ->]]; cbn; by constructor.
Qed.
End Projection.

Lemma trace_app {L D W} `{!EventStore L} `{!Table D EventOffsetCheckpoint} l1 l2 (ep1 ep2 ep3 : EventPipeline L D W) :
  pipeline_trace l1 ep1 ep2 -> pipeline_trace l2 ep2 ep3 -> pipeline_trace (l1 ++ l2) ep1 ep3.
Proof. induction 1; cbn; eauto using pipeline_trace. Qed.

(** Processing events one after the other, the processors in the order of their
    registration. *)
Fixpoint run_events {L D W} `{!EventStore L} `{!Table D EventOffsetCheckpoint} (l : list MatchingEngineEvent)
    (ep : EventPipeline L D W) : option (EventPipeline L D W) :=
  match l with
  | [] => Some ep
  | ev :: l' => match ProcessEvent 0 id (fun _ => []) (Some ev) ep with
                | Ok (ep', _) => run_events l' ep'
                | _ => None
                end
  end.

Lemma run_events_trace {L D W} `{!EventStore L} `{!Table D EventOffsetCheckpoint} l (ep ep' : EventPipeline L D W) :
  run_events l ep = Some ep' -> pipeline_trace l ep ep'.
Proof.
  revert ep. induction l as [|ev l IH]; intros ep; cbn [run_events]; [intros [= <-]; constructor|].
  destruct (ProcessEvent _ _ _ _ ep) as [[ep1 err]| |] eqn:Hp; [|done|done].
  intros Hr%IH. by eapply (trace_event 0 id).
Qed.
