(* ===== verification/EngineTrace.v ===== *)
(** * Histories of the matching engine

    Every run of the engine is a history of its pipeline.  The theorem of this file
    follows orders from their submission through the queues and the books to their
    trades: in every interleaving, each trade that is dispatched is between two
    orders of the history, of the same symbol and opposite sides, at a price within
    both limits. *)

From stdpp Require Import base gmap strings list sorting pretty relations.
From Stdlib Require Import ZArith Lia.
From S2P Require Import Prelude Money Events Database Sequencer SkipList OrderBook Matching BookSpec BookProps EventLog Checkpoint Pipeline PipelineProps MatchEngine MatchEngineProps Parts.

Local Open Scope go_scope.
Local Open Scope Z_scope.

(** ** Entries of a book and the orders they come from *)

Definition same_order_fields (e e0 : OrderBookEntry) : Prop :=
  obe_OrderID e = obe_OrderID e0 /\ obe_UserID e = obe_UserID e0 /\
  obe_Side e = obe_Side e0 /\ obe_Price e = obe_Price e0.

#[global] Instance same_order_fields_equiv : Equivalence same_order_fields.
Proof. split; unfold same_order_fields; [by intros e|intros e f|intros e f g]; intuition congruence. Qed.

Section Books.
Context {sl : Type -> Type} {Hsl : SkipList sl} {Hlaws : SkipListLaws sl}.
Implicit Types (ob : OrderBook sl) (book : sl (list OrderBookEntry)).

Abbreviation resting book := (flat (sl_elements book)).

Definition in_book (e : OrderBookEntry) ob : Prop :=
  exists p, (p, e) ∈ resting (ob_buys ob) \/ (p, e) ∈ resting (ob_sells ob).

Lemma in_book_sides e ob order :
  in_book e ob <-> exists p, (p, e) ∈ resting (opposite ob order) \/ (p, e) ∈ resting (own ob order).
Proof. unfold in_book, opposite, own. destruct (is_buy order); naive_solver. Qed.

Lemma add_to_side_entries book order r p e :
  (p, e) ∈ resting (add_to_side book order r) ->
  (p, e) ∈ resting book \/ e = set_quantity_filled order r 0.
Proof.
  destruct (add_to_side_split book order r) as (l1 & l2 & q & -> & -> & _ & _).
  rewrite flat_app. cbn [flat]. rewrite fmap_app, !elem_of_app. csimpl.
  rewrite list_elem_of_singleton. naive_solver.
Qed.

(** Matching adds the order to the book and changes nothing but quantities of the
    entries that were there. *)
Lemma match_order_in_book now ob order sq e :
  book_ok ob -> is_i64 (obe_Quantity order) -> in_book e (mr_book (MatchOrder now ob order sq)) ->
  exists e0, (e0 = order \/ in_book e0 ob) /\ same_order_fields e e0.
Proof.
  intros Hok Hq. destruct (decide (0 <= obe_Quantity order)) as [Hpos|Hneg].
  - assert (Ho : order_ok order) by (unfold order_ok; solve_i64).
    pose proof (match_order_spec now ob order sq Hok Ho) as H. cbv zeta in H.
    pose proof (greedy_rest (no_cross order) (obe_Quantity order) (resting (opposite ob order))) as Hrest.
    destruct (fill_greedy _ _ _) as [[fs r] rest]. destruct H as (_ & Hopp & _ & Hown & _).
    rewrite (in_book_sides e _ order), Hopp, Hown. intros (p & [Hin|Hin]).
    + destruct (Hrest _ _ Hin) as (e0 & Hin0 & Heq). exists e0. split.
      { right. rewrite (in_book_sides e0 _ order). eauto. }
      by destruct Heq as [->|[q ->]].
    + assert (Hcase : (p, e) ∈ resting (own ob order) \/ e = set_quantity_filled order r 0)
        by (destruct (0 <? r); [by apply add_to_side_entries|by left]).
      destruct Hcase as [Hold| ->].
      * exists e. split; [right|done]. rewrite (in_book_sides e _ order). eauto.
      * exists order. split; [by left|done].
  - destruct (match_order_nonpos now ob order sq) as (Hb & Hs & _); [lia|].
    unfold in_book. rewrite Hb, Hs. intros Hin. exists e. split; [by right|done].
Qed.

Lemma match_order_nonpos_events now ob order sq :
  obe_Quantity order <= 0 -> mr_events (MatchOrder now ob order sq) = [].
Proof.
  intros Hq. unfold MatchOrder. fold (is_buy order). rewrite matchOrder_loop.
  rewrite loop_stopped by (by apply step_stopped). done.
Qed.
End Books.

(** ** The invariant of a run *)

Section History.
Context {sl : Type -> Type} {Hsl : SkipList sl} {Hlaws : SkipListLaws sl}.
Context {L D W : Type} {HL : EventStore L} {HD : Table D EventOffsetCheckpoint}.
Implicit Types (me : MatchEngine sl L D W) (l : list MatchingEngineEvent).

(** The history has the submission of the order. *)
Definition submitted_in l (o : SubmitOrderMsg) : Prop :=
  exists now seq, OrderSubmitted (submitted_event now seq o) ∈ l.

(** An entry of the book of [symbol] comes from an order. *)
Definition entry_from l (symbol : string) (e : OrderBookEntry) : Prop :=
  exists o, submitted_in l o /\ so_Symbol o = symbol /\
    obe_OrderID e = so_OrderID o /\ obe_UserID e = so_UserID o /\ obe_Side e = so_Side o /\
    obe_Price e = parsePrice (so_Price o).

(** A trade is between two orders of the history. *)
Definition trade_between l (t : TradeExecutedEvent) : Prop :=
  exists taker maker, submitted_in l taker /\ submitted_in l maker /\
    so_Symbol taker = te_SymbolStr t /\ so_Symbol maker = te_SymbolStr t /\
    te_TakerOrderID t = so_OrderID taker /\ te_TakerUser t = so_UserID taker /\
    te_MakerOrderID t = so_OrderID maker /\ te_MakerUser t = so_UserID maker /\
    (so_Side maker =s "buy") = negb (so_Side taker =s "buy") /\
    te_Price t = parsePrice (so_Price maker) /\
    (if so_Side taker =s "buy" then te_Price t <= parsePrice (so_Price taker)
     else parsePrice (so_Price taker) <= te_Price t) /\
    0 < te_Quantity t.

Record engine_from l me (g : goroutines) : Prop := {
  ef_queues s q o : me_orderQueues me !! s = Some q -> o ∈ q -> so_Symbol o = s /\ submitted_in l o;
  ef_books : books_ok me;
  ef_entries s ob e : GetOrderBook s me = Some ob -> in_book e ob -> entry_from l s e;
  ef_submitting ev o : (ev, o) ∈ g_submitting g -> exists now seq, ev = submitted_event now seq o;
  ef_workers s trades item r n :
    g_workers g !! s = Some (trades, item, r, n) -> Forall (trade_between l) trades;
  ef_orders e : OrderSubmitted e ∈ l -> exists now seq o, e = submitted_event now seq o;
  ef_trades l1 t l2 : l = l1 ++ TradeExecuted t :: l2 -> trade_between l1 t;
  ef_cancels e : OrderCancelled e ∉ l }.

Lemma submitted_mono l l' o : submitted_in l o -> submitted_in (l ++ l') o.
Proof. intros (now & seq & H). exists now, seq. rewrite elem_of_app. by left. Qed.
Lemma entry_mono l l' s e : entry_from l s e -> entry_from (l ++ l') s e.
Proof. intros (o & H & ?). exists o. eauto using submitted_mono. Qed.
Lemma trade_mono l l' t : trade_between l t -> trade_between (l ++ l') t.
Proof. intros (x & y & Hx & Hy & ?). exists x, y. eauto using submitted_mono. Qed.
Hint Resolve submitted_mono entry_mono trade_mono : core.

(** A step that touches neither queues nor books nor the history. *)
Lemma engine_from_same l me me' g :
  me_orderQueues me' = me_orderQueues me -> me_orderBooks me' = me_orderBooks me ->
  engine_from l me g -> engine_from l me' g.
Proof.
  intros Hq Hb [H1 H2 H3 H4 H5 H6 H7 H8]. split; auto.
  - intros s q o. rewrite Hq. apply H1.
  - intros s ob. unfold GetOrderBook. rewrite Hb. apply H2.
  - intros s ob e. unfold GetOrderBook. rewrite Hb. apply H3.
Qed.

(** The history grows by a dispatched event. *)
Lemma engine_from_event l ev me g :
  engine_from l me g ->
  match ev with
  | OrderSubmitted e => exists now seq o, e = submitted_event now seq o
  | TradeExecuted t => trade_between l t
  | OrderCancelled _ => False
  end ->
  engine_from (l ++ [ev]) me g.
Proof.
  intros [H1 H2 H3 H4 H5 H6 H7 H8] Hev. split.
  - intros s q o Hs Ho. destruct (H1 s q o Hs Ho). auto.
  - exact H2.
  - intros s ob e Hs He. eauto.
  - exact H4.
  - intros s trades item r n Hs. eapply Forall_impl; [by eapply H5|]. auto.
  - intros e. rewrite elem_of_app, list_elem_of_singleton. intros [?| <-]; [by apply H6|done].
  - intros l1 t l2. destruct l2 as [|x l2 _] using rev_ind.
    + intros [-> ->]%app_inj_tail. exact Hev.
    + rewrite app_comm_cons, app_assoc. intros [Hl _]%app_inj_tail. by eapply H7.
  - intros e. rewrite elem_of_app, list_elem_of_singleton. intros [Ht| <-]; [by eapply H8|done].
Qed.

(** Changing the goroutines only. *)
Lemma engine_from_goroutines l me g g' :
  engine_from l me g ->
  (forall ev o, (ev, o) ∈ g_submitting g' -> exists now seq, ev = submitted_event now seq o) ->
  (forall s trades item r n, g_workers g' !! s = Some (trades, item, r, n) -> Forall (trade_between l) trades) ->
  engine_from l me g'.
Proof. intros [H1 H2 H3 H4 H5 H6 H7 H8] Hs Hw. by split. Qed.

Lemma new_book_empty symbol e : ~ in_book e (NewOrderBook (sl := sl) symbol).
Proof. intros (p & [H|H]); cbn in H; rewrite sl_new_elements in H; by apply not_elem_of_nil in H. Qed.

Lemma enqueue_from l pick o me me' g :
  enqueueOrder pick o me = Some me' -> submitted_in l o -> engine_from l me g -> engine_from l me' g.
Proof.
  intros He Ho [H1 H2 H3 H4 H5 H6 H7 H8].
  assert (Hq : forall s q x, me_orderQueues me' !! s = Some q -> x ∈ q ->
    (x = o /\ s = so_Symbol o) \/ exists q0, me_orderQueues me !! s = Some q0 /\ x ∈ q0).
  { intros s q x. unfold enqueueOrder in He.
    assert (Hd : x ∈ default [] (me_orderQueues me !! so_Symbol o) ->
      exists q0, me_orderQueues me !! so_Symbol o = Some q0 /\ x ∈ q0).
    { destruct (me_orderQueues me !! so_Symbol o) as [q0|]; cbn; [eauto|by intros ?%not_elem_of_nil]. }
    destruct (decide (s = so_Symbol o)) as [->|Hne];
      destruct (me_orderBooks me !! so_Symbol o); repeat case_match; simplify_eq; cbn;
      rewrite ?lookup_insert_eq, ?(lookup_insert_ne _ _ s) by done; intros Hs Hx; simplify_eq;
      rewrite ?elem_of_app, ?list_elem_of_singleton in Hx; naive_solver. }
  assert (Hb : forall s ob, GetOrderBook s me' = Some ob -> GetOrderBook s me = Some ob \/ ob = NewOrderBook s).
  { intros s ob. unfold GetOrderBook, enqueueOrder in *.
    destruct (decide (s = so_Symbol o)) as [->|Hne];
      destruct (me_orderBooks me !! so_Symbol o) eqn:Hb; repeat case_match; simplify_eq; cbn;
      rewrite ?lookup_insert_eq, ?(lookup_insert_ne _ _ s) by done; naive_solver. }
  split; auto.
  - intros s q x Hs Hx. destruct (Hq s q x Hs Hx) as [[-> ->]|(q0 & ? & ?)]; eauto.
  - by eapply enqueue_books.
  - intros s ob e Hs Hin. destruct (Hb s ob Hs) as [?| ->]; [eauto|by apply new_book_empty in Hin].
Qed.

(** A worker matches the next order of its queue. *)
Lemma matched_trades l now tn symbol ob item seq sq t :
  book_ok ob -> ob_symbol ob = symbol -> so_Symbol item = symbol -> submitted_in l item ->
  (forall e, in_book e ob -> entry_from l symbol e) ->
  t ∈ mr_events (MatchOrder tn ob (book_entry now symbol item seq) sq) -> trade_between l t.
Proof.
  intros Hok Hs Hsym Hitem Hent Ht. set (order := book_entry now symbol item seq) in *.
  assert (Hq : 0 <= obe_Quantity order).
  { destruct (decide (0 <= obe_Quantity order)); [done|].
    rewrite match_order_nonpos_events in Ht by lia. by apply not_elem_of_nil in Ht. }
  pose proof (parseQuantity_range (so_Quantity item)) as Hrange.
  destruct (trade_justified tn ob order sq t Hok) as
    (e & Hin & Hp & Hmo & Hmu & Hto & Htu & Hsy & Hside & Hqty & Hlim); [|done|].
  { unfold order_ok. change (obe_Quantity order) with (parseQuantity (so_Quantity item)) in *. solve_i64. }
  destruct (Hent e) as (maker & Hm & Hms & Hid & Hu & Hsd & Hpr).
  { rewrite (in_book_sides e ob order). eauto. }
  destruct (side_ok_entry _ _ _ _ (opposite_ok ob order Hok) Hin) as [_ _ _ Hes].
  exists item, maker. unfold is_buy in Hlim, Hes. change (obe_Side order) with (so_Side item) in *.
  change (obe_Price order) with (parsePrice (so_Price item)) in *.
  rewrite Hsd in Hes. split_and!; auto; try congruence. lia.
Qed.

Lemma match_from l now tn symbol ob item rest me me' trades r g :
  engine_from l me g -> me_orderQueues me !! symbol = Some (item :: rest) ->
  GetOrderBook symbol me = Some ob ->
  match_queued now tn symbol ob item (set_queue symbol rest me) = (me', trades, r) ->
  engine_from l me' (mkGoroutines (g_submitting g)
    (<[symbol := (trades, item, r, length trades)]> (g_workers g))) /\ me_pipeline me' = me_pipeline me.
Proof.
  intros [H1 H2 H3 H4 H5 H6 H7 H8] Hq Hob Hm.
  assert (Hbooks : books_ok me').
  { exact (match_queued_books now tn symbol ob item (set_queue symbol rest me) me' trades r H2 Hob Hm). }
  unfold match_queued in Hm. destruct (NextGlobalSeq _) as [seq sq].
  pose proof (f_equal (fun x => x.1.1) Hm) as Hme. pose proof (f_equal (fun x => x.1.2) Hm) as Htr.
  cbn [fst snd] in Hme, Htr. clear Hm. subst me' trades.
  destruct (H2 _ _ Hob) as [Hok Hsym]. destruct (H1 _ _ item Hq) as [Hi Hsub]; [left|].
  split; [|done]. split; auto.
  - intros s q o. cbn [set_queue set_sequencer set_book me_orderQueues].
    destruct (decide (s = symbol)) as [->|Hne].
    + rewrite lookup_insert_eq. intros [= <-] Ho. eapply H1; [exact Hq|by right].
    + rewrite lookup_insert_ne by done. apply H1.
  - intros s ob' e. unfold GetOrderBook. cbn [set_queue set_sequencer set_book me_orderBooks].
    destruct (decide (s = symbol)) as [->|Hne].
    + rewrite lookup_insert_eq. intros Heq Hin. apply (inj Some) in Heq as <-.
      apply match_order_in_book in Hin as (e0 & [->|Hin0] & (Hid & Hu & Hsd & Hp)); [| |done|apply parseQuantity_range].
      * exists item. by split_and!.
      * destruct (H3 _ _ _ Hob Hin0) as (o & ? & ? & ? & ? & ? & ?). exists o. split_and!; auto; congruence.
    + rewrite lookup_insert_ne by done. apply H3.
  - intros s ts it r' n. cbn [g_workers]. destruct (decide (s = symbol)) as [->|Hne].
    + rewrite lookup_insert_eq. intros Heq. apply (inj Some), (f_equal (fun x => x.1.1.1)) in Heq.
      cbn [fst] in Heq. subst ts. apply Forall_forall. intros t Ht.
      eapply matched_trades; eauto.
    + rewrite lookup_insert_ne by done. apply H5.
Qed.

Lemma process_trade_state now sch enum t me me' :
  processTrade now sch enum t me = Ok me' ->
  me_orderQueues me' = me_orderQueues me /\ me_orderBooks me' = me_orderBooks me /\
  exists ep err, ProcessEvent now sch enum (Some (TradeExecuted t)) (me_pipeline me) = Ok (ep, err) /\
                 me_pipeline me' = ep.
Proof.
  unfold processTrade. destruct (ProcessEvent _ _ _ _ _) as [[ep err]| |]; cbn [obind fst]; [|done|done].
  intros H. assert (Hs : me_orderQueues me' = me_orderQueues me /\ me_orderBooks me' = me_orderBooks me /\
    me_pipeline me' = ep); [|naive_solver].
  unfold broadcastTrade in H. cbn in H. repeat case_match; by simplify_eq.
Qed.

Lemma notify_state now item r n me :
  me_orderQueues (notify now item r n me) = me_orderQueues me /\
  me_orderBooks (notify now item r n me) = me_orderBooks me /\
  me_pipeline (notify now item r n me) = me_pipeline me.
Proof. unfold notify, notifyOrderFilled, notifyOrderPending. by repeat case_match. Qed.

(** One step of the engine: its pipeline processes at most one event. *)
Lemma engine_step_from l s s' :
  engine_step s s' -> engine_from l s.1 s.2 ->
  exists l', pipeline_trace l' (me_pipeline s.1) (me_pipeline s'.1) /\ engine_from (l ++ l') s'.1 s'.2.
Proof.
  destruct 1 as [me g order nn now o sq1 seq sq2 Hv Ha Hn|me g l1 ev o l2 now sch enum ep err me' pick Hg Hsch Hp He
    |me g symbol item rest ob now tn me' trades r Hq Hb Hw Hm|me g symbol t trades item r n now sch enum me' Hw Hsch Ht
    |me g symbol item r n now Hw]; cbn [fst snd]; intros Hf.
  - exists []. rewrite app_nil_r. split; [constructor|].
    eapply engine_from_goroutines; [by eapply engine_from_same, Hf| |apply (ef_workers _ _ _ Hf)].
    intros ev o'. cbn. rewrite elem_of_app, list_elem_of_singleton.
    intros [Hin|[= -> ->]]; [by apply (ef_submitting _ _ _ Hf)|eauto].
  - destruct (ef_submitting _ _ _ Hf ev o) as (now0 & seq & ->); [rewrite Hg; set_solver|].
    set (event := OrderSubmitted (submitted_event now0 seq o)) in *.
    assert (Hf1 : engine_from (l ++ [event]) me g) by (apply engine_from_event; cbn; eauto).
    exists [event]. split.
    + replace (me_pipeline me') with ep; [econstructor; [done|done|constructor]|].
      destruct err; [by simplify_eq|]. unfold enqueueOrder in He. repeat case_match; by simplify_eq.
    + apply (engine_from_goroutines _ _ g).
      * destruct err; [simplify_eq; by apply (engine_from_same _ me)|].
        eapply enqueue_from; [done| |by apply (engine_from_same _ me)].
        exists now0, seq. rewrite elem_of_app, list_elem_of_singleton. by right.
      * cbn. intros ev' o' Hin. apply (ef_submitting _ _ _ Hf). rewrite Hg. revert Hin. clear. set_solver.
      * apply (ef_workers _ _ _ Hf1).
  - destruct (match_from l now tn symbol ob item rest me me' trades r g Hf Hq Hb Hm) as [Hf' ->].
    exists []. rewrite app_nil_r. split; [constructor|done].
  - apply process_trade_state in Ht as (Hqs & Hbs & ep & err & Hp & Hep).
    pose proof (ef_workers _ _ _ Hf _ _ _ _ _ Hw) as Hts. inversion Hts as [|? ? Ht1 Ht2]; subst.
    exists [TradeExecuted t]. split; [econstructor; [done|exact Hp|constructor]|].
    assert (Hf1 : engine_from (l ++ [TradeExecuted t]) me g) by (by apply engine_from_event).
    eapply engine_from_goroutines; [by eapply engine_from_same, Hf1|apply (ef_submitting _ _ _ Hf)|].
    intros s ts it r' n'. cbn. destruct (decide (s = symbol)) as [->|Hne].
    + rewrite lookup_insert_eq. intros [= <- _ _ _]. eapply Forall_impl; [exact Ht2|]. auto.
    + rewrite lookup_insert_ne by done. apply (ef_workers _ _ _ Hf1).
  - destruct (notify_state now item r n me) as (Hqs & Hbs & ->).
    exists []. rewrite app_nil_r. split; [constructor|].
    eapply engine_from_goroutines; [by eapply engine_from_same, Hf|apply (ef_submitting _ _ _ Hf)|].
    intros s ts it r' n'. cbn. rewrite lookup_delete_Some. intros [_ Hs]. by eapply (ef_workers _ _ _ Hf).
Qed.

Lemma new_engine_from ep sq b u :
  engine_from [] (NewMatchEngine (sl := sl) (L := L) (D := D) (W := W) ep sq b u) (mkGoroutines [] ∅).
Proof.
  split.
  - intros s q o. cbn. by rewrite lookup_empty.
  - intros s ob. unfold GetOrderBook. cbn. by rewrite lookup_empty.
  - intros s ob e. unfold GetOrderBook. cbn. by rewrite lookup_empty.
  - by intros ev o ?%not_elem_of_nil.
  - intros s ts item r n. cbn. by rewrite lookup_empty.
  - by intros e ?%not_elem_of_nil.
  - intros l1 t l2 H. by destruct l1.
  - intros e. apply not_elem_of_nil.
Qed.

Lemma engine_run_from s s' l :
  rtc engine_step s s' -> engine_from l s.1 s.2 ->
  exists l', pipeline_trace l' (me_pipeline s.1) (me_pipeline s'.1) /\ engine_from (l ++ l') s'.1 s'.2.
Proof.
  intros Hr. revert l. induction Hr as [s|s1 s2 s3 Hstep _ IH]; intros l Hf.
  { exists []. rewrite app_nil_r. split; [constructor|done]. }
  destruct (engine_step_from _ _ _ Hstep Hf) as (l1 & Ht1 & Hf1). destruct (IH _ Hf1) as (l2 & Ht2 & Hf2).
  exists (l1 ++ l2). rewrite app_assoc. split; [by eapply trace_app|done].
Qed.

(** C3: in every interleaving of clients and workers, whatever is sent, the events
    the engine has processed are submissions and trades, and every trade is between
    two orders submitted before it: of its symbol, on opposite sides, at
    the maker's price, within the taker's limit, and for a positive quantity. *)
Theorem no_phantom_trades ep sq b u me g :
  rtc engine_step (NewMatchEngine (sl := sl) (L := L) (D := D) (W := W) ep sq b u, mkGoroutines [] ∅) (me, g) ->
  exists l, pipeline_trace l ep (me_pipeline me) /\
    (forall l1 t l2, l = l1 ++ TradeExecuted t :: l2 -> trade_between l1 t) /\
    (forall e, OrderCancelled e ∉ l).
Proof.
  intros Hr. destruct (engine_run_from _ _ [] Hr (new_engine_from ep sq b u)) as (l & Ht & Hf).
  exists l. split_and!; [exact Ht|apply (ef_trades _ _ _ Hf)|apply (ef_cancels _ _ _ Hf)].
Qed.
End History.

(** ** Witness *)

#[local] Instance trace_table : Table (ListTable EventOffsetCheckpoint) EventOffsetCheckpoint :=
  ListTable_ops (fun a b => cp_same a b).

(** A run with a trade in it. *)
Lemma no_phantom_trades_witness :
  exists s l, race = Some s /\ pipeline_trace l demo_pipe (me_pipeline s.1) /\
    (forall l1 t l2, l = l1 ++ TradeExecuted t :: l2 -> trade_between l1 t) /\
    (forall e, OrderCancelled e ∉ l).
Proof.
  destruct race as [[me g]|] eqn:Hr.
  - destruct (no_phantom_trades demo_pipe NewSequencer true true me g (race_reachable _ Hr)) as (l & H).
    exists (me, g), l. split; [done|exact H].
  - exfalso. assert (Hs : match race with Some _ => true | None => false end = true) by (vm_compute; reflexivity).
    by rewrite Hr in Hs.
Defined.
