(* ===== verification/Node.v ===== *)
(** * A node

    The engine with the three processors NewPartitionAwareMatchEngine registers
    (src/biz/service/partition_aware_match_engine.go): database, positions with the
    outbox, and WebSocket.  They write to one world: the tables behind the global
    database handle, and the messages given to the callbacks.  [handle] tells whether
    the handle of the database processor is not nil; the program passes nil.

    With the PostgreSQL log, which draws its own numbers from the sequencer of the
    engine, that sharing is left out (see EventLog.v). *)

From stdpp Require Import base gmap strings list sorting pretty.
From Stdlib Require Import ZArith Lia.
From S2P Require Import Prelude Money Events Database Sequencer SkipList OrderBook EventLog Checkpoint Pipeline MatchEngine Ownership Outbox Positions NodeId Partitions PartitionManager Orders WsProcessor Parts.

Local Open Scope go_scope.
Local Open Scope Z_scope.

Section Node.
Context {sl : Type -> Type} {Hsl : SkipList sl}.
Context {L D : Type} {HL : EventStore L} {HD : Table D EventOffsetCheckpoint}.
Context {Do Dt DP DO DT : Type} `{!Table Do Order} `{!Table Dt Trade}
        `{!Table DP Position} `{!Table DO OutboxEntry} `{!Table DT ProcessedTrade}.
Context (commit : store DP DO DT -> option error) (fresh_id : DP -> Z).

Record world := mkWorld {
  w_tables : Do * Dt;
  w_positions : PositionProcessor * store DP DO DT;
  w_ws : WebSocketProcessor }.

Definition tables_part : part world (Do * Dt) :=
  mkPart w_tables (fun d w => mkWorld d (w_positions w) (w_ws w)).
Definition positions_part : part world (PositionProcessor * store DP DO DT) :=
  mkPart w_positions (fun s w => mkWorld (w_tables w) s (w_ws w)).
Definition ws_part : part world WebSocketProcessor :=
  mkPart w_ws (fun wp w => mkWorld (w_tables w) (w_positions w) wp).

(** The processors as functions of their part.  The buffers of the database
    processor are never filled. *)
Definition db_handler (handle : bool) : handler (A := Do * Dt) := fun t ev d =>
  let? r := DatabaseProcessor_ProcessEvent t ev (NewDatabaseProcessor (if handle then Some d else None) 1000) in
  Ok (default d (dp_db r.1), r.2).

Definition position_handler : handler (A := PositionProcessor * store DP DO DT) := fun t ev a =>
  let? r := PositionProcessor_ProcessEvent commit (BuyPositionTx fresh_id) SellPositionTx t ev a.1 a.2 in
  Ok (r.1, r.2).

Definition ws_handler : handler (A := WebSocketProcessor) := fun _ ev wp =>
  Ok (WebSocketProcessor_ProcessEvent ev wp).

Section Processors.
Context (handle : bool) (clock : MatchingEngineEvent -> world -> Z).

Definition database_processor : EventProcessor world :=
  on_part tables_part "DatabaseProcessor" clock (db_handler handle).
Definition position_processor : EventProcessor world :=
  on_part positions_part "PositionProcessor" clock position_handler.
Definition websocket_processor : EventProcessor world :=
  on_part ws_part "WebSocketProcessor" clock ws_handler.

Definition node_processors : list (EventProcessor world) :=
  [database_processor; position_processor; websocket_processor].

(** The pipeline with its processors registered, one after the other. *)
Definition node_pipeline (cm : option (CheckpointManager D)) (log : L) (w : world) : EventPipeline L D world :=
  foldl (fun ep p => (RegisterProcessor (Some p) ep).1)
    (SetCheckpointManager cm (NewEventPipeline log w)) node_processors.
End Processors.

(** The world a new engine starts with: the tables as they are, the processors of
    positions and messages new. *)
Definition new_world (tables : Do * Dt) (s : store DP DO DT) (broadcaster unicaster : bool) : world :=
  mkWorld tables (NewPositionProcessorWithOutbox true true, s) (NewWebSocketProcessor broadcaster unicaster).

(** The constructor: without a node ID the engine runs as node 0; the database
    processor gets a nil handle. *)
Definition NewPartitionAwareMatchEngine {C} `{Consul C} (now : Z) (clock : MatchingEngineEvent -> world -> Z)
    (new_log : Sequencer -> L) (checkpoints : D) (tables : Do * Dt) (s : store DP DO DT)
    (pm : PartitionManager) (localAddr : string) (broadcaster unicaster : bool) (c : C)
    : C * outcome (PartitionAwareMatchEngine (sl := sl) (L := L) (D := D) (W := world)) :=
  let '(c', allocated) := GetOrAllocateNodeID now localAddr c in
  let nodeID := match allocated with Ok id => id | _ => 0 end in
  (c', match allocated with
       | Panic => Panic
       | _ =>
           let? sequencer := NewSequencerWithNodeID nodeID in
           let eventPipeline := node_pipeline false clock (Some (NewCheckpointManager checkpoints))
                                  (new_log sequencer) (new_world tables s broadcaster unicaster) in
           Ok (start_aware (NewMatchEngine eventPipeline sequencer broadcaster unicaster) pm localAddr)
       end).
End Node.
Arguments world Do Dt DP DO DT : clear implicits.

Section Laws.
Context {Do Dt DP DO DT : Type}.

#[global] Instance tables_laws : PartLaws (@tables_part Do Dt DP DO DT).
Proof. by intros d w. Qed.
#[global] Instance positions_laws : PartLaws (@positions_part Do Dt DP DO DT).
Proof. by intros d w. Qed.
#[global] Instance ws_laws : PartLaws (@ws_part Do Dt DP DO DT).
Proof. by intros d w. Qed.
#[global] Instance tables_positions : Separate (@tables_part Do Dt DP DO DT) positions_part.
Proof. by intros b w. Qed.
#[global] Instance tables_ws : Separate (@tables_part Do Dt DP DO DT) ws_part.
Proof. by intros b w. Qed.
#[global] Instance positions_tables : Separate (@positions_part Do Dt DP DO DT) tables_part.
Proof. by intros b w. Qed.
#[global] Instance positions_ws : Separate (@positions_part Do Dt DP DO DT) ws_part.
Proof. by intros b w. Qed.
#[global] Instance ws_tables : Separate (@ws_part Do Dt DP DO DT) tables_part.
Proof. by intros b w. Qed.
#[global] Instance ws_positions : Separate (@ws_part Do Dt DP DO DT) positions_part.
Proof. by intros b w. Qed.
End Laws.
