(* ===== verification/NodeProps.v ===== *)
(** * Properties of a node

    The engine, its books, the pipeline and the three processors together: what the
    tables, the positions and the clients see of a run, in every interleaving of
    clients, workers and processors. *)

From stdpp Require Import base gmap strings list sorting pretty relations.
From Stdlib Require Import ZArith Lia.
From S2P Require Import Prelude Money Events Database Sequencer SkipList OrderBook Matching BookSpec BookProps EventLog Checkpoint Pipeline PipelineProps MatchEngine MatchEngineProps Ownership Outbox OutboxProps Positions PositionsProps NodeId NodeIdProps Partitions PartitionManager Orders OrdersProps WsProcessor Parts EngineTrace Node.

Local Open Scope go_scope.
Local Open Scope Z_scope.

Section Props.
Context {sl : Type -> Type} {Hsl : SkipList sl} {Hlaws : SkipListLaws sl}.
Context {L D : Type} {HL : EventStore L} {HD : Table D EventOffsetCheckpoint}.
Context {Do Dt DP DO DT : Type} {To : Table Do Order} {Tt : Table Dt Trade}
        {Tp : Table DP Position} {Tx : Table DO OutboxEntry} {Tr : Table DT ProcessedTrade}.
Context {Lo : TableLaws Do Order} {Lt : TableLaws Dt Trade}
        {Lp : TableLaws DP Position} {Lx : TableLaws DO OutboxEntry}.
Context (commit : store DP DO DT -> option error) (fresh_id : DP -> Z).
Context (handle : bool) (clock : MatchingEngineEvent -> world Do Dt DP DO DT -> Z).

Abbreviation W := (world Do Dt DP DO DT).
Abbreviation node_pipe := (node_pipeline (L := L) (D := D) commit fresh_id handle clock).
Abbreviation node_procs := (node_processors commit fresh_id handle clock).
Abbreviation alone_db := (run_alone (db_handler handle)).
Abbreviation alone_positions := (run_alone (position_handler commit fresh_id)).
Abbreviation alone_ws := (run_alone ws_handler).

(** ** Each processor by itself *)

Lemma node_pipe_parts cm log w :
  ep_processors (node_pipe cm log w) = node_procs /\ ep_world (node_pipe cm log w) = w.
Proof. done. Qed.

Lemma owns_tables : owns tables_part "DatabaseProcessor" clock (db_handler handle) node_procs.
Proof.
  exists [position_processor commit fresh_id clock; websocket_processor clock]. split; [done|].
  repeat constructor; apply on_part_leaves; apply _.
Qed.

Lemma owns_positions :
  owns positions_part "PositionProcessor" clock (position_handler commit fresh_id) node_procs.
Proof.
  exists [database_processor handle clock; websocket_processor clock]. split; [apply Permutation_swap|].
  repeat constructor; apply on_part_leaves; apply _.
Qed.

Lemma owns_ws : owns ws_part "WebSocketProcessor" clock ws_handler node_procs.
Proof.
  exists [database_processor handle clock; position_processor commit fresh_id clock]. split.
  - symmetry. apply (Permutation_cons_append [_; _]).
  - repeat constructor; apply on_part_leaves; apply _.
Qed.

(** What a run of the node is for each of its parts. *)
Definition parts_run (l : list MatchingEngineEvent) (w w' : W) : Prop :=
  (exists ld, sublist ld.*2 l /\ alone_db ld (w_tables w) = Some (w_tables w')) /\
  (exists lp, sublist lp.*2 l /\ alone_positions lp (w_positions w) = Some (w_positions w')) /\
  (exists lw, sublist lw.*2 l /\ alone_ws lw (w_ws w) = Some (w_ws w')).

Lemma trace_parts l cm log w ep :
  pipeline_trace l (node_pipe cm log w) ep -> parts_run l w (ep_world ep).
Proof.
  intros Ht. destruct (node_pipe_parts cm log w) as [Hp Hw].
  pose proof (trace_projects _ _ _ _ _ _ _ (eq_ind_r (fun ps => owns _ _ _ _ ps) owns_tables Hp) Ht) as [_ H1].
  pose proof (trace_projects _ _ _ _ _ _ _ (eq_ind_r (fun ps => owns _ _ _ _ ps) owns_positions Hp) Ht) as [_ H2].
  pose proof (trace_projects _ _ _ _ _ _ _ (eq_ind_r (fun ps => owns _ _ _ _ ps) owns_ws Hp) Ht) as [_ H3].
  done.
Qed.

(** A node started on a world, in any interleaving. *)
Definition node_run cm log w sq b u me g : Prop :=
  rtc engine_step (NewMatchEngine (sl := sl) (node_pipe cm log w) sq b u, mkGoroutines [] ∅) (me, g).


(** ** The tables *)

Lemma db_handler_ok t ev d d' e :
  db_handler handle t ev d = Ok (d', e) -> db_handle t ev d = (d', e).
Proof.
  unfold db_handler, DatabaseProcessor_ProcessEvent. destruct handle; cbn [NewDatabaseProcessor dp_db]; [|done].
  destruct (db_handle t ev d) as [d1 e1]. cbn. by intros [= -> ->].
Qed.

Lemma insert_ignore_error {D0 R} `{TableLaws D0 R} same (r : R) (tb tb' : D0) o :
  db_insert_ignore same r tb = (tb', o) -> (forall b, o <> Ok b) -> db_rows tb' = db_rows tb.
Proof. intros Hi%db_insert_ignore_spec Ho. destruct o as [b| |]; [by destruct (Ho b)|done|done]. Qed.

(** An event that fails changes no row. *)
Lemma db_handle_error t ev (d d' : Do * Dt) e : db_handle t ev d = (d', Some e) -> same_rows d' d.
Proof.
  destruct d as [db dt], ev as [x|x|x]; cbn; unfold db_handleOrderSubmitted, db_handleTradeExecuted,
    db_handleOrderCancelled; cbn.
  - destruct (db_insert_ignore _ _ db) as [db' o] eqn:Hi.
    destruct o; intros [= <- _]; apply insert_ignore_error in Hi; try done;
      by split; unfold orders, trades; cbn; rewrite ?Hi.
  - destruct (db_insert_ignore _ _ dt) as [dt' o] eqn:Hi.
    destruct o; intros [= <- _]; apply insert_ignore_error in Hi; try done;
      by split; unfold orders, trades; cbn; rewrite ?Hi.
  - destruct (db_update _ _ db) as [db' o] eqn:Hu.
    destruct o; cbn; intros [= <- _]; apply db_update_err in Hu; try done;
      by split; unfold orders, trades; cbn; rewrite ?Hu.
Qed.

(** Where the rows of the tables come from. *)
Definition rows_from (d0 : Do * Dt) (l : list MatchingEngineEvent) (d : Do * Dt) : Prop :=
  keys_unique d /\
  (forall o, o ∈ orders d -> o ∈ orders d0 \/ exists t e, OrderSubmitted e ∈ l /\ o = stamped t (order_row e)) /\
  (forall r, r ∈ trades d -> r ∈ trades d0 \/ exists e, TradeExecuted e ∈ l /\ r = trade_row e).

Lemma rows_from_step d0 t ev past d d' :
  effect t ev d d' \/ same_rows d' d -> (forall e, ev <> OrderCancelled e) ->
  rows_from d0 past d -> rows_from d0 (past ++ [ev]) d'.
Proof.
  intros Heff Hc (Hk & Ho & Ht).
  assert (Hsame : same_rows d' d -> rows_from d0 (past ++ [ev]) d').
  { intros [Hso Hst]. unfold rows_from, keys_unique. rewrite Hso, Hst. split; [done|].
    setoid_rewrite elem_of_app. split; intros x; rewrite ?Hso, ?Hst; intros Hx;
      [destruct (Ho x Hx)|destruct (Ht x Hx)]; naive_solver. }
  destruct Heff as [Heff|]; [|by apply Hsame].
  assert (Hk' : keys_unique d') by (by eapply effect_keys).
  destruct Heff as [e -> _ Hso Hst|e -> _ Hso Hst|_ _ Hs|e -> _ _]; [| |by apply Hsame|by destruct (Hc e)].
  all: split; [done|]; setoid_rewrite elem_of_app; split; intros x; rewrite ?Hso, ?Hst, ?elem_of_cons.
  - intros Hx. destruct (Ho x Hx); naive_solver.
  - intros [->|Hx]; [right; exists e; split; [right; by apply list_elem_of_singleton|done]|].
    destruct (Ht x Hx); naive_solver.
  - intros [->|Hx]; [right; exists t, e; split; [right; by apply list_elem_of_singleton|done]|].
    destruct (Ho x Hx); naive_solver.
  - intros Hx. destruct (Ht x Hx); naive_solver.
Qed.

Lemma alone_rows ld d0 d :
  alone_db ld d0 = Some d -> keys_unique d0 -> (forall e, OrderCancelled e ∉ ld.*2) -> rows_from d0 ld.*2 d.
Proof.
  intros Hr Hk. revert Hr.
  apply (run_alone_ind (db_handler handle) (fun past d => (forall e, OrderCancelled e ∉ past) -> rows_from d0 past d)).
  - intros t ev past b b' e Hh%db_handler_ok IH Hc.
    apply (rows_from_step d0 t ev past b b').
    + destruct e; [right; by eapply db_handle_error|left; by apply handle_effect].
    + intros x ->. apply (Hc x). rewrite elem_of_app, list_elem_of_singleton. by right.
    + apply IH. intros x Hx. apply (Hc x). rewrite elem_of_app. by left.
  - intros _. split; [done|]. split; auto.
Qed.

Lemma rows_from_mono d0 l l' d : sublist l l' -> rows_from d0 l d -> rows_from d0 l' d.
Proof.
  intros Hs (Hk & Ho & Ht). pose proof (fun ev Hev => elem_of_sublist _ _ ev Hev Hs) as Hin.
  split; [done|]. split; intros x Hx; [destruct (Ho x Hx)|destruct (Ht x Hx)]; naive_solver.
Qed.


(** ** The positions *)

(** The quantity a trade moves, as the processor reads it from its text. *)
Definition moved (ev : MatchingEngineEvent) : Z :=
  match ev with
  | TradeExecuted e => match ParseQuantity (QuantityInNano_String (te_Quantity e)) with Ok q => q | _ => 0 end
  | _ => 0
  end.

Definition moves_well (ev : MatchingEngineEvent) : Prop :=
  forall e, ev = TradeExecuted e ->
    exists q, ParseQuantity (QuantityInNano_String (te_Quantity e)) = Ok q /\ 0 <= q.

Lemma moved_nonneg l : Forall moves_well l -> 0 <= Zsum (moved <$> l).
Proof.
  induction 1 as [|ev l Hev _ IH]; csimpl; [done|]. assert (0 <= moved ev); [|lia].
  destruct ev as [e|e|e]; cbn; try lia. by destruct (Hev e eq_refl) as (q & -> & ?).
Qed.

Lemma moved_sublist l l' : sublist l l' -> Forall moves_well l' -> Zsum (moved <$> l) <= Zsum (moved <$> l').
Proof.
  induction 1 as [|ev l l' _ IH|ev l l' _ IH]; [done|..]; intros Hall; inversion Hall as [|? ? Hev Hl]; subst;
    specialize (IH Hl); csimpl; [lia|].
  pose proof (moved_nonneg [ev]) as H. csimpl in H. specialize (H ltac:(by constructor)). lia.
Qed.

Section Conservation.
Context (Hfresh : forall d : DP, fresh_id d ∉ pos_ID <$> db_rows d) (m : Z) (Hm : 0 <= m).

(** Nothing is gained or lost, and no volume is negative. *)
Definition conserved (s0 : store DP DO DT) (total : Z) (a : PositionProcessor * store DP DO DT) : Prop :=
  pp_db a.1 = true /\ pp_outboxRepo a.1 = true /\ rows_ok (m + total) (db_rows (st_positions a.2)) /\
  forall symbol, volumes symbol (db_rows (st_positions a.2)) = volumes symbol (db_rows (st_positions s0)).

Lemma rows_ok_weaken k k' rows : rows_ok k rows -> k <= k' -> rows_ok k' rows.
Proof. intros [H1 H2] Hk. split; [done|]. eapply Forall_impl; [exact H2|]. cbn. lia. Qed.

Lemma conserved_step s0 total t ev a a' e :
  position_handler commit fresh_id t ev a = Ok (a', e) -> moves_well ev -> 0 <= total ->
  m + total + moved ev <= MaxI64 -> conserved s0 total a -> conserved s0 (total + moved ev) a'.
Proof.
  intros Hh Hw Ht Hmax (Hdb & Hrepo & Hrows & Hvol). destruct a as [pp s]. cbn in Hdb, Hrepo.
  unfold position_handler, PositionProcessor_ProcessEvent in Hh. cbn in Hh.
  destruct ev as [x|x|x]; cbn in Hh; [by simplify_eq; rewrite Z.add_0_r| |by simplify_eq; rewrite Z.add_0_r].
  rewrite Hdb, Hrepo in Hh. cbn in Hh. destruct (Hw x eq_refl) as (q & Hq & Hq0).
  assert (Hmv : moved (TradeExecuted x) = q) by (cbn; by rewrite Hq). rewrite Hmv in *.
  destruct (handleTradeExecutedTransactional _ _ _ _ _ _) as [[s1 err]| |] eqn:Htx; cbn in Hh; [|done|done].
  injection Hh as <- <-. destruct err as [err|].
  - assert (s1 = s) as ->.
    { revert Htx. unfold handleTradeExecutedTransactional.
      destruct (trade_tx _ _ _ _ s) as [[s3 [?|]]|?|]; cbn; [by intros [= ->]| |done|done].
      destruct (commit s3); by intros [= ->]. }
    unfold conserved. cbn. split_and!; auto. rewrite Z.add_assoc. eapply rows_ok_weaken; [done|lia].
  - destruct (transactional_conserves commit fresh_id t x s s1 q (m + total) Hfresh Htx Hq Hq0) as [Hr Hv];
      [lia|lia|done|].
    unfold conserved. cbn. split_and!; auto; [by rewrite Z.add_assoc|]. intros symbol. by rewrite Hv.
Qed.

Lemma alone_conserved lp s0 total a a' :
  alone_positions lp a = Some a' -> Forall moves_well lp.*2 -> 0 <= total ->
  m + total + Zsum (moved <$> lp.*2) <= MaxI64 -> conserved s0 total a ->
  conserved s0 (total + Zsum (moved <$> lp.*2)) a'.
Proof.
  revert total a. induction lp as [|[t ev] lp IH]; intros total a; cbn [run_alone]; csimpl.
  { intros [= <-] _ _ _. by rewrite Z.add_0_r. }
  destruct (position_handler commit fresh_id t ev a) as [[a1 e]| |] eqn:Hh; [|done|done].
  intros Hr Hall. inversion Hall as [|? ? Hev Hl]; subst. intros Ht Hmax Hc.
  pose proof (moved_nonneg _ Hl). pose proof (moved_nonneg [ev] ltac:(by constructor)) as Hev0. csimpl in Hev0.
  rewrite Z.add_assoc. apply (IH _ a1); auto; try lia. eapply conserved_step; eauto; lia.
Qed.
End Conservation.

(** C6: over every history of a node, whatever statements and commits fail, the
    volumes of the positions of a symbol add up to what they were, and none becomes
    negative, while the quantities of the trades fit an int64. *)
Theorem node_conserves_positions l cm log tables s b u ep m :
  pipeline_trace l (node_pipe cm log (new_world tables s b u)) ep ->
  (forall d : DP, fresh_id d ∉ pos_ID <$> db_rows d) ->
  Forall moves_well l -> 0 <= m -> m + Zsum (moved <$> l) <= MaxI64 -> rows_ok m (db_rows (st_positions s)) ->
  let s' := (w_positions (ep_world ep)).2 in
  rows_ok MaxI64 (db_rows (st_positions s')) /\
  forall symbol, volumes symbol (db_rows (st_positions s')) = volumes symbol (db_rows (st_positions s)).
Proof.
  intros Ht Hfresh Hw Hm Hmax Hok. destruct (trace_parts _ _ _ _ _ Ht) as (_ & (lp & Hs & Hr) & _).
  pose proof (moved_sublist _ _ Hs Hw). assert (Hwp : Forall moves_well lp.*2).
  { apply Forall_forall. intros ev Hev. rewrite Forall_forall in Hw. apply Hw. by eapply elem_of_sublist. }
  apply (alone_conserved Hfresh m Hm lp s 0) in Hr as (_ & _ & Hrows & Hvol); auto; [|lia|lia|].
  - split; [|done]. eapply rows_ok_weaken; [exact Hrows|lia].
  - unfold conserved. cbn. rewrite Z.add_0_r. done.
Qed.

(** ** The messages *)

Lemma alone_ws_run lw wp wp' : alone_ws lw wp = Some wp' -> wp' = ws_run lw.*2 wp.
Proof.
  revert wp. induction lw as [|[t ev] lw IH]; intros wp; [by intros [= <-]|].
  cbn [run_alone]. unfold ws_handler at 1.
  destruct (WebSocketProcessor_ProcessEvent ev wp) as [wp1 e] eqn:Hp. intros ->%IH.
  csimpl. unfold ws_run. cbn [foldl]. by rewrite Hp.
Qed.

(** What the processor of a node has sent in a run: the notifications of the first
    events of their ID, in order, among a subsequence of the events. *)
Theorem node_messages l cm log tables s b u ep :
  pipeline_trace l (node_pipe cm log (new_world tables s b u)) ep ->
  exists lw, sublist lw l /\
    wp_sent (w_ws (ep_world ep)) =
      List.filter (deliverable (NewWebSocketProcessor b u)) (concat (notifications <$> first_events [] lw)).
Proof.
  intros Ht. destruct (trace_parts _ _ _ _ _ Ht) as (_ & _ & (lw & Hs & Hr)).
  exists lw.*2. split; [done|]. apply alone_ws_run in Hr as ->.
  rewrite (ws_run_seen _ _ []); [done|]. intros ev. cbn. set_solver.
Qed.

(** ** The engine as it is built *)

Section Built.
Context {C : Type} `{!Consul C}.

Lemma built_engine now (new_log : Sequencer -> L) (checkpoints : D) tables s pm addr b u c c' pa :
  NewPartitionAwareMatchEngine (sl := sl) commit fresh_id now clock new_log checkpoints tables s pm addr b u c
    = (c', Ok pa) ->
  exists sequencer, seq_ok sequencer /\ localSeq sequencer = 0 /\
    pa_engine pa = NewMatchEngine (node_pipeline commit fresh_id false clock
      (Some (NewCheckpointManager checkpoints)) (new_log sequencer) (new_world tables s b u)) sequencer b u.
Proof.
  unfold NewPartitionAwareMatchEngine, NewSequencerWithNodeID.
  destruct (GetOrAllocateNodeID now addr c) as [c1 allocated].
  set (node := match allocated with Ok id => id | _ => 0 end). intros H.
  exists (mkSequencer (Z.land node 1023) 0 ∅). split; [split; cbn; [|unfold MaxU64; lia]|split; [done|]].
  - change 1023 with (Z.ones 10). rewrite Z.land_ones by lia.
    change (2 ^ 10) with 1024. change (Z.ones 10) with 1023.
    pose proof (Z.mod_pos_bound node 1024). lia.
  - destruct (1023 <? node); [by destruct allocated|]. by destruct allocated; simplify_eq/=.
Qed.

Lemma built_aware now (new_log : Sequencer -> L) (checkpoints : D) tables s pm addr b u c pa :
  (NewPartitionAwareMatchEngine (sl := sl) commit fresh_id now clock new_log checkpoints tables s pm addr b u c).2
    = Ok pa -> pa_pm pa = pm /\ pa_localAddr pa = addr.
Proof.
  unfold NewPartitionAwareMatchEngine, NewSequencerWithNodeID.
  destruct (GetOrAllocateNodeID now addr c) as [c1 allocated]. cbn.
  destruct (_ <? _); [by destruct allocated|]. by destruct allocated; intros; simplify_eq/=.
Qed.

(** The number of the first event of a sequencer is positive. *)
Lemma first_seq_positive nowNano order sq o sq1 :
  seq_ok sq -> localSeq sq = 0 -> assign_id nowNano order sq = (o, sq1) -> 0 < (NextGlobalSeq sq1).1.
Proof.
  intros Hok H0. assert (Hpos : forall x, seq_ok x -> localSeq x <= 1 -> 0 < (NextGlobalSeq x).1).
  { intros x Hx Hl. rewrite next_seq_value by (auto; lia). destruct Hx. cbn. nia. }
  unfold assign_id. destruct (so_OrderID order =s "").
  - rewrite next_seq_value by (auto; lia). intros [= _ <-]. destruct Hok. apply Hpos; cbn; [split; cbn|]; unfold MaxU64; lia.
  - intros [= _ <-]. apply Hpos; auto. lia.
Qed.

Lemma first_processor_panics now sch enum e cm log w log' :
  (forall ps, sch ps ≡ₚ ps) -> 0 < os_Seq e -> AppendEvent (Some (OrderSubmitted e)) log = (log', None) ->
  ProcessEvent now sch enum (Some (OrderSubmitted e))
    (node_pipeline commit fresh_id false clock (Some cm) log w) = Panic.
Proof.
  intros Hsch Hpos Happ. set (procs := node_processors commit fresh_id false clock).
  destruct (sch procs) as [|p ps] eqn:Hs.
  { specialize (Hsch procs). rewrite Hs in Hsch. by apply Permutation_nil in Hsch. }
  assert (Hp : p ∈ procs) by (rewrite <- (Hsch procs), Hs; left).
  unfold procs, node_processors in Hp. rewrite !elem_of_cons, elem_of_nil in Hp.
  destruct Hp as [->|[->|[->|[]]]].
  - eapply processor_panics; [exact Happ|exact Hs|done|done].
  - eapply nil_context_panics; [done|exact Happ|exact Hs|done|done].
  - eapply nil_context_panics; [done|exact Happ|exact Hs|done|]. cbn.
    assert (Hn : (ws_handleOrderSubmitted e (w_ws w)).2 = None)
      by (unfold ws_handleOrderSubmitted; repeat case_match; done).
    by rewrite Hn.
Qed.

(** An engine that NewPartitionAwareMatchEngine returns cannot accept an order:
    whatever the scheduling, the first valid order for a symbol of the node brings
    the process down once it is logged, as the database processor has no handle and
    the others record their progress with a nil context. *)
Theorem built_engine_panics now (new_log : Sequencer -> L) (checkpoints : D) tables s pm addr b u c c' pa pa' log'
    now1 sch enum nowNano pick order :
  NewPartitionAwareMatchEngine (sl := sl) commit fresh_id now clock new_log checkpoints tables s pm addr b u c
    = (c', Ok pa) ->
  pa_engine pa' = pa_engine pa -> so_Symbol order ∈ pa_watchedSymbols pa' ->
  valid_order order = true -> (forall ps, sch ps ≡ₚ ps) ->
  (forall ev, (AppendEvent (Some ev) (ep_eventLog (me_pipeline (pa_engine pa)))) = (log' ev, None)) ->
  pa_SubmitOrder now1 sch enum nowNano pick order pa' = Panic.
Proof.
  intros (sequencer & Hok & H0 & Heng)%built_engine Hpa Hw Hv Hsch Happ.
  unfold pa_SubmitOrder. rewrite bool_decide_eq_true_2 by done. cbn [negb].
  unfold SubmitOrder. rewrite Hpa, Hv. cbn [negb]. rewrite Heng in *. cbn [NewMatchEngine me_sequencer].
  destruct (assign_id nowNano order sequencer) as [o sq1] eqn:Ha.
  pose proof (first_seq_positive _ _ _ _ _ Hok H0 Ha) as Hpos.
  destruct (NextGlobalSeq sq1) as [seq sq2]. cbn [fst set_sequencer me_pipeline] in *.
  set (r := ProcessEvent _ _ _ _ _).
  assert (r = Panic) as ->; [|done]. eapply first_processor_panics; [done|done|apply Happ].
Qed.
End Built.
End Props.

(** ** Witnesses *)

#[local] Instance n_orders : Table (ListTable Order) Order := ListTable_ops same_order.
#[local] Instance n_orders_laws : TableLaws (ListTable Order) Order := ListTable_laws _.
#[local] Instance n_trades : Table (ListTable Trade) Trade := ListTable_ops same_trade.
#[local] Instance n_trades_laws : TableLaws (ListTable Trade) Trade := ListTable_laws _.
#[local] Instance n_positions : Table (ListTable Position) Position :=
  ListTable_ops (fun a b => pos_ID a =? pos_ID b).
#[local] Instance n_positions_laws : TableLaws (ListTable Position) Position := ListTable_laws _.
#[local] Instance n_outbox : Table (ListTable OutboxEntry) OutboxEntry := ListTable_ops oe_same.
#[local] Instance n_outbox_laws : TableLaws (ListTable OutboxEntry) OutboxEntry := ListTable_laws _.
#[local] Instance n_processed : Table (ListTable ProcessedTrade) ProcessedTrade := ListTable_ops pt_same.
#[local] Instance n_checkpoints : Table (ListTable EventOffsetCheckpoint) EventOffsetCheckpoint :=
  ListTable_ops (fun a b => cp_same a b).

Abbreviation demo_world :=
  (world (ListTable Order) (ListTable Trade) (ListTable Position) (ListTable OutboxEntry) (ListTable ProcessedTrade)).

Definition world0 : demo_world := new_world (mkListTable [], mkListTable []) start true true.
Definition demo_clock (ev : MatchingEngineEvent) (w : demo_world) : Z := 100.

(** Bob sells a quarter of his unit to Alice. *)
Definition bob_sells : SubmitOrderMsg := mkSubmitOrderMsg "o2" "BTC" "sell" "60" "0.25" "bob".
Definition alice_buys : SubmitOrderMsg := mkSubmitOrderMsg "o1" "BTC" "buy" "60" "0.25" "alice".

Definition demo_node : EventPipeline Memory.InMemoryEventLog (ListTable EventOffsetCheckpoint) demo_world :=
  node_pipeline (fun _ => None) next_id true demo_clock None Memory.NewInMemoryEventLog world0.

Definition demo_run : option (MatchEngine cmp_list Memory.InMemoryEventLog (ListTable EventOffsetCheckpoint)
    demo_world * goroutines) :=
  run_actions [ADraw bob_sells; ASubmit; AMatch "BTC"; ANotify "BTC"; ADraw alice_buys; ASubmit; AMatch "BTC";
               ATrade "BTC"; ANotify "BTC"]
    (NewMatchEngine demo_node NewSequencer true true, mkGoroutines [] ∅).

(** What the run leaves: two orders, one trade, two positions. *)
Lemma demo_run_rows :
  (fun s => let w := ep_world (me_pipeline s.1) in
     (o_OrderID <$> orders (w_tables w), t_TradeID <$> trades (w_tables w),
      (fun p => (pos_UserID p, pos_VolumeBigint p)) <$> db_rows (st_positions (w_positions w).2))) <$> demo_run =
  Some (["o2"; "o1"], ["BTC-o1-0"], [("bob", 75000000); ("alice", 25000000)]).
Proof. vm_compute. reflexivity. Qed.



(** The history of that run, event by event. *)
Definition demo_events : list MatchingEngineEvent :=
  [OrderSubmitted (submitted_event 0 1 bob_sells); OrderSubmitted (submitted_event 0 3 alice_buys);
   TradeExecuted (mkTradeExecutedEvent 5 100 "BTC-o1-0" "BTC" "o1" "o2" "alice" "bob" 6000000000 25000000 "buy")].

Definition after_events : EventPipeline Memory.InMemoryEventLog (ListTable EventOffsetCheckpoint) demo_world :=
  default demo_node (run_events demo_events demo_node).

Lemma is_Some_default {A} (o : option A) d : bool_decide (is_Some o) = true -> o = Some (default d o).
Proof. by destruct o. Qed.

Lemma node_conserves_positions_witness :
  (pos_VolumeBigint <$> db_rows (st_positions (w_positions (ep_world after_events)).2)) = [75000000; 25000000] /\
  rows_ok MaxI64 (db_rows (st_positions (w_positions (ep_world after_events)).2)) /\
  forall symbol, volumes symbol (db_rows (st_positions (w_positions (ep_world after_events)).2)) =
                 volumes symbol (db_rows (st_positions start)).
Proof.
  split; [vm_compute; reflexivity|].
  apply (node_conserves_positions (fun _ => None) next_id true demo_clock demo_events None
    Memory.NewInMemoryEventLog (mkListTable [], mkListTable []) start true true after_events 100000000).
  - apply run_events_trace, is_Some_default. vm_compute. reflexivity.
  - exact next_id_fresh.
  - repeat constructor; intros e He; simplify_eq. exists 25000000. split; [vm_compute; reflexivity|lia].
  - lia.
  - vm_compute. discriminate.
  - split; [apply NoDup_singleton|]. constructor; [simpl; lia|constructor].
Defined.

(** The engine of a node that registers with an empty Consul. *)
Definition built :=
  NewPartitionAwareMatchEngine (sl := cmp_list) (fun _ => None) next_id 10 demo_clock
    (fun _ => Memory.NewInMemoryEventLog) (mkListTable (R := EventOffsetCheckpoint) []) (mkListTable [], mkListTable [])
    start connected_manager "worker-0" true true (mkMemConsul []).

Lemma built_engine_panics_witness :
  exists c' pa, built = (c', Ok pa) /\
    pa_SubmitOrder 0 id (fun _ => []) 0 true bob_sells
      (mkPartitionAware (pa_engine pa) (pa_pm pa) (pa_localAddr pa) {["BTC"]} None false) = Panic.
Proof.
  assert (Hb : match built.2 with Ok _ => true | _ => false end = true) by (vm_compute; reflexivity).
  destruct built as [c' [pa| |]] eqn:H; [|done|done]. exists c', pa. split; [reflexivity|].
  set (log := ep_eventLog (me_pipeline (pa_engine pa))).
  apply (built_engine_panics _ _ _ _ _ _ _ _ _ _ _ _ _ c' pa _
    (fun ev => (Memory.AppendEvent (Some ev) log).1) 0 id (fun _ => []) 0 true bob_sells H).
  - reflexivity.
  - cbn. set_solver.
  - vm_compute. reflexivity.
  - reflexivity.
  - reflexivity.
Defined.
