(* ===== verification/KafkaWriters.v ===== *)
(** * Kafka writers

    Models src/biz/dal/kafka/init.go and the writers for dropped messages of
    src/server/websocket_server.go: the cache of one producer per topic and the
    clean-up of broker addresses, with what the code uses of net.SplitHostPort,
    net.JoinHostPort and strings.EqualFold.  A writer of kafka-go is its settings and
    an identity; connecting is an argument.

    The cache is loaded and stored in two steps of a sync.Map, so two goroutines can
    both miss.  The theorems show what a caller gets in every interleaving, that the
    address clean-up is stable, and that a race leaves a writer nobody closes. *)

From stdpp Require Import base gmap strings list sorting relations.
From Stdlib Require Import ZArith Lia.
From S2P Require Import Prelude Events.

Local Open Scope go_scope.
Local Open Scope Z_scope.

(** ** Addresses *)

Definition colon : Ascii.ascii := Ascii.ascii_of_nat 58.
Definition lbracket : Ascii.ascii := Ascii.ascii_of_nat 91.
Definition rbracket : Ascii.ascii := Ascii.ascii_of_nat 93.

(** [strings.IndexByte(s, c) >= 0]. *)
Fixpoint has_byte (c : Ascii.ascii) (s : string) : bool :=
  match s with
  | EmptyString => false
  | String x s' => bool_decide (x = c) || has_byte c s'
  end.

(** What is before and after the first and the last [c]. *)
Fixpoint cut (c : Ascii.ascii) (s : string) : option (string * string) :=
  match s with
  | EmptyString => None
  | String x s' => if bool_decide (x = c) then Some ("", s')
                   else (fun '(a, b) => (String x a, b)) <$> cut c s'
  end.

Fixpoint cut_last (c : Ascii.ascii) (s : string) : option (string * string) :=
  match s with
  | EmptyString => None
  | String x s' => match cut_last c s' with
                   | Some (a, b) => Some (String x a, b)
                   | None => if bool_decide (x = c) then Some ("", s') else None
                   end
  end.

Definition missingPort : error := "missing port in address".
Definition tooManyColons : error := "too many colons in address".

(** [net.SplitHostPort]. *)
Definition SplitHostPort (hostport : string) : outcome (string * string) :=
  match cut_last colon hostport with
  | None => Err missingPort
  | Some (before, port) =>
      match hostport with
      | EmptyString => Err missingPort
      | String c0 tail =>
          if bool_decide (c0 = lbracket) then
            match cut rbracket hostport with
            | None => Err "missing ']' in address"
            | Some (h, rest) =>
                if bool_decide (String.length h + 1 = String.length before)%nat then
                  if has_byte lbracket tail then Err "unexpected '[' in address"
                  else if has_byte rbracket rest then Err "unexpected ']' in address"
                  else match h with
                       | String _ host => Ok (host, port)
                       | EmptyString => Ok ("", port)
                       end
                else match rest with
                     | String c _ => if bool_decide (c = colon) then Err tooManyColons else Err missingPort
                     | EmptyString => Err missingPort
                     end
            end
          else if has_byte colon before then Err tooManyColons
          else if has_byte lbracket hostport then Err "unexpected '[' in address"
          else if has_byte rbracket hostport then Err "unexpected ']' in address"
          else Ok (before, port)
      end
  end.

Definition JoinHostPort (host port : string) : string :=
  if has_byte colon host then "[" +:+ host +:+ "]:" +:+ port else host +:+ ":" +:+ port.

(** [strings.EqualFold(s, t)] for a text [t] of lower-case ASCII letters: besides
    their capitals, the long s and the Kelvin sign fold to [s] and [k]. *)
Fixpoint EqualFold (s t : string) : bool :=
  match s, t with
  | EmptyString, EmptyString => true
  | String a (String b (String c s') as s2) as s1, String x t' =>
      let long_s := bool_decide (a = Ascii.ascii_of_nat 197) && bool_decide (b = Ascii.ascii_of_nat 191) in
      let kelvin := bool_decide (a = Ascii.ascii_of_nat 226) && bool_decide (b = Ascii.ascii_of_nat 132)
                    && bool_decide (c = Ascii.ascii_of_nat 170) in
      if long_s then bool_decide (x = Ascii.ascii_of_nat 115) && EqualFold (String c s') t'
      else if kelvin then bool_decide (x = Ascii.ascii_of_nat 107) && EqualFold s' t'
      else bool_decide (lower_ascii a = x) && EqualFold s2 t'
  | String a (String b EmptyString as s2), String x t' =>
      if bool_decide (a = Ascii.ascii_of_nat 197) && bool_decide (b = Ascii.ascii_of_nat 191)
      then bool_decide (x = Ascii.ascii_of_nat 115) && bool_decide (t' = "")
      else bool_decide (lower_ascii a = x) && EqualFold s2 t'
  | String a EmptyString, String x t' => bool_decide (lower_ascii a = x) && bool_decide (t' = "")
  | _, _ => false
  end.

Definition normalize_broker (b : string) : string :=
  match SplitHostPort b with
  | Ok (host, port) => if EqualFold host "localhost" then JoinHostPort "127.0.0.1" port else b
  | _ => b
  end.

Definition normalizeBrokers (brokers : list string) : list string := normalize_broker <$> brokers.

(** ** The cache *)

(** A value of the cache: a writer of kafka-go or another MessageSender. *)
Inductive sender : Type :=
| KafkaWriter (id : nat)
| OtherSender (id : nat).

#[global] Instance sender_eq : EqDecision sender.
Proof. solve_decision. Defined.

Record Writer := mkWriter {
  wr_Addr : list string;
  wr_Topic : string;
  wr_Async : bool;
  wr_BatchTimeout : Z;
  wr_RequiredAcks : Z }.

(** RequireAll. *)
Definition RequireAll : Z := -1.

Record kafka := mkKafka {
  k_writers : gmap string sender;
  k_heap : gmap nat Writer;
  k_next : nat;
  k_closed : gset nat }.
Implicit Types (k : kafka).

Definition no_writers : kafka := mkKafka ∅ ∅ 0 ∅.

Definition topic_writer (brokers : list string) (topic : string) : Writer :=
  mkWriter (normalizeBrokers brokers) topic true 10000000 RequireAll.

(** A new writer, stored in the cache. *)
Definition store_writer (w : Writer) (topic : string) k : kafka * sender :=
  let s := KafkaWriter (k_next k) in
  (mkKafka (<[topic := s]> (k_writers k)) (<[k_next k := w]> (k_heap k)) (S (k_next k)) (k_closed k), s).

Definition GetWriter (confBrokers : list string) (topic : string) k : outcome (kafka * sender) :=
  match k_writers k !! topic with
  | Some s => Ok (k, s)
  | None =>
      let brokers := normalizeBrokers confBrokers in
      if (length brokers =? 0)%nat then Panic
      else Ok (store_writer (mkWriter brokers topic true 10000000 RequireAll) topic k)
  end.

(** The writer for dropped messages: the addresses as configured, the zero values of
    the other settings. *)
Definition getDroppedKafkaWriter (confBrokers : list string) (topic : string) k : kafka * sender :=
  match k_writers k !! topic with
  | Some s => (k, s)
  | None => store_writer (mkWriter confBrokers topic true 0 0) topic k
  end.

(** [topics] is the map's values in the order of the iteration. *)
Fixpoint InitWriters (confBrokers topics : list string) k : outcome kafka :=
  match topics with
  | [] => Ok k
  | topic :: rest => let? r := GetWriter confBrokers topic k in InitWriters confBrokers rest r.1
  end.

Definition TestKafkaConnection (dial : string -> option error) (confBrokers : list string) : outcome unit :=
  match confBrokers with
  | [] => Panic
  | b :: _ => match dial b with Some _ => Panic | None => Ok () end
  end.

Definition kafka_Init (dial : string -> option error) (confBrokers topics : list string) k : outcome kafka :=
  let? _ := TestKafkaConnection dial confBrokers in InitWriters confBrokers topics k.

(** The writers of the cache. *)
Definition writer_ids (m : gmap string sender) : gset nat :=
  map_fold (fun _ s ids => match s with KafkaWriter i => {[i]} ∪ ids | OtherSender _ => ids end) ∅ m.

Definition CloseAllWriters k : kafka :=
  mkKafka (k_writers k) (k_heap k) (k_next k) (writer_ids (k_writers k) ∪ k_closed k).

Definition ResetWriters k : kafka :=
  mkKafka ∅ (k_heap k) (k_next k) (writer_ids (k_writers k) ∪ k_closed k).

(** *** Callers in parallel *)

(** [kc_missed] are the calls between their load and their store; [kc_got] is what
    calls have returned. *)
Record callers := mkCallers {
  kc_kafka : kafka;
  kc_missed : list string;
  kc_got : list (string * sender) }.

Inductive writer_step (confBrokers : list string) : callers -> callers -> Prop :=
| step_hit k missed got topic s :
    k_writers k !! topic = Some s ->
    writer_step confBrokers (mkCallers k missed got) (mkCallers k missed (got ++ [(topic, s)]))
| step_miss k missed got topic :
    k_writers k !! topic = None -> confBrokers <> [] ->
    writer_step confBrokers (mkCallers k missed got) (mkCallers k (missed ++ [topic]) got)
| step_store k l1 topic l2 got k' s :
    store_writer (topic_writer confBrokers topic) topic k = (k', s) ->
    writer_step confBrokers (mkCallers k (l1 ++ topic :: l2) got) (mkCallers k' (l1 ++ l2) (got ++ [(topic, s)]))
| step_reset k missed got :
    writer_step confBrokers (mkCallers k missed got) (mkCallers (ResetWriters k) missed got).

(** ** Properties of the addresses *)

Lemma cut_last_spec c s a b : cut_last c s = Some (a, b) -> s = a +:+ String c b /\ has_byte c b = false.
Proof.
  revert a b. induction s as [|x s IH]; intros a b; cbn; [done|].
  destruct (cut_last c s) as [[a1 b1]|] eqn:Hc.
  - intros [= <- <-]. destruct (IH a1 b1 eq_refl) as [-> Hb]. done.
  - case_bool_decide as Hx; [|done]. intros [= <- <-]. subst x. split; [done|].
    clear IH. induction s as [|y s IH]; [done|]. cbn in *.
    destruct (cut_last c s) as [[? ?]|]; [done|]. case_bool_decide; [done|]. by apply IH.
Qed.

Lemma cut_last_none c s : has_byte c s = false -> cut_last c s = None.
Proof. induction s as [|x s IH]; cbn; [done|]. intros [-> ?]%orb_false_iff. by rewrite IH. Qed.

Lemma cut_last_app c a b : has_byte c b = false -> cut_last c (a +:+ String c b) = Some (a, b).
Proof.
  intros Hb. induction a as [|x a IH].
  - change ("" +:+ String c b) with (String c b). cbn [cut_last].
    by rewrite cut_last_none, bool_decide_eq_true_2.
  - change (String x a +:+ String c b) with (String x (a +:+ String c b)). cbn [cut_last]. by rewrite IH.
Qed.

(** The port of an address has no colon. *)
Lemma split_port b host port : SplitHostPort b = Ok (host, port) -> has_byte colon port = false.
Proof.
  unfold SplitHostPort. destruct (cut_last colon b) as [[before p]|] eqn:Hc; [|done].
  apply cut_last_spec in Hc as [_ Hp]. intros H. by repeat case_match; simplify_eq.
Qed.

(** An address without brackets is cut at its last colon. *)
Lemma split_plain c tail host port :
  SplitHostPort (String c tail) = Ok (host, port) -> c <> lbracket ->
  cut_last colon (String c tail) = Some (host, port).
Proof.
  unfold SplitHostPort. intros H Hc. rewrite (bool_decide_eq_false_2 (c = lbracket) Hc) in H.
  destruct (cut_last colon (String c tail)) as [[before p]|]; [|done].
  by repeat case_match; simplify_eq.
Qed.

Lemma normalize_loopback port :
  has_byte colon port = false -> normalize_broker ("127.0.0.1:" +:+ port) = "127.0.0.1:" +:+ port.
Proof.
  intros Hp. unfold normalize_broker.
  destruct (SplitHostPort ("127.0.0.1:" +:+ port)) as [[h p]| |] eqn:Hs; [|done|done].
  apply (split_plain (Ascii.ascii_of_nat 49) ("27.0.0.1:" +:+ port)) in Hs; [|done].
  pose proof (cut_last_app colon "127.0.0.1" port Hp) as Hc.
  change ("127.0.0.1" +:+ String colon port) with (String (Ascii.ascii_of_nat 49) ("27.0.0.1:" +:+ port)) in Hc.
  rewrite Hs in Hc. injection Hc as -> ->.
  assert (He : EqualFold "127.0.0.1" "localhost" = false) by (vm_compute; reflexivity). by rewrite He.
Qed.

(** Cleaning the addresses twice is cleaning them once, and it keeps their number. *)
Theorem normalize_stable brokers :
  normalizeBrokers (normalizeBrokers brokers) = normalizeBrokers brokers /\
  length (normalizeBrokers brokers) = length brokers.
Proof.
  unfold normalizeBrokers. split; [|by rewrite length_fmap]. rewrite <- list_fmap_compose.
  apply list_fmap_ext. intros _ b _. cbn. unfold normalize_broker at 2 3.
  destruct (SplitHostPort b) as [[host port]| |] eqn:Hs; unfold normalize_broker; rewrite ?Hs; try done.
  destruct (EqualFold host "localhost") eqn:He; [|by rewrite Hs, He].
  by apply normalize_loopback, (split_port b host).
Qed.

(** ** Properties of the cache *)

Section Cache.
Context (confBrokers : list string).

(** The cache and what was handed out hold writers for their topics. *)
Record writers_ok (c : callers) : Prop := {
  wk_cached topic s : k_writers (kc_kafka c) !! topic = Some s ->
    exists i, s = KafkaWriter i /\ k_heap (kc_kafka c) !! i = Some (topic_writer confBrokers topic);
  wk_got topic s : (topic, s) ∈ kc_got c ->
    exists i, s = KafkaWriter i /\ k_heap (kc_kafka c) !! i = Some (topic_writer confBrokers topic);
  wk_heap i w : k_heap (kc_kafka c) !! i = Some w -> (i < k_next (kc_kafka c))%nat;
  wk_missed : kc_missed c <> [] -> confBrokers <> [] }.

Lemma writer_step_ok c c' : writer_step confBrokers c c' -> writers_ok c -> writers_ok c'.
Proof.
  destruct 1 as [k missed got topic s Hs|k missed got topic Hs Hb|k l1 topic l2 got k' s Hst|k missed got];
    intros [H1 H2 H3 H4]; cbn in *.
  - split; cbn; auto. intros t s'. rewrite elem_of_app, list_elem_of_singleton.
    intros [Hin|[= -> ->]]; [by apply H2|by apply H1].
  - split; auto.
  - injection Hst as <- <-.
    assert (Hold : forall i w, k_heap k !! i = Some w ->
      <[k_next k := topic_writer confBrokers topic]> (k_heap k) !! i = Some w).
    { intros i w Hi. rewrite lookup_insert_ne; [done|]. specialize (H3 i w Hi). lia. }
    split; cbn.
    + intros t s'. destruct (decide (t = topic)) as [->|Hne].
      * rewrite lookup_insert_eq. intros [= <-]. eexists. split; [done|]. by rewrite lookup_insert_eq.
      * rewrite lookup_insert_ne by done. intros (i & -> & Hi)%H1. eauto.
    + intros t s'. rewrite elem_of_app, list_elem_of_singleton. intros [(i & -> & Hi)%H2|[= -> ->]]; [eauto|].
      eexists. split; [done|]. by rewrite lookup_insert_eq.
    + intros i w. destruct (decide (i = k_next k)) as [->|Hne]; [lia|].
      rewrite lookup_insert_ne by done. intros Hi%H3. lia.
    + intros _. apply H4. by destruct l1.
  - split; cbn; auto. intros t s'. by rewrite lookup_empty.
Qed.

(** In every interleaving of callers, a call for a topic returns a writer of that
    topic, to the cleaned addresses, waiting for all replicas. *)
Theorem writers_for_topic c topic s :
  rtc (writer_step confBrokers) (mkCallers no_writers [] []) c -> (topic, s) ∈ kc_got c ->
  exists i, s = KafkaWriter i /\ k_heap (kc_kafka c) !! i = Some (topic_writer confBrokers topic).
Proof.
  intros Hr. assert (H0 : writers_ok (mkCallers no_writers [] [])).
  { split; cbn; [intros t s0; by rewrite lookup_empty|by intros t s0 ?%not_elem_of_nil|
      intros i w; by rewrite lookup_empty|done]. }
  assert (Hok : writers_ok c) by (induction Hr; eauto using writer_step_ok). apply (wk_got _ Hok).
Qed.

(** A call that hits or misses alone does what the steps do. *)
Lemma get_writer_steps topic k k' s got :
  GetWriter confBrokers topic k = Ok (k', s) ->
  rtc (writer_step confBrokers) (mkCallers k [] got) (mkCallers k' [] (got ++ [(topic, s)])).
Proof.
  unfold GetWriter. destruct (k_writers k !! topic) as [s0|] eqn:Hs.
  - intros [= <- <-]. by apply rtc_once, step_hit.
  - destruct (Nat.eqb_spec (length (normalizeBrokers confBrokers)) 0) as [|Hl]; [done|]. intros Hst.
    eapply rtc_l; [apply (step_miss _ _ [] _ topic)|]; [done| |].
    { intros ->. by apply Hl. }
    apply rtc_once. apply (step_store _ _ [] topic []). injection Hst as <- <-. reflexivity.
Qed.

Lemma writer_ids_spec m i : i ∈ writer_ids m <-> exists topic, m !! topic = Some (KafkaWriter i).
Proof.
  unfold writer_ids. induction m as [|t s m Ht IH] using map_ind.
  - rewrite map_fold_empty. setoid_rewrite lookup_empty. set_solver.
  - rewrite map_fold_insert_L; [|by intros ? ? [?|?] [?|?] y _ _ _; set_solver|done].
    setoid_rewrite lookup_insert_Some. destruct s as [j|j]; rewrite ?elem_of_union, ?elem_of_singleton, IH; split.
    + intros [->|[topic Hm]]; [by exists t; left|]. exists topic. right. split; [|done]. intros ->. by rewrite Ht in Hm.
    + intros [topic [[<- [= ->]]|[_ Hm]]]; [by left|right; by exists topic].
    + intros [topic Hm]. exists topic. right. split; [|done]. intros ->. by rewrite Ht in Hm.
    + intros [topic [[_ [=]]|[_ Hm]]]. by exists topic.
Qed.

(** After a reset no writer of the old cache is open, and a call returns an open one. *)
Theorem reset_reopens topic k k' s :
  (forall i, i ∈ k_closed k -> (i < k_next k)%nat) -> (forall t i, k_writers k !! t = Some (KafkaWriter i) -> (i < k_next k)%nat) ->
  GetWriter confBrokers topic (ResetWriters k) = Ok (k', s) ->
  (forall t i, k_writers k !! t = Some (KafkaWriter i) -> i ∈ k_closed k') /\
  exists i, s = KafkaWriter i /\ i ∉ k_closed k'.
Proof.
  intros Hc Hw. unfold GetWriter. cbn. rewrite lookup_empty. destruct (_ =? 0)%nat; [done|].
  intros [= <- <-]. cbn. split.
  - intros t i Hi. rewrite elem_of_union, writer_ids_spec. left. eauto.
  - eexists. split; [done|]. rewrite elem_of_union, writer_ids_spec. intros [[t Hi]|Hi]; [apply Hw in Hi|apply Hc in Hi]; lia.
Qed.
End Cache.

(** Two first calls for a topic in parallel get different writers; the second store
    replaces the first, and closing all writers leaves the first one open. *)
Theorem race_leaks_writer :
  exists c, rtc (writer_step ["localhost:9092"]) (mkCallers no_writers [] []) c /\
    kc_got c = [("trades", KafkaWriter 0); ("trades", KafkaWriter 1)] /\
    0%nat ∉ k_closed (CloseAllWriters (kc_kafka c)).
Proof.
  eexists. split; [|split].
  - eapply rtc_l; [by apply (step_miss _ _ _ _ "trades")|].
    eapply rtc_l; [by apply (step_miss _ _ _ _ "trades")|].
    eapply rtc_l; [eapply (step_store _ _ [] "trades"); reflexivity|].
    eapply rtc_l; [eapply (step_store _ _ [] "trades"); reflexivity|]. apply rtc_refl.
  - reflexivity.
  - cbn. rewrite elem_of_union, writer_ids_spec. intros [[t Hi]|Hi]; [|set_solver].
    rewrite !lookup_insert_Some, lookup_empty in Hi. naive_solver.
Qed.
