(* ===== verification/Compensate.v ===== *)
(** * The store of orders to compensate

    Models src/biz/dal/rocksdb/compensate.go and its stub.go: orders kept on disk to
    be retried, under their IDs.  RocksDB is the class [RocksDB] with what the code
    relies on as [RocksDBLaws]; a value is the tree of a JSON document or bytes that
    are none.  The package's variables are the state.

    The theorems show that what is saved is what is read back, whatever else is in the
    store, and what a failed initialisation does. *)

From stdpp Require Import base gmap strings list sorting.
From Stdlib Require Import ZArith Lia.
From S2P Require Import Prelude Events.

Local Open Scope go_scope.
Local Open Scope Z_scope.

(** A nil OrderJSON is [None]. *)
Record CompensateOrder := mkCompensateOrder {
  co_OrderJSON : option json;
  co_RetryCount : Z;
  co_LastRetryTime : Z }.

Definition MaxRetryCount : Z := 5.

(** ** JSON *)

Definition json_of_compensate (c : CompensateOrder) : json :=
  JObj [("order_json", default JNull (co_OrderJSON c)); ("retry_count", JNum (co_RetryCount c));
        ("last_retry_time", JNum (co_LastRetryTime c))].

Definition compensate_fields : field_table CompensateOrder :=
  [("order_json", fun j '(mkCompensateOrder a b c) => Some (mkCompensateOrder (Some j) b c));
   ("retry_count", fun j '(mkCompensateOrder a b c) =>
      (fun v => mkCompensateOrder a v c) <$> dec_int64 b j);
   ("last_retry_time", fun j '(mkCompensateOrder a b c) =>
      (fun v => mkCompensateOrder a b v) <$> dec_int64 c j)].

Inductive raw : Type :=
| Document (j : json)
| Garbage.

(** The value of an entry; an entry that does not decode is left out. *)
Definition compensate_of_raw (v : raw) : option CompensateOrder :=
  match v with
  | Garbage => None
  | Document j => match json_Unmarshal compensate_fields (mkCompensateOrder None 0 0) j with
                  | Ok c => Some c
                  | _ => None
                  end
  end.

(** ** RocksDB *)

Class RocksDB (B : Type) := {
  rdb_Put : string -> raw -> B -> B * option error;
  rdb_Delete : string -> B -> B * option error;
  rdb_Close : B -> B;
  (** What an iterator passes from the first key on, and its error. *)
  rdb_iter : B -> list (string * raw);
  rdb_iter_err : B -> option error;
  rdb_view : B -> gmap string raw }.

Class RocksDBLaws (B : Type) {H : RocksDB B} : Prop := {
  put_stores key v b b' : rdb_Put key v b = (b', None) -> rdb_view b' = <[key := v]> (rdb_view b);
  put_fails_keeps key v b b' e : rdb_Put key v b = (b', Some e) -> rdb_view b' = rdb_view b;
  delete_removes key b b' : rdb_Delete key b = (b', None) -> rdb_view b' = delete key (rdb_view b);
  delete_fails_keeps key b b' e : rdb_Delete key b = (b', Some e) -> rdb_view b' = rdb_view b;
  iter_prefix b : NoDup (rdb_iter b).*1 /\ list_to_map (rdb_iter b) ⊆ rdb_view b;
  iter_all b : rdb_iter_err b = None -> list_to_map (rdb_iter b) = rdb_view b }.

(** ** The package *)

Section Package.
Context {B : Type} `{!RocksDB B}.

Record package := mkPackage {
  cs_db : option B;
  cs_path : string;
  cs_done : bool }.
Implicit Types (cs : package).

Definition fresh_package : package := mkPackage None "data/compensate_rocksdb" false.

Definition set_db (b : B) cs : package := mkPackage (Some b) (cs_path cs) (cs_done cs).

Definition compensate_path (getenv : string -> string) (path : string) cs : string :=
  if negb (path =s "") then path
  else if negb (getenv "COMPENSATE_ROCKSDB_PATH" =s "") then getenv "COMPENSATE_ROCKSDB_PATH"
  else cs_path cs.

(** The body of the once runs once; [err] is set only there. *)
Definition Init (openDb : string -> B + error) (getenv : string -> string) (path : string) cs
    : package * option error :=
  if cs_done cs then (cs, None)
  else
    let p := compensate_path getenv path cs in
    match openDb p with
    | inl b => (mkPackage (Some b) p true, None)
    | inr e => (mkPackage None p true, Some e)
    end.

(** A call on the store; a nil store panics. *)
Definition on_db (f : B -> B * option error) cs : outcome (package * option error) :=
  match cs_db cs with
  | None => Panic
  | Some b => let '(b', e) := f b in Ok (set_db b' cs, e)
  end.

(** [order] is what json.Marshal makes of the order. *)
Definition SaveOrderCompensate (now : Z) (orderID : string) (order : outcome json) cs
    : outcome (package * option error) :=
  match order with
  | Panic => Panic
  | Err e => Ok (cs, Some e)
  | Ok orderJSON =>
      let comp := mkCompensateOrder (Some orderJSON) 0 now in
      on_db (rdb_Put orderID (Document (json_of_compensate comp))) cs
  end.

(** The caller's order is changed in place, whatever the store answers. *)
Definition UpdateOrderCompensateRetry (now : Z) (orderID : string) (comp : option CompensateOrder) cs
    : outcome (package * CompensateOrder * option error) :=
  match comp with
  | None => Panic
  | Some c =>
      let c' := mkCompensateOrder (co_OrderJSON c) (i64 (co_RetryCount c + 1)) now in
      let? r := on_db (rdb_Put orderID (Document (json_of_compensate c'))) cs in
      Ok (r.1, c', r.2)
  end.

(** One pass of the iterator. *)
Definition collect_step (result : gmap string CompensateOrder) (kv : string * raw) : gmap string CompensateOrder :=
  match compensate_of_raw kv.2 with
  | Some comp => <[kv.1 := comp]> result
  | None => result
  end.

(** The error is always nil. *)
Definition GetAllOrderCompensates cs : outcome (gmap string CompensateOrder) :=
  match cs_db cs with
  | None => Panic
  | Some b => Ok (foldl collect_step ∅ (rdb_iter b))
  end.

Definition DeleteOrderCompensate (orderID : string) cs : outcome (package * option error) :=
  on_db (rdb_Delete orderID) cs.

Definition CloseCompensateDB cs : package :=
  match cs_db cs with Some b => set_db (rdb_Close b) cs | None => cs end.
End Package.
Arguments package B : clear implicits.

(** The stub of a build without RocksDB. *)
Module Stub.
Definition Init (path : string) : unit := ().
Definition SaveOrderCompensate (orderID : string) (data : json) : option error := None.
Definition GetAllOrderCompensates : outcome (gmap string CompensateOrder) := Ok ∅.
Definition DeleteOrderCompensate (orderID : string) : option error := None.
Definition UpdateOrderCompensateRetry (orderID : string) (data : json) : option error := None.
End Stub.

(** ** Properties *)

Lemma compensate_json_id j count time :
  is_i64 count -> is_i64 time ->
  compensate_of_raw (Document (json_of_compensate (mkCompensateOrder (Some j) count time))) =
    Some (mkCompensateOrder (Some j) count time).
Proof.
  intros Hc Ht. unfold compensate_of_raw, json_of_compensate, json_Unmarshal, compensate_fields.
  cbn [co_OrderJSON co_RetryCount co_LastRetryTime default].
  repeat (cbv -[dec_int64]; rewrite dec_int64_in by assumption). done.
Qed.

Section Props.
Context {B : Type} `{Hlaws : RocksDBLaws B}.
Implicit Types (cs : package B) (b : B).

(** The loop is the map of the entries that decode. *)
Lemma collect_all l (m : gmap string CompensateOrder) key :
  NoDup l.*1 ->
  foldl collect_step m l !! key =
    match (list_to_map l : gmap string raw) !! key with
    | Some v => match compensate_of_raw v with Some c => Some c | None => m !! key end
    | None => m !! key
    end.
Proof.
  revert m. induction l as [|[k v] l IH]; intros m; csimpl; [by rewrite lookup_empty|].
  intros [Hk Hnd]%NoDup_cons. rewrite IH by done. unfold collect_step. cbn [fst snd].
  destruct (decide (key = k)) as [->|Hne].
  - rewrite lookup_insert_eq. rewrite (not_elem_of_list_to_map_1 (M := gmap string) l k) by done.
    destruct (compensate_of_raw v); [by rewrite lookup_insert_eq|done].
  - rewrite lookup_insert_ne by done. destruct (compensate_of_raw v); [|done].
    by rewrite lookup_insert_ne by done.
Qed.

Lemma get_all_view cs b :
  cs_db cs = Some b -> rdb_iter_err b = None ->
  GetAllOrderCompensates cs = Ok (omap compensate_of_raw (rdb_view b)).
Proof.
  intros Hdb Herr. unfold GetAllOrderCompensates. rewrite Hdb. f_equal. apply map_eq. intros key.
  rewrite collect_all by apply iter_prefix. rewrite lookup_omap, (iter_all b Herr), lookup_empty.
  destruct (rdb_view b !! key) as [v|]; cbn; [|done]. by destruct (compensate_of_raw v).
Qed.

(** An order that was saved is read back with no retry and the time it was saved,
    next to every other order of the store, and is gone once it is deleted. *)
Theorem compensate_roundtrip now orderID j cs cs1 all all1 b1 :
  SaveOrderCompensate now orderID (Ok j) cs = Ok (cs1, None) -> is_i64 now ->
  GetAllOrderCompensates cs = Ok all -> (forall b, cs_db cs = Some b -> rdb_iter_err b = None) ->
  cs_db cs1 = Some b1 -> rdb_iter_err b1 = None -> GetAllOrderCompensates cs1 = Ok all1 ->
  all1 = <[orderID := mkCompensateOrder (Some j) 0 now]> all /\
  forall cs2 b2, DeleteOrderCompensate orderID cs1 = Ok (cs2, None) -> cs_db cs2 = Some b2 ->
    rdb_iter_err b2 = None -> GetAllOrderCompensates cs2 = Ok (delete orderID all).
Proof.
  unfold SaveOrderCompensate, DeleteOrderCompensate, on_db. intros Hs Hnow Hall Herr Hb1 Herr1 Hall1.
  destruct (cs_db cs) as [b|] eqn:Hb; [|done]. destruct (rdb_Put _ _ b) as [b' e] eqn:Hp. simplify_eq/=.
  apply put_stores in Hp. rewrite (get_all_view cs b) in Hall by auto.
  rewrite (get_all_view _ b1) in Hall1 by done. simplify_eq. rewrite Hp.
  assert (Heq : omap compensate_of_raw (<[orderID := Document (json_of_compensate (mkCompensateOrder (Some j) 0 now))]>
      (rdb_view b)) = <[orderID := mkCompensateOrder (Some j) 0 now]> (omap compensate_of_raw (rdb_view b))).
  { erewrite omap_insert_Some; [done|]. by apply compensate_json_id. }
  split; [exact Heq|]. intros cs2 b2 Hd Hb2 Herr2.
  destruct (rdb_Delete orderID b1) as [b'' e] eqn:Hdel. simplify_eq/=. apply delete_removes in Hdel.
  rewrite (get_all_view _ b2) by done. rewrite Hdel, Hp. f_equal.
  by rewrite omap_delete, Heq, delete_insert_eq.
Qed.

(** A failed [Init] is reported once: the next call answers nil although there is no
    store, and the first order to be saved brings the process down. *)
Theorem failed_init_forgotten openDb getenv path path' now orderID j e cs cs1 :
  Init openDb getenv path cs = (cs1, Some e) ->
  Init openDb getenv path' cs1 = (cs1, None) /\
  SaveOrderCompensate now orderID (Ok j) cs1 = Panic /\ GetAllOrderCompensates cs1 = Panic.
Proof.
  unfold Init. destruct (cs_done cs); [done|].
  destruct (openDb _) as [b|err]; intros Hi; by simplify_eq.
Qed.
End Props.

(** ** Witness *)

(** A store that never fails. *)
#[global] Instance gmap_rocksdb : RocksDB (gmap string raw) := {|
  rdb_Put key v b := (<[key := v]> b, None);
  rdb_Delete key b := (delete key b, None);
  rdb_Close b := b;
  rdb_iter b := map_to_list b;
  rdb_iter_err _ := None;
  rdb_view b := b |}.

#[global] Instance gmap_rocksdb_laws : RocksDBLaws (gmap string raw).
Proof.
  split; cbn; intros *; try (by intros [= <-]); try done.
  - split; [apply NoDup_fst_map_to_list|]. by rewrite list_to_map_to_list.
  - intros _. apply list_to_map_to_list.
Qed.

Definition with_garbage : package (gmap string raw) := mkPackage (Some {["x" := Garbage]}) "p" true.

Lemma compensate_roundtrip_witness :
  exists cs1, SaveOrderCompensate 7 "o1" (Ok JNull) with_garbage = Ok (cs1, None) /\
    GetAllOrderCompensates cs1 = Ok {["o1" := mkCompensateOrder (Some JNull) 0 7]}.
Proof.
  eexists. split; [reflexivity|].
  set (cs1 := set_db _ _). destruct (GetAllOrderCompensates cs1) as [all1| |] eqn:H1; [|done|done].
  destruct (compensate_roundtrip 7 "o1" JNull with_garbage cs1 ∅ all1
    (<["o1" := Document (json_of_compensate (mkCompensateOrder (Some JNull) 0 7))]> {["x" := Garbage]})) as [-> _].
  - reflexivity.
  - solve_i64.
  - vm_compute. reflexivity.
  - reflexivity.
  - reflexivity.
  - reflexivity.
  - exact H1.
  - reflexivity.
Defined.
