(* ===== verification/Lifecycle.v ===== *)
(** * Background loops

    Models the goroutines that run beside the servers: Start and Stop of
    src/biz/service/outbox_dispatcher.go, Run and Stop of partition_autoscaler.go, and
    the task of kline_compensate.go.  Starting, stopping and a tick of the loop are
    steps of an interleaving; stopCh of the dispatcher is unbuffered, so a Stop waits
    until the loop receives, and the loop clears [isRunning] in a later step.

    The theorems: there is never more than one dispatch loop and its histories are
    those of the outbox; a Stop in the gap between the receive and the clearing
    blocks, and ends the next loop that is started. *)

From stdpp Require Import base gmap strings list sorting relations.
From Stdlib Require Import ZArith Lia Relation_Operators.
From S2P Require Import Prelude Money Events Database Outbox OutboxProps Orders Kline Partitions PartitionManager KafkaWriters.

Local Open Scope go_scope.
Local Open Scope Z_scope.

(** ** The outbox dispatcher *)

(** [od_kafkaProducer] is the injected sender, if any. *)
Record OutboxDispatcher := mkOutboxDispatcher {
  od_kafkaProducer : option sender;
  od_batchSize : Z;
  od_maxRetries : Z;
  od_isRunning : bool }.

Definition NewOutboxDispatcher (batchSize maxRetries : Z) : OutboxDispatcher :=
  mkOutboxDispatcher None batchSize maxRetries false.

Definition SetKafkaProducer (writer : option sender) (od : OutboxDispatcher) : OutboxDispatcher :=
  mkOutboxDispatcher writer (od_batchSize od) (od_maxRetries od) (od_isRunning od).

Definition set_running (b : bool) (od : OutboxDispatcher) : OutboxDispatcher :=
  mkOutboxDispatcher (od_kafkaProducer od) (od_batchSize od) (od_maxRetries od) b.

(** The sender for a topic: an injected sender that is no writer of kafka-go is used
    for all topics. *)
Definition producer_for (confBrokers : list string) (topic : string) (od : OutboxDispatcher) (k : kafka)
    : outcome (kafka * sender) :=
  match od_kafkaProducer od with
  | Some (OtherSender i) => Ok (k, OtherSender i)
  | _ => GetWriter confBrokers topic k
  end.

(** Where a loop is: at its select, or past the receive from stopCh. *)
Inductive loop := Selecting | Stopping.

#[global] Instance loop_eq : EqDecision loop.
Proof. solve_decision. Defined.

Section Dispatcher.
Context {D K : Type} {HD : Table D OutboxEntry} {HK : KafkaSender K}.

(** [ds_blocked] counts the callers of Stop that wait to send. *)
Record dispatcher := mkDispatcher {
  ds_od : OutboxDispatcher;
  ds_loops : list loop;
  ds_blocked : nat;
  ds_outbox : D * K }.
Implicit Types (ds : dispatcher).

Definition Start ds : dispatcher :=
  if od_isRunning (ds_od ds) then ds
  else mkDispatcher (set_running true (ds_od ds)) (ds_loops ds ++ [Selecting]) (ds_blocked ds) (ds_outbox ds).

(** Up to the send. *)
Definition Stop ds : dispatcher :=
  if od_isRunning (ds_od ds)
  then mkDispatcher (ds_od ds) (ds_loops ds) (S (ds_blocked ds)) (ds_outbox ds)
  else ds.

Inductive dispatcher_step : dispatcher -> dispatcher -> Prop :=
| step_start ds : dispatcher_step ds (Start ds)
| step_stop ds : dispatcher_step ds (Stop ds)
| step_receive od l1 l2 n w :
    dispatcher_step (mkDispatcher od (l1 ++ Selecting :: l2) (S n) w)
                    (mkDispatcher od (l1 ++ Stopping :: l2) n w)
| step_tick topics now od l1 l2 n d k :
    dispatcher_step (mkDispatcher od (l1 ++ Selecting :: l2) n (d, k))
                    (mkDispatcher od (l1 ++ Selecting :: l2) n
                       (dispatchBatch topics (od_batchSize od) now d k))
| step_stopped od l1 l2 n w :
    dispatcher_step (mkDispatcher od (l1 ++ Stopping :: l2) n w)
                    (mkDispatcher (set_running false od) (l1 ++ l2) n w)
| step_outbox od ls n w w' :
    (** other goroutines write entries and clean up *)
    outbox_step w w' -> dispatcher_step (mkDispatcher od ls n w) (mkDispatcher od ls n w').

Definition new_dispatcher (batchSize maxRetries : Z) (w : D * K) : dispatcher :=
  mkDispatcher (NewOutboxDispatcher batchSize maxRetries) [] 0 w.

(** One loop while it is marked running and none otherwise. *)
Definition one_loop ds : Prop := length (ds_loops ds) = (if od_isRunning (ds_od ds) then 1 else 0)%nat.

Lemma dispatcher_step_loops ds ds' : dispatcher_step ds ds' -> one_loop ds -> one_loop ds'.
Proof.
  unfold one_loop. destruct 1; unfold Start, Stop; cbn in *; rewrite ?length_app; cbn; try done.
  - destruct (od_isRunning (ds_od ds)) eqn:Hr; [by rewrite Hr|]. cbn. rewrite length_app. cbn. lia.
  - by destruct (od_isRunning (ds_od ds)) eqn:Hr; cbn; rewrite Hr.
  - destruct (od_isRunning od); lia.
Qed.

Lemma dispatcher_step_outbox ds ds' :
  dispatcher_step ds ds' -> ds_outbox ds' = ds_outbox ds \/ outbox_step (ds_outbox ds) (ds_outbox ds').
Proof.
  destruct 1; cbn; auto.
  - left. unfold Start. by destruct (od_isRunning _).
  - left. unfold Stop. by destruct (od_isRunning _).
  - right. apply step_dispatch.
Qed.

Context {HDL : TableLaws D OutboxEntry} {HKL : SynchronousSender K}.


(** A second Stop, in the gap between the receive and the clearing of the flag, is
    left waiting with no loop to receive; and it ends the next loop that is started,
    before its first batch, although nobody stopped that one. *)
Theorem stale_stop batchSize maxRetries w :
  exists ds, rtc dispatcher_step (new_dispatcher batchSize maxRetries w) ds /\
    ds_loops ds = [] /\ ds_blocked ds = 1%nat /\ od_isRunning (ds_od ds) = false /\
    exists ds', rtc dispatcher_step (Start ds) ds' /\ ds_loops ds' = [] /\ od_isRunning (ds_od ds') = false /\
      ds_outbox ds' = w.
Proof.
  set (od := NewOutboxDispatcher batchSize maxRetries).
  exists (mkDispatcher (set_running false (set_running true od)) [] 1 w). split_and!; try done.
  - eapply rtc_l; [apply step_start|]. cbn. eapply rtc_l; [apply step_stop|]. cbn.
    eapply rtc_l; [apply (step_receive _ [] [])|]. cbn. eapply rtc_l; [apply step_stop|]. cbn.
    eapply rtc_l; [apply (step_stopped _ [] [])|]. apply rtc_refl.
  - eexists. split; [cbn|].
    + eapply rtc_l; [apply (step_receive _ [] [])|]. cbn.
      eapply rtc_l; [apply (step_stopped _ [] [])|]. apply rtc_refl.
    + by split_and!.
Qed.
End Dispatcher.
Arguments dispatcher D K : clear implicits.

(** ** The autoscaler *)

Section AutoScaler.
Context {C : Type} {HC : TableKV C}.

(** A second Stop closes a closed channel. *)
Record PartitionAutoScaler := mkPartitionAutoScaler {
  as_pm : PartitionManager;
  as_metrics : PartitionMetricsProvider;
  as_interval : Z;
  as_stopped : bool }.
Implicit Types (a : PartitionAutoScaler).

Definition NewPartitionAutoScaler (pm : PartitionManager) (metrics : PartitionMetricsProvider) (interval : Z)
    : PartitionAutoScaler := mkPartitionAutoScaler pm metrics interval false.

Definition as_Stop a : outcome PartitionAutoScaler :=
  if as_stopped a then Panic
  else Ok (mkPartitionAutoScaler (as_pm a) (as_metrics a) (as_interval a) true).

(** One pass of Run: what the select takes among the cases that are ready. *)
Inductive run_case := Tick | Done | Stopped.

(** [None] is the return of Run. *)
Definition run_pass (case : run_case) (clock : nat -> string) (hotOrder loadOrder : list string) a (c : C)
    : option (PartitionAutoScaler * C) :=
  match case with
  | Tick => let '(pm, c') := scaleIfNeeded (as_metrics a) clock hotOrder loadOrder (as_pm a) c in
            Some (mkPartitionAutoScaler pm (as_metrics a) (as_interval a) (as_stopped a), c')
  | Done | Stopped => None
  end.

Lemma collected_loads metrics pt s qps :
  (collectLoads metrics pt).2 !! s = Some qps -> qps = GetSymbolQPS (PartitionMetricsProvider := metrics) s.
Proof.
  unfold collectLoads. revert s qps.
  apply (map_fold_weak_ind (fun r _ => forall s qps, r.2 !! s = Some qps -> qps = GetSymbolQPS s)); cbn.
  - intros s qps. by rewrite lookup_empty.
  - intros pid p m [pl sload] _ IH. cbn in *. revert sload IH.
    induction (Symbols p) as [|x l IHl]; intros sload IH s qps; cbn; [apply IH|].
    apply IHl. intros s' q. rewrite lookup_insert_Some. intros [[<- <-]|[_ H]]; [done|by apply IH].
Qed.

(** Loads between the thresholds leave the table as it is. *)
Lemma moderate_rescale metrics clock hotOrder loadOrder pt :
  (forall s, 5 <= GetSymbolQPS (PartitionMetricsProvider := metrics) s <= 800) ->
  rescale metrics clock hotOrder loadOrder pt = None.
Proof.
  intros Hq. unfold rescale. pose proof (collected_loads metrics pt) as Hl.
  destruct (collectLoads metrics pt) as [pl sload]. cbn [snd] in Hl.
  assert (Hhot : forall l, findHotSymbols sload l = []).
  { intros l. unfold findHotSymbols. induction l as [|s l IH]; cbn; [done|]. rewrite IH.
    destruct (Z.ltb_spec 800 (load_of sload s)) as [Hlt|]; [|done]. unfold load_of in Hlt.
    destruct (sload !! s) as [q|] eqn:Hs; cbn in Hlt; [|lia]. apply Hl in Hs as ->. specialize (Hq s). lia. }
  assert (Hsplit : forall order st, foldl (fun st pid => split_partition scaling_wlp clock sload pid st) st order = st).
  { induction order as [|pid order IH]; intros [[pt0 n] b]; cbn; [done|].
    destruct (Partitions pt0 !! pid); [by rewrite Hhot, IH|apply IH]. }
  unfold splitHotSymbols. rewrite Hsplit. unfold mergeColdSymbols.
  assert (Hcold : coldSymbols sload loadOrder = []).
  { unfold coldSymbols. induction loadOrder as [|s l IH]; cbn; [done|]. rewrite IH.
    destruct (sload !! s) as [q|] eqn:Hs; [|done]. apply Hl in Hs as ->. specialize (Hq s).
    by destruct (Z.ltb_spec (GetSymbolQPS s) 5); [lia|]. }
  by rewrite Hcold.
Qed.

(** The autoscaler as the program starts it, with constant metrics, never changes
    the manager or what Consul holds, whatever the table. *)
Theorem started_autoscaler_inert clock hotOrder loadOrder pm interval (c : C) :
  let a := NewPartitionAutoScaler pm MockPartitionMetrics interval in
  run_pass Tick clock hotOrder loadOrder a c = Some (a, c).
Proof.
  cbn. unfold scaleIfNeeded. destruct (GetPartitionTable pm) as [pt|]; [|done].
  rewrite moderate_rescale; [done|]. intros s. cbn. lia.
Qed.
End AutoScaler.

(** ** The K-line task *)

Section KlineTask.
Context {Dt Dk : Type} {HT : Table Dt Trade} {HK : Table Dk Kline}.
Context (sort : list Trade -> list Trade).

(** What the Consul client answers: LockOpts with an error or a lock, Lock with an
    error or with a channel, which is nil if the lock is held by another. *)
Record lock_answers := mkLockAnswers {
  la_opts : option error;
  la_lock : outcome bool }.

(** [Ok true] is a lock; a failed Lock is no error. *)
Definition acquireConsulLock (la : lock_answers) : outcome bool :=
  match la_opts la with
  | Some e => Err e
  | None => match la_lock la with
            | Ok held => Ok held
            | Err _ => Ok false
            | Panic => Panic
            end
  end.

(** One tick; the second component counts the unlocks. *)
Definition kline_tick (now : Z) (la : lock_answers) (tables : option (Dt * Dk)) (unlocked : nat)
    : outcome (option (Dt * Dk) * nat) :=
  match acquireConsulLock la with
  | Panic => Panic
  | Err _ | Ok false => Ok (tables, unlocked)
  | Ok true => let? r := CompensateKline sort now tables in Ok (r.1, S unlocked)
  end.

(** Without the lock a tick touches nothing; with it, it is a compensation and the
    lock is released, also when the compensation reports an error. *)
Theorem kline_tick_locked now la tables unlocked tables' n :
  kline_tick now la tables unlocked = Ok (tables', n) ->
  (acquireConsulLock la = Ok true /\ n = S unlocked /\
     exists err, CompensateKline sort now tables = Ok (tables', err)) \/
  (acquireConsulLock la <> Ok true /\ n = unlocked /\ tables' = tables).
Proof.
  unfold kline_tick. destruct (acquireConsulLock la) as [[|]| |].
  - destruct (CompensateKline sort now tables) as [[t err]| |]; cbn; [|done|done].
    intros [= <- <-]. left. eauto.
  - intros [= <- <-]. by right.
  - intros [= <- <-]. by right.
  - done.
Qed.
End KlineTask.

(** ** Witness *)

#[local] Instance lc_ops : Table (ListTable OutboxEntry) OutboxEntry := ListTable_ops oe_same.
#[local] Instance lc_laws : TableLaws (ListTable OutboxEntry) OutboxEntry := ListTable_laws _.

(** Started, given an entry, one tick and stopped. *)
Definition after_tick : ListTable OutboxEntry * MemKafka := dispatchBatch [] 10 6 one_trade (mkMemKafka []).

