(* ===== verification/Boot.v ===== *)
(** * The process from configuration to service

    Models src/conf/conf.go (the choice and the loading of the configuration),
    src/biz/dal/init.go with pg/init.go and redis/init.go (the clients), NewPartitionManager
    of partition_manager.go and src/main.go: main with initConsul, initBusiness,
    startBackgroundTasks, registerMiddleware and registerRoutes, one after the other on
    the state of the process.  A call of os.Exit through Fatal is [Err], a panic
    [Panic]; what files, databases, brokers and Consul answer are arguments.

    The theorems show what is in place when the servers start, and the starts that
    crash. *)

From stdpp Require Import base gmap strings list sorting pretty relations.
From Stdlib Require Import ZArith Lia.
From S2P Require Import Prelude Money Events Database Sequencer SkipList OrderBook EventLog Checkpoint Pipeline MatchEngine Lock Recovery Ownership Outbox Positions NodeId Partitions PartitionManager Orders WsProcessor Startup Parts Node KafkaWriters Compensate Lifecycle.

Local Open Scope go_scope.
Local Open Scope Z_scope.

(** ** conf.go *)

Record RedisConf := mkRedisConf {
  rc_Address : string; rc_Password : string; rc_Username : string; rc_DB : Z }.
Record KafkaConf := mkKafkaConf { kf_Brokers : list string; kf_Topics : gmap string string }.
Record RegistryConf := mkRegistryConf {
  rg_RegistryAddress : list string; rg_Username : string; rg_Password : string }.
Record MatchEngineConf := mkMatchEngineConf {
  mc_NodeID : string; mc_Matchsymbols : string; mc_MatchPort : Z }.
Record HertzConf := mkHertzConf {
  hz_Service : string; hz_Address : string;
  hz_EnablePprof : bool; hz_EnableGzip : bool; hz_EnableAccessLog : bool;
  hz_LogLevel : string; hz_LogFileName : string;
  hz_LogMaxSize : Z; hz_LogMaxBackups : Z; hz_LogMaxAge : Z;
  hz_RegistryAddr : string; hz_MetricsPort : string; hz_WsPort : string }.
Record RecoveryConf := mkRecoveryConf {
  rv_EnableAutoRecovery : bool; rv_RecoveryTimeout : Z; rv_Strategy : string;
  rv_ValidateAfterRecovery : bool; rv_CheckpointRetentionDays : Z; rv_MaxRetries : Z }.

Record Config := mkConfig {
  cf_Env : string;
  cf_Hertz : HertzConf;
  cf_MySQL : string;
  cf_Redis : RedisConf;
  cf_Postgres : string;
  cf_Kafka : KafkaConf;
  cf_MatchEngine : MatchEngineConf;
  cf_Registry : RegistryConf;
  cf_Recovery : RecoveryConf }.

Definition set_env (env : string) (c : Config) : Config :=
  mkConfig env (cf_Hertz c) (cf_MySQL c) (cf_Redis c) (cf_Postgres c) (cf_Kafka c) (cf_MatchEngine c)
    (cf_Registry c) (cf_Recovery c).

Definition conf_env (getenv : string -> string) : string :=
  if getenv "GO_ENV" =s "" then "test" else getenv "GO_ENV".

Definition conf_paths (env : string) : list string :=
  ["conf/" +:+ env; "../conf/" +:+ env; "../../conf/" +:+ env].

(** [viper] is what reading conf.yaml from the first of the directories that has one
    and decoding it give. *)
Definition initConf (getenv : string -> string) (viper : list string -> Config + error) : outcome Config :=
  let env := conf_env getenv in
  match viper (conf_paths env) with
  | inr _ => Panic
  | inl c => Ok (set_env env c)
  end.

(** The package variables [conf] and [once]. *)
Record conf_vars := mkConfVars { cv_conf : option Config; cv_done : bool }.

(** The body of the once runs once, also if it panics; later calls return the
    variable, nil or not. *)
Definition GetConf (getenv : string -> string) (viper : list string -> Config + error) (cv : conf_vars)
    : conf_vars * outcome (option Config) :=
  if cv_done cv then (cv, Ok (cv_conf cv))
  else match initConf getenv viper with
       | Ok c => (mkConfVars (Some c) true, Ok (Some c))
       | Err e => (mkConfVars None true, Err e)
       | Panic => (mkConfVars None true, Panic)
       end.

(** A configuration that cannot be read panics on the first call and is a nil
    pointer from the second on. *)
Lemma failed_conf_is_nil getenv viper e cv :
  viper (conf_paths (conf_env getenv)) = inr e -> cv_done cv = false ->
  (GetConf getenv viper cv).2 = Panic /\ (GetConf getenv viper (GetConf getenv viper cv).1).2 = Ok None.
Proof. intros Hv Hd. unfold GetConf at 1 3. rewrite Hd. unfold initConf. by rewrite Hv. Qed.

(** ** util.go: order IDs *)

Section Flake.
Context {S : Type} (newSonyflake : option S) (NextID : S -> S * (Z + error)).

(** sonyflake.NewSonyflake answers nil if the machine has no private address. *)
Record flake_vars := mkFlakeVars { fv_flake : option S; fv_done : bool }.

Definition InitSonyFlake (fv : flake_vars) : flake_vars :=
  if fv_done fv then fv else mkFlakeVars newSonyflake true.

Definition GenerateOrderID (fv : flake_vars) : outcome (flake_vars * (Z + error)) :=
  let fv := match fv_flake fv with Some _ => fv | None => InitSonyFlake fv end in
  match fv_flake fv with
  | None => Panic
  | Some s => let '(s', r) := NextID s in Ok (mkFlakeVars (Some s') (fv_done fv), r)
  end.

(** Without a generator every call panics. *)
Lemma no_flake_panics : newSonyflake = None -> GenerateOrderID (mkFlakeVars None false) = Panic.
Proof. intros H. unfold GenerateOrderID, InitSonyFlake. cbn. by rewrite H. Qed.
End Flake.

(** ** The clients *)

Definition table_models : list string :=
  ["orders"; "trades"; "event_offset_checkpoints"; "outbox"; "processed_trades"; "positions"].

(** What the services answer. *)
Record answers (B : Type) := mkAnswers {
  an_pool : option error;
  an_ping : option error;
  an_gorm : option error;
  an_migrate : option error;
  an_redis_ping : option error;
  an_dial : string -> option error;
  an_open : string -> B + error }.
Arguments mkAnswers {B}.
Arguments an_pool {B}.
Arguments an_ping {B}.
Arguments an_gorm {B}.
Arguments an_migrate {B}.
Arguments an_redis_ping {B}.
Arguments an_dial {B}.
Arguments an_open {B}.

Section Dal.
Context {B : Type} {HB : RocksDB B}.

(** The package variables of the clients; [cl_tables] are the tables that AutoMigrate
    has created. *)
Record clients := mkClients {
  cl_pool : bool;
  cl_gorm : bool;
  cl_tables : list string;
  cl_redis : option RedisConf;
  cl_kafka : kafka;
  cl_rocks : package B }.
Implicit Types (cl : clients).

Definition no_clients : clients := mkClients false false [] None no_writers fresh_package.

Definition ErrInvalidDB : error := "invalid db".

Definition InitGorm (an : answers B) cl : clients * option error :=
  match an_gorm an with
  | Some e => (cl, Some e)
  | None => (mkClients (cl_pool cl) true (cl_tables cl) (cl_redis cl) (cl_kafka cl) (cl_rocks cl), None)
  end.

(** The errors of the two statements that follow the migration are dropped. *)
Definition AutoMigrate (an : answers B) cl : clients * option error :=
  if negb (cl_gorm cl) then (cl, Some ErrInvalidDB)
  else match an_migrate an with
       | Some e => (cl, Some e)
       | None => (mkClients (cl_pool cl) (cl_gorm cl) (cl_tables cl ++ table_models) (cl_redis cl) (cl_kafka cl)
                    (cl_rocks cl), None)
       end.

Definition InitTradeTable (an : answers B) cl : clients * option error :=
  if negb (cl_gorm cl) then (cl, Some ErrInvalidDB)
  else match an_migrate an with
       | Some e => (cl, Some e)
       | None => (mkClients (cl_pool cl) (cl_gorm cl) (cl_tables cl ++ ["trades"]) (cl_redis cl) (cl_kafka cl)
                    (cl_rocks cl), None)
       end.

Definition GetPool cl : outcome unit := if cl_pool cl then Ok () else Panic.

Definition pg_Init (an : answers B) cl : outcome clients :=
  match an_pool an, an_ping an with
  | None, None =>
      let cl := mkClients true (cl_gorm cl) (cl_tables cl) (cl_redis cl) (cl_kafka cl) (cl_rocks cl) in
      match InitGorm an cl with
      | (_, Some _) => Panic
      | (cl, None) => match AutoMigrate an cl with
                      | (_, Some _) => Panic
                      | (cl, None) => Ok cl
                      end
      end
  | _, _ => Panic
  end.

Definition redis_Init (an : answers B) (cfg : Config) cl : outcome clients :=
  let cl := mkClients (cl_pool cl) (cl_gorm cl) (cl_tables cl) (Some (cf_Redis cfg)) (cl_kafka cl) (cl_rocks cl) in
  match an_redis_ping an with Some _ => Panic | None => Ok cl end.

(** [topics] enumerates the values of the configured map.  The error of
    rocksdb.Init is dropped. *)
Definition dal_Init (an : answers B) (getenv : string -> string) (cfg : Config) (topics : list string) cl
    : outcome clients :=
  let? cl := pg_Init an cl in
  let? cl := redis_Init an cfg cl in
  let? k := kafka_Init (an_dial an) (kf_Brokers (cf_Kafka cfg)) topics (cl_kafka cl) in
  let rocks := (Init (an_open an) getenv "" (cl_rocks cl)).1 in
  Ok (mkClients (cl_pool cl) (cl_gorm cl) (cl_tables cl) (cl_redis cl) k rocks).
End Dal.
Arguments clients B : clear implicits.

(** ** NewPartitionManager *)

(** What a Consul address answers: the client, its agent, the leader of the cluster. *)
Record consul_answers := mkConsulAnswers {
  ca_client : option error;
  ca_self : option error;
  ca_leader : string + error }.

(** The client is known by its address; both results may be nil. *)
Fixpoint connect (consul : string -> consul_answers) (addrs : list string) (lastErr : option error)
    : option (string * PartitionManager) * option error :=
  match addrs with
  | [] => (None, lastErr)
  | addr :: rest =>
      match ca_client (consul addr) with
      | Some e => connect consul rest (Some e)
      | None =>
          match ca_self (consul addr) with
          | Some e => connect consul rest (Some e)
          | None =>
              match ca_leader (consul addr) with
              | inl leader => if leader =s "" then connect consul rest None
                              else (Some (addr, connected_manager), None)
              | inr e => connect consul rest (Some e)
              end
          end
      end
  end.

Definition NewPartitionManager (consul : string -> consul_answers) (consulAddrs : list string)
    : option (string * PartitionManager) * option error :=
  connect consul consulAddrs None.

(** ** Routes and middleware *)

Inductive endpoint :=
| EPing | ESubmitOrder | EGetOrder | EListOrders | ECancelOrder | EGetBalance | EGetPositions
| EGetDepth | EGetTrades | EGetTicker | EGetKline.

Inductive method := GET | POST.

Record route := mkRoute { rt_method : method; rt_path : string; rt_endpoint : endpoint }.

#[global] Instance method_eq : EqDecision method.
Proof. solve_decision. Defined.

(** [Group]: the routes of a group have its prefix. *)
Definition group (prefix : string) (l : list route) : list route :=
  (fun r => mkRoute (rt_method r) (prefix +:+ rt_path r) (rt_endpoint r)) <$> l.

Definition registerRoutes : list route :=
  mkRoute GET "/ping" EPing ::
  group "/api"
    [mkRoute POST "/order" ESubmitOrder; mkRoute GET "/order/:id" EGetOrder;
     mkRoute GET "/orders" EListOrders; mkRoute POST "/order/cancel" ECancelOrder;
     mkRoute GET "/balance" EGetBalance; mkRoute GET "/positions" EGetPositions;
     mkRoute GET "/depth" EGetDepth; mkRoute GET "/trades" EGetTrades;
     mkRoute GET "/ticker" EGetTicker; mkRoute GET "/kline" EGetKline].

(** The routes of router.go, which main does not call. *)
Definition customizedRegister : list route :=
  mkRoute GET "/ping" EPing :: group "/api" [mkRoute POST "/order" ESubmitOrder].

Definition Ping : Z * json := (200, JObj [("message", JStr "pong")]).

Inductive middleware := Pprof | Gzip | AccessLog | RecoveryMw | Cors.

(** The level and, in order, what is registered; [middleware.Register] adds nothing. *)
Definition registerMiddleware (hz : HertzConf) : Level * list middleware :=
  (LogLevel (hz_LogLevel hz),
   (if hz_EnablePprof hz then [Pprof] else []) ++ (if hz_EnableGzip hz then [Gzip] else []) ++
   (if hz_EnableAccessLog hz then [AccessLog] else []) ++ [RecoveryMw; Cors]).

(** ** main *)

Section Main.
Context {sl : Type -> Type} {Hsl : SkipList sl}.
Context {L D R B C K : Type} {HL : EventStore L} {HD : Table D EventOffsetCheckpoint} {HR : Redsync R}
        {HB : RocksDB B} {HC : Consul C} {HK : TableKV K}.
Context {Do Dt DP DO DT : Type} {To : Table Do Order} {Tt : Table Dt Trade} {Tp : Table DP Position}
        {Tx : Table DO OutboxEntry} {Tr : Table DT ProcessedTrade}.
Context (commit : store DP DO DT -> option error) (fresh_id : DP -> Z)
        (clock : MatchingEngineEvent -> world Do Dt DP DO DT -> Z).
Abbreviation W := (world Do Dt DP DO DT).
Abbreviation aware := (PartitionAwareMatchEngine (sl := sl) (L := L) (D := D) (W := W)).

(** The surroundings of a process. *)
Record surroundings := mkSurroundings {
  su_now : Z;
  su_getenv : string -> string;
  su_hostname : outcome string;
  su_addrs : outcome (list (option ip_net));
  su_viper : list string -> Config + error;
  su_topics : gmap string string -> list string;
  su_answers : answers B;
  su_client : option error;
  su_consul : string -> consul_answers;
  su_kv : K;
  su_registry : C;
  su_migrate : option error;
  su_log : Sequencer -> L;
  su_checkpoints : D;
  su_tables : Do * Dt;
  su_positions : store DP DO DT }.
Implicit Types (su : surroundings).

(** The consul client of the server: the first address; none is out of range. *)
Definition initConsul su (cfg : Config) : outcome string :=
  match rg_RegistryAddress (cf_Registry cfg) with
  | [] => Panic
  | addr :: _ => match su_client su with Some e => Err e | None => Ok addr end
  end.

(** The HTTP server as it is registered: its address, its service and weight, and the
    seconds it waits for requests on exit. *)
Record hertz_server := mkHertzServer {
  hs_addr : string; hs_service : string; hs_weight : Z; hs_exitWait : Z }.

Definition initHertzServer (cfg : Config) : hertz_server :=
  mkHertzServer (hz_Address (cf_Hertz cfg)) (hz_Service (cf_Hertz cfg)) 10 10.

(** The server's address, the manager, the address of the node, the engine. *)
Definition initBusiness su (cfg : Config) (db : bool) : outcome (string * PartitionManager * string * aware) :=
  let hsPort := ws_address (hz_WsPort (cf_Hertz cfg)) in
  match NewPartitionManager (su_consul su) (rg_RegistryAddress (cf_Registry cfg)) with
  | (_, Some e) => Err e
  | (None, None) => Panic
  | (Some (_, pm), None) =>
      let? loaded := LoadFromConsul (su_kv su) pm in
      match loaded with
      | (_, Some e) => Err e
      | (pm, None) =>
          match SetupCoordinators (Some pm) db (su_migrate su) false with
          | (_, _, Some e) => Err e
          | (pm', _, None) =>
              let pm := default pm pm' in
              let nodeIdentity := getNodeIdentity (su_getenv su) (su_hostname su) (su_addrs su) in
              let localAddr := local_address nodeIdentity (mc_MatchPort (cf_MatchEngine cfg)) in
              let? pa := (NewPartitionAwareMatchEngine commit fresh_id (su_now su) clock (su_log su)
                            (su_checkpoints su) (su_tables su) (su_positions su) pm localAddr true true
                            (su_registry su)).2 in
              Ok (hsPort, pm, localAddr, pa)
          end
      end
  end.

(** The process when its servers are about to run. *)
Record process := mkProcess {
  pr_conf : Config;
  pr_clients : clients B;
  pr_consul : string;
  pr_server : hertz_server;
  pr_wsAddr : string;
  pr_localAddr : string;
  pr_engine : aware;
  pr_wsEngine : bool;
  pr_globalEngine : bool;
  pr_pusher : bool;
  pr_dispatcher : OutboxDispatcher;
  pr_recovery : option (RecoveryResult + error);
  pr_klineTask : bool;
  pr_scaler : PartitionAutoScaler;
  pr_level : Level;
  pr_middleware : list middleware;
  pr_routes : list route }.

Section Run.
Context (schedule : list (EventProcessor W) -> list (EventProcessor W))
        (enum : gmap string EventOffsetCheckpoint -> list string)
        (md5hex fmt_book : string -> string) (expired : nat -> nat -> bool)
        (order : list (nat * recoveryItem) -> list (nat * recoveryItem)).

(** The recovery, if it is enabled: an error is only logged. *)
Definition recover_at_start su (cfg : Config) (pa : aware) : outcome (aware * option (RecoveryResult + error)) :=
  if rv_EnableAutoRecovery (cf_Recovery cfg) then
    let? r := initRecovery (R := R) (su_now su) schedule enum md5hex fmt_book expired order
                (rv_ValidateAfterRecovery (cf_Recovery cfg)) (rv_MaxRetries (cf_Recovery cfg)) (Some pa) in
    Ok (default pa r.1, Some r.2)
  else Ok (pa, None).

(** Nanoseconds in a minute. *)
Definition Minute : Z := 60000000000.

Definition startBackgroundTasks (pm : PartitionManager) : bool * PartitionAutoScaler :=
  (true, NewPartitionAutoScaler pm MockPartitionMetrics Minute).

(** Start of a dispatcher that does not run: it is marked running. *)
Definition main su : outcome process :=
  let? cfg := initConf (su_getenv su) (su_viper su) in
  let? cl := dal_Init (su_answers su) (su_getenv su) cfg (su_topics su (kf_Topics (cf_Kafka cfg))) no_clients in
  let? consulClient := initConsul su cfg in
  let? business := initBusiness su cfg (cl_gorm cl) in
  let '(wsAddr, pm, localAddr, pa) := business in
  let dispatcher := set_running true (NewOutboxDispatcher 10 (rv_MaxRetries (cf_Recovery cfg))) in
  let? recovered := recover_at_start su cfg pa in
  let '(pa, recovery) := recovered in
  let '(klineTask, scaler) := startBackgroundTasks pm in
  let '(level, mw) := registerMiddleware (cf_Hertz cfg) in
  Ok (mkProcess cfg cl consulClient (initHertzServer cfg) wsAddr localAddr pa true true true dispatcher recovery klineTask scaler
        level mw registerRoutes).
End Run.
End Main.
