(* ===== verification/BootProps.v ===== *)
(** * Properties of the start of a process

    What is in place when the servers run, and what a process that has started can
    do: its clients, tables and writers, its partition table, its background loops;
    and the starts and the first order that bring it down. *)

From stdpp Require Import base gmap strings list sorting pretty relations.
From Stdlib Require Import ZArith Lia.
From S2P Require Import Prelude Money Events Database Sequencer SkipList OrderBook BookProps EventLog Checkpoint Pipeline MatchEngine MatchEngineProps Lock Recovery RecoveryProps Ownership Outbox Positions PositionsProps NodeId NodeIdProps Partitions PartitionManager Orders OrdersProps WsProcessor Startup Parts Node NodeProps KafkaWriters Compensate Lifecycle Boot.

Local Open Scope go_scope.
Local Open Scope Z_scope.

(** ** Consul *)

(** An address that cannot be used. *)
Definition unusable (ca : consul_answers) : Prop :=
  ca_client ca <> None \/ ca_self ca <> None \/ (exists e, ca_leader ca = inr e) \/ ca_leader ca = inl "".

(** An address whose cluster has no leader, and nothing else wrong with it. *)
Definition leaderless (ca : consul_answers) : Prop :=
  ca_client ca = None /\ ca_self ca = None /\ ca_leader ca = inl "".

(** What an address leaves in lastErr; [None] outside is success. *)
Definition attempt (ca : consul_answers) : option (option error) :=
  match ca_client ca, ca_self ca, ca_leader ca with
  | Some e, _, _ => Some (Some e)
  | None, Some e, _ => Some (Some e)
  | None, None, inr e => Some (Some e)
  | None, None, inl leader => if leader =s "" then Some None else None
  end.

Lemma connect_cons consul addr rest lastErr :
  connect consul (addr :: rest) lastErr =
  match attempt (consul addr) with
  | None => (Some (addr, connected_manager), None)
  | Some err => connect consul rest err
  end.
Proof.
  cbn [connect]. unfold attempt.
  destruct (ca_client _); [done|]. destruct (ca_self _); [done|]. destruct (ca_leader _); [by case_bool_decide|done].
Qed.

Lemma attempt_unusable ca : unusable ca <-> attempt ca <> None.
Proof.
  unfold unusable, attempt. destruct (ca_client ca), (ca_self ca), (ca_leader ca) as [leader|e];
    try (case_bool_decide; subst); split; try done; eauto 10.
  intros [?|[?|[[? ?]|?]]]; congruence.
Qed.

Lemma attempt_leaderless ca : leaderless ca <-> attempt ca = Some None.
Proof.
  unfold leaderless, attempt. destruct (ca_client ca), (ca_self ca), (ca_leader ca) as [leader|e];
    try (case_bool_decide; subst); split; try done; intros (? & ? & ?); congruence.
Qed.

Lemma connect_nil consul addrs lastErr :
  connect consul addrs lastErr = (None, None) <->
  (forall addr, addr ∈ addrs -> unusable (consul addr)) /\
  match last addrs with Some addr => leaderless (consul addr) | None => lastErr = None end.
Proof.
  revert lastErr. induction addrs as [|addr addrs IH]; intros lastErr.
  { cbn. split; [intros [= ->]; split; [by intros ? ?%not_elem_of_nil|done]|by intros [_ ->]]. }
  rewrite connect_cons, last_cons. setoid_rewrite elem_of_cons.
  destruct (attempt (consul addr)) as [err|] eqn:Ha.
  - rewrite IH. assert (Hu : unusable (consul addr)) by (apply attempt_unusable; by rewrite Ha).
    destruct (last addrs) as [a|]; [|rewrite attempt_leaderless, Ha]; split; intros [H1 H2]; split; auto;
      try congruence; intros x [->|Hx]; auto.
  - split; [done|]. intros [H1 _]. destruct (proj1 (attempt_unusable (consul addr))); auto.
Qed.

Lemma connect_some consul addrs lastErr addr pm e :
  connect consul addrs lastErr = (Some (addr, pm), e) -> pm = connected_manager.
Proof.
  revert lastErr. induction addrs as [|x l IH]; intros lastErr; [done|].
  rewrite connect_cons. destruct (attempt _); [apply IH|congruence].
Qed.

Section Main.
Context {sl : Type -> Type} {Hsl : SkipList sl}.
Context {L D R B C K : Type} {HL : EventStore L} {HD : Table D EventOffsetCheckpoint} {HR : Redsync R}
        {HB : RocksDB B} {HC : Consul C} {HK : TableKV K}.
Context {Do Dt DP DO DT : Type} {To : Table Do Order} {Tt : Table Dt Trade} {Tp : Table DP Position}
        {Tx : Table DO OutboxEntry} {Tr : Table DT ProcessedTrade}.
Context (commit : store DP DO DT -> option error) (fresh_id : DP -> Z)
        (clock : MatchingEngineEvent -> world Do Dt DP DO DT -> Z).
Abbreviation W := (world Do Dt DP DO DT).
Abbreviation aware := (PartitionAwareMatchEngine (sl := sl) (L := L) (D := D) (W := W)).
Abbreviation surroundings :=
  (Boot.surroundings (L := L) (D := D) (B := B) (C := C) (K := K) (Do := Do) (Dt := Dt) (DP := DP) (DO := DO) (DT := DT)).
Implicit Types (su : surroundings).
Context (schedule : list (EventProcessor W) -> list (EventProcessor W))
        (enum : gmap string EventOffsetCheckpoint -> list string)
        (md5hex fmt_book : string -> string) (expired : nat -> nat -> bool)
        (order : list (nat * recoveryItem) -> list (nat * recoveryItem)).

Abbreviation main := (Boot.main (sl := sl) (R := R) commit fresh_id clock schedule enum md5hex fmt_book expired order).

(** Connecting to Consul answers nil twice exactly if no address can be used and the
    last one only lacks a leader, or there is none; the start then dereferences the
    nil manager instead of reporting an error. *)
Theorem leaderless_start_panics su cfg db :
  (forall addr, addr ∈ rg_RegistryAddress (cf_Registry cfg) -> unusable (su_consul su addr)) ->
  (forall addr, last (rg_RegistryAddress (cf_Registry cfg)) = Some addr -> leaderless (su_consul su addr)) ->
  NewPartitionManager (su_consul su) (rg_RegistryAddress (cf_Registry cfg)) = (None, None) /\
  initBusiness (sl := sl) commit fresh_id clock su cfg db = Panic.
Proof.
  intros Hall Hlast.
  assert (Hn : NewPartitionManager (su_consul su) (rg_RegistryAddress (cf_Registry cfg)) = (None, None)).
  { apply connect_nil. split; [done|]. destruct (last _) as [addr|]; auto. }
  split; [done|]. unfold initBusiness. by rewrite Hn.
Qed.

(** ** A process that has started *)

Lemma init_writers_all brokers topics k k' :
  InitWriters brokers topics k = Ok k' ->
  (forall t s, k_writers k !! t = Some s -> k_writers k' !! t = Some s) /\
  forall t, t ∈ topics -> is_Some (k_writers k' !! t).
Proof.
  revert k. induction topics as [|t topics IH]; intros k; cbn [InitWriters].
  { intros [= <-]. split; [done|]. by intros ? ?%not_elem_of_nil. }
  destruct (GetWriter brokers t k) as [[k1 s]| |] eqn:Hg; cbn [obind fst]; [|done|done].
  intros [Hk Ht]%IH.
  assert (H1 : (forall t' s', k_writers k !! t' = Some s' -> k_writers k1 !! t' = Some s') /\
               k_writers k1 !! t = Some s).
  { revert Hg. unfold GetWriter. destruct (k_writers k !! t) as [s0|] eqn:Hs.
    - intros [= <- <-]. done.
    - destruct (_ =? 0)%nat; [done|]. intros [= <- <-]. cbn. split; [|by rewrite lookup_insert_eq].
      intros t' s' H'. rewrite lookup_insert_ne; [done|]. intros ->. by rewrite Hs in H'. }
  destruct H1 as [H1 H2]. split; [eauto|]. intros t' [->|Hin]%elem_of_cons; [|auto]. exists s. auto.
Qed.

(** The clients after [dal_Init]. *)
Record clients_ready (cfg : Config) (topics : list string) (cl : clients B) : Prop := {
  cr_pool : cl_pool cl = true;
  cr_gorm : cl_gorm cl = true;
  cr_tables : cl_tables cl = table_models;
  cr_redis : cl_redis cl = Some (cf_Redis cfg);
  cr_brokers : kf_Brokers (cf_Kafka cfg) <> [];
  cr_writers t : t ∈ topics -> is_Some (k_writers (cl_kafka cl) !! t) }.

Lemma dal_init_ready an getenv cfg topics cl :
  dal_Init an getenv cfg topics no_clients = Ok cl -> clients_ready cfg topics cl.
Proof.
  unfold dal_Init, pg_Init, redis_Init, InitGorm, AutoMigrate, kafka_Init, TestKafkaConnection.
  destruct (an_pool an), (an_ping an), (an_gorm an); cbn; try done.
  destruct (an_migrate an); cbn; [done|]. destruct (an_redis_ping an); cbn; [done|].
  destruct (kf_Brokers (cf_Kafka cfg)) as [|b brokers] eqn:Hb; cbn; [done|].
  destruct (an_dial an b); cbn; [done|].
  destruct (InitWriters (b :: brokers) topics no_writers) as [k| |] eqn:Hw; cbn; [|done|done].
  intros [= <-]. apply init_writers_all in Hw as [_ Hw]. split; cbn; auto; by rewrite Hb.
Qed.

(** The recovery at start leaves the engine as it was built. *)
Lemma start_keeps_engine su cfg (pa pa' : aware) r :
  recover_at_start (R := R) schedule enum md5hex fmt_book expired order su cfg pa = Ok (pa', r) ->
  (forall l, order l ≡ₚ l) -> pa' = pa.
Proof.
  unfold recover_at_start. destruct (rv_EnableAutoRecovery _); [|by intros [= <- _]].
  unfold initRecovery. intros H Hord.
  set (opts := start_options _ _) in *. set (re := NewRecoveryExecutor _ _) in *.
  destruct (getPendingRecoveryList (su_now su) opts (re_pipeline re)) as [items|e|] eqn:Hp.
  - destruct items as [|item items].
    + unfold ExecuteRecovery in H. cbn in H. cbn in Hp. rewrite Hp in H. cbn in H. injection H as <- _.
      by destruct pa as [[]].
    + erewrite recovery_crashes_without_lock in H; [done|done|done|exact Hp|done|done].
  - unfold ExecuteRecovery in H. cbn in H, Hp. rewrite Hp in H. cbn in H. injection H as <- _.
    by destruct pa as [[]].
  - unfold ExecuteRecovery in H. cbn in H, Hp. rewrite Hp in H. done.
Qed.

(** The engine [initBusiness] returns and the manager it has. *)
Definition built_by su (pm : PartitionManager) (localAddr : string) (pa : aware) : Prop :=
  (NewPartitionAwareMatchEngine (sl := sl) commit fresh_id (su_now su) clock (su_log su)
     (su_checkpoints su) (su_tables su) (su_positions su) pm localAddr true true (su_registry su)).2 = Ok pa.

Lemma load_keeps_table k pm pm' e :
  LoadFromConsul (K := K) k pm = Ok (pm', e) -> is_Some (pm_cache pm) -> is_Some (pm_cache pm').
Proof. unfold LoadFromConsul. intros H Hs. repeat case_match; simplify_eq/=; eauto. Qed.

Lemma business_built su cfg db wsAddr pm localAddr pa :
  initBusiness (sl := sl) commit fresh_id clock su cfg db = Ok (wsAddr, pm, localAddr, pa) ->
  wsAddr = ws_address (hz_WsPort (cf_Hertz cfg)) /\
  localAddr = local_address (getNodeIdentity (su_getenv su) (su_hostname su) (su_addrs su))
                (mc_MatchPort (cf_MatchEngine cfg)) /\
  is_Some (pm_cache pm) /\ built_by su pm localAddr pa.
Proof.
  unfold initBusiness, built_by, NewPartitionManager.
  destruct (connect _ _ _) as [[[addr pm0]|] [e|]] eqn:Hc; try done.
  apply connect_some in Hc as ->. destruct (LoadFromConsul _ _) as [[pm1 [e|]]| |] eqn:Hl; cbn [obind]; try done.
  apply load_keeps_table in Hl; [|by eexists]. destruct (SetupCoordinators _ _ _ _) as [[pm' dc] [e|]] eqn:Hset; [done|].
  set (pm2 := default pm1 pm'). assert (Hpm2 : is_Some (pm_cache pm2)).
  { unfold SetupCoordinators in Hset. unfold pm2. destruct (negb db); [by simplify_eq|].
    destruct (su_migrate su); by simplify_eq. }
  set (built := NewPartitionAwareMatchEngine _ _ _ _ _ _ _ _ _ _ _ _ _) in *.
  destruct (built.2) as [pa1| |] eqn:Hb; cbn [obind]; try done. intros [= <- <- <- <-]. done.
Qed.

Lemma main_parts su p :
  main su = Ok p ->
  exists cfg cl pm pa,
    initConf (su_getenv su) (su_viper su) = Ok cfg /\
    dal_Init (su_answers su) (su_getenv su) cfg (su_topics su (kf_Topics (cf_Kafka cfg))) no_clients = Ok cl /\
    initBusiness (sl := sl) commit fresh_id clock su cfg (cl_gorm cl) = Ok (pr_wsAddr p, pm, pr_localAddr p, pa) /\
    recover_at_start (R := R) schedule enum md5hex fmt_book expired order su cfg pa = Ok (pr_engine p, pr_recovery p) /\
    pr_conf p = cfg /\ pr_clients p = cl /\ pr_scaler p = NewPartitionAutoScaler pm MockPartitionMetrics Minute /\
    od_isRunning (pr_dispatcher p) = true.
Proof.
  unfold Boot.main. destruct (initConf _ _) as [cfg| |] eqn:Hcfg; cbn [obind]; [|done|done].
  destruct (dal_Init _ _ _ _ _) as [cl| |] eqn:Hcl; cbn [obind]; [|done|done].
  destruct (initConsul su cfg) as [addr| |]; cbn [obind]; [|done|done].
  destruct (initBusiness _ _ _ _ _ _) as [[[[ws pm] la] pa]| |] eqn:Hb; cbn [obind]; [|done|done].
  destruct (recover_at_start _ _ _ _ _ _ _ _ _) as [[pa' r]| |] eqn:Hr; cbn [obind]; [|done|done].
  intros [= <-]. cbn. exists cfg, cl, pm, pa. done.
Qed.


(** C40: a process that has started cannot take an order: the first valid one for a
    symbol the node watches, logged with success, brings it down, in every scheduling
    of the processors. *)
Theorem started_node_panics su p pa' log' now1 sch enum' nowNano pick o :
  main su = Ok p -> (forall l, order l ≡ₚ l) ->
  pa_engine pa' = pa_engine (pr_engine p) -> so_Symbol o ∈ pa_watchedSymbols pa' ->
  valid_order o = true -> (forall ps, sch ps ≡ₚ ps) ->
  (forall ev, AppendEvent (Some ev) (ep_eventLog (me_pipeline (pa_engine (pr_engine p)))) = (log' ev, None)) ->
  pa_SubmitOrder now1 sch enum' nowNano pick o pa' = Panic.
Proof.
  intros (cfg & cl & pm & pa & _ & _ & Hb & Hr & _)%main_parts Hord Hpa Hw Hv Hsch Happ.
  apply start_keeps_engine in Hr as Heq; [|done]. rewrite Heq in *.
  apply business_built in Hb as (_ & _ & _ & Hb). unfold built_by in Hb.
  destruct (NewPartitionAwareMatchEngine _ _ _ _ _ _ _ _ _ _ _ _ _) as [c' e] eqn:Hn. cbn in Hb. subst e.
  eapply built_engine_panics; eauto.
Qed.
End Main.

(** ** Witnesses *)

#[local] Instance bt_orders : Table (ListTable Order) Order := ListTable_ops same_order.
#[local] Instance bt_trades : Table (ListTable Trade) Trade := ListTable_ops same_trade.
#[local] Instance bt_positions : Table (ListTable Position) Position :=
  ListTable_ops (fun a b => pos_ID a =? pos_ID b).
#[local] Instance bt_outbox : Table (ListTable OutboxEntry) OutboxEntry := ListTable_ops oe_same.
#[local] Instance bt_processed : Table (ListTable ProcessedTrade) ProcessedTrade := ListTable_ops pt_same.
#[local] Instance bt_checkpoints : Table (ListTable EventOffsetCheckpoint) EventOffsetCheckpoint :=
  ListTable_ops (fun a b => cp_same a b).

(** A Consul without a partition table. *)
#[local] Instance bt_kv : TableKV unit := {|
  table_Get _ := Ok (None, 0);
  table_Put _ k := (k, None) |}.

Definition demo_conf : Config :=
  mkConfig "" (mkHertzConf "cex" ":8080" false true false "info" "" 0 0 0 "" "" ":8081") "" (mkRedisConf "r:6379" "" "" 0)
    "dsn" (mkKafkaConf ["localhost:9092"] {["trade" := "cex_trades"]}) (mkMatchEngineConf "" "" 9000)
    (mkRegistryConf ["consul:8500"] "" "") (mkRecoveryConf true 30 "" true 7 3).

Definition demo_surroundings :=
  mkSurroundings (L := Memory.InMemoryEventLog) (D := ListTable EventOffsetCheckpoint) (B := gmap string raw)
    (C := MemConsul) (K := unit) (Do := ListTable Order) (Dt := ListTable Trade) (DP := ListTable Position)
    (DO := ListTable OutboxEntry) (DT := ListTable ProcessedTrade)
    10 (fun v => if v =s "POD_NAME" then "worker-0" else "") (Err "no name") (Ok [])
    (fun paths => if bool_decide (head paths = Some "conf/test") then inl demo_conf else inr "not found")
    (fun m => (map_to_list m).*2) (mkAnswers None None None None None (fun _ => None) (fun _ => inl ∅))
    None (fun _ => mkConsulAnswers None None (inl "10.0.0.1:8300")) () (mkMemConsul []) None
    (fun _ => Memory.NewInMemoryEventLog) (mkListTable []) (mkListTable [], mkListTable []) start.

Definition demo_main :=
  Boot.main (sl := cmp_list) (R := MemLocks) (fun _ => None) next_id (fun _ _ => 100) id (fun _ => []) id id
    (fun _ _ => false) id demo_surroundings.

Lemma demo_main_ok :
  match demo_main with
  | Ok p => (pr_wsAddr p, pr_localAddr p, nodeID (me_sequencer (pa_engine (pr_engine p))))
  | _ => ("", "", -1)
  end = (":8081", "worker-0:9000", 1).
Proof. vm_compute. reflexivity. Qed.


Lemma started_node_panics_witness :
  exists p, demo_main = Ok p /\
    pa_SubmitOrder 0 id (fun _ => []) 0 true bob_sells
      (mkPartitionAware (pa_engine (pr_engine p)) (pa_pm (pr_engine p)) "worker-0:9000" {["BTC"]} None false) = Panic.
Proof.
  pose proof demo_main_ok as Hok. destruct demo_main as [p| |] eqn:Hm; [clear Hok|done|done].
  exists p. split; [reflexivity|]. set (log := ep_eventLog (me_pipeline (pa_engine (pr_engine p)))).
  apply (started_node_panics (fun _ => None) next_id (fun _ _ => 100) id (fun _ => []) id id (fun _ _ => false) id
    demo_surroundings p _ (fun ev => (Memory.AppendEvent (Some ev) log).1) 0 id (fun _ => []) 0 true bob_sells Hm).
  - done.
  - reflexivity.
  - cbn. set_solver.
  - vm_compute. reflexivity.
  - reflexivity.
  - reflexivity.
Defined.

Lemma leaderless_start_panics_witness :
  connect (fun _ => mkConsulAnswers None None (inl "")) ["consul:8500"] None = (None, None) /\
  initBusiness (sl := cmp_list) (fun _ => None) next_id (fun _ _ => 100)
    (mkSurroundings (L := Memory.InMemoryEventLog) (D := ListTable EventOffsetCheckpoint) (B := gmap string raw)
      (C := MemConsul) (K := unit) (Do := ListTable Order) (Dt := ListTable Trade) (DP := ListTable Position)
      (DO := ListTable OutboxEntry) (DT := ListTable ProcessedTrade)
      10 (fun _ => "") (Err "no name") (Ok []) (fun _ => inl demo_conf) (fun m => (map_to_list m).*2)
      (mkAnswers None None None None None (fun _ => None) (fun _ => inl ∅)) None
      (fun _ => mkConsulAnswers None None (inl "")) () (mkMemConsul []) None
      (fun _ => Memory.NewInMemoryEventLog) (mkListTable []) (mkListTable [], mkListTable []) start)
    demo_conf true = Panic.
Proof.
  apply (leaderless_start_panics (sl := cmp_list) (fun _ => None) next_id (fun _ _ => 100)
    (mkSurroundings _ _ _ _ _ _ _ _ _ _ _ _ _ _ _ _) demo_conf true).
  - intros addr _. right. right. by right.
  - intros addr _. by split_and!.
Defined.
